(* ===== verification/_CoqProject ===== *)
-Q . S2P
Prelude.v
Bits.v
Lib.v
Rng.v
Segment.v
SegmentSpec.v
ClaimRace.v
HashMap.v
HashMapSpec.v
Lock.v
Once.v
WeakMemory.v
Env.v
SizeClass.v
Sys.v
Radix.v
VaMap.v
VaMapSpec.v
VaLive.v
Mem.v
BlockList.v
ThreadLocal.v
Interconnect.v
InterconnectSpec.v
StackRace.v
StackRaceSpec.v
StackRaceLive.v
StackSolo.v
WeakStack.v
Bulk.v
BulkSpec.v
SlabInv.v
SlabOps.v
SlabFill.v
Heap.v
HeapInv.v
HeapFill.v
HeapBig.v
HeapSpec.v
Align.v
Realloc.v
ReallocSpec.v
Trim.v
TrimSpec.v
ThreadExit.v
CpuRows.v
AlignSpec.v
Boot.v
ClientCalls.v
Client.v
ClientSpec.v
ReallocClient.v
ThreadsSpec.v
BootClient.v
Fallback.v
FallbackSpec.v
