(* ===== verification/Prelude.v ===== *)
(** * Oxidalloc: a verified model of a thread-caching memory allocator

    Oxidalloc is a [malloc] library: C entry points, a cache of free blocks per thread,
    lists of free blocks per cpu that the threads share, slabs that are cut into
    blocks, big allocations that have pages of their own, a map of the reserved address
    space that both take their pages from, and a background thread that gives pages back.
    The development models all of it but what is listed below, in the order in which
    the parts use one another, for both builds of the crate: [Config] is the default one or
    that of the feature hardened-linked-list.

    ** Conventions

    Definitions keep the names of the source and follow its order.  Machine words are [Z], and
    checked arithmetic ([overflow-checks] is on in every profile) is an operation that panics.
    A function that can fail is in the monad [M] of Lib: [Abort] is a fatal error of the
    allocator ([log_and_abort]), a panic, a wild access, an endless loop or the end of the
    model's fuel.  Memory is a function from addresses to bytes (Mem).  The
    kernel is a class ([Sys.Kernel]: one function, [syscall6]); what Linux documents of it, and nothing
    more, is [Radix.LinuxKernel], and [VaMapSpec.bump_linux] is a kernel that satisfies it.
    Other answers of the outside, such as the cpu a thread runs on and whether a
    compare-and-swap fails spuriously, are arguments ([Bulk.Ambient]).

    ** Files

    - Prelude (this file: automation, lists, words), Bits (words as sets of bits), Lib (errors, the
      monad, lib.rs: constants, header layout, [align_to]).
    - Rng: va/rng.rs.  Segment, SegmentSpec: the bitmap of one segment (va/bitmap.rs,
      [Segment]).  ClaimRace: its [try_claim] as interleaved accesses of many threads.
    - HashMap, HashMapSpec: internals/hashmap.rs, the table of big allocations.
    - Lock, Once: internals/lock.rs, once.rs and oncelock.rs, as interleaved accesses.
      WeakMemory: the same accesses with their orderings, in a memory of histories and views.
    - Env: internals/env.rs and the settings of va/bootstrap.rs.
    - SizeClass: slab/mod.rs.  Sys: sys/mod.rs and sys/syscall_linux.rs.
    - Radix, VaMap, VaMapSpec: the map of the reserved space (va/bitmap.rs, [RadixTree] and
      [VaBitmap]).  VaLive: the map as its clients see it, a finite map of ranges.
    - Mem, BlockList: memory, block headers, linked lists in it with encoded links.
    - ThreadLocal: slab/thread_local.rs.  Interconnect, InterconnectSpec: slab/interconnect.rs
      and slab/global.rs, the per-cpu lists.  StackRace: the loops of [try_push] and [pop] on one of
      these lists, access by access, for many threads; StackRaceSpec: its invariants;
      StackRaceLive: its progress, and schedules that can be run; StackSolo: a thread alone does
      what the sequential functions do; WeakStack: the same accesses with their orderings.
    - Bulk, BulkSpec: slab/bulk_allocation.rs and the end of a thread.  SlabInv, SlabOps,
      SlabFill: the invariant of the arenas and lists and that filling a class keeps it.
    - Heap: abi/malloc.rs, abi/free.rs, abi/calloc.rs, big_allocation.rs.  HeapInv, HeapFill,
      HeapBig, HeapSpec: the invariant of the heap and the calls.
    - Align, AlignSpec: abi/align.rs and calloc.  Realloc, ReallocSpec: abi/realloc.rs.
    - Trim, TrimSpec: trim/*.rs.  ThreadExit: the clean-up of a thread's cache.
    - CpuRows: a call on a cpu that has no row in the per-cpu table ends with a wild access, or does
      what it does on one that has.
    - Boot: [boot_strap] and the fork handlers (va/bootstrap.rs).
    - ClientCalls: the calls of a client, on any cpu.  Client: the threads of a process and a
      client that calls them, as a step relation; the settings are part of its states, for the
      trim thread advances the stamp.
      ClientSpec, ReallocClient, ThreadsSpec, BootClient: what holds in every reachable state.
    - Fallback, FallbackSpec: abi/fallback.rs, for pointers that are not ours; slab/quarantine.rs.

    ** Abstract specifications and refinement

    Each layer is used through an abstract view.  A segment is its set of taken blocks;
    [VaLive.live_inv] is a finite map from addresses to sizes; [HashMapSpec] refines a finite map;
    the lists of a thread and of the cpus are sequences of block addresses ([engine_rep],
    [icc_rep]), and a list under interleaving is a stack that changes in one step
    ([StackRaceSpec.astep]); [SlabOps.slab_inv] says that the blocks of all arenas are exactly those
    in the lists and in the hands of callers; [HeapInv.heap_inv] adds the blocks that clients
    hold, with the room of each; [Client.client_inv] adds the parked threads and the
    pointers of the client.  The heap's theorems are proved against the class [HashMap.BigMap], which states what it
    needs of the table of big allocations; the table of HashMap is the instance.

    ** The theorems

    - Clients (ClientSpec, ReallocClient, ThreadsSpec): in every state that any
      sequence of allocations, frees, resizes, writes, rounds of the trim thread, and
      starts, ends and switches of threads can reach, blocks are apart and inside reserved
      ranges; no step changes a byte of a block but the client's own writes; every allocating call
      returns or ends the process with a documented error; [free] succeeds; double frees of
      small blocks are detected; [calloc] clears; alignment is as promised; [realloc] keeps contents
      where [Client.resize_safe] holds; the end of a thread and a round of the trim thread return and
      lose no block.
      What restricts them: a resize to 1 byte or more and at most 3 GiB is a step of the client only
      where [resize_safe] holds, that is for aligned blocks, for classes with several blocks to a slab or
      that the new size still has, and for big blocks of more than 2 MiB without forced huge pages.
      Nothing is assumed of the cpus: a call on a cpu that has no row in the per-cpu table may end with
      the wild access of that row, and only then ([cpus_ok], [exit_cpus_ok], [trim_cpus_ok] say that
      there is one; an access past the rows counts as wild, also where the kernel's rounding to pages
      happens to map it).  An insertion into the table of big allocations ends with [OutOfMemory] if the
      kernel refuses a larger table ([bmap_ready] says that it does not).  A round of the trim
      thread panics if what the kernel says of its memory does not fit in a word ([pressure_fits]), and its
      counters are shown not to overflow as long as the lists have at most 2^28 blocks.  A new thread's
      key, and the memory of its cache, are such that they are not taken for blocks ([key_free],
      [engine_apart]).
    - Address map (VaMapSpec, SegmentSpec): ranges are exclusive for any sequence of calls, every
      call returns, allocation finds a free range whenever there is one, [is_ours] is exact.
    - Data structures: the table refines a finite map, the caches refine sequences, size
      classes are the smallest that fit and the table of them agrees with the scan.
    - Concurrency: the claim bits of [try_claim] (ClaimRace) are exclusive, but the blocks that it
      hands out are not; [Once] runs its closure once and every caller returns; the spin lock excludes.
    - The per-cpu lists under interleaving (StackRaceSpec, StackRaceLive): as long as no swap is
      stale, every run is a run of an atomic stack, the blocks are in the list or in the hands of
      one thread, and the counter lags behind by what is owed to it; no access leaves the blocks,
      stale or not, whatever the orderings let it read (WeakStack); pushes and pops are lock-free.  The models of this code agree where two of them apply
      (StackSolo, WeakStack).
    - Fall-back (FallbackSpec): a foreign pointer reaches the C library once, also after fork.
    - Start and fork (Boot, BootClient): what [boot_strap] establishes, and what fork leaves locked.
    - Settings and system calls (Env, Sys): parsing, bounds, errors.

    Some theorems show that the code does not do what it means to: the claim of a bitmap word
    can hand blocks out twice (ClaimRace), the lock of the address map can be released
    twice (Lock), [realloc] is wrong for two kinds of blocks (ReallocClient), the two magic
    numbers can be equal and a process that is bound to one cpu uses a row of the per-cpu table that
    is not there (BootClient), a child of fork can be stuck (Boot), the tag of a list's head
    comes round after 16 changes and a block is handed out twice, and the sum of the counters
    overflows during a push (StackRaceLive); the guard of a lock, the fast path of [Once] and the first
    load of [pop] use [Relaxed] where the memory model has runs that lose an update, read an empty
    cell (WeakMemory), or follow a stale link (WeakStack).

    ** Fuel

    Loops without a structural measure take fuel: the scan of a word takes 64 rounds,
    a list walk as many as there are segments, [get_va_from_kernel] 64, since each round halves a
    64-bit size (VaMapSpec proves that it is enough), table
    probes the capacity, list loops the length that the counters tell, [batch_end] 16 rounds.  The
    end of the fuel is the error [OutOfFuel], and each theorem that a call returns shows that
    it does not happen.

    A schedule of StackRaceLive, WeakMemory or WeakStack is a list of moves, which bounds its run.

    ** Not modelled

    - The threads of Client run one call at a time: accesses are interleaved for [try_claim]
      (ClaimRace), the locks, [Once] and one per-cpu list, each on its own.  Memory orderings
      are modelled for a lock, for a [Once], with one datum each, and for the lists; what
      is proved of the lists in every interleaving supposes one memory, but for the blocks that
      are accessed, which is proved in the memory of views.
    - The assembly of [syscall6] and the C library (parameters: the classes [Sys.Kernel] and
      [Fallback.CLibrary]), the registration of thread destructors, prefetching, the
      sleep of the trim thread, tests and benchmarks.
    - A client that writes outside of its blocks or frees what it does not hold, but for
      the double free of a small block; what a call does after a wild access.
    - Page protections: an access is not checked against them (Heap).

    ** Plan

    The operations of the address map as interleaved accesses (growth under its lock, claims and
    frees of several threads on one segment); what else the lists keep with their orderings. *)

From stdpp Require Export prelude list gmap.
From Stdlib Require Export ZArith Lia.

Declare Scope ox_scope.
Delimit Scope ox_scope with ox.
#[global] Open Scope Z_scope.
#[global] Open Scope ox_scope.

(** ** Automation *)

Create HintDb ox.

(** [lia] with division and remainder by a constant turned into equations. *)
Ltac zdiv := Z.to_euclidean_division_equations; lia.

(** Split every conjunction of the context and substitute. *)
Ltac split_hyps :=
  repeat match goal with
    | H : _ ∧ _ |- _ => destruct H
    | H : ∃ _, _ |- _ => destruct H
    end; simplify_eq.

(** Case analysis on the boolean comparison that the goal branches on. *)
Ltac case_zb :=
  match goal with
  | |- context [Z.eqb ?a ?b] => destruct (Z.eqb_spec a b)
  | |- context [Z.ltb ?a ?b] => destruct (Z.ltb_spec a b)
  | |- context [Z.leb ?a ?b] => destruct (Z.leb_spec a b)
  end.

Ltac case_zb_in H :=
  match type of H with
  | context [Z.eqb ?a ?b] => destruct (Z.eqb_spec a b)
  | context [Z.ltb ?a ?b] => destruct (Z.ltb_spec a b)
  | context [Z.leb ?a ?b] => destruct (Z.leb_spec a b)
  end.

(** ** Computations that can abort

    A Rust function either returns or ends the process: [panic = "abort"] is
    set in both profiles, and [log_and_abort] calls [process::abort].  A model
    of such a function returns [Ret a] or [Abort e]. *)

Inductive outcome (E A : Type) : Type :=
| Ret (a : A)
| Abort (e : E).
Arguments Ret {E A} a.
Arguments Abort {E A} e.

#[export] Instance outcome_ret E : MRet (outcome E) := λ A a, Ret a.
#[export] Instance outcome_bind E : MBind (outcome E) := λ A B f m,
  match m with Ret a => f a | Abort e => Abort e end.
#[export] Instance outcome_fmap E : FMap (outcome E) := λ A B f m,
  match m with Ret a => Ret (f a) | Abort e => Abort e end.

Definition is_ret {E A} (m : outcome E A) : bool :=
  match m with Ret _ => true | Abort _ => false end.

Lemma bind_ret {E A B} (a : A) (f : A → outcome E B) : (Ret a ≫= f) = f a.
Proof. done. Qed.

Lemma bind_Ret_inv {E A B} (m : outcome E A) (f : A → outcome E B) b :
  m ≫= f = Ret b → ∃ a, m = Ret a ∧ f a = Ret b.
Proof. destruct m; cbn; [eauto|done]. Qed.

Lemma fmap_Ret_inv {E A B} (f : A → B) (m : outcome E A) b :
  f <$> m = Ret b → ∃ a, m = Ret a ∧ f a = b.
Proof. destruct m as [a|]; [|done]. intros [= <-]. by exists a. Qed.

(** [post out P Q]: a result satisfies [P], an abort satisfies [Q]. *)
Definition post {E A} (out : outcome E A) (P : A → Prop) (Q : E → Prop) : Prop :=
  match out with Ret a => P a | Abort e => Q e end.

Lemma post_bind {E A B} (m : outcome E A) (f : A → outcome E B) (P' : A → Prop) (P : B → Prop) (Q : E → Prop) :
  post m P' Q → (∀ a, P' a → post (f a) P Q) → post (m ≫= f) P Q.
Proof. destruct m as [a|e]; cbn; auto. Qed.

Lemma post_mono {E A} (out : outcome E A) (P P' : A → Prop) (Q Q' : E → Prop) :
  post out P Q → (∀ a, P a → P' a) → (∀ e, Q e → Q' e) → post out P' Q'.
Proof. destruct out; cbn; auto. Qed.

Lemma post_ret {E A} (a : A) (P : A → Prop) (Q : E → Prop) : P a → post (Ret a) P Q.
Proof. done. Qed.

(** [stops_or e P x y]: [x] ends with [e], or it does what [y] does, with results that satisfy [P]. *)
Definition stops_or {E A} (e : E) (P : A → Prop) (x y : outcome E A) : Prop :=
  x = Abort e ∨ (x = y ∧ ∀ a, y = Ret a → P a).

Lemma stops_or_refl {E A} (e : E) (P : A → Prop) x : (∀ a, x = Ret a → P a) → stops_or e P x x.
Proof. by right. Qed.

Lemma stops_or_ret {E A} (e : E) (P : A → Prop) a : P a → stops_or e P (Ret a) (Ret a).
Proof. intros HP. right. split; [done|]. by intros ? [= <-]. Qed.

Lemma stops_or_bind {E A B} (e : E) (P : A → Prop) (Q : B → Prop) x y (f g : A → outcome E B) :
  stops_or e P x y → (∀ a, P a → y = Ret a → stops_or e Q (f a) (g a)) → stops_or e Q (x ≫= f) (y ≫= g).
Proof. intros [->|[-> HP]] Hf; [by left|]. destruct y as [a|]; [by apply Hf; [apply HP|]|by right]. Qed.

Lemma stops_or_post {E A} (e : E) (P Q : A → Prop) (F : E → Prop) x y :
  stops_or e P x y → post y Q F → post x Q (λ e', F e' ∨ e' = e).
Proof. intros [->|[-> _]] Hy; [by right|]. eapply post_mono; [exact Hy|done|by left]. Qed.

(** Decompose a hypothesis [x ← m; k = Ret r]. *)
Ltac inv_ret :=
  repeat match goal with
    | H : (_ ≫= _) = Ret _ |- _ =>
        apply bind_Ret_inv in H; destruct H as (? & ? & ?)
    | H : Ret _ = Ret _ |- _ => injection H; clear H; intros; subst
    | H : Abort _ = Ret _ |- _ => discriminate H
    | H : mret _ = Ret _ |- _ => unfold mret, outcome_ret in H
    end.

(** An invariant of the steps holds in every reachable state. *)
Lemma rtc_preserve {A} (P : A → Prop) (R : relation A) :
  (∀ x y, P x → R x y → P y) → ∀ x y, rtc R x y → P x → P y.
Proof. intros HR x y. induction 1; eauto. Qed.

Lemma forallb_lookup {A} (f : A → bool) l i x :
  forallb f l = true → l !! i = Some x → f x = true.
Proof.
  revert i. induction l as [|y l IH]; intros i H Hl; [done|].
  apply andb_true_iff in H as [Hy H]. destruct i; cbn in Hl; [congruence|eauto].
Qed.

(** Replacing one of the lists of a list of lists. *)
Lemma concat_insert_perm {A} (ls : list (list A)) i l :
  ls !! i = Some l →
  ∃ rest, concat ls ≡ₚ l ++ rest ∧ ∀ l', concat (<[i := l']> ls) ≡ₚ l' ++ rest.
Proof.
  intros Hl. exists (concat (take i ls) ++ concat (drop (S i) ls)). split.
  - rewrite <- (take_drop_middle ls i l Hl) at 1. rewrite concat_app. cbn. solve_Permutation.
  - intros l'. rewrite insert_take_drop by (by eapply lookup_lt_Some).
    rewrite concat_app. cbn. solve_Permutation.
Qed.

Lemma elem_of_concat {A} (ls : list (list A)) i l x : ls !! i = Some l → x ∈ l → x ∈ concat ls.
Proof.
  intros (rest & Hp & _)%concat_insert_perm Hx. rewrite Hp. apply elem_of_app. by left.
Qed.

Lemma concat_nodup_other {A} (ls : list (list A)) i j l k x :
  NoDup (concat ls) → ls !! i = Some l → ls !! j = Some k → j ≠ i → x ∈ l → x ∉ k.
Proof.
  intros Hd Hi Hj Hne Hx Hk. destruct (concat_insert_perm ls i l Hi) as (rest & Hp & Hp').
  rewrite Hp in Hd. apply NoDup_app in Hd as (_ & Hd & _). apply (Hd x Hx). specialize (Hp' []). cbn in Hp'.
  rewrite <- Hp'. apply (elem_of_concat _ j k); [|done]. by rewrite list_lookup_insert_ne.
Qed.

Lemma sum_list_with_insert {A} (f : A → nat) l i x y :
  l !! i = Some x → (sum_list_with f (<[i := y]> l) + f x = sum_list_with f l + f y)%nat.
Proof.
  intros Hx. rewrite <- (take_drop_middle l _ _ Hx) at 2.
  rewrite insert_take_drop by (by eapply lookup_lt_Some). rewrite !sum_list_with_app. cbn. lia.
Qed.

(** ** Lists indexed by [Z] *)

(** [l[i]]; [None] outside the bounds, where Rust panics. *)
Definition zlookup {A} (l : list A) (i : Z) : option A :=
  if decide (0 ≤ i) then l !! Z.to_nat i else None.

Definition zinsert {A} (l : list A) (i : Z) (x : A) : list A :=
  <[Z.to_nat i := x]> l.

Definition zlen {A} (l : list A) : Z := Z.of_nat (length l).

Lemma zlookup_Some_lt {A} (l : list A) i x : zlookup l i = Some x → 0 ≤ i < zlen l.
Proof.
  unfold zlookup, zlen. case_decide; [|done]. intros Hl%lookup_lt_Some. lia.
Qed.

Lemma zlookup_nonneg {A} (l : list A) i : 0 ≤ i → zlookup l i = l !! Z.to_nat i.
Proof. intros. unfold zlookup. by rewrite decide_True. Qed.

Lemma zlookup_lt {A} (l : list A) i : 0 ≤ i < zlen l → is_Some (zlookup l i).
Proof.
  unfold zlookup, zlen. intros. rewrite decide_True by lia.
  apply lookup_lt_is_Some. lia.
Qed.

Lemma zlen_zinsert {A} (l : list A) i x : zlen (zinsert l i x) = zlen l.
Proof. unfold zlen, zinsert. by rewrite length_insert. Qed.

Lemma length_zinsert {A} (l : list A) i x : length (zinsert l i x) = length l.
Proof. apply length_insert. Qed.

Lemma zlen_nonneg {A} (l : list A) : 0 ≤ zlen l.
Proof. unfold zlen. lia. Qed.

Lemma zlen_app {A} (l k : list A) : zlen (l ++ k) = zlen l + zlen k.
Proof. unfold zlen. rewrite length_app. lia. Qed.

Lemma zlookup_zinsert_eq {A} (l : list A) i x :
  0 ≤ i < zlen l → zlookup (zinsert l i x) i = Some x.
Proof.
  unfold zlookup, zinsert, zlen. intros. rewrite decide_True by lia.
  apply list_lookup_insert_eq. lia.
Qed.

Lemma zlookup_zinsert_ne {A} (l : list A) i j x :
  0 ≤ i → i ≠ j → zlookup (zinsert l i x) j = zlookup l j.
Proof.
  unfold zlookup, zinsert. intros. case_decide; [|done].
  apply list_lookup_insert_ne. lia.
Qed.

Lemma zlookup_ext {A} (l k : list A) :
  (∀ i, 0 ≤ i → zlookup l i = zlookup k i) → l = k.
Proof.
  intros H. apply list_eq. intros i. specialize (H (Z.of_nat i)).
  unfold zlookup in H. rewrite !decide_True, !Nat2Z.id in H by lia. apply H. lia.
Qed.

#[export] Hint Resolve zlen_nonneg : ox.

(** [concat_insert_perm] for [zlookup] and [zinsert]. *)
Lemma concat_zinsert_perm {A} (ls : list (list A)) i l :
  zlookup ls i = Some l →
  ∃ rest, concat ls ≡ₚ l ++ rest ∧ ∀ l', concat (zinsert ls i l') ≡ₚ l' ++ rest.
Proof.
  intros Hl. pose proof (zlookup_Some_lt _ _ _ Hl). rewrite zlookup_nonneg in Hl by lia.
  by apply concat_insert_perm.
Qed.

Lemma elem_of_concat_z {A} (ls : list (list A)) i l x : zlookup ls i = Some l → x ∈ l → x ∈ concat ls.
Proof.
  intros Hl. pose proof (zlookup_Some_lt _ _ _ Hl). rewrite zlookup_nonneg in Hl by lia.
  by eapply elem_of_concat.
Qed.

Lemma elem_of_concat_zlookup {A} (ls : list (list A)) x : x ∈ concat ls → ∃ i l, zlookup ls i = Some l ∧ x ∈ l.
Proof.
  induction ls as [|l ls IH]; cbn [concat]; [by intros ?%not_elem_of_nil|].
  intros [Hx|(i & k & Hi & Hx)%IH]%elem_of_app; [by exists 0, l|].
  exists (i + 1), k. split; [|done]. pose proof (zlookup_Some_lt _ _ _ Hi). rewrite !zlookup_nonneg in * by lia.
  by rewrite Z2Nat.inj_add, Nat.add_comm by lia.
Qed.

(** ** Machine words *)

Definition u64_max : Z := 18446744073709551615.
Definition usize_max : Z := u64_max.
Definition u32_max : Z := 4294967295.
Definition u8_max : Z := 255.
Definition isize_max : Z := 9223372036854775807.

(** Wrap-around at 64 and 32 bits. *)
Definition wrap64 (z : Z) : Z := z mod 2 ^ 64.
Definition wrap8 (z : Z) : Z := z mod 2 ^ 8.

Definition word64 (z : Z) : Prop := 0 ≤ z < 2 ^ 64.

Lemma wrap64_range z : word64 (wrap64 z).
Proof. unfold word64, wrap64. apply Z.mod_pos_bound. lia. Qed.

Lemma wrap64_small z : word64 z → wrap64 z = z.
Proof. unfold word64, wrap64. intros. apply Z.mod_small. lia. Qed.

#[export] Hint Resolve wrap64_range : ox.

(** [!x], [x << n], [x >> n], [x ^ y] on [u64]/[usize]. *)
Definition lnot64 (z : Z) : Z := Z.lxor z u64_max.
Definition shl64 (z n : Z) : Z := wrap64 (Z.shiftl z n).
Definition shr64 (z n : Z) : Z := Z.shiftr z n.

Definition wrapping_add64 (a b : Z) : Z := wrap64 (a + b).
Definition wrapping_sub64 (a b : Z) : Z := wrap64 (a - b).
Definition wrapping_mul64 (a b : Z) : Z := wrap64 (a * b).
Definition rotate_left64 (z n : Z) : Z :=
  Z.lor (shl64 z n) (shr64 z (64 - n)).

Definition saturating_sub (a b : Z) : Z := Z.max 0 (a - b).
Definition saturating_add64 (a b : Z) : Z := Z.min u64_max (a + b).
Definition saturating_mul64 (a b : Z) : Z := Z.min u64_max (a * b).

Definition checked_add64 (a b : Z) : option Z :=
  if a + b <=? u64_max then Some (a + b) else None.
Definition checked_mul64 (a b : Z) : option Z :=
  if a * b <=? u64_max then Some (a * b) else None.

(** [n.is_power_of_two()] and [n.checked_next_power_of_two()]. *)
Definition is_power_of_two (n : Z) : bool :=
  (0 <? n) && (Z.land n (n - 1) =? 0).

Definition next_power_of_two (n : Z) : Z :=
  if n <=? 1 then 1 else 2 ^ (Z.log2 (n - 1) + 1).

Definition checked_next_power_of_two (n : Z) : option Z :=
  if next_power_of_two n <=? u64_max then Some (next_power_of_two n) else None.

(** [x.trailing_zeros()] of a [u64]: 64 for zero. *)
Fixpoint ctz_pos (p : positive) : Z :=
  match p with xO q => 1 + ctz_pos q | _ => 0 end.
Definition trailing_zeros (z : Z) : Z :=
  match z with Zpos p => ctz_pos p | _ => 64 end.

(** [x.count_ones()]. *)
Fixpoint popcount_pos (p : positive) : Z :=
  match p with
  | xH => 1
  | xO q => popcount_pos q
  | xI q => 1 + popcount_pos q
  end.
Definition count_ones (z : Z) : Z :=
  match z with Zpos p => popcount_pos p | _ => 0 end.
