(* ===== verification/Bits.v ===== *)
(** * Bit-level facts about 64-bit words and bitmaps

    The bitmap allocator keeps one bit per 4 KiB block, 64 to a word.  This
    file relates the word operations of the code (masks, [fetch_or],
    [fetch_and], [trailing_zeros]) to the bits they set, clear and find. *)

From S2P Require Import Prelude.

(** ** Words *)

Lemma word64_testbit_high z i : word64 z → 64 ≤ i → Z.testbit z i = false.
Proof.
  intros Hz Hi. rewrite <- (Z.mod_small z (2 ^ 64)) by (unfold word64 in Hz; lia).
  apply Z.mod_pow2_bits_high. lia.
Qed.

Lemma word64_bits_range z :
  (∀ i, 64 ≤ i → Z.testbit z i = false) → 0 ≤ z → word64 z.
Proof.
  intros Hi Hz. split; [done|].
  destruct (decide (z = 0)); [subst; lia|].
  apply Z.log2_lt_pow2; [lia|].
  destruct (Z.lt_ge_cases (Z.log2 z) 64) as [|Hge]; [done|].
  specialize (Hi _ Hge). rewrite Z.bit_log2 in Hi by lia. done.
Qed.

Lemma u64_max_testbit i : 0 ≤ i → Z.testbit u64_max i = (i <? 64).
Proof.
  intros. change u64_max with (Z.ones 64). case_zb.
  - apply Z.ones_spec_low. lia.
  - apply Z.ones_spec_high. lia.
Qed.

Lemma word64_u64_max : word64 u64_max.
Proof. unfold word64, u64_max. lia. Qed.

Lemma word64_0 : word64 0.
Proof. unfold word64. lia. Qed.

Lemma word64_lor a b : word64 a → word64 b → word64 (Z.lor a b).
Proof.
  intros Ha Hb. apply word64_bits_range.
  - intros. rewrite Z.lor_spec, !word64_testbit_high by done. done.
  - apply Z.lor_nonneg. unfold word64 in *. lia.
Qed.

Lemma word64_land a b : word64 a → word64 b → word64 (Z.land a b).
Proof.
  intros Ha Hb. apply word64_bits_range.
  - intros. rewrite Z.land_spec, (word64_testbit_high a) by done. done.
  - apply Z.land_nonneg. unfold word64 in *. lia.
Qed.

Lemma word64_lxor a b : word64 a → word64 b → word64 (Z.lxor a b).
Proof.
  intros Ha Hb. apply word64_bits_range.
  - intros. rewrite Z.lxor_spec, !word64_testbit_high by done. done.
  - apply Z.lxor_nonneg. unfold word64 in *. lia.
Qed.

Lemma word64_shiftr a n : 0 ≤ n → word64 a → word64 (Z.shiftr a n).
Proof.
  intros Hn [Ha1 Ha2]. split; [apply Z.shiftr_nonneg; lia|].
  rewrite Z.shiftr_div_pow2 by lia.
  pose proof (Z.pow_pos_nonneg 2 n ltac:(lia) Hn).
  apply Z.le_lt_trans with a; [|lia]. apply Z.div_le_upper_bound; nia.
Qed.

Lemma word64_lnot64 a : word64 a → word64 (lnot64 a).
Proof. intros. apply word64_lxor; [done|apply word64_u64_max]. Qed.

Lemma lnot64_testbit a i :
  0 ≤ i < 64 → Z.testbit (lnot64 a) i = negb (Z.testbit a i).
Proof.
  intros. unfold lnot64. rewrite Z.lxor_spec, u64_max_testbit by lia.
  rewrite (proj2 (Z.ltb_lt i 64)) by lia. by destruct (Z.testbit a i).
Qed.

#[export] Hint Resolve word64_0 word64_u64_max word64_lor word64_land word64_lxor
  word64_lnot64 word64_shiftr : ox.

(** Two words with the same 64 bits are equal. *)
Lemma word64_ext a b :
  word64 a → word64 b → (∀ i, 0 ≤ i < 64 → Z.testbit a i = Z.testbit b i) → a = b.
Proof.
  intros Ha Hb H. apply Z.bits_inj'. intros i Hi.
  destruct (Z.lt_ge_cases i 64); [apply H; lia|].
  by rewrite !word64_testbit_high.
Qed.

Lemma word64_neq_max a :
  word64 a → a ≠ u64_max ↔ ∃ i, 0 ≤ i < 64 ∧ Z.testbit a i = false.
Proof.
  intros Ha. split.
  - intros Hne.
    destruct (decide (Forall (λ i, Z.testbit a i = true) (seqZ 0 64))) as [Hall|Hn].
    + exfalso. apply Hne, word64_ext; auto with ox. intros i Hi.
      rewrite u64_max_testbit, (proj2 (Z.ltb_lt i 64)) by lia.
      rewrite Forall_forall in Hall. apply Hall, elem_of_seqZ. lia.
    + apply not_Forall_Exists in Hn; [|apply _].
      apply Exists_exists in Hn as (i & Hi%elem_of_seqZ & Hb).
      exists i. split; [lia|]. by apply not_true_is_false.
  - intros (i & Hi & Hb) ->. rewrite u64_max_testbit in Hb by lia.
    apply Z.ltb_ge in Hb. lia.
Qed.

Lemma land_zero_bits a b :
  Z.land a b = 0 ↔ ∀ i, 0 ≤ i → Z.testbit a i = true → Z.testbit b i = false.
Proof.
  split.
  - intros H i Hi Ha. assert (Z.testbit (Z.land a b) i = false) as Hb
      by (rewrite H; apply Z.testbit_0_l).
    rewrite Z.land_spec, Ha in Hb. done.
  - intros H. apply Z.bits_inj'. intros i Hi. rewrite Z.land_spec, Z.testbit_0_l.
    destruct (Z.testbit a i) eqn:E; [|done]. by rewrite (H i Hi E).
Qed.

(** ** [trailing_zeros] *)

Lemma ctz_pos_spec p :
  0 ≤ ctz_pos p ∧ Z.testbit (Zpos p) (ctz_pos p) = true ∧
  (∀ i, 0 ≤ i < ctz_pos p → Z.testbit (Zpos p) i = false).
Proof.
  induction p as [p IH|p IH|]; cbn [ctz_pos].
  - repeat split; [lia|]. intros. lia.
  - destruct IH as (H0 & H1 & H2). rewrite Pos2Z.inj_xO. repeat split; [lia| |].
    + replace (1 + ctz_pos p) with (Z.succ (ctz_pos p)) by lia.
      by rewrite Z.testbit_even_succ by lia.
    + intros i Hi. destruct (decide (i = 0)) as [->|].
      * apply Z.testbit_even_0.
      * replace i with (Z.succ (i - 1)) by lia.
        rewrite Z.testbit_even_succ by lia. apply H2. lia.
  - repeat split; [lia|]. intros. lia.
Qed.

Lemma trailing_zeros_spec z :
  word64 z → z ≠ 0 →
  0 ≤ trailing_zeros z < 64 ∧ Z.testbit z (trailing_zeros z) = true ∧
  (∀ i, 0 ≤ i < trailing_zeros z → Z.testbit z i = false).
Proof.
  intros Hw Hz. destruct z as [|p|p]; [done| |unfold word64 in Hw; lia].
  cbn [trailing_zeros]. destruct (ctz_pos_spec p) as (H0 & H1 & H2).
  split; [|by split].
  split; [done|]. destruct (Z.lt_ge_cases (ctz_pos p) 64) as [|Hge]; [done|].
  rewrite (word64_testbit_high _ _ Hw Hge) in H1. done.
Qed.

Lemma lnot64_zero a : word64 a → lnot64 a = 0 ↔ a = u64_max.
Proof.
  intros Ha. unfold lnot64. rewrite Z.lxor_eq_0_iff. done.
Qed.

(** The lowest zero bit of a word that is not all ones. *)
Lemma lowest_zero_spec a :
  word64 a → a ≠ u64_max →
  0 ≤ trailing_zeros (lnot64 a) < 64 ∧
  Z.testbit a (trailing_zeros (lnot64 a)) = false ∧
  (∀ i, 0 ≤ i < trailing_zeros (lnot64 a) → Z.testbit a i = true).
Proof.
  intros Ha Hne.
  destruct (trailing_zeros_spec (lnot64 a)) as (H0 & H1 & H2); auto with ox.
  { by rewrite lnot64_zero. }
  split; [done|]. split.
  - rewrite lnot64_testbit in H1 by lia. by apply negb_true_iff in H1.
  - intros i Hi. specialize (H2 i Hi). rewrite lnot64_testbit in H2 by lia.
    by apply negb_false_iff in H2.
Qed.

(** ** Bitmaps: lists of 64-bit words *)

Definition words64 (m : list Z) : Prop := Forall word64 m.

(** Bit [i] of the bitmap; bits past its end read as clear. *)
Definition bit (m : list Z) (i : Z) : bool :=
  Z.testbit (default 0 (zlookup m (i / 64))) (i mod 64).

Lemma zlookup_word64 m i w : words64 m → zlookup m i = Some w → word64 w.
Proof.
  unfold words64, zlookup. intros Hm. case_decide; [|done]. intros Hl.
  rewrite Forall_lookup in Hm. eauto.
Qed.

Lemma words64_zinsert m i w : words64 m → word64 w → words64 (zinsert m i w).
Proof. intros. by apply Forall_insert. Qed.

#[export] Hint Resolve words64_zinsert : ox.

Lemma bit_word m c w b :
  zlookup m c = Some w → 0 ≤ b < 64 → bit m (c * 64 + b) = Z.testbit w b.
Proof.
  intros Hm Hb. unfold bit.
  rewrite (Z.add_comm (c * 64)), Z.div_add, Z.div_small by lia.
  rewrite Z.mod_add, Z.mod_small by lia. rewrite Z.add_0_l, Hm. done.
Qed.

Lemma bit_div_mod m i : bit m i = bit m (i / 64 * 64 + i mod 64).
Proof. f_equal. zdiv. Qed.

Lemma bit_word' m i w :
  zlookup m (i / 64) = Some w → bit m i = Z.testbit w (i mod 64).
Proof. unfold bit. by intros ->. Qed.

Lemma bit_zinsert m c w i :
  0 ≤ c < zlen m →
  bit (zinsert m c w) i = if i / 64 =? c then Z.testbit w (i mod 64) else bit m i.
Proof.
  intros Hc. unfold bit. case_zb.
  - subst. by rewrite zlookup_zinsert_eq.
  - rewrite zlookup_zinsert_ne by lia. done.
Qed.

(** Bitmaps are determined by their length and their bits. *)
Lemma bitmap_ext m1 m2 :
  words64 m1 → words64 m2 → length m1 = length m2 →
  (∀ i, 0 ≤ i < zlen m1 * 64 → bit m1 i = bit m2 i) → m1 = m2.
Proof.
  intros Hw1 Hw2 Hlen Hb. apply zlookup_ext. intros c Hc.
  destruct (decide (c < zlen m1)) as [Hlt|Hge].
  - destruct (zlookup_lt m1 c) as [w1 H1]; [lia|].
    destruct (zlookup_lt m2 c) as [w2 H2]; [unfold zlen in *; lia|].
    rewrite H1, H2. f_equal. apply word64_ext; eauto using zlookup_word64.
    intros i Hi. rewrite <- (bit_word _ _ _ _ H1 Hi), <- (bit_word _ _ _ _ H2 Hi).
    apply Hb. lia.
  - unfold zlookup, zlen in *. rewrite !decide_True by lia.
    rewrite !lookup_ge_None_2 by lia. done.
Qed.

(** The bitmap of [n] clear words, the state [mmap] hands out. *)
Definition zero_map (n : nat) : list Z := replicate n 0.

Lemma words64_zero_map n : words64 (zero_map n).
Proof. apply Forall_replicate, word64_0. Qed.

Lemma bit_zero_map n i : bit (zero_map n) i = false.
Proof.
  unfold bit, zlookup, zero_map. case_decide; [|apply Z.testbit_0_l].
  destruct (replicate n 0 !! Z.to_nat (i / 64)) eqn:E; cbn; [|apply Z.testbit_0_l].
  apply lookup_replicate in E as [-> _]. apply Z.testbit_0_l.
Qed.

(** ** Runs of bits *)

Definition run_free (m : list Z) (start count : Z) : Prop :=
  ∀ i, start ≤ i < start + count → bit m i = false.

Definition in_run (start count i : Z) : bool := (start <=? i) && (i <? start + count).

Lemma in_run_true start count i : in_run start count i = true ↔ start ≤ i < start + count.
Proof. unfold in_run. rewrite andb_true_iff, Z.leb_le, Z.ltb_lt. done. Qed.

Lemma in_run_false start count i : in_run start count i = false ↔ i < start ∨ start + count ≤ i.
Proof. unfold in_run. rewrite andb_false_iff, Z.leb_gt, Z.ltb_ge. done. Qed.

#[export] Instance run_free_dec m start count : Decision (run_free m start count).
Proof.
  refine (cast_if (decide (Forall (λ i, bit m i = false) (seqZ start count)))).
  - intros i Hi. rewrite Forall_forall in f. apply f, elem_of_seqZ. lia.
  - intros H. apply n, Forall_forall. intros i Hi%elem_of_seqZ. apply H. lia.
Defined.

(** [m2] is [m1] with the run set (resp. cleared) and nothing else changed. *)
Definition run_set (m1 m2 : list Z) (start count : Z) : Prop :=
  ∀ i, 0 ≤ i → bit m2 i = in_run start count i || bit m1 i.
Definition run_clear (m1 m2 : list Z) (start count : Z) : Prop :=
  ∀ i, 0 ≤ i → bit m2 i = negb (in_run start count i) && bit m1 i.

(** ** The masks of the claim loops

    [((1u64 << bits) - 1) << shift], with [u64::MAX] for a whole word. *)
Definition chunk_mask (shift bits : Z) : Z :=
  if bits =? 64 then u64_max else shl64 (Z.shiftl 1 bits - 1) shift.

Lemma chunk_mask_testbit shift bits i :
  0 ≤ shift → 0 < bits → shift + bits ≤ 64 → 0 ≤ i →
  Z.testbit (chunk_mask shift bits) i = in_run shift bits i.
Proof.
  intros Hs Hb Hsb Hi. unfold chunk_mask. destruct (Z.eqb_spec bits 64).
  - rewrite u64_max_testbit by done. unfold in_run.
    rewrite (proj2 (Z.leb_le shift i)) by lia. f_equal. lia.
  - unfold shl64, wrap64. destruct (Z.lt_ge_cases i 64).
    + rewrite Z.mod_pow2_bits_low by lia.
      rewrite Z.shiftl_spec by lia.
      replace (Z.shiftl 1 bits - 1) with (Z.ones bits)
        by (unfold Z.ones; lia).
      unfold in_run. destruct (Z.leb_spec shift i); cbn.
      * rewrite Z.testbit_ones_nonneg by lia. case_zb; case_zb; done || lia.
      * apply Z.testbit_neg_r. lia.
    + rewrite Z.mod_pow2_bits_high by lia. symmetry. apply in_run_false. lia.
Qed.

Lemma word64_chunk_mask shift bits : word64 (chunk_mask shift bits).
Proof.
  unfold chunk_mask. case_zb; [apply word64_u64_max|apply wrap64_range].
Qed.

#[export] Hint Resolve word64_chunk_mask words64_zero_map : ox.

Lemma single_bit_testbit b i :
  0 ≤ b < 64 → 0 ≤ i → Z.testbit (shl64 1 b) i = (i =? b).
Proof.
  intros Hb Hi. unfold shl64. rewrite wrap64_small.
  - rewrite Z.shiftl_1_l, Z.pow2_bits_eqb by lia. apply Z.eqb_sym.
  - rewrite Z.shiftl_1_l. split; [apply Z.pow_nonneg; lia|].
    apply Z.pow_lt_mono_r; lia.
Qed.

Lemma word64_shl64 a n : word64 (shl64 a n).
Proof. apply wrap64_range. Qed.

Lemma land_single_bit w b :
  0 ≤ b < 64 → (Z.land w (shl64 1 b) =? 0) = negb (Z.testbit w b).
Proof.
  intros Hb. destruct (Z.testbit w b) eqn:E; cbn.
  - apply Z.eqb_neq. rewrite land_zero_bits. intros H.
    specialize (H b ltac:(lia) E). rewrite single_bit_testbit in H by lia. lia.
  - apply Z.eqb_eq, land_zero_bits. intros i Hi Hw.
    rewrite single_bit_testbit by lia. apply Z.eqb_neq. congruence.
Qed.

#[export] Hint Resolve word64_shl64 : ox.
