(* ===== verification/Lib.v ===== *)
(** * Crate root: errors, constants and the block header (src/src/lib.rs)

    The errors that end the process, the crate's constants, the block header,
    and the checked arithmetic and indexing that every other file uses:
    [overflow-checks = true] is set in the release profile, so an overflowing
    [+], [-] or [*] on [usize] panics, and a panic aborts. *)

From stdpp Require Import strings.
From S2P Require Import Prelude Bits.

(** ** Errors *)

Inductive OxidallocError : Type :=
| DoubleFree | MemoryCorruption | InvalidSize | OutOfMemory | VaBitmapExhausted
| VAIinitFailed | PThreadCacheFailed | TooMuchQuarantine | DoubleQuarantine
| ReservationExceeded | SecurityViolation | AttackOrCorruption
| ICCFailedToInitialize.

#[export] Instance OxidallocError_eq_dec : EqDecision OxidallocError.
Proof. solve_decision. Defined.

(** The [repr(u32)] discriminants. *)
Definition OxidallocError_code (e : OxidallocError) : Z :=
  match e with
  | DoubleFree => 0x1000
  | MemoryCorruption => 0x1001
  | InvalidSize => 0x1002
  | OutOfMemory => 0x1003
  | VaBitmapExhausted => 0x1004
  | VAIinitFailed => 0x1005
  | PThreadCacheFailed => 0x1006
  | TooMuchQuarantine => 0x1007
  | DoubleQuarantine => 0x1008
  | ReservationExceeded => 0x1009
  | SecurityViolation => 0x100A
  | AttackOrCorruption => 0x100B
  | ICCFailedToInitialize => 0x100C
  end.

(** [impl Debug]: the text of the message that precedes the abort. *)
Definition OxidallocError_fmt (e : OxidallocError) : string :=
  match e with
  | DoubleFree => "DoubleFree (0x1000)"
  | MemoryCorruption => "MemoryCorruption (0x1001)"
  | InvalidSize => "InvalidSize (0x1002)"
  | OutOfMemory => "OutOfMemory (0x1003)"
  | VaBitmapExhausted => "VaBitmapExhausted (0x1004)"
  | VAIinitFailed => "VAIinitFailed (0x1005)"
  | PThreadCacheFailed => "PThreadCacheFailed (0x1006)"
  | TooMuchQuarantine => "TooMuchQuarantine (0x1007)"
  | DoubleQuarantine => "DoubleQuarantine (0x1008)"
  | ReservationExceeded => "ReservationExceeded (0x1009)"
  | SecurityViolation => "SecurityViolation (0x100A)"
  | AttackOrCorruption => "AttackOrCorruption (0x100B)"
  | ICCFailedToInitialize => "ICCFailedToInitialize (0x100C)"
  end.

(** ** Outcomes

    How a computation of the model ends when it does not return:
    [Fatal e] is [e.log_and_abort], [Panic p] a Rust panic, [Spin] a busy
    wait that cannot end, and [OutOfFuel] a loop of the model that used more
    rounds than its bound (each loop is proved to stay within it). *)
Inductive panic : Type := ArithOverflow | IndexOutOfBounds | DivisionByZero | UnwrapNone.

Inductive fault : Type :=
| Fatal (e : OxidallocError)
| Panic (p : panic)
| Spin
| WildAccess
| OutOfFuel.

#[export] Instance panic_eq_dec : EqDecision panic.
Proof. solve_decision. Defined.
#[export] Instance fault_eq_dec : EqDecision fault.
Proof. solve_decision. Defined.

Abbreviation M := (outcome fault).

(** [e.log_and_abort(..)], of type [!]. *)
Definition log_and_abort {A} (e : OxidallocError) : M A := Abort (Fatal e).

(** ** Checked arithmetic on [usize] *)

Definition uadd (a b : Z) : M Z :=
  if a + b <=? usize_max then Ret (a + b) else Abort (Panic ArithOverflow).
Definition usub (a b : Z) : M Z :=
  if b <=? a then Ret (a - b) else Abort (Panic ArithOverflow).
Definition umul (a b : Z) : M Z :=
  if a * b <=? usize_max then Ret (a * b) else Abort (Panic ArithOverflow).
Definition udiv (a b : Z) : M Z :=
  if b =? 0 then Abort (Panic DivisionByZero) else Ret (a / b).
Definition urem (a b : Z) : M Z :=
  if b =? 0 then Abort (Panic DivisionByZero) else Ret (a mod b).

Lemma uadd_ok a b : a + b ≤ usize_max → uadd a b = Ret (a + b).
Proof. intros. unfold uadd. by rewrite (proj2 (Z.leb_le _ _)). Qed.
Lemma usub_ok a b : b ≤ a → usub a b = Ret (a - b).
Proof. intros. unfold usub. by rewrite (proj2 (Z.leb_le _ _)). Qed.
Lemma uadd_inv a b c : uadd a b = Ret c → c = a + b ∧ a + b ≤ usize_max.
Proof. unfold uadd. case_zb; [|done]. by intros [= <-]. Qed.
Lemma umul_inv a b c : umul a b = Ret c → c = a * b ∧ a * b ≤ usize_max.
Proof. unfold umul. case_zb; [|done]. by intros [= <-]. Qed.
Lemma umul_ok a b : a * b ≤ usize_max → umul a b = Ret (a * b).
Proof. intros. unfold umul. by rewrite (proj2 (Z.leb_le _ _)). Qed.
Lemma udiv_ok a b : b ≠ 0 → udiv a b = Ret (a / b).
Proof. intros. unfold udiv. by rewrite (proj2 (Z.eqb_neq _ _)). Qed.
Lemma urem_ok a b : b ≠ 0 → urem a b = Ret (a mod b).
Proof. intros. unfold urem. by rewrite (proj2 (Z.eqb_neq _ _)). Qed.

Lemma uadd_overflow a b : usize_max < a + b → uadd a b = Abort (Panic ArithOverflow).
Proof. intros. unfold uadd. by rewrite (proj2 (Z.leb_gt _ _)). Qed.

(** Rewrite the checked operations whose side condition [lia] proves. *)
Ltac checked :=
  repeat first
    [ rewrite uadd_ok by (unfold usize_max, u64_max in *; lia)
    | rewrite usub_ok by (unfold usize_max, u64_max in *; lia)
    | rewrite umul_ok by (unfold usize_max, u64_max in *; lia)
    | rewrite udiv_ok by lia
    | rewrite urem_ok by lia
    | rewrite bind_ret ].

(** ** Indexing: out of bounds is a panic *)

Definition vget {A} (l : list A) (i : Z) : M A :=
  match zlookup l i with Some x => Ret x | None => Abort (Panic IndexOutOfBounds) end.

Definition vset {A} (l : list A) (i : Z) (x : A) : M (list A) :=
  if (0 <=? i) && (i <? zlen l) then Ret (zinsert l i x)
  else Abort (Panic IndexOutOfBounds).

Lemma vget_ok {A} (l : list A) i x : zlookup l i = Some x → vget l i = Ret x.
Proof. unfold vget. by intros ->. Qed.

Lemma vget_Ret_inv {A} (l : list A) i x : vget l i = Ret x → zlookup l i = Some x.
Proof. unfold vget. destruct (zlookup l i); congruence. Qed.

Lemma vset_ok {A} (l : list A) i x : 0 ≤ i < zlen l → vset l i x = Ret (zinsert l i x).
Proof.
  intros. unfold vset.
  rewrite (proj2 (Z.leb_le _ _)), (proj2 (Z.ltb_lt _ _)) by lia. done.
Qed.

Lemma vget_in_bounds {A} (l : list A) i :
  0 ≤ i < zlen l → ∃ x, vget l i = Ret x ∧ zlookup l i = Some x.
Proof. intros [x Hx]%zlookup_lt. exists x. split; [|done]. by apply vget_ok. Qed.

(** ** Constants *)

Definition MAX_INTERCONNECT_CACHE : Z := 4.
Definition MAX_NUMA_NODES : Z := 4.
Definition EROCMEF : Z := 41.
Definition VERSION : Z := 0xABA01.
Definition FLAG_ALIGNED : Z := 2.

(** [usize::from_le_bytes]. *)
Fixpoint from_le_bytes (l : list Z) : Z :=
  match l with [] => 0 | b :: l => b + 256 * from_le_bytes l end.

(** [*b"OXIDALGN"], as bytes. *)
Definition OX_ALIGN_TAG : Z :=
  from_le_bytes [0x4F; 0x58; 0x49; 0x44; 0x41; 0x4C; 0x47; 0x4E].

Definition GiB : Z := 1024 * 1024 * 1024.
Definition MiB : Z := 1024 * 1024.

(** The crate's mutable globals, with their initial values. *)
Record Globals : Type := mkGlobals {
  OX_CURRENT_STAMP : Z;
  TOTAL_ALLOCATED : Z;
  TOTAL_IN_USE : Z;
  AVERAGE_BLOCK_TIMES_GLOBAL : Z;
  OX_TRIM_THRESHOLD : Z;
  OX_FORCE_THP : bool;
  OX_MAX_RESERVATION : Z
}.
Definition initial_globals : Globals := mkGlobals 0 0 0 3 (1024 * 1024 * 10) false (16 * GiB).

(** ** Build configuration

    [hardened = true] is a build with the feature [hardened-linked-list],
    which implies [hardened-malloc]; [hardened = false] is the default build.
    (With [hardened-malloc] alone the header's [magic] is a [u8] and the
    constants compared with it are [u64]: that combination does not compile.) *)
Class Config := { hardened : bool }.
Definition default_build : Config := {| hardened := false |}.
Definition hardened_build : Config := {| hardened := true |}.

Section Layout.
Context `{Config}.

(** [repr(C, align(16))] layouts of the two versions of the header:
    next, class, magic, life_time; and magic, next, class, life_time. *)
Definition off_next : Z := if hardened then 8 else 0.
Definition off_class : Z := if hardened then 16 else 8.
Definition off_magic : Z := if hardened then 0 else 9.
Definition off_life_time : Z := if hardened then 20 else 12.
Definition size_magic : Z := if hardened then 8 else 1.

Definition HEADER_SIZE : Z := if hardened then 32 else 16.
End Layout.

(** [size_of::<MetaData>()]: three words, aligned to 16. *)
Definition METADATA_SIZE : Z := 32.

Record OxHeader : Type := mkOxHeader {
  h_next : Z;
  h_class : Z;
  h_magic : Z;
  h_life_time : Z
}.

Record MetaData : Type := mkMetaData {
  md_start : Z;
  md_end : Z;
  md_next : Z
}.

#[export] Instance OxHeader_eq_dec : EqDecision OxHeader.
Proof. solve_decision. Defined.
#[export] Instance MetaData_eq_dec : EqDecision MetaData.
Proof. solve_decision. Defined.

Lemma HEADER_SIZE_cases (c : Config) : HEADER_SIZE = 16 ∨ HEADER_SIZE = 32.
Proof. unfold HEADER_SIZE. destruct hardened; auto. Qed.

Lemma OX_ALIGN_TAG_val : OX_ALIGN_TAG = 0x4E474C414449584F.
Proof. reflexivity. Qed.

(** ** [align_to] (src/src/va/mod.rs)

    [(size + (align - 1)) & !(align - 1)]. *)
Definition align_to (size align : Z) : M Z :=
  al ← usub align 1;
  s ← uadd size al;
  Ret (Z.land s (lnot64 al)).

(** Clearing the low [k] bits. *)
Lemma land_lnot64_ones s k :
  0 ≤ k < 64 → word64 s → Z.land s (lnot64 (2 ^ k - 1)) = s / 2 ^ k * 2 ^ k.
Proof.
  intros Hk Hs. rewrite <- Z.shiftr_div_pow2, <- Z.shiftl_mul_pow2 by lia.
  replace (2 ^ k - 1) with (Z.ones k) by (rewrite Z.ones_equiv; lia).
  apply Z.bits_inj'. intros i Hi. rewrite Z.land_spec, Z.shiftl_spec by lia.
  destruct (Z.lt_ge_cases i 64) as [Hlt|Hge].
  - rewrite lnot64_testbit, Z.testbit_ones_nonneg by lia.
    destruct (Z.ltb_spec i k); cbn.
    + rewrite andb_false_r, Z.testbit_neg_r by lia. done.
    + rewrite andb_true_r, Z.shiftr_spec by lia. f_equal. lia.
  - rewrite (word64_testbit_high s) by done. cbn.
    rewrite Z.shiftr_spec by lia. replace (i - k + k) with i by lia.
    by rewrite word64_testbit_high.
Qed.

(** For a power of two, [align_to] rounds up to a multiple. *)
Lemma align_to_pow2 size k :
  0 ≤ size → 0 ≤ k < 64 → size + 2 ^ k - 1 ≤ usize_max →
  align_to size (2 ^ k) = Ret ((size + 2 ^ k - 1) / 2 ^ k * 2 ^ k).
Proof.
  intros Hs Hk Hle. unfold align_to.
  pose proof (Z.pow_pos_nonneg 2 k ltac:(lia) ltac:(lia)). checked.
  f_equal. rewrite land_lnot64_ones.
  - do 2 f_equal. lia.
  - done.
  - unfold word64, usize_max, u64_max in *. lia.
Qed.

Lemma align_to_overflow size k :
  0 ≤ k < 64 → usize_max < size + 2 ^ k - 1 →
  align_to size (2 ^ k) = Abort (Panic ArithOverflow).
Proof.
  intros Hk Hlt. unfold align_to.
  pose proof (Z.pow_pos_nonneg 2 k ltac:(lia) ltac:(lia)). checked.
  rewrite uadd_overflow by lia. done.
Qed.

(** The rounded size: a multiple, at least the size, by less than [a]. *)
Definition round_up (size a : Z) : Z := (size + a - 1) / a * a.

Lemma round_up_spec size a :
  0 < a → size ≤ round_up size a < size + a ∧ round_up size a mod a = 0.
Proof.
  intros Ha. unfold round_up. rewrite Z.mod_mul by lia. split; [|done].
  pose proof (Z.div_mod (size + a - 1) a ltac:(lia)).
  pose proof (Z.mod_pos_bound (size + a - 1) a Ha). nia.
Qed.

Lemma align_to_4096 size :
  0 ≤ size → size + 4095 ≤ usize_max → align_to size 4096 = Ret (round_up size 4096).
Proof. intros. apply (align_to_pow2 size 12); lia. Qed.

Lemma align_to_16 size :
  0 ≤ size → size + 15 ≤ usize_max → align_to size 16 = Ret (round_up size 16).
Proof. intros. apply (align_to_pow2 size 4); lia. Qed.

Lemma align_to_2M size :
  0 ≤ size → size + 2097151 ≤ usize_max →
  align_to size (1024 * 1024 * 2) = Ret (round_up size 2097152).
Proof. intros. apply (align_to_pow2 size 21); lia. Qed.
