(* ===== verification/Rng.v ===== *)
(** * Per-thread random numbers (src/src/va/rng.rs, alloc_random of bitmap.rs)

    The generator that randomises where in a segment the bitmap search starts. *)

From S2P Require Import Prelude Bits Lib.

Record Rng : Type := mkRng { s0 : Z; s1 : Z }.

Definition Rng_new (seed : Z) : Rng := mkRng seed (Z.lxor (shl64 seed 32) seed).

Definition next_usize (rng : Rng) : Z * Rng :=
  let x := s0 rng in
  let y := s1 rng in
  let x := Z.lxor x (shl64 x 23) in
  let x := Z.lxor x (shr64 x 17) in
  let x := Z.lxor x (Z.lxor y (shr64 y 26)) in
  let z := wrapping_add64 x y in
  let rng' := mkRng (Z.lxor y (rotate_left64 z 17)) x in
  let out := z in
  let out := Z.lxor out (shr64 out 30) in
  let out := wrapping_mul64 out 0xbf58476d1ce4e5b9 in
  let out := Z.lxor out (shr64 out 27) in
  let out := wrapping_mul64 out 0x94d049bb133111eb in
  let out := Z.lxor out (shr64 out 31) in
  (out, rng').

Definition rng_ok (rng : Rng) : Prop := word64 (s0 rng) ∧ word64 (s1 rng).

Lemma word64_wrapping_add a b : word64 (wrapping_add64 a b).
Proof. apply wrap64_range. Qed.
Lemma word64_wrapping_mul a b : word64 (wrapping_mul64 a b).
Proof. apply wrap64_range. Qed.
Lemma word64_shr64 a n : 0 ≤ n → word64 a → word64 (shr64 a n).
Proof. apply word64_shiftr. Qed.

#[export] Hint Resolve word64_wrapping_add word64_wrapping_mul : ox.
#[export] Hint Extern 2 (word64 (shr64 _ _)) => apply word64_shr64; [lia|] : ox.

Lemma Rng_new_ok seed : word64 seed → rng_ok (Rng_new seed).
Proof. split; cbn; auto with ox. Qed.

Lemma next_usize_ok rng :
  rng_ok rng → word64 (fst (next_usize rng)) ∧ rng_ok (snd (next_usize rng)).
Proof.
  intros [H0 H1]. unfold next_usize, rng_ok, rotate_left64; cbn.
  repeat split; auto 12 with ox; apply word64_lxor; auto 12 with ox.
Qed.

(** The all-zero state is a fixed point: a thread seeded with 0 draws 0 forever. *)
Lemma next_usize_zero : next_usize (Rng_new 0) = (0, Rng_new 0).
Proof. vm_compute. reflexivity. Qed.

(** ** [alloc_random]

    [RNG] and [THREAD_ONCE_PROTECTION] are thread-local.  [ar_entropy] is the
    kernel's answer to the one [getrandom] call that seeds the generator
    ([None]: the call fails, and the process aborts). *)
Record AllocRng : Type := mkAllocRng {
  ar_seeded : bool;
  ar_rng : Rng;
  ar_entropy : option Z
}.

Definition init_alloc_random (entropy : option Z) : M Z :=
  match entropy with
  | Some seed => Ret seed
  | None => log_and_abort SecurityViolation
  end.

Definition alloc_random (ar : AllocRng) : M (Z * AllocRng) :=
  rng ← (if ar_seeded ar then Ret (ar_rng ar)
         else seed ← init_alloc_random (ar_entropy ar); Ret (Rng_new seed));
  let '(out, rng') := next_usize rng in
  Ret (out, mkAllocRng true rng' (ar_entropy ar)).

(** The thread is seeded, or [getrandom] will succeed. *)
Definition ar_ok (ar : AllocRng) : Prop :=
  (ar_seeded ar = true → rng_ok (ar_rng ar)) ∧
  (ar_seeded ar = false → ∃ seed, ar_entropy ar = Some seed ∧ word64 seed).

Lemma alloc_random_ok ar :
  ar_ok ar → ∃ r ar', alloc_random ar = Ret (r, ar') ∧ word64 r ∧ ar_ok ar'.
Proof.
  intros [Hs Hn]. unfold alloc_random.
  assert (∃ rng, (if ar_seeded ar then Ret (ar_rng ar)
         else seed ← init_alloc_random (ar_entropy ar); Ret (Rng_new seed)) = Ret rng
         ∧ rng_ok rng) as (rng & -> & Hok).
  { destruct (ar_seeded ar); [by eauto|].
    destruct Hn as (seed & -> & Hw); [done|]. cbn. eauto using Rng_new_ok. }
  rewrite bind_ret. destruct (next_usize rng) as [out rng'] eqn:E.
  apply next_usize_ok in Hok. rewrite E in Hok. destruct Hok as [Hout Hok].
  do 2 eexists. split; [done|]. split; [done|]. split; done.
Qed.
