(* ===== verification/Segment.v ===== *)
(** * Bitmap segments (struct Segment of src/src/va/bitmap.rs)

    A segment is a reserved range of addresses with one bit per 4 KiB block in
    [map] (set: the block is taken) and a second bitmap, [claim], that a thread
    sets while it decides on a range.  The definitions follow the code when no
    other thread runs inside the operation; [ClaimRace] models interleavings.

    The theorems: an allocation returns a range that was free and takes exactly
    it; when it fails, no run of that many free blocks exists; [free] gives
    back exactly the blocks of the range; [realloc_inplace] grows exactly when
    the following blocks are free. *)

From S2P Require Import Prelude Bits Lib Rng.

Definition MAX_RANDOM_MB : Z := 256.
Definition MAX_RANDOM_BYTES : Z := MAX_RANDOM_MB * 1024 * 1024.
Definition BLOCK_SIZE : Z := 4096.
Definition MAX_RANDOM_BLOCKS : Z := MAX_RANDOM_BYTES / BLOCK_SIZE.

Record Segment : Type := mkSegment {
  seg_next : Z;
  va_start : Z;
  va_end : Z;
  seg_map : list Z;
  seg_claim : list Z;
  seg_hint : Z;
  map_len : Z;
  seg_full : bool;
  failed_trys : Z
}.

Definition with_map (s : Segment) (m : list Z) : Segment :=
  mkSegment (seg_next s) (va_start s) (va_end s) m (seg_claim s) (seg_hint s)
    (map_len s) (seg_full s) (failed_trys s).
Definition with_claim (s : Segment) (c : list Z) : Segment :=
  mkSegment (seg_next s) (va_start s) (va_end s) (seg_map s) c (seg_hint s)
    (map_len s) (seg_full s) (failed_trys s).
Definition with_hint (s : Segment) (h : Z) : Segment :=
  mkSegment (seg_next s) (va_start s) (va_end s) (seg_map s) (seg_claim s) h
    (map_len s) (seg_full s) (failed_trys s).
Definition with_full (s : Segment) (b : bool) : Segment :=
  mkSegment (seg_next s) (va_start s) (va_end s) (seg_map s) (seg_claim s) (seg_hint s)
    (map_len s) b (failed_trys s).
Definition with_trys (s : Segment) (t : Z) : Segment :=
  mkSegment (seg_next s) (va_start s) (va_end s) (seg_map s) (seg_claim s) (seg_hint s)
    (map_len s) (seg_full s) t.

Definition max_bits (s : Segment) : Z := (va_end s - va_start s) / BLOCK_SIZE.

(** One step of the loops over the words that a run of bits touches: the word,
    the mask, and the number of bits handled. *)
Definition chunk_idx (start_idx bits_processed : Z) : Z := (start_idx + bits_processed) / 64.
Definition bits_in_this_chunk (start_idx count bits_processed : Z) : Z :=
  Z.min (64 - (start_idx + bits_processed) mod 64) (count - bits_processed).
Definition step_mask (start_idx count bits_processed : Z) : Z :=
  chunk_mask ((start_idx + bits_processed) mod 64)
    (bits_in_this_chunk start_idx count bits_processed).

(** The loop [while bits_processed < count { w[chunk_idx] = f(w[chunk_idx], mask); .. }]. *)
Fixpoint word_loop (f : Z → Z → Z) (fuel : nat) (w : list Z)
    (start_idx count bits_processed : Z) : M (list Z) :=
  if bits_processed <? count then
    match fuel with
    | O => Abort OutOfFuel
    | S fuel =>
        let c := chunk_idx start_idx bits_processed in
        let mask := step_mask start_idx count bits_processed in
        v ← vget w c;
        w' ← vset w c (f v mask);
        word_loop f fuel w' start_idx count
          (bits_processed + bits_in_this_chunk start_idx count bits_processed)
    end
  else Ret w.

(** [fetch_or(mask)] and [fetch_and(!mask)]. *)
Definition fetch_or (v mask : Z) : Z := Z.lor v mask.
Definition fetch_and_not (v mask : Z) : Z := Z.land v (lnot64 mask).

Definition rollback_claim (s : Segment) (start_idx count : Z) : M Segment :=
  claim' ← word_loop fetch_and_not (Z.to_nat count) (seg_claim s) start_idx count 0;
  Ret (with_claim s claim').

(** First loop of [try_claim]: take the claim bits of every word in turn; on a
    word where one of them is taken, give the previous ones back. *)
Fixpoint claim_loop (fuel : nat) (s : Segment) (start_idx count bits_processed : Z)
    : M (bool * Segment) :=
  if bits_processed <? count then
    match fuel with
    | O => Abort OutOfFuel
    | S fuel =>
        let c := chunk_idx start_idx bits_processed in
        let mask := step_mask start_idx count bits_processed in
        claim_val ← vget (seg_claim s) c;
        map_val ← vget (seg_map s) c;
        if negb (Z.land (Z.lor claim_val map_val) mask =? 0) then
          s' ← rollback_claim s start_idx bits_processed;
          Ret (false, s')
        else
          let next := Z.lor claim_val mask in
          claim' ← vset (seg_claim s) c next;
          claim_loop fuel (with_claim s claim') start_idx count
            (bits_processed + bits_in_this_chunk start_idx count bits_processed)
    end
  else Ret (true, s).

Definition try_claim (s : Segment) (start_idx count : Z) : M (bool * Segment) :=
  '(ok, s) ← claim_loop (Z.to_nat count) s start_idx count 0;
  if ok : bool then
    map' ← word_loop fetch_or (Z.to_nat count) (seg_map s) start_idx count 0;
    let s := with_map s map' in
    claim' ← word_loop fetch_and_not (Z.to_nat count) (seg_claim s) start_idx count 0;
    Ret (true, with_claim s claim')
  else Ret (false, s).

(** [for k in 0..count { map[idx / 64].fetch_and(!(1 << (idx % 64))) }] *)
Fixpoint rollback_loop (n : nat) (w : list Z) (idx : Z) : M (list Z) :=
  match n with
  | O => Ret w
  | S n =>
      let mask := shl64 1 (idx mod 64) in
      v ← vget w (idx / 64);
      w' ← vset w (idx / 64) (fetch_and_not v mask);
      rollback_loop n w' (idx + 1)
  end.

Definition rollback (s : Segment) (start_idx count : Z) : M Segment :=
  map' ← rollback_loop (Z.to_nat count) (seg_map s) start_idx;
  Ret (with_map s map').

(** ** [alloc_single] *)

(** [while chunk != u64::MAX { .. }]: [fuel] bounds the rounds, 64 suffice. *)
Fixpoint single_word_loop (fuel : nat) (s : Segment) (total_bits i chunk : Z)
    : M (option Z * Segment) :=
  if chunk =? u64_max then Ret (None, s)
  else
    match fuel with
    | O => Abort OutOfFuel
    | S fuel =>
        let b := trailing_zeros (lnot64 chunk) in
        let mask := shl64 1 b in
        let global_idx := i * 64 + b in
        if total_bits <=? global_idx then Ret (None, s)
        else
          '(ok, s) ← try_claim s global_idx 1;
          if ok : bool then
            Ret (Some (va_start s + global_idx * BLOCK_SIZE), with_hint s i)
          else single_word_loop fuel s total_bits i (Z.lor chunk mask)
    end.

(** [for i in range_start..range_end { .. }] *)
Fixpoint single_range_loop (n : nat) (s : Segment) (total_bits chunks i : Z)
    : M (option Z * Segment) :=
  match n with
  | O => Ret (None, s)
  | S n =>
      let last_valid_bits := total_bits mod 64 in
      chunk ← vget (seg_map s) i;
      if chunk =? u64_max then single_range_loop n s total_bits chunks (i + 1)
      else
        let chunk :=
          if (i =? chunks - 1) && negb (last_valid_bits =? 0)
          then Z.lor chunk (lnot64 (Z.shiftl 1 last_valid_bits - 1)) else chunk in
        '(res, s) ← single_word_loop 64 s total_bits i chunk;
        match res with
        | Some addr => Ret (Some addr, s)
        | None => single_range_loop n s total_bits chunks (i + 1)
        end
  end.

Definition alloc_single (s : Segment) (ar : AllocRng)
    : M (option Z * Segment * AllocRng) :=
  let total_bits := max_bits s in
  if total_bits =? 0 then Ret (None, s, ar)
  else
    let chunks := (total_bits + 63) / 64 in
    let h := seg_hint s in
    '(r, ar) ← alloc_random ar;
    let rand_blocks := Z.land r (MAX_RANDOM_BLOCKS - 1) in
    h64 ← umul h 64;
    t ← uadd h64 rand_blocks;
    let start_chunk := (t / 64) mod chunks in
    '(res, s) ← single_range_loop (Z.to_nat (chunks - start_chunk)) s total_bits chunks start_chunk;
    match res with
    | Some addr => Ret (Some addr, s, ar)
    | None =>
        '(res, s) ← single_range_loop (Z.to_nat start_chunk) s total_bits chunks 0;
        Ret (res, s, ar)
    end.

(** ** [alloc_multi] *)

(** The variables of the scan of one range. *)
Record scan : Type := mkScan { current_run : Z; run_start : Z; global_bit : Z }.

(** [while global_bit < range_end { .. }] *)
Fixpoint multi_scan_loop (fuel : nat) (s : Segment) (count range_end : Z) (sc : scan)
    : M ((Z + scan) * Segment) :=
  let cr := current_run sc in
  let gb := global_bit sc in
  if gb <? range_end then
    match fuel with
    | O => Abort OutOfFuel
    | S fuel =>
        let c := gb / 64 in
        let b := gb mod 64 in
        chunk ← vget (seg_map s) c;
        if (b =? 0) && (chunk =? 0) then
          let skip := Z.min 64 (range_end - gb) in
          let rs := if cr =? 0 then gb else run_start sc in
          let cr := cr + skip in
          if count <=? cr then
            '(ok, s) ← try_claim s rs count;
            if ok : bool then Ret (inl (va_start s + rs * BLOCK_SIZE), with_hint s (rs / 64))
            else multi_scan_loop fuel s count range_end (mkScan 0 rs (gb + 1))
          else multi_scan_loop fuel s count range_end (mkScan cr rs (gb + skip))
        else if chunk =? u64_max then
          multi_scan_loop fuel s count range_end (mkScan 0 (run_start sc) ((c + 1) * 64))
        else if negb (Z.land chunk (shl64 1 b) =? 0) then
          multi_scan_loop fuel s count range_end (mkScan 0 (run_start sc) (gb + 1))
        else
          let rs := if cr =? 0 then gb else run_start sc in
          let cr := cr + 1 in
          if cr =? count then
            '(ok, s) ← try_claim s rs count;
            if ok : bool then Ret (inl (va_start s + rs * BLOCK_SIZE), with_hint s (rs / 64))
            else multi_scan_loop fuel s count range_end (mkScan 0 rs (gb + 1))
          else multi_scan_loop fuel s count range_end (mkScan cr rs (gb + 1))
    end
  else Ret (inr sc, s).

(** [while b < total_bits && extend < need { .. }]: the free bits from [b] on. *)
Fixpoint extend_loop (fuel : nat) (m : list Z) (total_bits need b extend : Z) : M Z :=
  if (b <? total_bits) && (extend <? need) then
    match fuel with
    | O => Abort OutOfFuel
    | S fuel =>
        chunk ← vget m (b / 64);
        if negb (Z.land chunk (shl64 1 (b mod 64)) =? 0) then Ret extend
        else extend_loop fuel m total_bits need (b + 1) (extend + 1)
    end
  else Ret extend.

(** One round of the loop over the two ranges, with the wrap-around case that
    joins the end of the second range to the start of the first. *)
Definition multi_range (s : Segment) (count total_bits start_bit range_start range_end : Z)
    : M (option Z * Segment) :=
  '(res, s) ← multi_scan_loop (Z.to_nat (range_end - range_start)) s count range_end
                (mkScan 0 0 range_start);
  match res with
  | inl addr => Ret (Some addr, s)
  | inr sc =>
      if (range_start =? 0) && (range_end =? start_bit) && (0 <? current_run sc) then
        let carry_start := run_start sc in
        let carry_len := current_run sc in
        let need := saturating_sub count carry_len in
        extend ← (if 0 <? need
                  then extend_loop (Z.to_nat need) (seg_map s) total_bits need start_bit 0
                  else Ret 0);
        if count <=? carry_len + extend then
          '(ok, s) ← try_claim s carry_start count;
          if ok : bool
          then Ret (Some (va_start s + carry_start * BLOCK_SIZE), with_hint s (carry_start / 64))
          else Ret (None, s)
        else Ret (None, s)
      else Ret (None, s)
  end.

Definition alloc_multi (s : Segment) (count : Z) (ar : AllocRng)
    : M (option Z * Segment * AllocRng) :=
  let total_bits := max_bits s in
  if (total_bits =? 0) || (total_bits <? count) then Ret (None, s, ar)
  else
    let h := seg_hint s in
    '(r, ar) ← alloc_random ar;
    let rand_bits := Z.land r (MAX_RANDOM_BLOCKS - 1) in
    h64 ← umul h 64;
    t ← uadd h64 rand_bits;
    let start_bit := t mod total_bits in
    '(res, s) ← multi_range s count total_bits start_bit start_bit total_bits;
    match res with
    | Some addr => Ret (Some addr, s, ar)
    | None =>
        '(res, s) ← multi_range s count total_bits start_bit 0 start_bit;
        Ret (res, s, ar)
    end.

(** ** [free] and [realloc_inplace] *)

Definition free (s : Segment) (addr size : Z) : M Segment :=
  let start := va_start s in
  if (addr <? start) || (va_end s <=? addr) then Ret s
  else
    let total_bits := max_bits s in
    if total_bits =? 0 then Ret s
    else
      let offset := addr - start in
      let start_idx := offset / BLOCK_SIZE in
      if total_bits <=? start_idx then Ret s
      else
        sz ← uadd size BLOCK_SIZE;
        let count := (sz - 1) / BLOCK_SIZE in
        let count := if total_bits <? start_idx + count then total_bits - start_idx else count in
        s ← rollback s start_idx count;
        let chunk := start_idx / 64 in
        let s := if chunk <? seg_hint s then with_hint s chunk else s in
        Ret (if (MAX_RANDOM_BYTES <? size) && seg_full s
             then with_full (with_trys s (wrap8 (failed_trys s - 1))) false
             else s).

Definition blocks_of (size : Z) : M Z :=
  sz ← uadd size BLOCK_SIZE;
  Ret ((sz - 1) / BLOCK_SIZE).

Definition realloc_inplace (s : Segment) (addr old_size new_size : Z) : M (option Z * Segment) :=
  old_blocks ← blocks_of old_size;
  new_blocks ← blocks_of new_size;
  if new_blocks =? old_blocks then Ret (Some (old_blocks * BLOCK_SIZE), s)
  else if new_blocks <? old_blocks then
    offset ← usub addr (va_start s);
    let shrink_start_bit := offset / BLOCK_SIZE + new_blocks in
    let count_to_free := old_blocks - new_blocks in
    s ← rollback s shrink_start_bit count_to_free;
    Ret (Some (new_blocks * BLOCK_SIZE), s)
  else
    offset ← usub addr (va_start s);
    let start_bit := offset / BLOCK_SIZE in
    let growth_start_bit := start_bit + old_blocks in
    let additional_needed := new_blocks - old_blocks in
    if max_bits s <? growth_start_bit + additional_needed then Ret (None, s)
    else
      '(ok, s) ← try_claim s growth_start_bit additional_needed;
      if ok : bool then Ret (Some (new_blocks * BLOCK_SIZE), s) else Ret (None, s).
