(* ===== verification/SegmentSpec.v ===== *)
(** * What a segment promises (proofs about Segment.v)

    [seg_ok] is the invariant of a segment between operations.  The lemmas
    describe each operation by the bits it sets and clears. *)

From S2P Require Import Prelude Bits Lib Rng Segment.

(** ** The loops over the words of a run *)

(** A word operation given bit by bit; bits outside the mask are kept. *)
Record bitwise (f : Z → Z → Z) (g : bool → bool → bool) : Prop := {
  bitwise_bit : ∀ v m i, 0 ≤ i < 64 →
    Z.testbit (f v m) i = g (Z.testbit v i) (Z.testbit m i);
  bitwise_word : ∀ v m, word64 v → word64 m → word64 (f v m);
  bitwise_keep : ∀ b, g b false = b
}.

Lemma fetch_or_bitwise : bitwise fetch_or orb.
Proof.
  split; unfold fetch_or.
  - intros. apply Z.lor_spec.
  - auto with ox.
  - by intros [].
Qed.

Lemma fetch_and_not_bitwise : bitwise fetch_and_not (λ a b, a && negb b).
Proof.
  split; unfold fetch_and_not.
  - intros. by rewrite Z.land_spec, lnot64_testbit.
  - auto with ox.
  - by intros [].
Qed.

(** The bits that the mask of one step selects. *)
Lemma chunk_in_run x bits i :
  0 ≤ x → 0 < bits → bits ≤ 64 - x mod 64 → 0 ≤ i →
  (i / 64 =? x / 64) && in_run (x mod 64) bits (i mod 64) = in_run x bits i.
Proof.
  intros Hx Hb Hle Hi. destruct (in_run x bits i) eqn:E.
  - apply in_run_true in E. apply andb_true_iff. rewrite Z.eqb_eq, in_run_true. zdiv.
  - apply in_run_false in E. apply andb_false_iff. rewrite Z.eqb_neq, in_run_false. zdiv.
Qed.

Lemma bits_in_this_chunk_bounds start count p :
  0 ≤ start → 0 ≤ p < count →
  0 < bits_in_this_chunk start count p ≤ 64 - (start + p) mod 64 ∧
  p + bits_in_this_chunk start count p ≤ count.
Proof. intros. unfold bits_in_this_chunk. zdiv. Qed.

Lemma step_mask_testbit start count p i :
  0 ≤ start → 0 ≤ p < count → 0 ≤ i →
  Z.testbit (step_mask start count p) i =
  in_run ((start + p) mod 64) (bits_in_this_chunk start count p) i.
Proof.
  intros Hs Hp Hi. pose proof (bits_in_this_chunk_bounds _ _ _ Hs Hp).
  unfold step_mask. apply chunk_mask_testbit; [zdiv|lia|lia|lia].
Qed.

Lemma word64_step_mask start count p : word64 (step_mask start count p).
Proof. apply word64_chunk_mask. Qed.
#[export] Hint Resolve word64_step_mask : ox.

(** One step of a loop: the word exists, and storing the result changes
    exactly the bits of the step. *)
Lemma chunk_idx_bounds (w : list Z) start count p :
  0 ≤ start → 0 ≤ p < count → start + count ≤ zlen w * 64 →
  0 ≤ chunk_idx start p < zlen w.
Proof. intros. unfold chunk_idx. zdiv. Qed.

Lemma word_step f g w v start count p :
  bitwise f g → words64 w → 0 ≤ start → 0 ≤ p < count → start + count ≤ zlen w * 64 →
  zlookup w (chunk_idx start p) = Some v →
  ∀ i, 0 ≤ i →
    bit (zinsert w (chunk_idx start p) (f v (step_mask start count p))) i =
    if in_run (start + p) (bits_in_this_chunk start count p) i then g (bit w i) true
    else bit w i.
Proof.
  intros Hf Hw Hs Hp Hlen Hv i Hi.
  pose proof (bits_in_this_chunk_bounds _ _ _ Hs Hp).
  rewrite bit_zinsert by (by eapply chunk_idx_bounds).
  rewrite <- chunk_in_run by lia. unfold chunk_idx in *.
  destruct (Z.eqb_spec (i / 64) ((start + p) / 64)) as [Heq|]; cbn; [|done].
  rewrite (bitwise_bit _ _ Hf), step_mask_testbit by zdiv.
  rewrite (bit_word' w i v) by (by rewrite Heq).
  destruct (in_run _ _ _); [done|]. apply (bitwise_keep _ _ Hf).
Qed.

Lemma word_loop_spec f g fuel w start count p :
  bitwise f g → words64 w → 0 ≤ start → 0 ≤ p ≤ count → start + count ≤ zlen w * 64 →
  count - p ≤ Z.of_nat fuel →
  ∃ w', word_loop f fuel w start count p = Ret w' ∧ words64 w' ∧ zlen w' = zlen w ∧
    ∀ i, 0 ≤ i →
      bit w' i = if in_run (start + p) (count - p) i then g (bit w i) true else bit w i.
Proof.
  intros Hf. revert w p. induction fuel as [|fuel IH]; intros w p Hw Hs Hp Hlen Hfuel;
    cbn [word_loop]; destruct (Z.ltb_spec p count) as [Hlt|Hge].
  1: lia.
  1, 3: exists w; repeat split; try done; intros i Hi;
    rewrite (proj2 (in_run_false _ _ _)) by lia; done.
  assert (Hp' : 0 ≤ p < count) by lia.
  pose proof (bits_in_this_chunk_bounds _ _ _ Hs Hp') as Hb.
  destruct (vget_in_bounds w (chunk_idx start p)) as (v & -> & Hv);
    [by eapply chunk_idx_bounds|].
  rewrite bind_ret, vset_ok, bind_ret by (by eapply chunk_idx_bounds).
  pose proof (word_step f g w v start count p Hf Hw Hs Hp' Hlen Hv) as Hstep.
  destruct (IH (zinsert w (chunk_idx start p) (f v (step_mask start count p)))
              (p + bits_in_this_chunk start count p)) as (w' & -> & Hw' & Hl' & Hbits);
    rewrite ?zlen_zinsert; try lia.
  { apply words64_zinsert; [done|]. apply (bitwise_word _ _ Hf); auto with ox.
    eauto using zlookup_word64. }
  exists w'. rewrite zlen_zinsert in Hl'. repeat split; try done.
  intros i Hi. rewrite Hbits, Hstep by done.
  set (n := bits_in_this_chunk start count p) in *.
  destruct (in_run (start + p) n i) eqn:E1;
    destruct (in_run (start + (p + n)) (count - (p + n)) i) eqn:E2;
    destruct (in_run (start + p) (count - p) i) eqn:E3; try done;
    rewrite ?in_run_true, ?in_run_false in *; lia.
Qed.

(** ** [rollback_claim], [claim_loop] and [try_claim] *)

Lemma with_claim_id s : with_claim s (seg_claim s) = s.
Proof. by destruct s. Qed.
Lemma with_claim_claim s c d : with_claim (with_claim s c) d = with_claim s d.
Proof. done. Qed.

(** Between operations no claim bit is set. *)
Definition quiescent (s : Segment) : Prop :=
  seg_claim s = zero_map (length (seg_claim s)).

(** The claim bitmap holds exactly a prefix of the run. *)
Definition claims_run (c : list Z) (start p : Z) : Prop :=
  ∀ i, 0 ≤ i → bit c i = in_run start p i.

Lemma rollback_claim_zero s c start p :
  words64 c → 0 ≤ start → 0 ≤ p → start + p ≤ zlen c * 64 → claims_run c start p →
  rollback_claim (with_claim s c) start p = Ret (with_claim s (zero_map (length c))).
Proof.
  intros Hw Hs Hp Hlen Hc. unfold rollback_claim. cbn.
  destruct (word_loop_spec fetch_and_not _ (Z.to_nat p) c start p 0
    fetch_and_not_bitwise) as (w' & -> & Hw' & Hl & Hb); try lia; [done|].
  rewrite bind_ret, with_claim_claim. do 2 f_equal.
  apply bitmap_ext; auto with ox.
  - unfold zero_map. rewrite length_replicate. unfold zlen in *. lia.
  - intros i Hi. rewrite Hb, bit_zero_map, Hc by lia.
    replace (start + 0) with start by lia. replace (p - 0) with p by lia.
    by destruct (in_run start p i).
Qed.

(** The test of a word says whether the part of the run in it is free, while all claims are
    those of the call. *)
Lemma claim_mask_free c m start count p cv mv :
  0 ≤ start → 0 ≤ p < count → claims_run c start p →
  zlookup c (chunk_idx start p) = Some cv → zlookup m (chunk_idx start p) = Some mv →
  Z.land (Z.lor cv mv) (step_mask start count p) = 0 ↔ run_free m (start + p) (bits_in_this_chunk start count p).
Proof.
  intros Hs Hp' Hcl Hcv' Hmv'. pose proof (bits_in_this_chunk_bounds _ _ _ Hs Hp') as Hb.
  set (n := bits_in_this_chunk start count p) in *. rewrite land_zero_bits. split.
  - intros Hz i Hi. destruct (bit m i) eqn:Hbit; [|done].
    assert (Hin : in_run (start + p) n i = true) by (apply in_run_true; lia).
    rewrite <- chunk_in_run in Hin by lia. apply andb_true_iff in Hin as [Hc Hin].
    apply Z.eqb_eq in Hc. rewrite (bit_word' _ _ mv) in Hbit by (by rewrite Hc).
    specialize (Hz (i mod 64) ltac:(zdiv)). rewrite Z.lor_spec, Hbit, orb_true_r in Hz.
    rewrite step_mask_testbit in Hz by zdiv. fold n in Hz. rewrite Hin in Hz. by specialize (Hz eq_refl).
  - intros Hrun b Hb0 Hset. rewrite step_mask_testbit by lia. fold n.
    apply in_run_false. destruct (decide (b < (start + p) mod 64)); [lia|].
    destruct (decide ((start + p) mod 64 + n ≤ b)); [lia|]. exfalso.
    assert (Hib : 0 ≤ b < 64) by zdiv.
    rewrite Z.lor_spec, <- (bit_word _ _ _ _ Hcv' Hib), <- (bit_word _ _ _ _ Hmv' Hib) in Hset.
    unfold chunk_idx in *. rewrite Hrun, orb_false_r in Hset by zdiv. rewrite Hcl, in_run_true in Hset by zdiv. zdiv.
Qed.

Lemma claim_loop_spec fuel s c start count p :
  words64 c → words64 (seg_map s) → zlen c = zlen (seg_map s) →
  0 ≤ start → 0 ≤ p ≤ count → start + count ≤ zlen c * 64 →
  count - p ≤ Z.of_nat fuel →
  claims_run c start p → run_free (seg_map s) start p →
  if decide (run_free (seg_map s) start count) then
    ∃ c', claim_loop fuel (with_claim s c) start count p = Ret (true, with_claim s c') ∧
      words64 c' ∧ length c' = length c ∧ claims_run c' start count
  else claim_loop fuel (with_claim s c) start count p
       = Ret (false, with_claim s (zero_map (length c))).
Proof.
  revert c p. induction fuel as [|fuel IH]; intros c p Hwc Hwm Hzl Hs Hp Hlen Hfuel Hcl Hfree;
    cbn [claim_loop]; destruct (Z.ltb_spec p count) as [Hlt|Hge].
  1: lia.
  1, 3: assert (p = count) as -> by lia; rewrite decide_True by done; eauto.
  assert (Hp' : 0 ≤ p < count) by lia.
  pose proof (bits_in_this_chunk_bounds _ _ _ Hs Hp') as Hb.
  destruct (vget_in_bounds c (chunk_idx start p)) as (cv & Hcv & Hcv');
    [by eapply chunk_idx_bounds|].
  destruct (vget_in_bounds (seg_map s) (chunk_idx start p)) as (mv & Hmv & Hmv');
    [eapply chunk_idx_bounds; try done; lia|].
  cbn [with_claim seg_claim seg_map]. rewrite Hcv, bind_ret, Hmv, bind_ret.
  set (n := bits_in_this_chunk start count p) in *.
  set (mask := step_mask start count p).
  pose proof (claim_mask_free c (seg_map s) start count p cv mv Hs Hp' Hcl Hcv' Hmv') as Hmask. fold mask n in Hmask.
  destruct (Z.eqb_spec (Z.land (Z.lor cv mv) mask) 0) as [Hz|Hnz]; cbn [negb].
  - rewrite Hmask in Hz.
    rewrite vset_ok, bind_ret by (by eapply chunk_idx_bounds). rewrite with_claim_claim.
    replace (Z.lor cv mask) with (fetch_or cv mask) by done. unfold mask.
    pose proof (word_step fetch_or orb c cv start count p fetch_or_bitwise Hwc Hs Hp' Hlen Hcv')
      as Hstep.
    specialize (IH (zinsert c (chunk_idx start p) (fetch_or cv (step_mask start count p))) (p + n)).
    rewrite !zlen_zinsert, !length_zinsert in IH.
    apply IH; clear IH; try done; try lia.
    + apply words64_zinsert; [done|]. unfold fetch_or. apply word64_lor; auto with ox.
      eauto using zlookup_word64.
    + intros i Hi. rewrite Hstep, Hcl by done. fold n.
      destruct (in_run (start + p) n i) eqn:E1; destruct (in_run start p i) eqn:E2;
        destruct (in_run start (p + n) i) eqn:E3; try done;
        rewrite ?in_run_true, ?in_run_false in *; lia.
    + intros i Hi. destruct (decide (i < start + p)); [apply Hfree; lia|apply Hz; lia].
  - rewrite decide_False.
    + rewrite rollback_claim_zero by (done || lia). done.
    + intros Hrun. apply Hnz, Hmask. intros i Hi. apply Hrun. lia.
Qed.

(** ** The segment invariant *)

Record seg_ok (s : Segment) : Prop := {
  ok_range : 0 ≤ va_start s ≤ va_end s ∧ va_end s ≤ 2 ^ 57;
  ok_len : map_len s = (max_bits s + 63) / 64;
  ok_map_len : zlen (seg_map s) = map_len s;
  ok_claim_len : zlen (seg_claim s) = map_len s;
  ok_map_words : words64 (seg_map s);
  ok_quiescent : quiescent s;
  ok_hint : 0 ≤ seg_hint s ≤ map_len s;
  ok_trys : 0 ≤ failed_trys s < 256
}.

Lemma max_bits_nonneg s : seg_ok s → 0 ≤ max_bits s ≤ 2 ^ 45.
Proof. intros [Hr]. unfold max_bits, BLOCK_SIZE. zdiv. Qed.

Lemma seg_bits_le s : seg_ok s → max_bits s ≤ zlen (seg_map s) * 64.
Proof. intros Hok. rewrite (ok_map_len _ Hok), (ok_len _ Hok). zdiv. Qed.

Lemma with_map_claim_id s : with_claim (with_map s (seg_map s)) (seg_claim s) = s.
Proof. by destruct s. Qed.

(** An operation that replaced the map (by one of the same size) and the hint. *)
Lemma seg_ok_with_map s m :
  seg_ok s → words64 m → zlen m = zlen (seg_map s) → seg_ok (with_map s m).
Proof. intros [] Hw Hl. split; cbn; try done. lia. Qed.

Lemma seg_ok_with_hint s h : seg_ok s → 0 ≤ h ≤ map_len s → seg_ok (with_hint s h).
Proof. intros [] Hh. split; done. Qed.

(** What [try_claim] does: it succeeds exactly when the whole run is free, then
    the run is taken and nothing else changes; otherwise nothing changes. *)
Lemma try_claim_spec s start count :
  seg_ok s → 0 ≤ start → 0 ≤ count → start + count ≤ zlen (seg_map s) * 64 →
  if decide (run_free (seg_map s) start count) then
    ∃ m', try_claim s start count = Ret (true, with_map s m') ∧
      words64 m' ∧ zlen m' = zlen (seg_map s) ∧ run_set (seg_map s) m' start count
  else try_claim s start count = Ret (false, s).
Proof.
  intros Hok Hs Hc Hlen. unfold try_claim.
  pose proof (ok_quiescent _ Hok) as Hq. unfold quiescent in Hq.
  assert (Hzl : zlen (seg_claim s) = zlen (seg_map s))
    by (rewrite (ok_claim_len _ Hok), (ok_map_len _ Hok); done).
  pose proof (claim_loop_spec (Z.to_nat count) s (seg_claim s) start count 0) as Hloop.
  rewrite with_claim_id in Hloop.
  ospecialize* Hloop; try lia; try done.
  { rewrite Hq. auto with ox. }
  { apply ok_map_words, Hok. }
  { intros i Hi. rewrite Hq, bit_zero_map. symmetry. apply in_run_false. lia. }
  { intros i Hi. lia. }
  case_decide as Hfree.
  - destruct Hloop as (c' & -> & Hwc' & Hlc' & Hclaim). rewrite bind_ret. cbn [seg_map with_claim].
    destruct (word_loop_spec fetch_or orb (Z.to_nat count) (seg_map s) start count 0
      fetch_or_bitwise) as (m' & -> & Hwm' & Hlm' & Hbits); try lia.
    { apply ok_map_words, Hok. }
    rewrite bind_ret.
    destruct (word_loop_spec fetch_and_not _ (Z.to_nat count) c' start count 0
      fetch_and_not_bitwise) as (c2 & Hc2 & Hwc2 & Hlc2 & Hcb); try lia; try done.
    { unfold zlen in *. lia. }
    cbn [seg_claim with_map with_claim]. rewrite Hc2, bind_ret.
    exists m'. split; [|split; [done|split; [done|]]].
    + do 2 f_equal. assert (c2 = seg_claim s) as ->; [|by destruct s].
      rewrite Hq. apply bitmap_ext; auto with ox.
      * unfold zero_map. rewrite length_replicate. unfold zlen in *. lia.
      * intros i Hi. rewrite Hcb, bit_zero_map, Hclaim by lia.
        rewrite Z.add_0_r, Z.sub_0_r. by destruct (in_run start count i).
    + intros i Hi. rewrite Hbits by done. rewrite Z.add_0_r, Z.sub_0_r.
      destruct (in_run start count i); [|done]. by rewrite orb_true_r.
  - rewrite Hloop, bind_ret. rewrite <- Hq, with_claim_id. done.
Qed.

Lemma try_claim_free s start count :
  seg_ok s → 0 ≤ start → 0 ≤ count → start + count ≤ zlen (seg_map s) * 64 →
  run_free (seg_map s) start count →
  ∃ m', try_claim s start count = Ret (true, with_map s m') ∧
    words64 m' ∧ zlen m' = zlen (seg_map s) ∧ run_set (seg_map s) m' start count.
Proof.
  intros Hok Hs Hc Hlen Hfree. pose proof (try_claim_spec s start count Hok Hs Hc Hlen) as H.
  by rewrite decide_True in H.
Qed.

(** ** [rollback] *)

Lemma in_run_succ idx n i :
  in_run idx (Z.of_nat (S n)) i = (i =? idx) || in_run (idx + 1) (Z.of_nat n) i.
Proof.
  destruct (Z.eqb_spec i idx); cbn.
  - apply in_run_true. lia.
  - destruct (in_run (idx + 1) (Z.of_nat n) i) eqn:E;
      rewrite ?in_run_true, ?in_run_false in *; lia.
Qed.

(** Clearing one bit of one word. *)
Lemma clear_bit w v idx i :
  0 ≤ idx → 0 ≤ i → zlookup w (idx / 64) = Some v →
  bit (zinsert w (idx / 64) (fetch_and_not v (shl64 1 (idx mod 64)))) i =
  negb (i =? idx) && bit w i.
Proof.
  intros Hidx Hi Hv. rewrite bit_zinsert by (by eapply zlookup_Some_lt).
  destruct (Z.eqb_spec (i / 64) (idx / 64)) as [Heq|Hne].
  - unfold fetch_and_not. rewrite Z.land_spec, lnot64_testbit, single_bit_testbit by zdiv.
    rewrite (bit_word' w i v) by (by rewrite Heq). rewrite andb_comm. f_equal. f_equal.
    case_zb; case_zb; done || zdiv.
  - destruct (Z.eqb_spec i idx); [congruence|done].
Qed.

Lemma rollback_loop_spec n w idx :
  words64 w → 0 ≤ idx → idx + Z.of_nat n ≤ zlen w * 64 →
  ∃ w', rollback_loop n w idx = Ret w' ∧ words64 w' ∧ zlen w' = zlen w ∧
    run_clear w w' idx (Z.of_nat n).
Proof.
  revert w idx. induction n as [|n IH]; intros w idx Hw Hi Hlen; cbn [rollback_loop].
  - exists w. repeat split; try done. intros i Hi'.
    rewrite (proj2 (in_run_false _ _ _)) by lia. done.
  - destruct (vget_in_bounds w (idx / 64)) as (v & -> & Hv); [zdiv|].
    rewrite bind_ret, vset_ok, bind_ret by zdiv.
    set (w1 := zinsert w (idx / 64) (fetch_and_not v (shl64 1 (idx mod 64)))).
    destruct (IH w1 (idx + 1)) as (w' & -> & Hw' & Hl' & Hb); unfold w1;
      rewrite ?zlen_zinsert; try lia.
    { apply words64_zinsert; [done|]. unfold fetch_and_not.
      apply word64_land; [by eauto using zlookup_word64|auto with ox]. }
    unfold w1 in Hl'. rewrite zlen_zinsert in Hl'.
    exists w'. repeat split; try done. intros i Hi'. rewrite Hb by done. unfold w1.
    rewrite in_run_succ, clear_bit by (done || lia).
    by destruct (i =? idx), (in_run (idx + 1) (Z.of_nat n) i).
Qed.

Lemma rollback_spec s start count :
  seg_ok s → 0 ≤ start → 0 ≤ count → start + count ≤ zlen (seg_map s) * 64 →
  ∃ m', rollback s start count = Ret (with_map s m') ∧ seg_ok (with_map s m') ∧
    run_clear (seg_map s) m' start count.
Proof.
  intros Hok Hs Hc Hlen. unfold rollback.
  destruct (rollback_loop_spec (Z.to_nat count) (seg_map s) start) as (m' & -> & Hw & Hl & Hb);
    try lia.
  { apply ok_map_words, Hok. }
  rewrite Z2Nat.id in Hb by done. exists m'. rewrite bind_ret.
  repeat split; try done. all: apply seg_ok_with_map; done.
Qed.

(** ** What an allocation of [count] blocks in a segment does *)

Definition alloc_post (s : Segment) (count : Z) (res : option Z) (s' : Segment) : Prop :=
  match res with
  | Some addr => ∃ p m' h,
      addr = va_start s + p * BLOCK_SIZE ∧ 0 ≤ p ∧ p + count ≤ max_bits s ∧
      run_free (seg_map s) p count ∧ run_set (seg_map s) m' p count ∧
      s' = with_hint (with_map s m') h ∧ seg_ok s'
  | None => s' = s
  end.

(** No [count] consecutive free blocks among those from [lo] up to [hi]. *)
Definition no_hole (m : list Z) (count lo hi : Z) : Prop :=
  ∀ p, lo ≤ p → p + count ≤ hi → ¬ run_free m p count.

Lemma hole_or_taken m p count :
  ¬ run_free m p count → ∃ i, p ≤ i < p + count ∧ bit m i = true.
Proof.
  intros Hn. destruct (decide (Exists (λ i, bit m i = true) (seqZ p count))) as [He|Hne].
  - apply Exists_exists in He as (i & Hi%elem_of_seqZ & Hb). by exists i.
  - exfalso. apply Hn. intros i Hi. apply not_true_is_false. intros Hb. apply Hne.
    apply Exists_exists. exists i. split; [apply elem_of_seqZ; lia|done].
Qed.

(** A claim of a free run in bounds, as the allocation loops use it. *)
Lemma claim_and_return s p count h :
  seg_ok s → 0 ≤ p → 0 ≤ count → p + count ≤ max_bits s → run_free (seg_map s) p count →
  0 ≤ h ≤ map_len s →
  ∃ s1, try_claim s p count = Ret (true, s1) ∧ va_start s1 = va_start s ∧
    alloc_post s count (Some (va_start s + p * BLOCK_SIZE)) (with_hint s1 h).
Proof.
  intros Hok Hp Hc Hle Hfree Hh. pose proof (seg_bits_le _ Hok).
  destruct (try_claim_free s p count) as (m' & Hclaim & Hw & Hl & Hset); try done; try lia.
  exists (with_map s m'). repeat split; try done. exists p, m', h.
  repeat split; try done. all: by apply seg_ok_with_hint; [apply seg_ok_with_map|].
Qed.

(** *** [alloc_single] *)

Lemma single_word_loop_spec fuel s i w chunk :
  seg_ok s → zlookup (seg_map s) i = Some w → word64 chunk →
  (∀ b, 0 ≤ b < 64 → Z.testbit chunk b = false → Z.testbit w b = false) →
  ∃ res s', single_word_loop (S fuel) s (max_bits s) i chunk = Ret (res, s') ∧
    alloc_post s 1 res s' ∧
    (res = None → ∀ b, 0 ≤ b < 64 → i * 64 + b < max_bits s → Z.testbit chunk b = true).
Proof.
  intros Hok Hw Hc Hsub. cbn [single_word_loop].
  pose proof (zlookup_Some_lt _ _ _ Hw) as Hi. pose proof (seg_bits_le _ Hok).
  destruct (Z.eqb_spec chunk u64_max) as [->|Hne].
  { exists None, s. repeat split. intros _ b Hb _. rewrite u64_max_testbit by lia.
    apply Z.ltb_lt. lia. }
  destruct (lowest_zero_spec chunk Hc Hne) as (Hb & Hzero & Hones).
  set (b := trailing_zeros (lnot64 chunk)) in *.
  destruct (Z.leb_spec (max_bits s) (i * 64 + b)) as [Hge|Hlt].
  { exists None, s. repeat split. intros _ b' Hb' Hlt. apply Hones. lia. }
  destruct (claim_and_return s (i * 64 + b) 1 i) as (s1 & -> & Hva & Hpost); try done; try lia.
  { intros j Hj. assert (j = i * 64 + b) as -> by lia.
    rewrite (bit_word _ _ w) by done. by apply Hsub. }
  { rewrite <- (ok_map_len _ Hok). lia. }
  rewrite bind_ret, Hva. eexists _, _. split; [done|]. split; [done|]. done.
Qed.

Lemma last_word_mask lv b :
  0 < lv < 64 → 0 ≤ b < 64 →
  Z.testbit (lnot64 (Z.shiftl 1 lv - 1)) b = (lv <=? b).
Proof.
  intros. rewrite lnot64_testbit by lia.
  replace (Z.shiftl 1 lv - 1) with (Z.ones lv) by (unfold Z.ones; lia).
  rewrite Z.testbit_ones_nonneg by lia. case_zb; case_zb; done || lia.
Qed.

Lemma word64_ones_lv lv : 0 < lv < 64 → word64 (Z.shiftl 1 lv - 1).
Proof.
  intros. rewrite Z.shiftl_1_l. pose proof (Z.pow_lt_mono_r 2 lv 64).
  pose proof (Z.pow_pos_nonneg 2 lv). unfold word64. lia.
Qed.

Lemma single_range_loop_spec n s i :
  seg_ok s → 0 < max_bits s → 0 ≤ i → i + Z.of_nat n ≤ map_len s →
  ∃ res s', single_range_loop n s (max_bits s) (map_len s) i = Ret (res, s') ∧
    alloc_post s 1 res s' ∧
    (res = None → ∀ p, i * 64 ≤ p < (i + Z.of_nat n) * 64 → p < max_bits s →
       bit (seg_map s) p = true).
Proof.
  intros Hok Hpos. revert i. induction n as [|n IH]; intros i Hi Hlen; cbn [single_range_loop].
  { exists None, s. repeat split. intros. lia. }
  destruct (vget_in_bounds (seg_map s) i) as (w & -> & Hw);
    [rewrite (ok_map_len _ Hok); lia|].
  rewrite bind_ret. pose proof (zlookup_word64 _ _ _ (ok_map_words _ Hok) Hw) as Hw64.
  destruct (IH (i + 1)) as (res & s' & IHeq & IHpost & IHnone); [lia|lia|].
  assert (Hjoin : (res = None → ∀ b, 0 ≤ b < 64 → i * 64 + b < max_bits s →
                     Z.testbit w b = true) →
     res = None → ∀ p, i * 64 ≤ p < (i + Z.of_nat (S n)) * 64 → p < max_bits s →
       bit (seg_map s) p = true).
  { intros Hword Hnone p Hp Hpm. destruct (decide (p < (i + 1) * 64)).
    - replace p with (i * 64 + (p - i * 64)) by lia.
      rewrite (bit_word _ _ w) by (done || lia). apply Hword; (done || lia).
    - apply IHnone; (done || lia). }
  destruct (Z.eqb_spec w u64_max) as [->|Hne].
  { exists res, s'. split; [done|]. split; [done|]. apply Hjoin. intros _ b Hb _.
    rewrite u64_max_testbit by lia. apply Z.ltb_lt. lia. }
  set (chunk := if (i =? map_len s - 1) && negb (max_bits s mod 64 =? 0)
                then Z.lor w (lnot64 (Z.shiftl 1 (max_bits s mod 64) - 1)) else w).
  destruct (single_word_loop_spec 63 s i w chunk) as (res1 & s1 & -> & Hpost1 & Hnone1); try done.
  { unfold chunk. destruct (_ && _) eqn:E; [|done].
    apply andb_true_iff in E as [_ E%negb_true_iff%Z.eqb_neq].
    apply word64_lor; [done|]. apply word64_lnot64, word64_ones_lv. zdiv. }
  { intros b Hb. unfold chunk. destruct (_ && _); [|done].
    rewrite Z.lor_spec. by intros [? _]%orb_false_iff. }
  rewrite bind_ret. destruct res1 as [addr|].
  { exists (Some addr), s1. split; [done|]. split; [done|]. done. }
  cbn in Hpost1. subst s1. rewrite IHeq. exists res, s'. split; [done|]. split; [done|].
  apply Hjoin. intros _ b Hb Hbm. specialize (Hnone1 eq_refl b Hb Hbm). unfold chunk in Hnone1.
  destruct (_ && _) eqn:E; [|done].
  apply andb_true_iff in E as [Hi1%Z.eqb_eq E%negb_true_iff%Z.eqb_neq].
  rewrite Z.lor_spec, last_word_mask in Hnone1 by zdiv.
  apply orb_true_iff in Hnone1 as [?|Hge%Z.leb_le]; [done|].
  rewrite (ok_len _ Hok) in Hi1. exfalso. zdiv.
Qed.

(** The position at which the search starts never makes the arithmetic overflow. *)
Lemma start_no_overflow s r :
  seg_ok s → word64 r →
  0 ≤ Z.land r (MAX_RANDOM_BLOCKS - 1) < 65536 ∧
  seg_hint s * 64 ≤ usize_max ∧
  seg_hint s * 64 + Z.land r (MAX_RANDOM_BLOCKS - 1) ≤ usize_max.
Proof.
  intros Hok Hr. change (MAX_RANDOM_BLOCKS - 1) with (Z.ones 16).
  rewrite Z.land_ones by lia. pose proof (Z.mod_pos_bound r (2 ^ 16)).
  pose proof (ok_hint _ Hok) as Hh. rewrite (ok_len _ Hok) in Hh.
  pose proof (max_bits_nonneg _ Hok). unfold usize_max, u64_max. zdiv.
Qed.

(** [alloc_single] returns a free block and takes it, or every block is taken. *)
Lemma alloc_single_post s ar :
  seg_ok s → ar_ok ar →
  ∃ res s' ar', alloc_single s ar = Ret (res, s', ar') ∧ ar_ok ar' ∧
    alloc_post s 1 res s' ∧ (res = None → no_hole (seg_map s) 1 0 (max_bits s)).
Proof.
  intros Hok Har. unfold alloc_single. pose proof (max_bits_nonneg _ Hok) as Hmb.
  destruct (Z.eqb_spec (max_bits s) 0) as [H0|H0].
  { exists None, s, ar. split_and!; try done. intros _ p Hp Hle _. lia. }
  destruct (alloc_random_ok ar Har) as (r & ar' & -> & Hr & Har'). rewrite bind_ret.
  destruct (start_no_overflow s r Hok Hr) as (Hrb & Hh & Hh2).
  rewrite umul_ok, bind_ret, uadd_ok, bind_ret by done.
  rewrite <- (ok_len _ Hok). set (sc := ((seg_hint s * 64 + Z.land r (MAX_RANDOM_BLOCKS - 1)) / 64) mod map_len s).
  assert (Hml : 0 < map_len s) by (rewrite (ok_len _ Hok); zdiv).
  assert (Hsc : 0 ≤ sc < map_len s) by (unfold sc; apply Z.mod_pos_bound; lia).
  destruct (single_range_loop_spec (Z.to_nat (map_len s - sc)) s sc)
    as (res1 & s1 & -> & Hpost1 & Hnone1); try done; try lia.
  rewrite bind_ret. destruct res1 as [addr|].
  { exists (Some addr), s1, ar'. split_and!; done. }
  cbn in Hpost1. subst s1.
  destruct (single_range_loop_spec (Z.to_nat sc) s 0)
    as (res2 & s2 & -> & Hpost2 & Hnone2); try done; try lia.
  rewrite bind_ret. exists res2, s2, ar'. split_and!; try done.
  intros Hn p Hp Hle Hfree. specialize (Hfree p ltac:(lia)).
  assert (max_bits s ≤ map_len s * 64) by (rewrite (ok_len _ Hok); zdiv).
  destruct (decide (p < sc * 64)).
  - rewrite Hnone2 in Hfree by (done || lia). done.
  - rewrite Hnone1 in Hfree by (done || lia). done.
Qed.

(** *** [alloc_multi] *)

(** First block of the free run that ends at the scan position. *)
Definition run_of (sc : scan) : Z :=
  if current_run sc =? 0 then global_bit sc else run_start sc.

(** The invariant of the scan of [lo..hi]: the run before the position is free,
    shorter than [count] and cannot be extended to the left, and no hole of
    [count] blocks ends before the position. *)
Record scan_inv (m : list Z) (count lo hi : Z) (sc : scan) : Prop := {
  sc_pos : lo ≤ global_bit sc;
  sc_cur : 0 ≤ current_run sc < count;
  sc_run : current_run sc ≠ 0 →
    run_start sc + current_run sc = global_bit sc ∧ lo ≤ run_start sc ∧ global_bit sc ≤ hi;
  sc_free : run_free m (run_of sc) (current_run sc);
  sc_left : run_of sc = lo ∨ bit m (run_of sc - 1) = true;
  sc_none : no_hole m count lo (global_bit sc)
}.

Lemma run_of_bounds m count lo hi sc :
  scan_inv m count lo hi sc →
  lo ≤ run_of sc ∧ run_of sc + current_run sc = global_bit sc.
Proof.
  intros []. unfold run_of. destruct (Z.eqb_spec (current_run sc) 0); [lia|].
  destruct sc_run0; [done|]. lia.
Qed.

Lemma scan_inv_init m count lo hi :
  1 ≤ count → scan_inv m count lo hi (mkScan 0 0 lo).
Proof.
  intros. split; unfold run_of; cbn; try lia.
  - intros i Hi. lia.
  - intros p Hp Hle _. lia.
Qed.

(** A stretch of taken blocks ends every run. *)
Lemma scan_inv_taken m count lo hi sc x g :
  scan_inv m count lo hi sc → global_bit sc < g →
  (∀ i, global_bit sc ≤ i < g → bit m i = true) →
  scan_inv m count lo hi (mkScan 0 x g).
Proof.
  intros [] Hg Htaken. split; unfold run_of; cbn; try lia.
  - intros i Hi. lia.
  - right. apply Htaken. lia.
  - intros p Hp Hle Hfree. destruct (decide (p + count ≤ global_bit sc)).
    + by eapply sc_none0.
    + specialize (Htaken (Z.max p (global_bit sc)) ltac:(lia)).
      rewrite Hfree in Htaken by lia. done.
Qed.

(** A stretch of free blocks extends the run. *)
Lemma scan_run_free m count lo hi sc n :
  scan_inv m count lo hi sc → 0 ≤ n → run_free m (global_bit sc) n →
  run_free m (run_of sc) (current_run sc + n).
Proof.
  intros Hinv Hn Hfree i Hi. pose proof (run_of_bounds _ _ _ _ _ Hinv) as [_ Hr].
  destruct (decide (i < global_bit sc)).
  - apply (sc_free _ _ _ _ _ Hinv). lia.
  - apply Hfree. lia.
Qed.

Lemma scan_inv_free m count lo hi sc n :
  scan_inv m count lo hi sc → 0 < n → run_free m (global_bit sc) n →
  global_bit sc + n ≤ hi → current_run sc + n < count →
  scan_inv m count lo hi (mkScan (current_run sc + n) (run_of sc) (global_bit sc + n)).
Proof.
  intros Hinv Hn Hfree Hhi Hlt. pose proof (scan_run_free _ _ _ _ _ n Hinv ltac:(lia) Hfree) as Hrun.
  pose proof (run_of_bounds _ _ _ _ _ Hinv) as [Hlo Hr]. destruct Hinv.
  assert (Hro : run_of (mkScan (current_run sc + n) (run_of sc) (global_bit sc + n)) = run_of sc).
  { unfold run_of at 1. cbn. rewrite (proj2 (Z.eqb_neq _ _)) by lia. done. }
  split; rewrite ?Hro; cbn; try done; try lia.
  intros p Hp Hle Hfree'. destruct (decide (p + count ≤ global_bit sc)).
  - by eapply sc_none0.
  - destruct sc_left0 as [|Hbit]; [lia|]. rewrite Hfree' in Hbit by lia. done.
Qed.

(** What the word at the scan position says. *)
Lemma word_zero_free m g n :
  zlookup m (g / 64) = Some 0 → g mod 64 = 0 → n ≤ 64 → run_free m g n.
Proof.
  intros Hw Hg Hn i Hi. rewrite (bit_word' m i 0); [apply Z.testbit_0_l|].
  rewrite <- Hw. f_equal. zdiv.
Qed.

Lemma word_max_taken m g i :
  zlookup m (g / 64) = Some u64_max → g ≤ i < (g / 64 + 1) * 64 → bit m i = true.
Proof.
  intros Hw Hi. rewrite (bit_word' m i u64_max).
  - rewrite u64_max_testbit by zdiv. apply Z.ltb_lt. zdiv.
  - rewrite <- Hw. f_equal. zdiv.
Qed.

Lemma word_bit m g w :
  zlookup m (g / 64) = Some w → negb (Z.land w (shl64 1 (g mod 64)) =? 0) = bit m g.
Proof. intros Hw. rewrite land_single_bit, negb_involutive by zdiv. by rewrite (bit_word' m g w). Qed.

Definition scan_post (s : Segment) (count lo hi : Z) (res : Z + scan) (s' : Segment) : Prop :=
  match res with
  | inl addr => alloc_post s count (Some addr) s'
  | inr sc => s' = s ∧ scan_inv (seg_map s) count lo hi sc ∧ hi ≤ global_bit sc
  end.

(** The claim the scan makes when its run is long enough. *)
Lemma scan_claim s count lo hi sc n (k : Segment → M ((Z + scan) * Segment)) :
  seg_ok s → 1 ≤ count → 0 ≤ lo → hi ≤ max_bits s →
  scan_inv (seg_map s) count lo hi sc → 0 ≤ n → run_free (seg_map s) (global_bit sc) n →
  global_bit sc + n ≤ hi → count ≤ current_run sc + n →
  ∃ res s', ('(ok, s1) ← try_claim s (run_of sc) count;
     if ok : bool then Ret (inl (va_start s1 + run_of sc * BLOCK_SIZE),
                            with_hint s1 (run_of sc / 64))
     else k s1) = Ret (res, s') ∧ scan_post s count lo hi res s'.
Proof.
  intros Hok Hc Hlo Hhi Hinv Hn Hfree Hle Hcount.
  pose proof (scan_run_free _ _ _ _ _ n Hinv Hn Hfree) as Hrun.
  pose proof (run_of_bounds _ _ _ _ _ Hinv) as [Hl Hr].
  destruct (claim_and_return s (run_of sc) count (run_of sc / 64))
    as (s1 & -> & Hva & Hpost); try done; try lia.
  - intros i Hi. apply Hrun. lia.
  - rewrite (ok_len _ Hok). zdiv.
  - rewrite bind_ret, Hva. eexists _, _. split; [done|]. done.
Qed.

Lemma multi_scan_loop_spec fuel s count lo hi sc :
  seg_ok s → 1 ≤ count → 0 ≤ lo → hi ≤ max_bits s →
  scan_inv (seg_map s) count lo hi sc → hi - global_bit sc ≤ Z.of_nat fuel →
  ∃ res s', multi_scan_loop fuel s count hi sc = Ret (res, s') ∧ scan_post s count lo hi res s'.
Proof.
  intros Hok Hc Hlo Hhi. revert sc.
  induction fuel as [|fuel IH]; intros sc Hinv Hfuel; cbn [multi_scan_loop];
    destruct (Z.ltb_spec (global_bit sc) hi) as [Hlt|Hge].
  1: lia.
  1, 3: eexists _, _; split; [done|]; done.
  pose proof (seg_bits_le _ Hok) as Hbits. pose proof (sc_pos _ _ _ _ _ Hinv) as Hpos.
  set (g := global_bit sc) in *.
  destruct (vget_in_bounds (seg_map s) (g / 64)) as (w & -> & Hw); [zdiv|].
  rewrite bind_ret. fold (run_of sc).
  destruct ((g mod 64 =? 0) && (w =? 0)) eqn:Efast.
  { apply andb_true_iff in Efast as [Hg%Z.eqb_eq Hw0%Z.eqb_eq]. subst w.
    pose proof (word_zero_free _ _ (Z.min 64 (hi - g)) Hw Hg ltac:(lia)) as Hfree.
    destruct (Z.leb_spec count (current_run sc + Z.min 64 (hi - g))).
    - by eapply (scan_claim _ _ _ _ _ (Z.min 64 (hi - g))); try done; try (fold g; lia).
    - apply IH; [|cbn; fold g; lia]. apply scan_inv_free; (done || fold g; lia). }
  destruct (Z.eqb_spec w u64_max) as [->|Hmax].
  { apply IH; [|cbn; zdiv]. eapply scan_inv_taken; [done|fold g; zdiv|].
    intros i Hi. eapply word_max_taken; [exact Hw|]. done. }
  rewrite (word_bit _ _ _ Hw). destruct (bit (seg_map s) g) eqn:Ebit.
  { apply IH; [|cbn; lia]. eapply scan_inv_taken; [done|fold g; lia|].
    fold g. intros i Hi. replace i with g by lia. done. }
  assert (Hfree : run_free (seg_map s) g 1) by (intros i Hi; by replace i with g by lia).
  pose proof (sc_cur _ _ _ _ _ Hinv) as Hcur.
  destruct (Z.eqb_spec (current_run sc + 1) count).
  - by eapply (scan_claim _ _ _ _ _ 1); try done; try (fold g; lia).
  - apply IH; [|cbn; lia]. apply scan_inv_free; (done || fold g; lia).
Qed.

Lemma extend_loop_spec fuel m total need b extend :
  0 ≤ b → total ≤ zlen m * 64 → 0 ≤ extend ≤ need → need - extend ≤ Z.of_nat fuel →
  ∃ e, extend_loop fuel m total need b extend = Ret (extend + e) ∧
    0 ≤ e ≤ need - extend ∧ (0 < e → b + e ≤ total) ∧ run_free m b e ∧
    (extend + e < need → b + e < total → bit m (b + e) = true).
Proof.
  revert b extend. induction fuel as [|fuel IH]; intros b ext Hb Ht He Hf; cbn [extend_loop];
    destruct ((b <? total) && (ext <? need)) eqn:E.
  1: apply andb_true_iff in E as [_ ?%Z.ltb_lt]; lia.
  1, 3: exists 0; apply andb_false_iff in E; rewrite Z.add_0_r, !Z.ltb_ge in *;
    split_and!; try done; try lia; intros i Hi; lia.
  apply andb_true_iff in E as [Hlt%Z.ltb_lt Hne%Z.ltb_lt].
  destruct (vget_in_bounds m (b / 64)) as (w & -> & Hw); [zdiv|].
  rewrite bind_ret, (word_bit _ _ _ Hw). destruct (bit m b) eqn:Ebit.
  { exists 0. rewrite !Z.add_0_r. split_and!; try done; try lia. intros i Hi; lia. }
  destruct (IH (b + 1) (ext + 1)) as (e & -> & He' & Hbt & Hrun & Hstop); try lia.
  exists (e + 1). split_and!; try lia.
  - f_equal. lia.
  - intros i Hi. destruct (decide (i = b)) as [->|]; [done|]. apply Hrun. lia.
  - intros. replace (b + (e + 1)) with (b + 1 + e) by lia. apply Hstop; lia.
Qed.

(** A range scanned to its end. *)
Lemma multi_scan_range s count lo hi :
  seg_ok s → 1 ≤ count → 0 ≤ lo ≤ hi → hi ≤ max_bits s →
  ∃ res s', multi_scan_loop (Z.to_nat (hi - lo)) s count hi (mkScan 0 0 lo) = Ret (res, s') ∧
    scan_post s count lo hi res s'.
Proof.
  intros. apply multi_scan_loop_spec; try done; try lia; [by apply scan_inv_init|cbn; lia].
Qed.

Lemma scan_done_no_hole m count lo hi sc :
  scan_inv m count lo hi sc → hi ≤ global_bit sc → no_hole m count lo hi.
Proof. intros [] Hle p Hp Hpl. apply sc_none0; lia. Qed.

Lemma multi_range_first s count sb :
  seg_ok s → 1 ≤ count → 0 ≤ sb < max_bits s →
  ∃ res s', multi_range s count (max_bits s) sb sb (max_bits s) = Ret (res, s') ∧
    alloc_post s count res s' ∧
    (res = None → no_hole (seg_map s) count sb (max_bits s)).
Proof.
  intros Hok Hc Hsb. unfold multi_range.
  destruct (multi_scan_range s count sb (max_bits s)) as ([addr|sc] & s' & -> & Hpost);
    try done; try lia; rewrite bind_ret.
  - by exists (Some addr), s'.
  - destruct Hpost as (-> & Hinv & Hge).
    rewrite (proj2 (Z.eqb_neq (max_bits s) sb)), andb_false_r by lia. cbn.
    exists None, s. split_and!; try done. intros _. by eapply scan_done_no_hole.
Qed.

(** The second range: besides the holes inside it, the run at its end is joined
    with the free blocks that follow. *)
Lemma multi_range_second s count sb :
  seg_ok s → 1 ≤ count → 0 ≤ sb < max_bits s →
  ∃ res s', multi_range s count (max_bits s) sb 0 sb = Ret (res, s') ∧
    alloc_post s count res s' ∧
    (res = None → ∀ p, 0 ≤ p < sb → p + count ≤ max_bits s → ¬ run_free (seg_map s) p count).
Proof.
  intros Hok Hc Hsb. unfold multi_range. pose proof (seg_bits_le _ Hok) as Hbits.
  destruct (multi_scan_range s count 0 sb) as ([addr|sc] & s' & -> & Hpost);
    try done; try lia; rewrite bind_ret.
  { by exists (Some addr), s'. }
  destruct Hpost as (-> & Hinv & Hge). pose proof (scan_done_no_hole _ _ _ _ _ Hinv Hge) as Hnone.
  pose proof (sc_cur _ _ _ _ _ Hinv) as Hcur. pose proof (sc_left _ _ _ _ _ Hinv) as Hleft.
  rewrite !Z.eqb_refl. cbn [andb]. destruct (Z.ltb_spec 0 (current_run sc)) as [Hpos|Hzero].
  2: { exists None, s. split_and!; try done. intros _ p Hp Hle Hfree.
       assert (Hcr : current_run sc = 0) by lia. unfold run_of in Hleft.
       rewrite Hcr, Z.eqb_refl in Hleft. destruct (decide (p + count ≤ global_bit sc)).
       - by eapply (sc_none _ _ _ _ _ Hinv p); [lia| |].
       - destruct Hleft as [|Hbit]; [lia|]. rewrite Hfree in Hbit by lia. done. }
  destruct (sc_run _ _ _ _ _ Hinv ltac:(lia)) as (Hrun & Hlo & Hhi).
  assert (Hg : global_bit sc = sb) by lia.
  pose proof (sc_free _ _ _ _ _ Hinv) as Hfree.
  unfold run_of in Hleft, Hfree. rewrite (proj2 (Z.eqb_neq _ _)) in Hleft, Hfree by lia.
  unfold saturating_sub. rewrite (proj2 (Z.ltb_lt 0 _)) by lia.
  destruct (extend_loop_spec (Z.to_nat (Z.max 0 (count - current_run sc))) (seg_map s)
     (max_bits s) (Z.max 0 (count - current_run sc)) sb 0) as (e & -> & He & Hbt & Hext & Hstop);
    try lia.
  rewrite bind_ret, Z.add_0_l.
  destruct (Z.leb_spec count (current_run sc + e)) as [Hfit|Hshort].
  - destruct (claim_and_return s (run_start sc) count (run_start sc / 64))
      as (s1 & -> & Hva & Hpost); try done; try lia.
    + intros i Hi. destruct (decide (i < sb)); [apply Hfree; lia|apply Hext; lia].
    + rewrite (ok_len _ Hok). zdiv.
    + rewrite bind_ret, Hva. eexists _, _. split; [done|]. split; [done|]. done.
  - exists None, s. split_and!; try done. intros _ p Hp Hle Hfree'.
    destruct (decide (p + count ≤ sb)); [by apply (Hnone p); [lia| |]|].
    destruct (decide (p < run_start sc)).
    + destruct Hleft as [|Hbit]; [lia|]. rewrite Hfree' in Hbit by lia. done.
    + specialize (Hstop ltac:(lia) ltac:(lia)). rewrite Hfree' in Hstop by lia. done.
Qed.

(** [alloc_multi] takes [count] consecutive free blocks, or there are none. *)
Lemma alloc_multi_post s count ar :
  seg_ok s → ar_ok ar → 1 ≤ count →
  ∃ res s' ar', alloc_multi s count ar = Ret (res, s', ar') ∧ ar_ok ar' ∧
    alloc_post s count res s' ∧ (res = None → no_hole (seg_map s) count 0 (max_bits s)).
Proof.
  intros Hok Har Hc. unfold alloc_multi. pose proof (max_bits_nonneg _ Hok) as Hmb.
  destruct ((max_bits s =? 0) || (max_bits s <? count)) eqn:E.
  { exists None, s, ar. split_and!; try done. intros _ p Hp Hle _.
    apply orb_true_iff in E as [E%Z.eqb_eq|E%Z.ltb_lt]; lia. }
  apply orb_false_iff in E as [E1%Z.eqb_neq E2%Z.ltb_ge].
  destruct (alloc_random_ok ar Har) as (r & ar' & -> & Hr & Har'). rewrite bind_ret.
  destruct (start_no_overflow s r Hok Hr) as (Hrb & Hh & Hh2).
  rewrite umul_ok, bind_ret, uadd_ok, bind_ret by done.
  set (sb := (seg_hint s * 64 + Z.land r (MAX_RANDOM_BLOCKS - 1)) mod max_bits s).
  assert (Hsb : 0 ≤ sb < max_bits s) by (unfold sb; apply Z.mod_pos_bound; lia).
  destruct (multi_range_first s count sb) as (res1 & s1 & -> & Hpost1 & Hnone1); try done.
  rewrite bind_ret. destruct res1 as [addr|].
  { exists (Some addr), s1, ar'. split_and!; done. }
  cbn in Hpost1. subst s1.
  destruct (multi_range_second s count sb) as (res2 & s2 & -> & Hpost2 & Hnone2); try done.
  rewrite bind_ret. exists res2, s2, ar'. split_and!; try done.
  intros Hn p Hp Hle. destruct (decide (p < sb)); [by apply Hnone2|].
  apply Hnone1; (done || lia).
Qed.

(** ** [free] and [realloc_inplace] *)

(** Blocks that [free] gives back: those of the range, cut at the segment's end. *)
Definition free_start (s : Segment) (addr : Z) : Z := (addr - va_start s) / BLOCK_SIZE.
Definition free_count (s : Segment) (addr size : Z) : Z :=
  Z.min ((size + BLOCK_SIZE - 1) / BLOCK_SIZE) (max_bits s - free_start s addr).

Lemma free_in_range s addr size :
  seg_ok s → va_start s ≤ addr < va_start s + max_bits s * BLOCK_SIZE →
  0 ≤ size → size + BLOCK_SIZE ≤ usize_max →
  ∃ m' h full trys,
    free s addr size = Ret (with_trys (with_full (with_hint (with_map s m') h) full) trys) ∧
    run_clear (seg_map s) m' (free_start s addr) (free_count s addr size) ∧
    words64 m' ∧ zlen m' = zlen (seg_map s) ∧ 0 ≤ h ≤ seg_hint s ∧ 0 ≤ trys < 256 ∧
    (full = true → seg_full s = true).
Proof.
  intros Hok Haddr Hs Hov. unfold free, free_start, free_count. pose proof (max_bits_nonneg _ Hok) as Hmb.
  pose proof (ok_range _ Hok) as Hr. unfold max_bits in Haddr, Hmb.
  assert (va_start s + max_bits s * BLOCK_SIZE ≤ va_end s) by (unfold max_bits, BLOCK_SIZE; zdiv).
  rewrite (proj2 (Z.ltb_ge _ _)), (proj2 (Z.leb_gt _ _)) by (unfold max_bits in *; lia). cbn [orb].
  fold (max_bits s) in *. rewrite (proj2 (Z.eqb_neq _ _)) by (unfold BLOCK_SIZE in *; lia).
  rewrite (proj2 (Z.leb_gt _ _)) by (unfold BLOCK_SIZE in *; zdiv).
  rewrite uadd_ok, bind_ret by lia.
  set (st := (addr - va_start s) / BLOCK_SIZE) in *.
  set (c0 := (size + BLOCK_SIZE - 1) / BLOCK_SIZE) in *.
  assert (Hst : 0 ≤ st < max_bits s) by (unfold st, BLOCK_SIZE in *; zdiv).
  assert (Hc0 : 0 ≤ c0) by (unfold c0, BLOCK_SIZE in *; zdiv).
  replace (if max_bits s <? st + c0 then max_bits s - st else c0)
    with (Z.min c0 (max_bits s - st)) by (case_zb; lia).
  pose proof (seg_bits_le _ Hok).
  destruct (rollback_spec s st (Z.min c0 (max_bits s - st))) as (m' & -> & Hok' & Hclear);
    try done; try lia.
  rewrite bind_ret. cbn [with_map seg_hint].
  exists m', (Z.min (st / 64) (seg_hint s)),
    (seg_full s && negb (MAX_RANDOM_BYTES <? size)),
    (if (MAX_RANDOM_BYTES <? size) && seg_full s then wrap8 (failed_trys s - 1) else failed_trys s).
  pose proof (ok_trys _ Hok) as Ht. pose proof (ok_hint _ Hok) as Hhint.
  split_and!; try done.
  - f_equal. destruct (Z.ltb_spec (st / 64) (seg_hint s));
      [rewrite Z.min_l by lia|rewrite Z.min_r by lia];
      destruct (MAX_RANDOM_BYTES <? size), (seg_full s) eqn:Ef; destruct s;
      cbn in *; subst; done.
  - apply (ok_map_words _ Hok').
  - pose proof (ok_map_len _ Hok'). rewrite (ok_map_len _ Hok). done.
  - assert (0 ≤ st / 64) by zdiv. lia.
  - lia.
  - destruct (_ && _); [unfold wrap8; apply Z.mod_pos_bound; lia|lia].
  - destruct (_ && _); [unfold wrap8; apply Z.mod_pos_bound; lia|lia].
  - by destruct (seg_full s).
Qed.

Lemma free_outside s addr size :
  addr < va_start s ∨ va_end s ≤ addr → free s addr size = Ret s.
Proof.
  intros H. unfold free. destruct ((addr <? va_start s) || (va_end s <=? addr)) eqn:E; [done|].
  apply orb_false_iff in E as [E1%Z.ltb_ge E2%Z.leb_gt]. lia.
Qed.

Lemma blocks_of_ok size :
  size + BLOCK_SIZE ≤ usize_max → blocks_of size = Ret ((size + BLOCK_SIZE - 1) / BLOCK_SIZE).
Proof. intros. unfold blocks_of. rewrite uadd_ok by done. done. Qed.

Lemma realloc_inplace_post s addr old_size new_size :
  let ob := (old_size + BLOCK_SIZE - 1) / BLOCK_SIZE in
  let nb := (new_size + BLOCK_SIZE - 1) / BLOCK_SIZE in
  let sb := (addr - va_start s) / BLOCK_SIZE in
  seg_ok s → va_start s ≤ addr → 0 ≤ old_size → 0 ≤ new_size →
  old_size + BLOCK_SIZE ≤ usize_max → new_size + BLOCK_SIZE ≤ usize_max →
  sb + ob ≤ max_bits s →
  if decide (nb = ob) then realloc_inplace s addr old_size new_size = Ret (Some (ob * BLOCK_SIZE), s)
  else if decide (nb < ob) then
    ∃ m', realloc_inplace s addr old_size new_size = Ret (Some (nb * BLOCK_SIZE), with_map s m') ∧
      seg_ok (with_map s m') ∧ run_clear (seg_map s) m' (sb + nb) (ob - nb)
  else if decide (sb + nb ≤ max_bits s ∧ run_free (seg_map s) (sb + ob) (nb - ob)) then
    ∃ m', realloc_inplace s addr old_size new_size = Ret (Some (nb * BLOCK_SIZE), with_map s m') ∧
      seg_ok (with_map s m') ∧ run_set (seg_map s) m' (sb + ob) (nb - ob)
  else realloc_inplace s addr old_size new_size = Ret (None, s).
Proof.
  intros ob nb sb Hok Haddr Ho Hn Hoo Hno Hin. unfold realloc_inplace.
  rewrite !blocks_of_ok by done. rewrite !bind_ret. fold ob nb.
  assert (Hob : 0 ≤ ob) by (unfold ob, BLOCK_SIZE; zdiv).
  assert (Hnb : 0 ≤ nb) by (unfold nb, BLOCK_SIZE; zdiv).
  assert (Hsb : 0 ≤ sb) by (unfold sb, BLOCK_SIZE; zdiv).
  pose proof (seg_bits_le _ Hok).
  case_decide as Heq; [by rewrite (proj2 (Z.eqb_eq _ _)) by done|].
  rewrite (proj2 (Z.eqb_neq _ _)) by done. rewrite usub_ok, !bind_ret by done. fold sb.
  case_decide as Hlt.
  - rewrite (proj2 (Z.ltb_lt _ _)) by done.
    destruct (rollback_spec s (sb + nb) (ob - nb)) as (m' & -> & Hok' & Hclear); try done; try lia.
    exists m'. done.
  - rewrite (proj2 (Z.ltb_ge _ _)) by lia.
    replace (sb + ob + (nb - ob)) with (sb + nb) by lia.
    destruct (Z.ltb_spec (max_bits s) (sb + nb)); [rewrite decide_False by lia; done|].
    pose proof (try_claim_spec s (sb + ob) (nb - ob) Hok ltac:(lia) ltac:(lia) ltac:(lia)) as Hclaim.
    case_decide as Hfree.
    + rewrite decide_True by (split; [lia|done]).
      destruct Hclaim as (m' & -> & Hw & Hl & Hset). exists m'.
      rewrite bind_ret. split; [done|]. split; [by apply seg_ok_with_map|done].
    + rewrite decide_False by (intros [_ ?]; done). by rewrite Hclaim.
Qed.

Lemma seg_ok_after_free s m' h full trys :
  seg_ok s → words64 m' → zlen m' = zlen (seg_map s) → 0 ≤ h ≤ seg_hint s → 0 ≤ trys < 256 →
  seg_ok (with_trys (with_full (with_hint (with_map s m') h) full) trys).
Proof. intros [] Hw Hl Hh Ht. split; cbn; try done; lia. Qed.

(** Freeing the run that a claim has just taken undoes the claim. *)
Lemma free_undoes_claim s p count m' h size s' :
  seg_ok s → 0 ≤ p → 1 ≤ count → p + count ≤ max_bits s →
  run_free (seg_map s) p count → run_set (seg_map s) m' p count →
  s' = with_hint (with_map s m') h → seg_ok s' →
  (count - 1) * BLOCK_SIZE < size ≤ count * BLOCK_SIZE →
  ∃ s'', free s' (va_start s + p * BLOCK_SIZE) size = Ret s'' ∧ seg_ok s'' ∧
    seg_map s'' = seg_map s.
Proof.
  intros Hok Hp Hc Hle Hfree Hset Hs' Hok' Hsz. pose proof (max_bits_nonneg _ Hok) as Hmb.
  assert (Hva : va_start s' = va_start s) by (by subst s').
  assert (Hmx : max_bits s' = max_bits s) by (by subst s').
  assert (Hm' : seg_map s' = m') by (by subst s').
  destruct (free_in_range s' (va_start s + p * BLOCK_SIZE) size)
    as (m2 & h2 & f2 & t2 & Heq & Hclear & Hw & Hl & Hh & Ht & _); try done.
  { rewrite Hva, Hmx. unfold BLOCK_SIZE. lia. }
  { unfold BLOCK_SIZE in *. lia. }
  { unfold BLOCK_SIZE, usize_max, u64_max in *. lia. }
  eexists. split; [exact Heq|]. split; [by apply seg_ok_after_free|]. cbn.
  assert (Hst : free_start s' (va_start s + p * BLOCK_SIZE) = p)
    by (unfold free_start, BLOCK_SIZE; rewrite Hva; zdiv).
  assert (Hct : free_count s' (va_start s + p * BLOCK_SIZE) size = count).
  { unfold free_count. rewrite Hst, Hmx. unfold BLOCK_SIZE in *. zdiv. }
  rewrite Hst, Hct, Hm' in Hclear. pose proof (ok_map_len _ Hok). pose proof (ok_map_len _ Hok').
  assert (map_len s' = map_len s) by (by subst s').
  apply bitmap_ext; [done|apply (ok_map_words _ Hok)|unfold zlen in *; lia|].
  intros i Hi. rewrite Hclear, Hset by lia. destruct (in_run p count i) eqn:E; cbn; [|done].
  symmetry. apply Hfree. by apply in_run_true.
Qed.

(** ** A concrete segment for the witnesses: 130 blocks, some of them taken *)

Definition demo_segment : Segment :=
  mkSegment 0 65536 (65536 + 130 * 4096) [0xFF00000000000007; u64_max - 4; 1]
    [0; 0; 0] 1 3 false 0.
Definition demo_rng : AllocRng := mkAllocRng true (Rng_new 12345) None.

Lemma demo_segment_ok : seg_ok demo_segment.
Proof.
  split; try done.
  repeat constructor; unfold word64, u64_max; lia.
Qed.

Lemma demo_rng_ok : ar_ok demo_rng.
Proof. split; cbn; intros; [apply Rng_new_ok; split; done|done]. Qed.

(** ** The properties *)

(** The contract of an allocation of [count] blocks: on success the address is that of a
    run of [count] blocks of the segment that were all free, and exactly these blocks are
    taken now; on failure nothing has changed and no such run exists. *)
Definition alloc_spec (s : Segment) (count : Z) (res : option Z) (s' : Segment) : Prop :=
  match res with
  | Some addr => ∃ p, addr = va_start s + p * BLOCK_SIZE ∧
      0 ≤ p ∧ p + count ≤ max_bits s ∧
      (∀ i, p ≤ i < p + count → bit (seg_map s) i = false) ∧
      (∀ i, 0 ≤ i → bit (seg_map s') i = in_run p count i || bit (seg_map s) i) ∧
      seg_claim s' = seg_claim s
  | None => s' = s ∧
      ∀ p, 0 ≤ p → p + count ≤ max_bits s → ∃ i, p ≤ i < p + count ∧ bit (seg_map s) i = true
  end.

Lemma alloc_post_spec s count res s' :
  seg_ok s → alloc_post s count res s' →
  (res = None → no_hole (seg_map s) count 0 (max_bits s)) →
  seg_ok s' ∧ alloc_spec s count res s'.
Proof.
  intros Hok Hpost Hnone. destruct res as [addr|]; cbn in *.
  - destruct Hpost as (p & m' & h & -> & Hp & Hle & Hfree & Hset & -> & Hok').
    split; [done|]. exists p. split_and!; done.
  - subst s'. split; [done|]. split; [done|]. intros p Hp Hle.
    by apply hole_or_taken, Hnone.
Qed.

(** [alloc_multi] always returns, and meets the contract of an allocation whatever the
    random start of its search: a free run of [count] blocks is found when there is one,
    also when it wraps past the start, and exactly that run is taken. *)
Theorem alloc_multi_correct s count ar :
  seg_ok s → ar_ok ar → 1 ≤ count →
  ∃ res s' ar', alloc_multi s count ar = Ret (res, s', ar') ∧ seg_ok s' ∧ ar_ok ar' ∧
    alloc_spec s count res s'.
Proof.
  intros Hok Har Hc. destruct (alloc_multi_post s count ar Hok Har Hc)
    as (res & s' & ar' & Heq & Har' & Hpost & Hnone).
  destruct (alloc_post_spec _ _ _ _ Hok Hpost Hnone). exists res, s', ar'. by split_and!.
Qed.

Lemma alloc_multi_correct_witness :
  fst <$> (fst <$> alloc_multi demo_segment 5 demo_rng) = Ret (Some (65536 + 3 * 4096)) ∧
  ∃ res s' ar', alloc_multi demo_segment 5 demo_rng = Ret (res, s', ar') ∧ seg_ok s' ∧ ar_ok ar' ∧
    alloc_spec demo_segment 5 res s'.
Proof.
  split; [vm_compute; reflexivity|].
  apply (alloc_multi_correct demo_segment 5 demo_rng);
    [apply demo_segment_ok|apply demo_rng_ok|lia].
Defined.

(** [alloc_single] always returns, and meets the contract of an allocation of one
    block: it fails only when every block of the segment is taken, and never hands out the
    unused bits of the last word. *)
Theorem alloc_single_correct s ar :
  seg_ok s → ar_ok ar →
  ∃ res s' ar', alloc_single s ar = Ret (res, s', ar') ∧ seg_ok s' ∧ ar_ok ar' ∧
    alloc_spec s 1 res s'.
Proof.
  intros Hok Har. destruct (alloc_single_post s ar Hok Har)
    as (res & s' & ar' & Heq & Har' & Hpost & Hnone).
  destruct (alloc_post_spec _ _ _ _ Hok Hpost Hnone). exists res, s', ar'. by split_and!.
Qed.

Lemma alloc_single_correct_witness :
  fst <$> (fst <$> alloc_single demo_segment demo_rng) = Ret (Some (65536 + 3 * 4096)) ∧
  ∃ res s' ar', alloc_single demo_segment demo_rng = Ret (res, s', ar') ∧ seg_ok s' ∧ ar_ok ar' ∧
    alloc_spec demo_segment 1 res s'.
Proof.
  split; [vm_compute; reflexivity|].
  apply (alloc_single_correct demo_segment demo_rng); [apply demo_segment_ok|apply demo_rng_ok].
Defined.

(** C18: freeing what [alloc_multi] returned, with the size in bytes of the request, gives
    the bitmap back exactly as it was before the allocation. *)
Theorem alloc_free_roundtrip s count ar addr s' ar' size :
  seg_ok s → ar_ok ar → 1 ≤ count → (count - 1) * BLOCK_SIZE < size ≤ count * BLOCK_SIZE →
  alloc_multi s count ar = Ret (Some addr, s', ar') →
  ∃ s'', free s' addr size = Ret s'' ∧ seg_ok s'' ∧ seg_map s'' = seg_map s.
Proof.
  intros Hok Har Hc Hsz Halloc.
  destruct (alloc_multi_post s count ar Hok Har Hc) as (res & s1 & ar1 & Heq & _ & Hpost & _).
  rewrite Halloc in Heq. simplify_eq. cbn in Hpost.
  destruct Hpost as (p & m' & h & -> & Hp & Hle & Hfree & Hset & Hs' & Hok').
  by eapply free_undoes_claim.
Qed.

Lemma alloc_free_roundtrip_witness :
  ∃ addr s' ar', alloc_multi demo_segment 5 demo_rng = Ret (Some addr, s', ar') ∧
  ∃ s'', free s' addr 20000 = Ret s'' ∧ seg_ok s'' ∧ seg_map s'' = seg_map demo_segment.
Proof.
  eexists _, _, _. split; [vm_compute; reflexivity|].
  eapply (alloc_free_roundtrip demo_segment 5 demo_rng);
    [apply demo_segment_ok|apply demo_rng_ok|lia|unfold BLOCK_SIZE; lia|vm_compute; reflexivity].
Defined.

(** [free] of a range of a segment clears exactly the bits of its blocks, cut at the
    end of the segment, keeps the segment well formed, and never moves the hint up. *)
Theorem free_correct s addr size :
  seg_ok s → va_start s ≤ addr < va_start s + max_bits s * BLOCK_SIZE →
  0 ≤ size → size + BLOCK_SIZE ≤ usize_max →
  ∃ s', free s addr size = Ret s' ∧ seg_ok s' ∧ seg_hint s' ≤ seg_hint s ∧
    ∀ i, 0 ≤ i → bit (seg_map s') i =
      negb (in_run (free_start s addr) (free_count s addr size) i) && bit (seg_map s) i.
Proof.
  intros Hok Haddr Hsz Hov.
  destruct (free_in_range s addr size Hok Haddr Hsz Hov)
    as (m' & h & full & trys & Hfree & Hclear & Hw & Hl & Hh & Ht & _).
  eexists. split; [exact Hfree|]. split; [by apply seg_ok_after_free|]. split; [cbn; lia|].
  exact Hclear.
Qed.

Lemma free_correct_witness :
  ∃ s', free demo_segment (65536 + 64 * 4096) 9000 = Ret s' ∧ seg_ok s' ∧
    seg_hint s' ≤ seg_hint demo_segment ∧
    ∀ i, 0 ≤ i → bit (seg_map s') i =
      negb (in_run (free_start demo_segment (65536 + 64 * 4096))
              (free_count demo_segment (65536 + 64 * 4096) 9000) i) && bit (seg_map demo_segment) i.
Proof.
  apply (free_correct demo_segment (65536 + 64 * 4096) 9000); 
    [apply demo_segment_ok|vm_compute; split; congruence|lia|vm_compute; congruence].
Defined.

(** [realloc_inplace] on a range of the segment: it reports the rounded new size and
    changes nothing when the number of blocks is the same; shrinking clears exactly the
    blocks past the new end; growing succeeds exactly when all the blocks that follow are
    in the segment and free, and then takes exactly these; otherwise it reports failure and
    leaves the segment as it was. *)
Theorem realloc_inplace_correct s addr old_size new_size :
  let ob := (old_size + BLOCK_SIZE - 1) / BLOCK_SIZE in
  let nb := (new_size + BLOCK_SIZE - 1) / BLOCK_SIZE in
  let sb := (addr - va_start s) / BLOCK_SIZE in
  seg_ok s → va_start s ≤ addr → 0 ≤ old_size → 0 ≤ new_size →
  old_size + BLOCK_SIZE ≤ usize_max → new_size + BLOCK_SIZE ≤ usize_max →
  sb + ob ≤ max_bits s →
  ∃ res s', realloc_inplace s addr old_size new_size = Ret (res, s') ∧ seg_ok s' ∧
    (∀ i, 0 ≤ i → bit (seg_map s') i =
       if bool_decide (res = None) then bit (seg_map s) i
       else negb (in_run (sb + nb) (ob - nb) i)
            && (in_run (sb + ob) (nb - ob) i || bit (seg_map s) i)) ∧
    (res = None ↔ ob < nb ∧ ¬ (sb + nb ≤ max_bits s ∧
       ∀ i, sb + ob ≤ i < sb + nb → bit (seg_map s) i = false)) ∧
    (∀ sz, res = Some sz → sz = nb * BLOCK_SIZE).
Proof.
  intros ob nb sb Hok Haddr Ho Hn Hoo Hno Hin.
  pose proof (realloc_inplace_post s addr old_size new_size Hok Haddr Ho Hn Hoo Hno Hin) as H.
  fold ob nb sb in H. case_decide as Heq; [|case_decide as Hlt; [|case_decide as Hfit]].
  - exists (Some (ob * BLOCK_SIZE)), s. split_and!; try done; [|split; [congruence|lia]|congruence].
    intros i Hi. cbn. rewrite !(proj2 (in_run_false _ _ _)) by lia. done.
  - destruct H as (m' & Hr & Hok' & Hclear). eexists _, _.
    split_and!; [exact Hr|done| |split; [congruence|lia]|congruence].
    intros i Hi. cbn. rewrite Hclear by done.
    by rewrite (proj2 (in_run_false (sb + ob) _ _)) by lia.
  - destruct H as (m' & Hr & Hok' & Hset). eexists _, _.
    split_and!; [exact Hr|done| | |congruence].
    + intros i Hi. cbn. rewrite Hset by done.
      by rewrite (proj2 (in_run_false (sb + nb) _ _)) by lia.
    + split; [done|]. intros [_ Hn']. exfalso. apply Hn'. destruct Hfit as [? Hfree].
      split; [done|]. intros i Hi. apply Hfree. lia.
  - exists None, s. split_and!; try done. split; [|done]. intros _. split; [lia|].
    intros [? Hfree]. apply Hfit. split; [done|]. intros i Hi. apply Hfree. lia.
Qed.

Lemma realloc_inplace_correct_witness :
  fst <$> realloc_inplace demo_segment 65536 (3 * 4096) (56 * 4096) = Ret (Some (56 * 4096)) ∧
  fst <$> realloc_inplace demo_segment 65536 (3 * 4096) (57 * 4096) = Ret None ∧
  ∃ res s', realloc_inplace demo_segment 65536 (3 * 4096) (57 * 4096) = Ret (res, s') ∧ seg_ok s' ∧
    (∀ i, 0 ≤ i → bit (seg_map s') i =
       if bool_decide (res = None) then bit (seg_map demo_segment) i
       else negb (in_run (0 + 57) (3 - 57) i)
            && (in_run (0 + 3) (57 - 3) i || bit (seg_map demo_segment) i)) ∧
    (res = None ↔ 3 < 57 ∧ ¬ (0 + 57 ≤ max_bits demo_segment ∧
       ∀ i, 0 + 3 ≤ i < 0 + 57 → bit (seg_map demo_segment) i = false)) ∧
    (∀ sz, res = Some sz → sz = 57 * BLOCK_SIZE).
Proof.
  split; [vm_compute; reflexivity|]. split; [vm_compute; reflexivity|].
  apply (realloc_inplace_correct demo_segment 65536 (3 * 4096) (57 * 4096));
    [apply demo_segment_ok|..]; vm_compute; congruence.
Defined.
