(* ===== verification/ClaimRace.v ===== *)
(** * Threads racing in [try_claim] (src/src/va/bitmap.rs)

    The same loops as [Segment.try_claim], one atomic access at a time, for any
    number of threads that share the two bitmaps.  Accesses are interleaved in
    any order ([compare_exchange_weak] may also fail spuriously).

    Two results: the claim bits exclude (a claim bit is set exactly when one
    thread, and only one, is between taking it and giving it back), but the
    claims as a whole do not: the map word is read before the claim word is
    swapped, so a thread that was delayed between the two can succeed on blocks
    that another thread has taken in the meantime. *)

From S2P Require Import Prelude Bits Lib Rng Segment SegmentSpec.

(** Where a thread is in [try_claim start count]; [p] is [bits_processed]. *)
Inductive tstate : Type :=
| TClaim (start count p : Z)            (* about to load the claim word *)
| TCheck (start count p claim_val : Z)  (* about to load the map word *)
| TCas (start count p claim_val : Z)    (* about to swap the claim word *)
| TUndo (start count p : Z)             (* in [rollback_claim start count] *)
| TPublish (start count p : Z)          (* in the loop of [fetch_or] *)
| TRelease (start count p : Z)          (* in the loop of [fetch_and] *)
| TDone (ok : bool) (start count : Z).

(** One atomic access of a thread to the bitmaps [m] and [c]. *)
Definition thread_step (spurious : bool) (m c : list Z) (t : tstate)
    : option (list Z * list Z * tstate) :=
  match t with
  | TClaim start count p =>
      if p <? count then
        v ← zlookup c (chunk_idx start p); Some (m, c, TCheck start count p v)
      else Some (m, c, TPublish start count 0)
  | TCheck start count p v =>
      map_val ← zlookup m (chunk_idx start p);
      if negb (Z.land (Z.lor v map_val) (step_mask start count p) =? 0)
      then Some (m, c, TUndo start p 0)
      else Some (m, c, TCas start count p v)
  | TCas start count p v =>
      actual ← zlookup c (chunk_idx start p);
      if (actual =? v) && negb spurious then
        Some (m, zinsert c (chunk_idx start p) (Z.lor v (step_mask start count p)),
              TClaim start count (p + bits_in_this_chunk start count p))
      else Some (m, c, TCheck start count p actual)
  | TUndo start count p =>
      if p <? count then
        v ← zlookup c (chunk_idx start p);
        Some (m, zinsert c (chunk_idx start p) (fetch_and_not v (step_mask start count p)),
              TUndo start count (p + bits_in_this_chunk start count p))
      else Some (m, c, TDone false start count)
  | TPublish start count p =>
      if p <? count then
        v ← zlookup m (chunk_idx start p);
        Some (zinsert m (chunk_idx start p) (fetch_or v (step_mask start count p)), c,
              TPublish start count (p + bits_in_this_chunk start count p))
      else Some (m, c, TRelease start count 0)
  | TRelease start count p =>
      if p <? count then
        v ← zlookup c (chunk_idx start p);
        Some (m, zinsert c (chunk_idx start p) (fetch_and_not v (step_mask start count p)),
              TRelease start count (p + bits_in_this_chunk start count p))
      else Some (m, c, TDone true start count)
  | TDone _ _ _ => None
  end.

Record cstate : Type := mkC { c_map : list Z; c_claim : list Z; c_threads : list tstate }.

(** Some thread makes one access. *)
Inductive cstep : cstate → cstate → Prop :=
| CStep tid spurious m c ts t m' c' t' :
    ts !! tid = Some t →
    thread_step spurious m c t = Some (m', c', t') →
    cstep (mkC m c ts) (mkC m' c' (<[tid := t']> ts)).

(** A schedule: which thread moves next. *)
Fixpoint run_schedule (sched : list nat) (st : cstate) : option cstate :=
  match sched with
  | [] => Some st
  | tid :: sched =>
      t ← c_threads st !! tid;
      '(m', c', t') ← thread_step false (c_map st) (c_claim st) t;
      run_schedule sched (mkC m' c' (<[tid := t']> (c_threads st)))
  end.

Lemma run_schedule_steps sched st st' :
  run_schedule sched st = Some st' → rtc cstep st st'.
Proof.
  revert st. induction sched as [|tid sched IH]; intros [m c ts] H; cbn in H.
  - simplify_eq. constructor.
  - destruct (ts !! tid) as [t|] eqn:Ht; cbn in H; [|done].
    destruct (thread_step false m c t) as [[[m' c'] t']|] eqn:Hs; cbn in H; [|done].
    econstructor; [by econstructor|]. by apply IH.
Qed.

(** ** Which claim bits a thread holds *)

Definition owns (t : tstate) (i : Z) : bool :=
  match t with
  | TClaim s n p | TCheck s n p _ | TCas s n p _ => in_run s p i
  | TUndo s n p | TRelease s n p => in_run (s + p) (n - p) i
  | TPublish s n p => in_run s n i
  | TDone _ _ _ => false
  end.

(** The range of the call lies in the bitmap, and the loop variable in the range;
    before the swap, the loaded word has none of the wanted bits. *)
Definition thread_ok (c : list Z) (t : tstate) : Prop :=
  match t with
  | TClaim s n p | TUndo s n p | TPublish s n p | TRelease s n p =>
      0 ≤ s ∧ 0 ≤ p ≤ n ∧ s + n ≤ zlen c * 64
  | TCheck s n p v => 0 ≤ s ∧ 0 ≤ p < n ∧ s + n ≤ zlen c * 64
  | TCas s n p v =>
      0 ≤ s ∧ 0 ≤ p < n ∧ s + n ≤ zlen c * 64 ∧ Z.land v (step_mask s n p) = 0
  | TDone _ _ _ => True
  end.

(** The claim bitmap and the threads agree. *)
Record claims_inv (st : cstate) : Prop := {
  ci_words : words64 (c_claim st);
  ci_threads : ∀ tid t, c_threads st !! tid = Some t → thread_ok (c_claim st) t;
  ci_excl : ∀ i tid1 tid2 t1 t2, 0 ≤ i →
    c_threads st !! tid1 = Some t1 → c_threads st !! tid2 = Some t2 →
    owns t1 i = true → owns t2 i = true → tid1 = tid2;
  ci_set : ∀ i tid t, 0 ≤ i → c_threads st !! tid = Some t → owns t i = true →
    bit (c_claim st) i = true;
  ci_only : ∀ i, 0 ≤ i → bit (c_claim st) i = true →
    ∃ tid t, c_threads st !! tid = Some t ∧ owns t i = true
}.

(** One step of the two loops that give claim bits back. *)
Lemma release_step (c c' : list Z) (m m' : list Z) (s n p : Z) (K : Z → Z → Z → tstate) t' :
  K = TUndo ∨ K = TRelease →
  words64 c → 0 ≤ s → 0 ≤ p < n → s + n ≤ zlen c * 64 →
  (v ← zlookup c (chunk_idx s p);
   Some (m, zinsert c (chunk_idx s p) (fetch_and_not v (step_mask s n p)),
         K s n (p + bits_in_this_chunk s n p))) = Some (m', c', t') →
  words64 c' ∧ zlen c' = zlen c ∧ thread_ok c t' ∧
  ∀ i, 0 ≤ i →
    (bit c' i = bit c i ∧ owns t' i = owns (K s n p) i) ∨
    (bit c i = false ∧ bit c' i = true ∧ owns t' i = true) ∨
    (owns (K s n p) i = true ∧ bit c' i = false ∧ owns t' i = false).
Proof.
  intros HK Hw Hs Hp Hlen Heq.
  destruct (zlookup c _) as [v|] eqn:E; cbn in Heq; simplify_eq.
  pose proof (bits_in_this_chunk_bounds s n p Hs Hp) as Hb.
  pose proof (word_step fetch_and_not _ c v s n p fetch_and_not_bitwise Hw Hs Hp Hlen E) as Hbit.
  set (b := bits_in_this_chunk s n p) in *.
  assert (Ho : ∀ q i, owns (K s n q) i = in_run (s + q) (n - q) i) by (by destruct HK; subst K).
  split_and!.
  - apply words64_zinsert; [done|]. apply (bitwise_word _ _ fetch_and_not_bitwise);
      eauto using zlookup_word64 with ox.
  - apply zlen_zinsert.
  - destruct HK; subst K; cbn; lia.
  - intros i Hi. rewrite Hbit, !Ho by done.
    destruct (in_run (s + p) b i) eqn:Er; cbn.
    + right; right. rewrite andb_false_r. apply in_run_true in Er.
      split_and!; [apply in_run_true; lia|done|apply in_run_false; lia].
    + left. split; [done|]. apply in_run_false in Er.
      destruct (in_run (s + p) (n - p) i) eqn:E1; rewrite ?in_run_true, ?in_run_false in *; lia.
Qed.

(** The swap of the claim word takes the bits of one word. *)
Lemma claim_step c s n p v :
  words64 c → 0 ≤ s → 0 ≤ p < n → s + n ≤ zlen c * 64 → Z.land v (step_mask s n p) = 0 →
  zlookup c (chunk_idx s p) = Some v →
  let c' := zinsert c (chunk_idx s p) (Z.lor v (step_mask s n p)) in
  let p' := p + bits_in_this_chunk s n p in
  words64 c' ∧ zlen c' = zlen c ∧ thread_ok c (TClaim s n p') ∧
  ∀ i, 0 ≤ i →
    (bit c' i = bit c i ∧ in_run s p' i = in_run s p i) ∨
    (bit c i = false ∧ bit c' i = true ∧ in_run s p' i = true).
Proof.
  intros Hw Hs Hp Hlen Hz E c' p'. pose proof (bits_in_this_chunk_bounds s n p Hs Hp) as Hb.
  pose proof (word_step fetch_or orb c v s n p fetch_or_bitwise Hw Hs Hp Hlen E) as Hbit.
  split; [|split; [apply zlen_zinsert|split; [cbn; lia|]]].
  { apply words64_zinsert; [done|]. apply word64_lor; eauto using zlookup_word64 with ox. }
  intros i Hi. unfold fetch_or in Hbit. unfold c', p'. rewrite Hbit by done.
  destruct (in_run (s + p) (bits_in_this_chunk s n p) i) eqn:Er.
  - right. assert (bit c i = false) as Hc.
    { rewrite <- chunk_in_run in Er by lia. apply andb_true_iff in Er as [Hd%Z.eqb_eq Er].
      rewrite (bit_word' _ _ v) by (by rewrite Hd).
      rewrite land_zero_bits in Hz. destruct (Z.testbit v (i mod 64)) eqn:Ev; [|done].
      specialize (Hz (i mod 64) ltac:(zdiv) Ev). rewrite step_mask_testbit in Hz by zdiv. congruence. }
    rewrite Hc. split_and!; try done. apply in_run_true in Er. apply in_run_true. lia.
  - left. split; [done|]. apply in_run_false in Er.
    destruct (in_run s p i) eqn:E1; rewrite ?in_run_true, ?in_run_false in *; lia.
Qed.

(** What one access does to the bits: the claim bits of the thread and those of the
    bitmap change together, and only where the thread may. *)
Lemma thread_step_claims sp m c t m' c' t' :
  words64 c → thread_ok c t → thread_step sp m c t = Some (m', c', t') →
  words64 c' ∧ zlen c' = zlen c ∧ thread_ok c t' ∧
  ∀ i, 0 ≤ i →
    (bit c' i = bit c i ∧ owns t' i = owns t i) ∨
    (bit c i = false ∧ bit c' i = true ∧ owns t' i = true) ∨
    (owns t i = true ∧ bit c' i = false ∧ owns t' i = false).
Proof.
  intros Hw Hok Hstep. destruct t as [s n p|s n p v|s n p v|s n p|s n p|s n p|ok s n];
    cbn [thread_step] in Hstep.
  - destruct (Z.ltb_spec p n).
    + destruct (zlookup c _) eqn:E; cbn in Hstep; simplify_eq. cbn in *.
      split_and!; try done; try lia. intros; by left.
    + simplify_eq. cbn in *. assert (p = n) as -> by lia. split_and!; try done; try lia.
      intros; by left.
  - destruct (zlookup m _) eqn:E; cbn in Hstep; [|done].
    destruct (Z.eqb_spec (Z.land (Z.lor v z) (step_mask s n p)) 0) as [Hz|]; cbn in Hstep; simplify_eq; cbn in *.
    + split_and!; try done; try lia.
      * rewrite Z.land_lor_distr_l in Hz. apply Z.lor_eq_0_iff in Hz as [? _]. done.
      * intros; by left.
    + split_and!; try done; try lia. intros. left. by rewrite Z.add_0_r, Z.sub_0_r.
  - destruct Hok as (Hs & Hp & Hlen & Hz).
    destruct (zlookup c _) as [a|] eqn:E; cbn in Hstep; [|done].
    destruct ((a =? v) && negb sp) eqn:Eq; simplify_eq; cbn.
    + apply andb_true_iff in Eq as [->%Z.eqb_eq _].
      destruct (claim_step c s n p v Hw Hs Hp Hlen Hz E) as (Hw' & Hl' & Hok' & Hbits).
      do 3 (split; [done|]). intros i Hi. destruct (Hbits i Hi) as [?|?]; auto.
    + split_and!; try done; try lia. intros; by left.
  - destruct Hok as (Hs & Hp & Hlen). destruct (Z.ltb_spec p n).
    + apply (release_step c c' m m' s n p TUndo t'); [by left|done|done|lia|done|exact Hstep].
    + simplify_eq. split_and!; try done. intros i Hi. left. split; [done|]. cbn.
      symmetry. apply in_run_false. lia.
  - destruct Hok as (Hs & Hp & Hlen). destruct (Z.ltb_spec p n).
    + pose proof (bits_in_this_chunk_bounds s n p Hs ltac:(lia)) as Hb.
      destruct (zlookup m _) eqn:E; cbn in Hstep; simplify_eq. cbn.
      split_and!; try done; try lia. intros; by left.
    + simplify_eq. cbn. split_and!; try done; try lia. intros. left.
      by rewrite Z.add_0_r, Z.sub_0_r.
  - destruct Hok as (Hs & Hp & Hlen). destruct (Z.ltb_spec p n).
    + apply (release_step c c' m m' s n p TRelease t'); [by right|done|done|lia|done|exact Hstep].
    + simplify_eq. split_and!; try done. intros i Hi. left. split; [done|]. cbn.
      symmetry. apply in_run_false. lia.
  - done.
Qed.

Lemma thread_ok_len c c' t : zlen c' = zlen c → thread_ok c t → thread_ok c' t.
Proof. intros Hl. destruct t; cbn; rewrite ?Hl; done. Qed.

(** Every access keeps the agreement. *)
Lemma claims_inv_step st st' : claims_inv st → cstep st st' → claims_inv st'.
Proof.
  intros [Hw Hth Hex Hset Honly] Hstep. destruct Hstep as [tid sp m c ts t m' c' t' Ht Hs]. cbn in *.
  destruct (thread_step_claims sp m c t m' c' t' Hw (Hth _ _ Ht) Hs) as (Hw' & Hl & Hok' & Hbits).
  pose proof (lookup_lt_Some _ _ _ Ht) as Hlt.
  assert (Hcase : ∀ k u, <[tid:=t']> ts !! k = Some u →
            (k = tid ∧ u = t') ∨ (k ≠ tid ∧ ts !! k = Some u)).
  { intros k u Hk. apply list_lookup_insert_Some in Hk as [(<- & <- & _)|[? ?]]; [by left|right; by split]. }
  split; cbn.
  - done.
  - intros k u Hk. destruct (Hcase _ _ Hk) as [[-> ->]|[_ Hk']].
    + by eapply thread_ok_len.
    + eapply thread_ok_len; [done|]. by eapply Hth.
  - intros i k1 k2 u1 u2 Hi Hk1 Hk2 Ho1 Ho2.
    assert (Hother : ∀ k u, k ≠ tid → ts !! k = Some u → owns u i = true →
              owns t' i = true → False).
    { intros k u Hne Hk Hou Hot. pose proof (Hset i _ _ Hi Hk Hou) as Hb.
      destruct (Hbits i Hi) as [[_ Heq]|[(Hf & _ & _)|(_ & _ & Hf)]]; [|congruence..].
      rewrite Hot in Heq. apply Hne. by eapply (Hex i k tid u t). }
    destruct (Hcase _ _ Hk1) as [[-> ->]|[Hne1 Hk1']], (Hcase _ _ Hk2) as [[-> ->]|[Hne2 Hk2']].
    + done.
    + exfalso. by eapply Hother.
    + exfalso. by eapply Hother.
    + by eapply Hex.
  - intros i k u Hi Hk Ho. destruct (Hcase _ _ Hk) as [[-> ->]|[Hne Hk']].
    + destruct (Hbits i Hi) as [[-> Heq]|[(_ & ? & _)|(_ & _ & Hf)]]; [|done|congruence].
      apply (Hset i _ _ Hi Ht). congruence.
    + pose proof (Hset i _ _ Hi Hk' Ho) as Hb.
      destruct (Hbits i Hi) as [[-> _]|[(_ & ? & _)|(Hot & _ & _)]]; [done|done|].
      exfalso. apply Hne. by eapply (Hex i k tid u t).
  - intros i Hi Hb. destruct (Hbits i Hi) as [[Hc Heq]|[(_ & _ & Ho)|(_ & Hf & _)]]; [| |congruence].
    + rewrite Hc in Hb. destruct (Honly i Hi Hb) as (k & u & Hk & Hou).
      destruct (decide (k = tid)) as [->|Hne].
      * exists tid, t'. rewrite list_lookup_insert_eq by done. split; [done|]. congruence.
      * exists k, u. by rewrite list_lookup_insert_ne.
    + exists tid, t'. by rewrite list_lookup_insert_eq.
Qed.

(** Calls about to start on a bitmap with no claims. *)
Definition calls (l : list (Z * Z)) : list tstate := (λ '(s, n), TClaim s n 0) <$> l.

Lemma claims_inv_init m k l :
  Forall (λ '(s, n), 0 ≤ s ∧ 0 ≤ n ∧ s + n ≤ Z.of_nat k * 64) l →
  claims_inv (mkC m (zero_map k) (calls l)).
Proof.
  intros Hl.
  assert (Hcall : ∀ tid t, calls l !! tid = Some t → ∃ s n, t = TClaim s n 0 ∧
            0 ≤ s ∧ 0 ≤ n ∧ s + n ≤ Z.of_nat k * 64).
  { intros tid t Ht. unfold calls in Ht. rewrite list_lookup_fmap in Ht.
    destruct (l !! tid) as [[s n]|] eqn:E; cbn in Ht; [|done]. simplify_eq.
    rewrite Forall_lookup in Hl. specialize (Hl _ _ E). by exists s, n. }
  assert (Hno : ∀ tid t i, calls l !! tid = Some t → owns t i = false).
  { intros tid t i Ht. destruct (Hcall _ _ Ht) as (s & n & -> & _). cbn. apply in_run_false. lia. }
  split; cbn.
  - apply words64_zero_map.
  - intros tid t Ht. destruct (Hcall _ _ Ht) as (s & n & -> & ?). cbn.
    unfold zlen, zero_map. rewrite length_replicate. lia.
  - intros i tid1 tid2 t1 t2 _ Ht1 _ Ho1. rewrite (Hno _ _ _ Ht1) in Ho1. done.
  - intros i tid t _ Ht Ho. rewrite (Hno _ _ _ Ht) in Ho. done.
  - intros i _ Hb. rewrite bit_zero_map in Hb. done.
Qed.

Lemma claims_inv_reach st st' : rtc cstep st st' → claims_inv st → claims_inv st'.
Proof. induction 1; eauto using claims_inv_step. Qed.

(** ** The properties *)

(** C23: mutual exclusion on claim bits.  Whatever threads call [try_claim] on whatever
    ranges of a bitmap without claims, and however their accesses interleave, a claim bit
    is set exactly while one thread holds it, and never two: no claim leaks, none is lost,
    and a thread that rolls back or releases clears none of another thread's bits. *)
Theorem claim_bits_exclusive m k l st :
  Forall (λ '(s, n), 0 ≤ s ∧ 0 ≤ n ∧ s + n ≤ Z.of_nat k * 64) l →
  rtc cstep (mkC m (zero_map k) (calls l)) st →
  ∀ i, 0 ≤ i →
    (bit (c_claim st) i = true ↔
     ∃ tid t, c_threads st !! tid = Some t ∧ owns t i = true) ∧
    (∀ tid1 tid2 t1 t2, c_threads st !! tid1 = Some t1 → c_threads st !! tid2 = Some t2 →
       owns t1 i = true → owns t2 i = true → tid1 = tid2).
Proof.
  intros Hl Hr i Hi. destruct (claims_inv_reach _ _ Hr (claims_inv_init m k l Hl)) as [_ _ Hex Hset Honly].
  split; [split|].
  - by apply Honly.
  - intros (tid & t & Ht & Ho). by eapply Hset.
  - intros. by eapply (Hex i).
Qed.

Lemma claim_bits_exclusive_witness :
  ∃ st, run_schedule [0; 0; 0; 1; 0; 1; 1]%nat
          (mkC [0; 0] (zero_map 2) (calls [(60, 10); (62, 4)])) = Some st ∧
  ∀ i, 0 ≤ i →
    (bit (c_claim st) i = true ↔
     ∃ tid t, c_threads st !! tid = Some t ∧ owns t i = true) ∧
    (∀ tid1 tid2 t1 t2, c_threads st !! tid1 = Some t1 → c_threads st !! tid2 = Some t2 →
       owns t1 i = true → owns t2 i = true → tid1 = tid2).
Proof.
  eexists. split; [vm_compute; reflexivity|].
  eapply (claim_bits_exclusive [0; 0] 2 [(60, 10); (62, 4)]).
  - repeat constructor; lia.
  - apply (run_schedule_steps [0; 0; 0; 1; 0; 1; 1]%nat). vm_compute. reflexivity.
Defined.

(** The schedule of the race: thread 1 loads the claim word and the map word, thread 0
    then runs [try_claim] from start to end, and thread 1 resumes with its swap, which
    succeeds because the claim word is clear again. *)
Definition race_schedule : list nat :=
  ([1; 1] ++ replicate 8 0 ++ replicate 6 1)%nat.

(** C24: two calls of [try_claim] can both succeed on the same free block.  The map word is
    loaded before the claim word is swapped and not again after it, and the claim bits are
    cleared after publication, so the swap cannot notice that the block was taken in
    between: both threads return [true] for block 0 of an empty segment. *)
Theorem try_claim_double_allocation :
  ∃ st, rtc cstep (mkC [0] [0] (calls [(0, 1); (0, 1)])) st ∧
    c_threads st = [TDone true 0 1; TDone true 0 1] ∧
    c_map st = [1] ∧ c_claim st = [0].
Proof.
  destruct (run_schedule race_schedule (mkC [0] [0] (calls [(0, 1); (0, 1)]))) as [st|] eqn:E.
  - exists st. split; [by eapply run_schedule_steps|].
    vm_compute in E. injection E as <-. done.
  - vm_compute in E. discriminate E.
Qed.
