(* ===== verification/HashMap.v ===== *)
(** * Metadata of big allocations (src/src/internals/hashmap.rs)

    An open-addressing hash table with linear probing and tombstones.  Every
    public operation runs under the map's lock, so it is one function here.

    [BigMap] is the interface the rest of the allocator uses: a finite map from
    header addresses to metadata.  The table implements it (HashMapSpec.v). *)

From S2P Require Import Prelude Bits Lib.

Definition STATE_EMPTY : Z := 0.
Definition STATE_OCCUPIED : Z := 1.
Definition STATE_TOMBSTONE : Z := 2.

Definition LOAD_NUM : Z := 7.
Definition LOAD_DEN : Z := 10.
Definition INITIAL_CAP : Z := 16 * 1024.

Record BigAllocMeta : Type := mkMeta {
  meta_size : Z;
  meta_class : Z;
  meta_life_time : Z;
  meta_flags : Z
}.
Definition meta_default : BigAllocMeta := mkMeta 0 0 0 0.

#[export] Instance BigAllocMeta_eq_dec : EqDecision BigAllocMeta.
Proof. solve_decision. Defined.

Record Entry : Type := mkEntry { e_key : Z; e_meta : BigAllocMeta; e_state : Z }.
Definition ENTRY_SIZE : Z := 40.

(** [bm_ptr = None] is the null pointer. *)
Record BigAllocMap : Type := mkMap {
  bm_ptr : option (list Entry);
  bm_cap : Z;
  bm_len : Z;
  bm_tombstones : Z
}.
Definition BigAllocMap_new : BigAllocMap := mkMap None 0 0 0.

Definition hash_key (key : Z) : Z :=
  let x := key in
  let x := Z.lxor x (shr64 x 33) in
  let x := wrapping_mul64 x 0xff51afd7ed558ccd in
  let x := Z.lxor x (shr64 x 33) in
  let x := wrapping_mul64 x 0xc4ceb9fe1a85ec53 in
  let x := Z.lxor x (shr64 x 33) in
  x.

Section HashMap.
(** Whether the kernel grants an anonymous mapping of so many bytes; the mapping
    is zero-filled, so every entry starts [STATE_EMPTY].  A table asks for no size twice, since
    its capacity grows and a refusal ends the process: so a function of the size stands for the
    answers of any kernel. *)
Context (mmap_ok : Z → bool).

Definition zero_entry : Entry := mkEntry 0 meta_default STATE_EMPTY.

Definition alloc_raw (cap : Z) : M (list Entry) :=
  size ← umul cap ENTRY_SIZE;
  if mmap_ok size then Ret (replicate (Z.to_nat cap) zero_entry)
  else log_and_abort OutOfMemory.

Definition alloc_table (cap : Z) : M BigAllocMap :=
  ptr ← alloc_raw cap;
  Ret (mkMap (Some ptr) cap 0 0).

(** [for _ in 0..cap { .. }] of [reinsert]: the first slot not occupied. *)
Fixpoint reinsert_loop (n : nat) (table : list Entry) (cap : Z) (key : Z)
    (meta : BigAllocMeta) (idx : Z) : M (list Entry) :=
  match n with
  | O => log_and_abort OutOfMemory
  | S n =>
      entry ← vget table idx;
      if negb (e_state entry =? STATE_OCCUPIED)
      then vset table idx (mkEntry key meta STATE_OCCUPIED)
      else reinsert_loop n table cap key meta (Z.land (idx + 1) (cap - 1))
  end.

Definition reinsert (table : list Entry) (cap key : Z) (meta : BigAllocMeta) : M (list Entry) :=
  reinsert_loop (Z.to_nat cap) table cap key meta (Z.land (hash_key key) (cap - 1)).

(** [for i in 0..old_cap { .. }] of [grow]. *)
Fixpoint grow_loop (old : list Entry) (new : list Entry) (new_cap : Z) : M (list Entry) :=
  match old with
  | [] => Ret new
  | entry :: old =>
      new ← (if e_state entry =? STATE_OCCUPIED
             then reinsert new new_cap (e_key entry) (e_meta entry) else Ret new);
      grow_loop old new new_cap
  end.

Definition grow (bm : BigAllocMap) : M BigAllocMap :=
  let old_cap := bm_cap bm in
  let new_cap := Z.max (saturating_mul64 old_cap 2) INITIAL_CAP in
  new_ptr ← alloc_raw new_cap;
  new_ptr ← grow_loop (default [] (bm_ptr bm)) new_ptr new_cap;
  _ ← umul old_cap ENTRY_SIZE;       (* the size of the [unmap_memory] of the old table *)
  Ret (mkMap (Some new_ptr) new_cap (bm_len bm) 0).

Definition ensure_capacity (bm : BigAllocMap) : M BigAllocMap :=
  let cap := bm_cap bm in
  if cap =? 0 then alloc_table INITIAL_CAP
  else
    len1 ← uadd (bm_len bm) 1;
    a ← umul len1 LOAD_DEN;
    b ← umul cap LOAD_NUM;
    if a <=? b then
      c ← umul (bm_tombstones bm) 2;
      if c <=? cap then Ret bm else grow bm
    else grow bm.

(** The probe loop of [insert]; [first_tomb] is -1 until a tombstone is met. *)
Fixpoint insert_loop (n : nat) (bm : BigAllocMap) (table : list Entry) (key : Z)
    (meta : BigAllocMeta) (idx first_tomb : Z) : M BigAllocMap :=
  let cap := bm_cap bm in
  match n with
  | O =>
      if 0 <=? first_tomb then
        table ← vset table first_tomb (mkEntry key meta STATE_OCCUPIED);
        Ret (mkMap (Some table) cap (wrap64 (bm_len bm + 1)) (wrap64 (bm_tombstones bm - 1)))
      else log_and_abort OutOfMemory
  | S n =>
      entry ← vget table idx;
      let state := e_state entry in
      if state =? STATE_EMPTY then
        let target := if 0 <=? first_tomb then first_tomb else idx in
        table ← vset table target (mkEntry key meta STATE_OCCUPIED);
        Ret (mkMap (Some table) cap (wrap64 (bm_len bm + 1))
               (if 0 <=? first_tomb then wrap64 (bm_tombstones bm - 1) else bm_tombstones bm))
      else if (state =? STATE_TOMBSTONE) && (first_tomb <? 0) then
        insert_loop n bm table key meta (Z.land (idx + 1) (cap - 1)) idx
      else if (state =? STATE_OCCUPIED) && (e_key entry =? key) then
        table ← vset table idx (mkEntry (e_key entry) meta (e_state entry));
        Ret (mkMap (Some table) cap (bm_len bm) (bm_tombstones bm))
      else insert_loop n bm table key meta (Z.land (idx + 1) (cap - 1)) first_tomb
  end.

Definition insert (bm : BigAllocMap) (key : Z) (meta : BigAllocMeta) : M BigAllocMap :=
  bm ← ensure_capacity bm;
  let cap := bm_cap bm in
  let table := default [] (bm_ptr bm) in
  insert_loop (Z.to_nat cap) bm table key meta (Z.land (hash_key key) (cap - 1)) (-1).

(** The probe loop that [get] and [remove] share: the slot of the key. *)
Fixpoint find_loop (n : nat) (table : list Entry) (cap key idx : Z) : M (option (Z * Entry)) :=
  match n with
  | O => Ret None
  | S n =>
      entry ← vget table idx;
      let state := e_state entry in
      if state =? STATE_EMPTY then Ret None
      else if (state =? STATE_OCCUPIED) && (e_key entry =? key) then Ret (Some (idx, entry))
      else find_loop n table cap key (Z.land (idx + 1) (cap - 1))
  end.

Definition get (bm : BigAllocMap) (key : Z) : M (option BigAllocMeta) :=
  match bm_ptr bm with
  | None => Ret None
  | Some table =>
      let cap := bm_cap bm in
      if cap =? 0 then Ret None
      else
        r ← find_loop (Z.to_nat cap) table cap key (Z.land (hash_key key) (cap - 1));
        match r with
        | None => Ret None
        | Some (_, entry) => Ret (Some (e_meta entry))
        end
  end.

Definition remove (bm : BigAllocMap) (key : Z) : M (option BigAllocMeta * BigAllocMap) :=
  match bm_ptr bm with
  | None => Ret (None, bm)
  | Some table =>
      let cap := bm_cap bm in
      if cap =? 0 then Ret (None, bm)
      else
        r ← find_loop (Z.to_nat cap) table cap key (Z.land (hash_key key) (cap - 1));
        match r with
        | None => Ret (None, bm)
        | Some (idx, entry) =>
            table ← vset table idx (mkEntry (e_key entry) (e_meta entry) STATE_TOMBSTONE);
            Ret (Some (e_meta entry),
                 mkMap (Some table) cap (wrap64 (bm_len bm - 1)) (wrap64 (bm_tombstones bm + 1)))
        end
  end.
End HashMap.

(** ** The interface *)

(** The operations of a map from header addresses to metadata, and what each does to the
    finite map that it represents.  An insertion may need memory: [bmap_ready] says that the
    kernel will grant it, and the process ends if it does not. *)
Class BigMap (B : Type) := {
  bmap_empty : B;
  bmap_insert : B → Z → BigAllocMeta → M B;
  bmap_get : B → Z → M (option BigAllocMeta);
  bmap_remove : B → Z → M (option BigAllocMeta * B);
  bmap_rep : B → gmap Z BigAllocMeta → Prop;
  bmap_ready : B → Prop;
  bmap_empty_rep : bmap_rep bmap_empty ∅;
  bmap_insert_rep b m k v : bmap_rep b m →
    post (bmap_insert b k v) (λ b', bmap_rep b' (<[k := v]> m)) (λ e, e = Fatal OutOfMemory ∧ ¬ bmap_ready b);
  bmap_get_rep b m k : bmap_rep b m → bmap_get b k = Ret (m !! k);
  bmap_remove_rep b m k : bmap_rep b m →
    ∃ b', bmap_remove b k = Ret (m !! k, b') ∧ bmap_rep b' (delete k m)
}.
