(* ===== verification/HashMapSpec.v ===== *)
(** * The big-allocation table implements a finite map (proofs about HashMap.v) *)

From S2P Require Import Prelude Bits Lib HashMap.

(** ** Counting entries by state *)

Definition count_state (s : Z) (t : list Entry) : Z :=
  Z.of_nat (length (filter (λ e, e_state e = s) t)).

Definition has_state (s : Z) (e : Entry) : Z := if decide (e_state e = s) then 1 else 0.

Lemma count_state_cons s e t : count_state s (e :: t) = has_state s e + count_state s t.
Proof. unfold count_state, has_state. rewrite filter_cons. case_decide; cbn; lia. Qed.

Lemma count_state_app s t1 t2 : count_state s (t1 ++ t2) = count_state s t1 + count_state s t2.
Proof. unfold count_state. rewrite filter_app, length_app. lia. Qed.

Lemma count_state_bounds s t : 0 ≤ count_state s t ≤ zlen t.
Proof. unfold count_state, zlen. pose proof (length_filter (λ e, e_state e = s) t). lia. Qed.

Lemma count_state_zinsert s t i e0 e :
  zlookup t i = Some e0 →
  count_state s (zinsert t i e) = count_state s t - has_state s e0 + has_state s e.
Proof.
  intros Hl. pose proof (zlookup_Some_lt _ _ _ Hl) as Hi.
  unfold zlookup in Hl. rewrite decide_True in Hl by lia.
  unfold zinsert. rewrite <- (take_drop_middle t _ _ Hl) at 2.
  rewrite insert_take_drop by (apply lookup_lt_Some in Hl; done).
  rewrite !count_state_app, !count_state_cons. lia.
Qed.

Lemma count_state_full s t :
  count_state s t = zlen t → ∀ i e, zlookup t i = Some e → e_state e = s.
Proof.
  intros Hc i e Hl. destruct (decide (e_state e = s)) as [|Hne]; [done|].
  assert (count_state s (zinsert t i (mkEntry 0 meta_default s)) = count_state s t + 1) as H.
  { rewrite (count_state_zinsert _ _ _ _ _ Hl). unfold has_state. cbn.
    rewrite decide_False, decide_True by done. lia. }
  pose proof (count_state_bounds s (zinsert t i (mkEntry 0 meta_default s))) as Hb.
  rewrite zlen_zinsert in Hb. lia.
Qed.

Lemma count_state_all s t :
  (∀ i e, zlookup t i = Some e → e_state e = s) → count_state s t = zlen t.
Proof.
  intros H. unfold count_state, zlen. f_equal. f_equal.
  assert (Forall (λ e, e_state e = s) t) as Hall.
  { apply Forall_lookup. intros i e Hl. apply (H (Z.of_nat i)).
    unfold zlookup. rewrite decide_True, Nat2Z.id by lia. done. }
  clear H. induction Hall; [done|]. rewrite filter_cons_True by done. by f_equal.
Qed.

Lemma count_state_zero_table s n :
  s ≠ STATE_EMPTY → count_state s (replicate n zero_entry) = 0.
Proof.
  intros Hs. induction n; cbn [replicate]; [done|].
  rewrite count_state_cons, IHn. unfold has_state. rewrite decide_False; [done|]. cbn. congruence.
Qed.

(** ** Probe sequences *)

(** The [d]-th slot that the probe for [key] visits. *)
Definition pos (cap key d : Z) : Z := (hash_key key + d) mod cap.

Definition pow2_cap (cap : Z) : Prop := ∃ k, 0 ≤ k ∧ cap = 2 ^ k.

Lemma pow2_cap_pos cap : pow2_cap cap → 0 < cap.
Proof. intros (k & Hk & ->). by apply Z.pow_pos_nonneg. Qed.

Lemma land_cap cap x : pow2_cap cap → Z.land x (cap - 1) = x mod cap.
Proof.
  intros (k & Hk & ->). rewrite <- Z.land_ones by done. f_equal. rewrite Z.ones_equiv. lia.
Qed.

Lemma pos_bounds cap key d : 0 < cap → 0 ≤ pos cap key d < cap.
Proof. intros. by apply Z.mod_pos_bound. Qed.

Lemma pos_start cap key : pow2_cap cap → Z.land (hash_key key) (cap - 1) = pos cap key 0.
Proof. intros. unfold pos. by rewrite land_cap, Z.add_0_r. Qed.

Lemma pos_succ cap key d :
  pow2_cap cap → Z.land (pos cap key d + 1) (cap - 1) = pos cap key (d + 1).
Proof.
  intros Hc. pose proof (pow2_cap_pos _ Hc). unfold pos. rewrite land_cap by done.
  rewrite Z.add_mod_idemp_l by lia. f_equal. lia.
Qed.

(** Every slot is visited within [cap] steps. *)
Lemma pos_surj cap key i : 0 < cap → 0 ≤ i < cap → ∃ d, 0 ≤ d < cap ∧ pos cap key d = i.
Proof.
  intros Hc Hi. exists ((i - hash_key key) mod cap). split; [by apply Z.mod_pos_bound|].
  unfold pos. rewrite Z.add_mod_idemp_r by lia.
  replace (hash_key key + (i - hash_key key)) with i by lia. by apply Z.mod_small.
Qed.

(** ** The table invariant *)

Definition occupied (e : Entry) : Prop := e_state e = STATE_OCCUPIED.
#[export] Instance occupied_dec e : Decision (occupied e).
Proof. unfold occupied. apply _. Defined.

(** No empty slot among the first [d] of the probe for [key]. *)
Definition chain (t : list Entry) (cap key d : Z) : Prop :=
  ∀ d', 0 ≤ d' < d → ∃ e, zlookup t (pos cap key d') = Some e ∧ e_state e ≠ STATE_EMPTY.

Record table_inv (t : list Entry) (cap : Z) : Prop := {
  ti_len : zlen t = cap;
  ti_cap : pow2_cap cap;
  ti_state : ∀ i e, zlookup t i = Some e →
    e_state e = STATE_EMPTY ∨ e_state e = STATE_OCCUPIED ∨ e_state e = STATE_TOMBSTONE;
  ti_chain : ∀ i e, zlookup t i = Some e → occupied e →
    ∃ d, 0 ≤ d < cap ∧ i = pos cap (e_key e) d ∧ chain t cap (e_key e) d;
  ti_unique : ∀ i j e f, zlookup t i = Some e → zlookup t j = Some f →
    occupied e → occupied f → e_key e = e_key f → i = j
}.

(** The finite map that a table represents. *)
Definition table_rep (t : list Entry) (m : gmap Z BigAllocMeta) : Prop :=
  ∀ k v, m !! k = Some v ↔
    ∃ i e, zlookup t i = Some e ∧ occupied e ∧ e_key e = k ∧ e_meta e = v.

Definition absent (t : list Entry) (key : Z) : Prop :=
  ∀ i e, zlookup t i = Some e → occupied e → e_key e ≠ key.

Lemma rep_absent t m key : table_rep t m → absent t key → m !! key = None.
Proof.
  intros Hr Ha. destruct (m !! key) as [v|] eqn:E; [|done].
  apply Hr in E as (i & e & Hl & Ho & Hk & _). exfalso. by eapply Ha.
Qed.

(** The first [d] slots of the probe hold neither an empty slot nor the key. *)
Definition passed (t : list Entry) (cap key d : Z) : Prop :=
  ∀ d', 0 ≤ d' < d → ∃ e, zlookup t (pos cap key d') = Some e ∧
    e_state e ≠ STATE_EMPTY ∧ ¬ (occupied e ∧ e_key e = key).

Lemma passed_chain t cap key d : passed t cap key d → chain t cap key d.
Proof. intros H d' Hd. destruct (H d' Hd) as (e & ? & ? & _). eauto. Qed.

Lemma passed_succ t cap key d e :
  passed t cap key d → zlookup t (pos cap key d) = Some e → e_state e ≠ STATE_EMPTY →
  ¬ (occupied e ∧ e_key e = key) → passed t cap key (d + 1).
Proof.
  intros Hp Hl He Hk d' Hd. destruct (decide (d' = d)) as [->|]; [eauto|]. apply Hp. lia.
Qed.

Lemma passed_0 t cap key : passed t cap key 0.
Proof. intros d' Hd. lia. Qed.

(** A probe that met an empty slot, or went all the way round, did not miss the key. *)
Lemma passed_absent t cap key d :
  table_inv t cap → 0 ≤ d → passed t cap key d →
  d = cap ∨ (∃ e, zlookup t (pos cap key d) = Some e ∧ e_state e = STATE_EMPTY) →
  absent t key.
Proof.
  intros Hinv Hd Hp Hend i e Hl Ho <-.
  destruct (ti_chain _ _ Hinv i e Hl Ho) as (d0 & Hd0 & -> & Hch).
  destruct (Z.lt_ge_cases d0 d) as [Hlt|Hge].
  - destruct (Hp d0 ltac:(lia)) as (e' & Hl' & _ & Hn). rewrite Hl in Hl'. simplify_eq. by apply Hn.
  - destruct Hend as [->|(e' & Hl' & He')]; [lia|].
    destruct (decide (d = d0)) as [->|Hne].
    + rewrite Hl in Hl'. simplify_eq. unfold occupied, STATE_OCCUPIED, STATE_EMPTY in *. lia.
    + destruct (Hch d ltac:(lia)) as (e2 & Hl2 & Hne2). rewrite Hl' in Hl2. by simplify_eq.
Qed.

(** ** Writing one slot *)

Lemma chain_zinsert t cap key d i e :
  0 ≤ i < zlen t → e_state e ≠ STATE_EMPTY → chain t cap key d → chain (zinsert t i e) cap key d.
Proof.
  intros Hi He Hch d' Hd. destruct (Hch d' Hd) as (e' & Hl & Hne).
  destruct (decide (i = pos cap key d')) as [->|Hn].
  - exists e. by rewrite zlookup_zinsert_eq.
  - exists e'. rewrite zlookup_zinsert_ne by (done || lia). done.
Qed.

Lemma zlookup_zinsert_Some {A} (l : list A) i x j y :
  0 ≤ i < zlen l → zlookup (zinsert l i x) j = Some y →
  (j = i ∧ y = x) ∨ (j ≠ i ∧ zlookup l j = Some y).
Proof.
  intros Hi Hl. destruct (decide (j = i)) as [->|].
  - rewrite zlookup_zinsert_eq in Hl by done. simplify_eq. by left.
  - rewrite zlookup_zinsert_ne in Hl by (done || lia). by right.
Qed.

(** A new key goes into a slot of its probe that is not occupied. *)
Lemma put_new t cap m key meta d e0 :
  table_inv t cap → table_rep t m → absent t key → 0 ≤ d < cap → chain t cap key d →
  zlookup t (pos cap key d) = Some e0 → ¬ occupied e0 →
  let t' := zinsert t (pos cap key d) (mkEntry key meta STATE_OCCUPIED) in
  table_inv t' cap ∧ table_rep t' (<[key := meta]> m).
Proof.
  intros Hinv Hrep Habs Hd Hch Hl0 Hno t'.
  pose proof (zlookup_Some_lt _ _ _ Hl0) as Hi. set (i := pos cap key d) in *.
  assert (Hne : e_state (mkEntry key meta STATE_OCCUPIED) ≠ STATE_EMPTY) by done.
  split; [split|].
  - unfold t'. rewrite zlen_zinsert. apply Hinv.
  - apply Hinv.
  - intros j e Hl. apply zlookup_zinsert_Some in Hl as [[-> ->]|[_ Hl]]; [| |done]; cbn;
      eauto using ti_state.
  - intros j e Hl Ho. apply zlookup_zinsert_Some in Hl as [[-> ->]|[Hj Hl]]; [| |done].
    + exists d. cbn [e_key]. split_and!; try done; try lia. by apply chain_zinsert.
    + destruct (ti_chain _ _ Hinv j e Hl Ho) as (d' & ? & ? & ?).
      exists d'. split_and!; try done; try lia. by apply chain_zinsert.
  - intros j k e f Hj Hk Hoe Hof Heq.
    apply zlookup_zinsert_Some in Hj as [[-> ->]|[Hj1 Hj2]]; [| |done];
      apply zlookup_zinsert_Some in Hk as [[-> ->]|[Hk1 Hk2]]; try done; cbn in Heq.
    + exfalso. by eapply (Habs k f).
    + exfalso. by eapply (Habs j e).
    + by eapply (ti_unique _ _ Hinv).
  - intros k v. split.
    + destruct (decide (k = key)) as [->|Hk].
      * rewrite lookup_insert_eq. intros [= ->]. exists i, (mkEntry key v STATE_OCCUPIED).
        unfold t'. rewrite zlookup_zinsert_eq by done. done.
      * rewrite lookup_insert_ne by done. intros (j & e & Hl & Ho & ? & ?)%Hrep.
        exists j, e. unfold t'. rewrite zlookup_zinsert_ne; [done|lia|]. intros <-.
        rewrite Hl0 in Hl. by simplify_eq.
    + intros (j & e & Hl & Ho & <- & <-).
      apply zlookup_zinsert_Some in Hl as [[-> ->]|[Hj Hl]]; [| |done]; cbn.
      * apply lookup_insert_eq.
      * rewrite lookup_insert_ne by (intros Heq; by eapply (Habs j e)). apply Hrep. by exists j, e.
Qed.

(** A slot that holds the key gets new metadata. *)
Lemma put_old t cap m key meta i e0 :
  table_inv t cap → table_rep t m → zlookup t i = Some e0 → occupied e0 → e_key e0 = key →
  let t' := zinsert t i (mkEntry (e_key e0) meta (e_state e0)) in
  table_inv t' cap ∧ table_rep t' (<[key := meta]> m).
Proof.
  intros Hinv Hrep Hl0 Ho0 <- t'. pose proof (zlookup_Some_lt _ _ _ Hl0) as Hi.
  assert (Hst : e_state (mkEntry (e_key e0) meta (e_state e0)) ≠ STATE_EMPTY).
  { cbn. rewrite Ho0. done. }
  split; [split|].
  - unfold t'. rewrite zlen_zinsert. apply Hinv.
  - apply Hinv.
  - intros j e Hl. apply zlookup_zinsert_Some in Hl as [[-> ->]|[_ Hl]]; [| |done]; cbn;
      eauto using ti_state.
  - intros j e Hl Ho.
    assert (∃ e', zlookup t j = Some e' ∧ occupied e' ∧ e_key e' = e_key e) as (e' & Hl' & Ho' & Hk).
    { apply zlookup_zinsert_Some in Hl as [[-> ->]|[Hj Hl]]; [|by eauto|done]. by exists e0. }
    destruct (ti_chain _ _ Hinv j e' Hl' Ho') as (d' & ? & ? & ?). rewrite <- Hk.
    exists d'. split_and!; try done; try lia. by apply chain_zinsert.
  - intros j k e f Hj Hk Hoe Hof Heq.
    apply zlookup_zinsert_Some in Hj as [[-> ->]|[Hj1 Hj2]]; [| |done];
      apply zlookup_zinsert_Some in Hk as [[-> ->]|[Hk1 Hk2]]; try done; cbn in Heq.
    + by eapply (ti_unique _ _ Hinv i k e0 f).
    + by eapply (ti_unique _ _ Hinv j i e e0).
    + by eapply (ti_unique _ _ Hinv).
  - intros k v. split.
    + destruct (decide (k = e_key e0)) as [->|Hk].
      * rewrite lookup_insert_eq. intros [= ->]. eexists i, _.
        unfold t'. rewrite zlookup_zinsert_eq by done. done.
      * rewrite lookup_insert_ne by done. intros (j & e & Hl & Ho & ? & ?)%Hrep.
        exists j, e. unfold t'. rewrite zlookup_zinsert_ne; [done|lia|]. intros <-.
        rewrite Hl0 in Hl. simplify_eq.
    + intros (j & e & Hl & Ho & <- & <-).
      apply zlookup_zinsert_Some in Hl as [[-> ->]|[Hj Hl]]; [| |done]; cbn.
      * apply lookup_insert_eq.
      * rewrite lookup_insert_ne; [apply Hrep; by exists j, e|]. intros Heq. apply Hj.
        by eapply (ti_unique _ _ Hinv j i e e0).
Qed.

(** A removed key leaves a tombstone. *)
Lemma put_tombstone t cap m key i e0 :
  table_inv t cap → table_rep t m → zlookup t i = Some e0 → occupied e0 → e_key e0 = key →
  let t' := zinsert t i (mkEntry (e_key e0) (e_meta e0) STATE_TOMBSTONE) in
  table_inv t' cap ∧ table_rep t' (delete key m).
Proof.
  intros Hinv Hrep Hl0 Ho0 <- t'. pose proof (zlookup_Some_lt _ _ _ Hl0) as Hi.
  assert (Hst : e_state (mkEntry (e_key e0) (e_meta e0) STATE_TOMBSTONE) ≠ STATE_EMPTY) by done.
  assert (Hkeep : ∀ j e, zlookup t' j = Some e → occupied e → j ≠ i ∧ zlookup t j = Some e).
  { intros j e Hl Ho. apply zlookup_zinsert_Some in Hl as [[-> ->]|?]; done. }
  split; [split|].
  - unfold t'. rewrite zlen_zinsert. apply Hinv.
  - apply Hinv.
  - intros j e Hl. apply zlookup_zinsert_Some in Hl as [[-> ->]|[_ Hl]]; [| |done]; cbn;
      eauto using ti_state.
  - intros j e Hl Ho. destruct (Hkeep j e Hl Ho) as [_ Hl'].
    destruct (ti_chain _ _ Hinv j e Hl' Ho) as (d' & ? & ? & ?).
    exists d'. split_and!; try done; try lia. by apply chain_zinsert.
  - intros j k e f Hj Hk Hoe Hof Heq.
    destruct (Hkeep j e Hj Hoe), (Hkeep k f Hk Hof). by eapply (ti_unique _ _ Hinv).
  - intros k v. split.
    + intros [Hk Hm]%lookup_delete_Some. apply Hrep in Hm as (j & e & Hl & Ho & ? & ?).
      exists j, e. unfold t'. rewrite zlookup_zinsert_ne; [done|lia|]. intros <-.
      rewrite Hl0 in Hl. simplify_eq.
    + intros (j & e & Hl & Ho & <- & <-). destruct (Hkeep j e Hl Ho) as [Hj Hl'].
      apply lookup_delete_Some. split; [|apply Hrep; by exists j, e]. intros Heq. apply Hj.
      by eapply (ti_unique _ _ Hinv j i e e0).
Qed.

(** ** The map invariant *)

Definition map_inv (bm : BigAllocMap) (m : gmap Z BigAllocMeta) : Prop :=
  match bm_ptr bm with
  | None => bm_cap bm = 0 ∧ bm_len bm = 0 ∧ bm_tombstones bm = 0 ∧ m = ∅
  | Some t => table_inv t (bm_cap bm) ∧ table_rep t m ∧ bm_cap bm ≤ 2 ^ 56 ∧
      bm_len bm = count_state STATE_OCCUPIED t ∧
      bm_tombstones bm = count_state STATE_TOMBSTONE t
  end.

Lemma new_map_inv : map_inv BigAllocMap_new ∅.
Proof. done. Qed.

Lemma vget_pos t cap key d :
  table_inv t cap →
  ∃ e, vget t (pos cap key d) = Ret e ∧ zlookup t (pos cap key d) = Some e.
Proof.
  intros Hinv. apply vget_in_bounds. rewrite (ti_len _ _ Hinv).
  apply pos_bounds, pow2_cap_pos, Hinv.
Qed.

(** *** The probe of [get] and [remove] *)

Lemma find_loop_spec n t cap m key d :
  table_inv t cap → table_rep t m → 0 ≤ d → d + Z.of_nat n = cap → passed t cap key d →
  match m !! key with
  | Some v => ∃ i e, find_loop n t cap key (pos cap key d) = Ret (Some (i, e)) ∧
      zlookup t i = Some e ∧ occupied e ∧ e_key e = key ∧ e_meta e = v
  | None => find_loop n t cap key (pos cap key d) = Ret None
  end.
Proof.
  intros Hinv Hrep. revert d. induction n as [|n IH]; intros d Hd Hn Hp; cbn [find_loop].
  - rewrite (rep_absent t m key); [done|done|].
    apply (passed_absent t cap key d); try done. left. lia.
  - destruct (vget_pos t cap key d Hinv) as (e & -> & Hl). rewrite bind_ret.
    destruct (Z.eqb_spec (e_state e) STATE_EMPTY) as [He|He].
    { rewrite (rep_absent t m key); [done|done|].
      apply (passed_absent t cap key d); try done. right. eauto. }
    destruct ((e_state e =? STATE_OCCUPIED) && (e_key e =? key)) eqn:Ek.
    { apply andb_true_iff in Ek as [Ho%Z.eqb_eq Hk%Z.eqb_eq].
      rewrite (proj2 (Hrep key (e_meta e))) by (by exists (pos cap key d), e).
      exists (pos cap key d), e. done. }
    rewrite pos_succ by apply Hinv. apply IH; try lia.
    eapply passed_succ; try done. intros [Ho Hk]. unfold occupied in Ho.
    rewrite Ho, Hk, !Z.eqb_refl in Ek. done.
Qed.

(** *** The probe of [insert] *)

(** [first_tomb] is -1, and no tombstone was met; or it is the slot of one. *)
Definition tomb_ok (t : list Entry) (cap key d first_tomb : Z) : Prop :=
  (first_tomb = -1 ∧ ∀ d' e, 0 ≤ d' < d → zlookup t (pos cap key d') = Some e →
     e_state e ≠ STATE_TOMBSTONE) ∨
  (∃ dt e, 0 ≤ dt < d ∧ first_tomb = pos cap key dt ∧
     zlookup t (pos cap key dt) = Some e ∧ e_state e = STATE_TOMBSTONE).

Lemma wrap64_count t n :
  zlen t ≤ 2 ^ 56 → - zlen t ≤ n ≤ zlen t → 0 ≤ count_state STATE_OCCUPIED t + n →
  wrap64 (count_state STATE_OCCUPIED t + n) = count_state STATE_OCCUPIED t + n.
Proof.
  intros. apply wrap64_small. pose proof (count_state_bounds STATE_OCCUPIED t). unfold word64. lia.
Qed.

(** Storing a new key in a slot of its probe that is empty or a tombstone. *)
Lemma store_new bm t m key meta d e0 :
  bm_ptr bm = Some t → map_inv bm m → absent t key → 0 ≤ d < bm_cap bm →
  chain t (bm_cap bm) key d → zlookup t (pos (bm_cap bm) key d) = Some e0 → ¬ occupied e0 →
  (table ← vset t (pos (bm_cap bm) key d) (mkEntry key meta STATE_OCCUPIED);
   Ret (mkMap (Some table) (bm_cap bm) (wrap64 (bm_len bm + 1))
     (if decide (e_state e0 = STATE_TOMBSTONE) then wrap64 (bm_tombstones bm - 1)
      else bm_tombstones bm))) =
  Ret (mkMap (Some (zinsert t (pos (bm_cap bm) key d) (mkEntry key meta STATE_OCCUPIED)))
     (bm_cap bm) (bm_len bm + 1)
     (bm_tombstones bm - has_state STATE_TOMBSTONE e0)) ∧
  map_inv (mkMap (Some (zinsert t (pos (bm_cap bm) key d) (mkEntry key meta STATE_OCCUPIED)))
     (bm_cap bm) (bm_len bm + 1)
     (bm_tombstones bm - has_state STATE_TOMBSTONE e0)) (<[key := meta]> m).
Proof.
  intros Hptr Hmi Habs Hd Hch Hl0 Hno. unfold map_inv in Hmi. rewrite Hptr in Hmi.
  destruct Hmi as (Hinv & Hrep & Hcap & Hlen & Htomb).
  destruct (put_new t _ m key meta d e0 Hinv Hrep Habs Hd Hch Hl0 Hno) as [Hinv' Hrep'].
  pose proof (count_state_zinsert STATE_OCCUPIED t _ e0 (mkEntry key meta STATE_OCCUPIED) Hl0) as Hc1.
  pose proof (count_state_zinsert STATE_TOMBSTONE t _ e0 (mkEntry key meta STATE_OCCUPIED) Hl0) as Hc2.
  unfold has_state in Hc1. rewrite decide_False, decide_True in Hc1 by done.
  unfold has_state at 2 in Hc2. rewrite decide_False in Hc2 by done.
  pose proof (count_state_bounds STATE_OCCUPIED t) as Hb1.
  pose proof (count_state_bounds STATE_TOMBSTONE t) as Hb2.
  pose proof (count_state_bounds STATE_TOMBSTONE
    (zinsert t (pos (bm_cap bm) key d) (mkEntry key meta STATE_OCCUPIED))) as Hb3.
  pose proof (ti_len _ _ Hinv) as Htl.
  split; [|unfold map_inv; cbn; split_and!; try done; lia].
  rewrite vset_ok, bind_ret by (by eapply zlookup_Some_lt). do 2 f_equal.
  - apply wrap64_small. unfold word64. lia.
  - unfold has_state in *. case_decide; [|lia]. apply wrap64_small. unfold word64. lia.
Qed.

(** The entry goes to the tombstone that the probe has passed. *)
Lemma store_tomb bm t m key meta d dt e :
  bm_ptr bm = Some t → map_inv bm m → absent t key → passed t (bm_cap bm) key d → 0 ≤ dt < d → d ≤ bm_cap bm →
  zlookup t (pos (bm_cap bm) key dt) = Some e → e_state e = STATE_TOMBSTONE →
  ∃ bm', (table ← vset t (pos (bm_cap bm) key dt) (mkEntry key meta STATE_OCCUPIED);
     Ret (mkMap (Some table) (bm_cap bm) (wrap64 (bm_len bm + 1)) (wrap64 (bm_tombstones bm - 1)))) = Ret bm' ∧
    map_inv bm' (<[key := meta]> m).
Proof.
  intros Hptr Hmi Habs Hp Hdt Hd Hl He.
  destruct (store_new bm t m key meta dt e) as [Heq Hmi2]; try done; try lia.
  - intros d' Hd'. apply (passed_chain _ _ _ _ Hp). lia.
  - unfold occupied. by rewrite He.
  - rewrite decide_True in Heq by done. eauto.
Qed.

(** If no entry of the table is empty or a tombstone, all are occupied. *)
Lemma passed_all_full t cap key :
  table_inv t cap → passed t cap key cap →
  (∀ d e, 0 ≤ d < cap → zlookup t (pos cap key d) = Some e → e_state e ≠ STATE_TOMBSTONE) →
  count_state STATE_OCCUPIED t = zlen t.
Proof.
  intros Hinv Hp Hnt. apply count_state_all. intros i e Hl.
  destruct (pos_surj cap key i) as (d & Hd & <-).
  { apply pow2_cap_pos, Hinv. }
  { rewrite <- (ti_len _ _ Hinv). by eapply zlookup_Some_lt. }
  destruct (Hp d Hd) as (e' & Hl' & Hne & _). rewrite Hl in Hl'. injection Hl' as <-.
  specialize (Hnt d e Hd Hl). destruct (ti_state _ _ Hinv _ _ Hl) as [?|[?|?]]; done.
Qed.

Lemma tomb_ok_succ t cap key d ft e :
  tomb_ok t cap key d ft → 0 ≤ d → zlookup t (pos cap key d) = Some e →
  (e_state e =? STATE_TOMBSTONE) && (ft <? 0) = false → tomb_ok t cap key (d + 1) ft.
Proof.
  intros [[-> Hnt]|(dt & e' & Hdt & -> & Hl' & He')] Hd Hl Et.
  - left. split; [done|]. intros d' e' Hd' Hl'. destruct (decide (d' = d)) as [->|].
    + rewrite Hl in Hl'. simplify_eq. intros Ht. by rewrite Ht, Z.eqb_refl in Et.
    + apply (Hnt d' e'); [lia|done].
  - right. exists dt, e'. split_and!; try done; lia.
Qed.

Lemma insert_loop_spec n bm t m key meta d ft :
  bm_ptr bm = Some t → map_inv bm m → bm_len bm < bm_cap bm →
  0 ≤ d → d + Z.of_nat n = bm_cap bm → passed t (bm_cap bm) key d →
  tomb_ok t (bm_cap bm) key d ft →
  ∃ bm', insert_loop n bm t key meta (pos (bm_cap bm) key d) ft = Ret bm' ∧
    map_inv bm' (<[key := meta]> m).
Proof.
  intros Hptr Hmi Hroom. pose proof Hmi as Hmi'. unfold map_inv in Hmi'. rewrite Hptr in Hmi'.
  destruct Hmi' as (Hinv & Hrep & Hcap & Hlen & Htomb). pose proof (ti_len _ _ Hinv) as Htl.
  pose proof (pow2_cap_pos _ (ti_cap _ _ Hinv)) as Hcpos.
  revert d ft. induction n as [|n IH]; intros d ft Hd Hn Hp Hft; cbn [insert_loop].
  - assert (Habs : absent t key) by (apply (passed_absent t (bm_cap bm) key d); try done; left; lia).
    assert (d = bm_cap bm) as -> by lia. destruct Hft as [[-> Hnt]|(dt & e & Hdt & -> & Hl & He)].
    + exfalso. pose proof (passed_all_full _ _ _ Hinv Hp Hnt). lia.
    + rewrite (proj2 (Z.leb_le 0 _)) by (by apply pos_bounds). by eapply store_tomb.
  - destruct (vget_pos t _ key d Hinv) as (e & -> & Hl). rewrite bind_ret.
    destruct (Z.eqb_spec (e_state e) STATE_EMPTY) as [He|He].
    { assert (Habs : absent t key)
        by (apply (passed_absent t (bm_cap bm) key d); try done; right; eauto).
      destruct Hft as [[-> Hnt]|(dt & e' & Hdt & -> & Hl' & He')].
      - cbn [Z.leb Z.compare]. destruct (store_new bm t m key meta d e) as [Heq Hmi2]; try done; try lia.
        { by apply passed_chain. }
        { unfold occupied. rewrite He. done. }
        rewrite decide_False in Heq by (rewrite He; done). eauto.
      - rewrite (proj2 (Z.leb_le 0 _)) by (by apply pos_bounds). eapply (store_tomb _ _ _ _ _ d); try done; lia. }
    rewrite pos_succ by apply Hinv.
    destruct ((e_state e =? STATE_TOMBSTONE) && (ft <? 0)) eqn:Et.
    { apply andb_true_iff in Et as [Ht%Z.eqb_eq _]. apply IH; try lia.
      - eapply passed_succ; try done. unfold occupied. rewrite Ht. by intros [? _].
      - right. exists d, e. split_and!; try done; lia. }
    destruct ((e_state e =? STATE_OCCUPIED) && (e_key e =? key)) eqn:Ek.
    { apply andb_true_iff in Ek as [Ho%Z.eqb_eq Hk%Z.eqb_eq].
      rewrite vset_ok, bind_ret by (by eapply zlookup_Some_lt).
      destruct (put_old t _ m key meta _ e Hinv Hrep Hl Ho Hk) as [Hinv' Hrep'].
      eexists. split; [done|]. unfold map_inv. cbn.
      pose proof (λ s, count_state_zinsert s t _ e (mkEntry (e_key e) meta (e_state e)) Hl) as Hc.
      unfold has_state in Hc. cbn in Hc. split_and!; try done; rewrite Hc; lia. }
    apply IH; [lia|lia| |by eapply tomb_ok_succ].
    eapply passed_succ; try done. intros [Ho Hk]. unfold occupied in Ho.
    rewrite Ho, Hk, !Z.eqb_refl in Ek. done.
Qed.

(** *** Growing *)

Lemma zero_table_inv n k :
  0 ≤ k → Z.of_nat n = 2 ^ k → table_inv (replicate n zero_entry) (2 ^ k).
Proof.
  intros Hk Hn.
  assert (Hz : ∀ i e, zlookup (replicate n zero_entry) i = Some e → e = zero_entry).
  { intros i e. unfold zlookup. case_decide; [|done]. by intros [-> _]%lookup_replicate. }
  split.
  - unfold zlen. by rewrite length_replicate.
  - by exists k.
  - intros i e ->%Hz. by left.
  - intros i e ->%Hz. done.
  - intros i j e f ->%Hz. done.
Qed.

Lemma zero_table_rep n : table_rep (replicate n zero_entry) ∅.
Proof.
  intros k v. split; [done|]. intros (i & e & Hl & Ho & _). exfalso.
  unfold zlookup in Hl. case_decide; [|done]. by apply lookup_replicate in Hl as [-> _].
Qed.

Lemma reinsert_loop_spec n t cap m key meta d :
  table_inv t cap → table_rep t m → absent t key → count_state STATE_OCCUPIED t < cap →
  count_state STATE_TOMBSTONE t = 0 →
  0 ≤ d → d + Z.of_nat n = cap →
  (∀ d' e, 0 ≤ d' < d → zlookup t (pos cap key d') = Some e → occupied e) →
  ∃ t', reinsert_loop n t cap key meta (pos cap key d) = Ret t' ∧
    table_inv t' cap ∧ table_rep t' (<[key := meta]> m) ∧
    count_state STATE_OCCUPIED t' = count_state STATE_OCCUPIED t + 1 ∧
    count_state STATE_TOMBSTONE t' = 0.
Proof.
  intros Hinv Hrep Habs Hroom Hnt. revert d.
  induction n as [|n IH]; intros d Hd Hn Hocc; cbn [reinsert_loop].
  - exfalso. pose proof (ti_len _ _ Hinv) as Htl.
    assert (count_state STATE_OCCUPIED t = zlen t); [|lia].
    apply count_state_all. intros i e Hl.
    destruct (pos_surj cap key i) as (d' & Hd' & <-).
    { apply pow2_cap_pos, Hinv. }
    { rewrite <- Htl. by eapply zlookup_Some_lt. }
    apply (Hocc d' e); [lia|done].
  - destruct (vget_pos t cap key d Hinv) as (e & -> & Hl). rewrite bind_ret.
    destruct (Z.eqb_spec (e_state e) STATE_OCCUPIED) as [He|He]; cbn [negb].
    + rewrite pos_succ by apply Hinv. apply IH; try lia. intros d' e' Hd' Hl'.
      destruct (decide (d' = d)) as [->|]; [by rewrite Hl in Hl'; simplify_eq|].
      apply (Hocc d' e'); [lia|done].
    + rewrite vset_ok by (by eapply zlookup_Some_lt). eexists. split; [done|].
      destruct (put_new t cap m key meta d e) as [Hi Hr]; try done; try lia.
      { intros d' Hd'. destruct (vget_pos t cap key d' Hinv) as (e' & _ & Hl').
        exists e'. split; [done|]. rewrite (Hocc d' e' Hd' Hl'). done. }
      rewrite !(count_state_zinsert _ _ _ _ _ Hl).
      pose proof (count_state_zinsert STATE_TOMBSTONE t _ e (mkEntry key meta STATE_OCCUPIED) Hl) as Hc.
      pose proof (count_state_bounds STATE_TOMBSTONE (zinsert t (pos cap key d) (mkEntry key meta STATE_OCCUPIED))).
      unfold has_state in *. cbn in *. split_and!; try done.
      * clear Hc. rewrite decide_False by done. case_decide; [lia|done].
      * rewrite Hnt in *. repeat case_decide; try lia; done.
Qed.

Lemma reinsert_spec t cap m key meta :
  table_inv t cap → table_rep t m → absent t key → count_state STATE_OCCUPIED t < cap →
  count_state STATE_TOMBSTONE t = 0 →
  ∃ t', reinsert t cap key meta = Ret t' ∧
    table_inv t' cap ∧ table_rep t' (<[key := meta]> m) ∧
    count_state STATE_OCCUPIED t' = count_state STATE_OCCUPIED t + 1 ∧
    count_state STATE_TOMBSTONE t' = 0.
Proof.
  intros Hinv ????. unfold reinsert. rewrite pos_start by apply Hinv.
  apply (reinsert_loop_spec _ t cap m); try done; try lia.
  - pose proof (pow2_cap_pos _ (ti_cap _ _ Hinv)). lia.
Qed.

(** The keys of the occupied entries of a list differ. *)
Definition unique_keys (l : list Entry) : Prop :=
  ∀ i j e f, l !! i = Some e → l !! j = Some f → occupied e → occupied f →
    e_key e = e_key f → i = j.

Lemma unique_keys_tail e l : unique_keys (e :: l) → unique_keys l.
Proof.
  intros H i j f g Hi Hj Hf Hg Hk. specialize (H (S i) (S j) f g Hi Hj Hf Hg Hk). congruence.
Qed.

Lemma absent_of_rep t m key : table_rep t m → m !! key = None → absent t key.
Proof.
  intros Hrep Hm i e Hl Ho <-. rewrite (proj2 (Hrep _ (e_meta e))) in Hm; [done|].
  by exists i, e.
Qed.

Lemma grow_loop_spec old new cap m1 :
  table_inv new cap → table_rep new m1 → unique_keys old →
  (∀ e, e ∈ old → occupied e → m1 !! e_key e = None) →
  count_state STATE_OCCUPIED new + count_state STATE_OCCUPIED old < cap →
  count_state STATE_TOMBSTONE new = 0 →
  ∃ new' m', grow_loop old new cap = Ret new' ∧ table_inv new' cap ∧ table_rep new' m' ∧
    count_state STATE_OCCUPIED new' = count_state STATE_OCCUPIED new + count_state STATE_OCCUPIED old ∧
    count_state STATE_TOMBSTONE new' = 0 ∧
    (∀ k v, m' !! k = Some v ↔ m1 !! k = Some v ∨
       ∃ e, e ∈ old ∧ occupied e ∧ e_key e = k ∧ e_meta e = v).
Proof.
  revert new m1. induction old as [|e old IH]; intros new m1 Hinv Hrep Huq Hnew Hroom Hnt;
    cbn [grow_loop].
  - exists new, m1. split_and!; try done; [unfold count_state at 3; cbn; lia|].
    intros k v. split; [by left|]. intros [?|(e & []%elem_of_nil & _)]; done.
  - rewrite count_state_cons in *. pose proof (count_state_bounds STATE_OCCUPIED old) as Hb.
    unfold has_state in *.
    destruct (Z.eqb_spec (e_state e) STATE_OCCUPIED) as [He|He].
    + rewrite decide_True in * by done.
      destruct (reinsert_spec new cap m1 (e_key e) (e_meta e)) as
        (new1 & -> & Hinv1 & Hrep1 & Hc1 & Hc2); try done; try lia.
      { eapply absent_of_rep; [done|]. apply Hnew; [left|done]. }
      rewrite bind_ret.
      destruct (IH new1 (<[e_key e := e_meta e]> m1)) as (new' & m' & -> & Hi' & Hr' & Hcc & Ht & Hm');
        try done; try lia.
      { by eapply unique_keys_tail. }
      { intros f Hf Hof. rewrite lookup_insert_ne.
        - apply Hnew; [by right|done].
        - intros Hk. apply list_elem_of_lookup in Hf as [j Hj].
          specialize (Huq O (S j) e f eq_refl Hj He Hof Hk). done. }
      exists new', m'. split_and!; try done; [lia|].
      intros k v. rewrite Hm'. split.
      * intros [Hk|(f & Hf & ?)]; [|right; exists f; split; [by right|done]].
        apply lookup_insert_Some in Hk as [[<- <-]|[_ ?]]; [|by left].
        right. exists e. split; [left|done].
      * intros [Hk|(f & Hf & Hof & <- & <-)].
        -- left. rewrite lookup_insert_ne; [done|]. intros <-.
           rewrite Hnew in Hk; [done|left|done].
        -- apply elem_of_cons in Hf as [->|Hf]; [left; apply lookup_insert_eq|].
           right. by exists f.
    + rewrite bind_ret. rewrite decide_False in * by done.
      destruct (IH new m1) as (new' & m' & -> & Hi' & Hr' & Hcc & Ht & Hm'); try done; try lia.
      { by eapply unique_keys_tail. }
      { intros f Hf. apply Hnew. by right. }
      exists new', m'. split_and!; try done. intros k v. rewrite Hm'. split.
      * intros [?|(f & ? & ?)]; [by left|right]. exists f. split; [by right|done].
      * intros [?|(f & Hf & Hof & ?)]; [by left|right]. exists f.
        apply elem_of_cons in Hf as [->|Hf]; done.
Qed.

Lemma table_unique_keys t cap : table_inv t cap → unique_keys t.
Proof.
  intros Hinv i j e f Hi Hj He Hf Hk. apply Nat2Z.inj.
  apply (ti_unique _ _ Hinv (Z.of_nat i) (Z.of_nat j) e f); try done;
    unfold zlookup; rewrite decide_True, Nat2Z.id by lia; done.
Qed.

Lemma table_rep_elem t m k v :
  table_rep t m →
  m !! k = Some v ↔ ∃ e, e ∈ t ∧ occupied e ∧ e_key e = k ∧ e_meta e = v.
Proof.
  intros Hrep. rewrite (Hrep k v). split.
  - intros (i & e & Hl & ?). exists e. split; [|done]. unfold zlookup in Hl.
    case_decide; [|done]. apply list_elem_of_lookup. eauto.
  - intros (e & [i Hi]%list_elem_of_lookup & ?). exists (Z.of_nat i), e.
    unfold zlookup. rewrite decide_True, Nat2Z.id by lia. done.
Qed.

Section Memory.
Context (mmap_ok : Z → bool).
Hypothesis mmap_grants : ∀ size, mmap_ok size = true.

Lemma alloc_raw_ok cap :
  0 ≤ cap ≤ 2 ^ 57 → alloc_raw mmap_ok cap = Ret (replicate (Z.to_nat cap) zero_entry).
Proof.
  intros Hc. unfold alloc_raw. rewrite umul_ok, bind_ret by (unfold ENTRY_SIZE, usize_max, u64_max; lia).
  by rewrite mmap_grants.
Qed.

(** Growing keeps the represented map, doubles the capacity and drops the tombstones. *)
Lemma grow_spec bm t m :
  bm_ptr bm = Some t → map_inv bm m → 2 * bm_cap bm ≤ 2 ^ 56 →
  ∃ bm', grow mmap_ok bm = Ret bm' ∧ map_inv bm' m ∧
    bm_cap bm' = Z.max (2 * bm_cap bm) INITIAL_CAP ∧ bm_len bm' = bm_len bm ∧
    bm_tombstones bm' = 0 ∧ ∃ t', bm_ptr bm' = Some t'.
Proof.
  intros Hptr Hmi Hcap2. unfold map_inv in Hmi. rewrite Hptr in Hmi.
  destruct Hmi as (Hinv & Hrep & Hcap & Hlen & Htomb). pose proof (ti_len _ _ Hinv) as Htl.
  pose proof (pow2_cap_pos _ (ti_cap _ _ Hinv)) as Hcpos. unfold grow, saturating_mul64.
  rewrite Z.min_r by (unfold u64_max; lia). rewrite Hptr. cbn [default from_option id].
  set (nc := Z.max (bm_cap bm * 2) INITIAL_CAP).
  assert (Hnc : ∃ k, 0 ≤ k ∧ nc = 2 ^ k).
  { destruct (ti_cap _ _ Hinv) as (k & Hk & Hkc). unfold nc.
    destruct (Z.max_spec (bm_cap bm * 2) INITIAL_CAP) as [[_ ->]|[_ ->]].
    - exists 14. done.
    - exists (Z.succ k). rewrite Hkc, Z.pow_succ_r by done. lia. }
  destruct Hnc as (k & Hk & Hkc).
  rewrite alloc_raw_ok, bind_ret by (unfold nc, INITIAL_CAP; lia).
  destruct (grow_loop_spec t (replicate (Z.to_nat nc) zero_entry) nc ∅)
    as (t' & m' & -> & Hinv' & Hrep' & Hc1 & Hc2 & Hm').
  - rewrite Hkc. apply zero_table_inv; [done|]. rewrite Z2Nat.id; [done|]. by apply Z.pow_nonneg.
  - apply zero_table_rep.
  - by eapply table_unique_keys.
  - done.
  - rewrite count_state_zero_table by done. pose proof (count_state_bounds STATE_OCCUPIED t).
    unfold nc, INITIAL_CAP. lia.
  - by apply count_state_zero_table.
  - rewrite bind_ret, umul_ok, bind_ret by (unfold ENTRY_SIZE, usize_max, u64_max; lia).
    eexists. split; [done|].
    assert (m' = m) as ->.
    { apply map_eq. intros x. apply option_eq. intros v. rewrite Hm', (table_rep_elem t m x v) by done.
      split; [intros [?|?]; done|by right]. }
    rewrite count_state_zero_table in Hc1 by done.
    split; [|cbn; split_and!; [unfold nc; lia|done|done|eauto]].
    unfold map_inv; cbn. split_and!; try done.
    + unfold nc, INITIAL_CAP. lia.
    + lia.
Qed.

(** There is room for one more entry after [ensure_capacity]. *)
Lemma ensure_capacity_spec bm m :
  map_inv bm m → bm_cap bm ≤ 2 ^ 55 →
  ∃ bm' t, ensure_capacity mmap_ok bm = Ret bm' ∧ bm_ptr bm' = Some t ∧ map_inv bm' m ∧
    bm_len bm' < bm_cap bm'.
Proof.
  intros Hmi Hcap. unfold ensure_capacity. pose proof Hmi as Hmi'. unfold map_inv in Hmi'.
  destruct (bm_ptr bm) as [t|] eqn:Hptr.
  - destruct Hmi' as (Hinv & Hrep & Hc & Hlen & Htomb). pose proof (ti_len _ _ Hinv) as Htl.
    pose proof (pow2_cap_pos _ (ti_cap _ _ Hinv)) as Hcpos.
    pose proof (count_state_bounds STATE_OCCUPIED t). pose proof (count_state_bounds STATE_TOMBSTONE t).
    rewrite (proj2 (Z.eqb_neq _ _)) by lia.
    rewrite uadd_ok, bind_ret by (unfold usize_max, u64_max; lia).
    rewrite (umul_ok (bm_len bm + 1)), bind_ret by (unfold usize_max, u64_max, LOAD_DEN; lia).
    rewrite (umul_ok (bm_cap bm)), bind_ret by (unfold usize_max, u64_max, LOAD_NUM; lia).
    assert (Hgrow : ∃ bm' t', grow mmap_ok bm = Ret bm' ∧ bm_ptr bm' = Some t' ∧ map_inv bm' m ∧
              bm_len bm' < bm_cap bm').
    { destruct (grow_spec bm t m Hptr Hmi) as (bm' & -> & Hmi2 & Hc2 & Hl2 & _ & t' & Ht'); [lia|].
      exists bm', t'. split_and!; try done. rewrite Hc2, Hl2. unfold INITIAL_CAP. lia. }
    destruct (Z.leb_spec ((bm_len bm + 1) * LOAD_DEN) (bm_cap bm * LOAD_NUM)) as [Hle|]; [|done].
    rewrite umul_ok, bind_ret by (unfold usize_max, u64_max; lia).
    case_zb; [|done]. exists bm, t. split_and!; try done. unfold LOAD_DEN, LOAD_NUM in Hle. lia.
  - destruct Hmi' as (Hc & Hl & Ht & ->). rewrite Hc. cbn [Z.eqb].
    unfold alloc_table. rewrite alloc_raw_ok, bind_ret by (unfold INITIAL_CAP; lia).
    eexists _, _. split_and!; [done|done| |done].
    unfold map_inv; cbn [bm_ptr bm_cap bm_len bm_tombstones]. split_and!.
    + apply (zero_table_inv _ 14); [lia|]. done.
    + apply zero_table_rep.
    + done.
    + by rewrite count_state_zero_table.
    + by rewrite count_state_zero_table.
Qed.

Lemma insert_spec bm m key meta :
  map_inv bm m → bm_cap bm ≤ 2 ^ 55 →
  ∃ bm', insert mmap_ok bm key meta = Ret bm' ∧ map_inv bm' (<[key := meta]> m).
Proof.
  intros Hmi Hcap. unfold insert.
  destruct (ensure_capacity_spec bm m Hmi Hcap) as (bm1 & t & -> & Hptr & Hmi1 & Hroom).
  rewrite bind_ret, Hptr. cbn [default from_option id].
  pose proof Hmi1 as Hmi2. unfold map_inv in Hmi2. rewrite Hptr in Hmi2.
  destruct Hmi2 as (Hinv & _). rewrite pos_start by apply Hinv.
  pose proof (pow2_cap_pos _ (ti_cap _ _ Hinv)).
  apply (insert_loop_spec _ bm1 t m); try done; try lia.
  - apply passed_0.
  - left. split; [done|]. intros; lia.
Qed.
End Memory.

(** An insertion asks for a mapping of [next_cap] entries, or for none. *)
Definition next_cap (bm : BigAllocMap) : Z := Z.max (saturating_mul64 (bm_cap bm) 2) INITIAL_CAP.
Definition next_granted (mmap_ok : Z → bool) (bm : BigAllocMap) : bool := mmap_ok (next_cap bm * ENTRY_SIZE).

Lemma alloc_raw_asks mmap_ok cap :
  alloc_raw mmap_ok cap = if mmap_ok (cap * ENTRY_SIZE) then alloc_raw (λ _, true) cap else
    _ ← umul cap ENTRY_SIZE; Abort (Fatal OutOfMemory).
Proof.
  unfold alloc_raw, umul. destruct (cap * ENTRY_SIZE <=? usize_max); cbn; [|by destruct mmap_ok]. by destruct mmap_ok.
Qed.

Lemma ensure_capacity_asks mmap_ok bm :
  0 ≤ bm_cap bm ≤ 2 ^ 52 →
  ensure_capacity mmap_ok bm = Abort (Fatal OutOfMemory) ∧ next_granted mmap_ok bm = false ∨
  ensure_capacity mmap_ok bm = ensure_capacity (λ _, true) bm ∧
    ∀ bm', ensure_capacity (λ _, true) bm = Ret bm' → bm' = bm ∨ next_granted mmap_ok bm = true.
Proof.
  intros Hcap. unfold next_granted. assert (∀ c, c = next_cap bm → alloc_raw mmap_ok c =
    if mmap_ok (next_cap bm * ENTRY_SIZE) then alloc_raw (λ _, true) c else Abort (Fatal OutOfMemory)) as Hraw.
  { intros c ->. rewrite alloc_raw_asks, umul_ok; [done|].
    unfold next_cap, saturating_mul64, INITIAL_CAP, ENTRY_SIZE, usize_max, u64_max. lia. }
  assert (grow mmap_ok bm = Abort (Fatal OutOfMemory) ∧ mmap_ok (next_cap bm * ENTRY_SIZE) = false ∨
    grow mmap_ok bm = grow (λ _, true) bm ∧
      ∀ bm', grow (λ _, true) bm = Ret bm' → bm' = bm ∨ mmap_ok (next_cap bm * ENTRY_SIZE) = true) as Hg.
  { unfold grow. fold (next_cap bm). rewrite Hraw by done. destruct (mmap_ok _); [right; auto|by left]. }
  unfold ensure_capacity. destruct (Z.eqb_spec (bm_cap bm) 0) as [Hz|_].
  { unfold alloc_table. rewrite Hraw by (unfold next_cap; by rewrite Hz). destruct (mmap_ok _); [right; auto|by left]. }
  destruct (uadd (bm_len bm) 1) as [l1|]; [rewrite !bind_ret|by right].
  destruct (umul l1 LOAD_DEN) as [x|]; [rewrite !bind_ret|by right].
  destruct (umul (bm_cap bm) LOAD_NUM) as [y|]; [rewrite !bind_ret|by right]. destruct (x <=? y); [|exact Hg].
  destruct (umul (bm_tombstones bm) 2) as [c|]; [rewrite !bind_ret|by right]. destruct (c <=? bm_cap bm); [|exact Hg].
  right. split; [done|]. intros bm' [= <-]. by left.
Qed.

(** What removing an occupied entry does to the two counters. *)
Lemma count_tombstone t i e :
  zlookup t i = Some e → occupied e →
  let t' := zinsert t i (mkEntry (e_key e) (e_meta e) STATE_TOMBSTONE) in
  count_state STATE_OCCUPIED t' = count_state STATE_OCCUPIED t - 1 ∧
  count_state STATE_TOMBSTONE t' = count_state STATE_TOMBSTONE t + 1 ∧
  1 ≤ count_state STATE_OCCUPIED t ≤ zlen t ∧
  0 ≤ count_state STATE_TOMBSTONE t < zlen t.
Proof.
  intros Hl Ho t'.
  pose proof (count_state_bounds STATE_OCCUPIED t') as H1.
  pose proof (count_state_bounds STATE_TOMBSTONE t') as H2. unfold t' in *.
  rewrite !zlen_zinsert, !(count_state_zinsert _ _ _ _ _ Hl) in *.
  unfold has_state in *. rewrite Ho in *. cbn [e_state] in *.
  pose proof (count_state_bounds STATE_OCCUPIED t). pose proof (count_state_bounds STATE_TOMBSTONE t).
  repeat case_decide; try done; lia.
Qed.

Lemma get_spec bm m key : map_inv bm m → get bm key = Ret (m !! key).
Proof.
  intros Hmi. unfold get. unfold map_inv in Hmi. destruct (bm_ptr bm) as [t|].
  - destruct Hmi as (Hinv & Hrep & _). pose proof (pow2_cap_pos _ (ti_cap _ _ Hinv)).
    rewrite (proj2 (Z.eqb_neq _ _)) by lia. rewrite pos_start by apply Hinv.
    pose proof (find_loop_spec (Z.to_nat (bm_cap bm)) t (bm_cap bm) m key 0 Hinv Hrep) as Hf.
    ospecialize* Hf; [lia|lia|apply passed_0|].
    destruct (m !! key) as [v|].
    + destruct Hf as (i & e & -> & _ & _ & _ & <-). done.
    + rewrite Hf. done.
  - destruct Hmi as (_ & _ & _ & ->). done.
Qed.

Lemma remove_spec bm m key :
  map_inv bm m →
  ∃ bm', remove bm key = Ret (m !! key, bm') ∧ map_inv bm' (delete key m) ∧
    bm_cap bm' = bm_cap bm.
Proof.
  intros Hmi. unfold remove. pose proof Hmi as Hmi0. unfold map_inv in Hmi.
  destruct (bm_ptr bm) as [t|] eqn:Hptr.
  - destruct Hmi as (Hinv & Hrep & Hcap & Hlen & Htomb).
    pose proof (pow2_cap_pos _ (ti_cap _ _ Hinv)). pose proof (ti_len _ _ Hinv) as Htl.
    rewrite (proj2 (Z.eqb_neq _ _)) by lia. rewrite pos_start by apply Hinv.
    pose proof (find_loop_spec (Z.to_nat (bm_cap bm)) t (bm_cap bm) m key 0 Hinv Hrep) as Hf.
    ospecialize* Hf; [lia|lia|apply passed_0|].
    destruct (m !! key) as [v|] eqn:Hm.
    + destruct Hf as (i & e & -> & Hl & Ho & Hk & <-). rewrite bind_ret.
      rewrite vset_ok, bind_ret by (by eapply zlookup_Some_lt).
      destruct (put_tombstone t _ m key i e Hinv Hrep Hl Ho Hk) as [Hinv' Hrep'].
      eexists. split; [done|]. split; [|done]. unfold map_inv. cbn.
      destruct (count_tombstone t i e Hl Ho) as (Hc1 & Hc2 & Hb1 & Hb2).
      rewrite Hc1, Hc2, !wrap64_small by (unfold word64; lia). split_and!; try done; lia.
    + rewrite Hf, bind_ret. exists bm. split; [done|]. split; [|done].
      by rewrite delete_id.
  - destruct Hmi as (_ & _ & _ & ->). exists bm. split; [done|]. split; [|done].
    by rewrite delete_empty.
Qed.

(** ** The capacity is linear in the number of operations *)

(** What the probe loop of [insert] can do to the counters. *)
Lemma insert_loop_counts n bm t key meta idx ft bm' :
  insert_loop n bm t key meta idx ft = Ret bm' →
  bm_cap bm' = bm_cap bm ∧
  (bm_len bm' = bm_len bm ∨ bm_len bm' = wrap64 (bm_len bm + 1)) ∧
  (bm_tombstones bm' = bm_tombstones bm ∨ bm_tombstones bm' = wrap64 (bm_tombstones bm - 1)).
Proof.
  revert idx ft. induction n as [|n IH]; intros idx ft; cbn [insert_loop].
  - case_match; [|done]. intros ?. inv_ret. cbn. auto.
  - intros ?. inv_ret. repeat case_match; inv_ret; cbn; eauto.
Qed.

(** After [n] operations: the capacity is within four times [n], and neither counter
    exceeds [n]. *)
Definition ops_bound (n : Z) (bm : BigAllocMap) : Prop :=
  0 ≤ bm_cap bm ≤ Z.max INITIAL_CAP (4 * (n + 1)) ∧ bm_len bm ≤ n ∧ bm_tombstones bm ≤ n.

Section Bound.
Context (mmap_ok : Z → bool).

Lemma ensure_capacity_counts bm bm' :
  ensure_capacity mmap_ok bm = Ret bm' →
  bm' = bm ∨
  (bm_cap bm' = INITIAL_CAP ∧ bm_len bm' = 0 ∧ bm_tombstones bm' = 0) ∨
  (bm_cap bm' = Z.max (saturating_mul64 (bm_cap bm) 2) INITIAL_CAP ∧
   bm_len bm' = bm_len bm ∧ bm_tombstones bm' = 0 ∧
   (bm_cap bm * 7 < (bm_len bm + 1) * 10 ∨ bm_cap bm < bm_tombstones bm * 2)).
Proof.
  unfold ensure_capacity. intros Hr. case_zb_in Hr.
  { unfold alloc_table in Hr. inv_ret. cbn. auto. }
  assert (Hg : grow mmap_ok bm = Ret bm' →
    bm_cap bm' = Z.max (saturating_mul64 (bm_cap bm) 2) INITIAL_CAP ∧
    bm_len bm' = bm_len bm ∧ bm_tombstones bm' = 0).
  { unfold grow. intros ?. inv_ret. done. }
  apply bind_Ret_inv in Hr as (l1 & [-> _]%uadd_inv & Hr).
  apply bind_Ret_inv in Hr as (a & [-> _]%umul_inv & Hr).
  apply bind_Ret_inv in Hr as (b & [-> _]%umul_inv & Hr).
  unfold LOAD_DEN, LOAD_NUM in Hr. case_zb_in Hr.
  - apply bind_Ret_inv in Hr as (c & [-> _]%umul_inv & Hr). case_zb_in Hr.
    + inv_ret. auto.
    + right; right. destruct (Hg Hr) as (? & ? & ?). split_and!; try done. lia.
  - right; right. destruct (Hg Hr) as (? & ? & ?). split_and!; try done. lia.
Qed.

Lemma ensure_capacity_bound n bm bm' :
  0 ≤ n → ops_bound n bm → ensure_capacity mmap_ok bm = Ret bm' →
  0 ≤ bm_cap bm' ≤ Z.max INITIAL_CAP (4 * (n + 2)) ∧ bm_len bm' ≤ n ∧ bm_tombstones bm' ≤ n.
Proof.
  intros Hn (Hc & Hl & Ht) [->|[(-> & -> & ->)|(-> & -> & -> & H)]]%ensure_capacity_counts;
    unfold saturating_mul64, INITIAL_CAP in *; lia.
Qed.

End Bound.

Lemma map_inv_counters bm m :
  map_inv bm m →
  0 ≤ bm_len bm ≤ 2 ^ 56 ∧ 0 ≤ bm_tombstones bm ≤ 2 ^ 56 ∧ 0 ≤ bm_cap bm ≤ 2 ^ 56.
Proof.
  unfold map_inv. destruct (bm_ptr bm) as [t|]; [|lia].
  intros (Hinv & _ & Hc & -> & ->). rewrite <- (ti_len _ _ Hinv) in *.
  pose proof (count_state_bounds STATE_OCCUPIED t). pose proof (count_state_bounds STATE_TOMBSTONE t).
  unfold zlen in *. lia.
Qed.

(** A counter that is decremented can only leave the small range by wrapping. *)
Lemma wrap64_pred_le x : 0 ≤ x ≤ 2 ^ 56 → wrap64 (x - 1) ≤ 2 ^ 56 → wrap64 (x - 1) ≤ x.
Proof.
  intros Hx Hw. destruct (decide (x = 0)) as [->|].
  - vm_compute in Hw. done.
  - rewrite wrap64_small by (unfold word64; lia). lia.
Qed.

Lemma remove_counts bm key r bm' :
  remove bm key = Ret (r, bm') →
  (bm_len bm' = bm_len bm ∨ bm_len bm' = wrap64 (bm_len bm - 1)) ∧
  (bm_tombstones bm' = bm_tombstones bm ∨ bm_tombstones bm' = wrap64 (bm_tombstones bm + 1)).
Proof.
  unfold remove. intros H. repeat case_match; inv_ret; simplify_eq; auto.
  case_match; inv_ret; simplify_eq; [|auto]. case_match. inv_ret. cbn. auto.
Qed.

(** ** Sequences of operations *)

Inductive map_op :=
  | OpInsert (key : Z) (meta : BigAllocMeta)
  | OpGet (key : Z)
  | OpRemove (key : Z).

Section Run.
Context (mmap_ok : Z → bool).

(** One call, with what it returns; [insert] returns nothing. *)
Definition map_step (op : map_op) (bm : BigAllocMap) : M (option BigAllocMeta * BigAllocMap) :=
  match op with
  | OpInsert k v => bm' ← insert mmap_ok bm k v; Ret (None, bm')
  | OpGet k => r ← get bm k; Ret (r, bm)
  | OpRemove k => remove bm k
  end.

Fixpoint run_map (ops : list map_op) (bm : BigAllocMap) :
    M (list (option BigAllocMeta) * BigAllocMap) :=
  match ops with
  | [] => Ret ([], bm)
  | op :: ops =>
      '(r, bm) ← map_step op bm;
      '(rs, bm) ← run_map ops bm;
      Ret (r :: rs, bm)
  end.
End Run.

(** The same sequence on a finite map. *)
Definition spec_step (op : map_op) (m : gmap Z BigAllocMeta) :
    option BigAllocMeta * gmap Z BigAllocMeta :=
  match op with
  | OpInsert k v => (None, <[k := v]> m)
  | OpGet k => (m !! k, m)
  | OpRemove k => (m !! k, delete k m)
  end.

Fixpoint spec_run (ops : list map_op) (m : gmap Z BigAllocMeta) :
    list (option BigAllocMeta) * gmap Z BigAllocMeta :=
  match ops with
  | [] => ([], m)
  | op :: ops =>
      let '(r, m) := spec_step op m in
      let '(rs, m) := spec_run ops m in (r :: rs, m)
  end.

Section RunSpec.
Context (mmap_ok : Z → bool) (mmap_grants : ∀ size, mmap_ok size = true).

Lemma map_step_spec n op bm m :
  map_inv bm m → ops_bound n bm → 0 ≤ n ≤ 2 ^ 50 →
  ∃ bm', map_step mmap_ok op bm = Ret ((spec_step op m).1, bm') ∧
    map_inv bm' (spec_step op m).2 ∧ ops_bound (n + 1) bm'.
Proof.
  intros Hmi Hb Hn. destruct (map_inv_counters _ _ Hmi) as (Hl & Ht & Hc).
  destruct Hb as (Hb1 & Hb2 & Hb3). unfold INITIAL_CAP in Hb1.
  destruct op as [k v|k|k]; cbn [map_step spec_step fst snd].
  - destruct (insert_spec mmap_ok mmap_grants bm m k v Hmi) as (bm' & He & Hmi'); [lia|].
    rewrite He, bind_ret. exists bm'. split_and!; try done.
    destruct (ensure_capacity_spec mmap_ok mmap_grants bm m Hmi) as (bm1 & t & He1 & _ & Hmi1 & _); [lia|].
    unfold insert in He. rewrite He1, bind_ret in He.
    destruct (ensure_capacity_bound mmap_ok n bm bm1) as (Hc1 & Hl1 & Ht1); try done; [lia|].
    destruct (map_inv_counters _ _ Hmi1) as (Hl2 & Ht2 & _).
    destruct (map_inv_counters _ _ Hmi') as (Hl3 & Ht3 & _).
    destruct (insert_loop_counts _ _ _ _ _ _ _ _ He) as (Hc4 & Hl4 & Ht4).
    unfold ops_bound, INITIAL_CAP in *. rewrite Hc4. split; [lia|]. split.
    + destruct Hl4 as [->| ->]; [lia|]. rewrite wrap64_small by (unfold word64; lia). lia.
    + destruct Ht4 as [->|Heq]; [lia|]. rewrite Heq in *.
      pose proof (wrap64_pred_le (bm_tombstones bm1)). lia.
  - rewrite (get_spec _ _ _ Hmi), bind_ret. exists bm. split_and!; try done; unfold ops_bound, INITIAL_CAP; lia.
  - destruct (remove_spec bm m k Hmi) as (bm' & He & Hmi' & Hcap).
    exists bm'. split_and!; try done.
    destruct (map_inv_counters _ _ Hmi') as (Hl3 & Ht3 & _).
    destruct (remove_counts _ _ _ _ He) as (Hl4 & Ht4).
    unfold ops_bound, INITIAL_CAP in *. rewrite Hcap. split; [lia|]. split.
    + destruct Hl4 as [->|Heq]; [lia|]. rewrite Heq in *.
      pose proof (wrap64_pred_le (bm_len bm)). lia.
    + destruct Ht4 as [->| ->]; [lia|]. rewrite wrap64_small by (unfold word64; lia). lia.
Qed.

Lemma run_map_spec ops n bm m :
  map_inv bm m → ops_bound n bm → 0 ≤ n → n + zlen ops ≤ 2 ^ 50 →
  ∃ bm', run_map mmap_ok ops bm = Ret ((spec_run ops m).1, bm') ∧
    map_inv bm' (spec_run ops m).2 ∧ ops_bound (n + zlen ops) bm'.
Proof.
  revert n bm m. induction ops as [|op ops IH]; intros n bm m Hmi Hb Hn Hlen.
  - exists bm. cbn. rewrite Z.add_0_r. done.
  - assert (Hz : zlen (op :: ops) = zlen ops + 1) by (unfold zlen; cbn; lia).
    rewrite Hz in *. assert (0 ≤ zlen ops) by (unfold zlen; lia). cbn [run_map spec_run].
    destruct (map_step_spec n op bm m Hmi Hb) as (bm1 & -> & Hmi1 & Hb1); [lia|].
    rewrite bind_ret. destruct (spec_step op m) as [r m1] eqn:E. cbn [fst snd] in *.
    destruct (IH (n + 1) bm1 m1) as (bm2 & -> & Hmi2 & Hb2); try done; try lia.
    rewrite bind_ret. destruct (spec_run ops m1) as [rs m2] eqn:E2. cbn [fst snd] in *.
    exists bm2. split_and!; try done. by replace (n + (zlen ops + 1)) with (n + 1 + zlen ops) by lia.
Qed.
End RunSpec.

(** ** The interface *)

(** What the table is as a [BigMap]: it represents a map, and its mapping fits in the address
    space. *)
Definition big_rep (bm : BigAllocMap) (m : gmap Z BigAllocMeta) : Prop := map_inv bm m ∧ bm_cap bm ≤ 2 ^ 52.

Lemma insert_rep (mmap_ok : Z → bool) bm m k v :
  (∀ size, mmap_ok size = true → size ≤ 2 ^ 57) → big_rep bm m →
  post (insert mmap_ok bm k v) (λ bm', big_rep bm' (<[k := v]> m))
    (λ e, e = Fatal OutOfMemory ∧ next_granted mmap_ok bm ≠ true).
Proof.
  intros Hfits [Hmi Hcap]. destruct (map_inv_counters _ _ Hmi) as (_ & _ & Hc).
  destruct (insert_spec (λ _, true) (λ _, eq_refl) bm m k v Hmi) as (bm' & He & Hmi'); [lia|].
  unfold insert in *. destruct (ensure_capacity_asks mmap_ok bm) as [[-> Hno]|[-> Hasks]]; [lia|by rewrite Hno|].
  rewrite He. split; [done|]. apply bind_Ret_inv in He as (bm1 & He1 & He).
  destruct (insert_loop_counts _ _ _ _ _ _ _ _ He) as (-> & _).
  destruct (Hasks bm1 He1) as [->|Hyes]; [done|]. pose proof (Hfits _ Hyes) as Hle.
  apply ensure_capacity_counts in He1 as [->|[(-> & _)|(-> & _)]]; [done| |];
    unfold next_cap, INITIAL_CAP, ENTRY_SIZE in *; lia.
Qed.

(** The big-allocation table is an implementation of [BigMap], for a kernel that maps no more than
    the address space holds. *)
#[export] Instance BigAllocMap_BigMap (mmap_ok : Z → bool) (Hfits : ∀ size, mmap_ok size = true → size ≤ 2 ^ 57) :
  BigMap BigAllocMap.
Proof.
  refine {|
    bmap_empty := BigAllocMap_new;
    bmap_insert := insert mmap_ok;
    bmap_get := get;
    bmap_remove := remove;
    bmap_rep := big_rep;
    bmap_ready bm := next_granted mmap_ok bm = true
  |}.
  - split; [apply new_map_inv|done].
  - intros b m k v Hb. by apply insert_rep.
  - intros b m k [Hmi _]. by apply get_spec.
  - intros b m k [Hmi Hcap]. destruct (remove_spec b m k Hmi) as (b' & ? & ? & Hc). exists b'. split; [done|]. split; [done|lia].
Defined.

(** ** Properties *)

(** C19: Any sequence of insertions, lookups and removals on a fresh big-allocation table,
    through its growths and rehashes, returns call by call what a finite map returns; no
    call aborts with "table full", and the capacity stays linear in the number of calls.  This
    is for a kernel that grants every mapping, and up to 2^50 calls.  (What an insertion does when
    a mapping is refused is [insert_rep].) *)
Theorem bigmap_refines_finite_map (mmap_ok : Z → bool) (ops : list map_op)
    (Hmmap : ∀ size, mmap_ok size = true) (Hops : zlen ops ≤ 2 ^ 50) :
  ∃ bm, run_map mmap_ok ops BigAllocMap_new = Ret ((spec_run ops ∅).1, bm) ∧
    (∀ k, get bm k = Ret ((spec_run ops ∅).2 !! k)) ∧
    bm_cap bm ≤ Z.max INITIAL_CAP (4 * (zlen ops + 1)).
Proof.
  destruct (run_map_spec mmap_ok Hmmap ops 0 BigAllocMap_new ∅) as (bm & Hrun & Hmi & Hb & _);
    [apply new_map_inv|done|done|lia|].
  exists bm. split_and!; [done|intros k; by apply get_spec|lia].
Qed.

Lemma bigmap_refines_finite_map_witness :
  let ops := [OpInsert 4096 (mkMeta 10 0 0 0); OpInsert 8192 (mkMeta 20 1 0 0); OpRemove 4096;
              OpInsert 8192 (mkMeta 30 1 0 0); OpGet 4096; OpGet 8192] in
  ∃ bm, run_map (λ _, true) ops BigAllocMap_new =
          Ret ([None; None; Some (mkMeta 10 0 0 0); None; None; Some (mkMeta 30 1 0 0)], bm) ∧
    (∀ k, get bm k = Ret ((spec_run ops ∅).2 !! k)) ∧ bm_cap bm ≤ 16384.
Proof.
  intros ops.
  exact (bigmap_refines_finite_map (λ _, true) ops (λ _, eq_refl) ltac:(vm_compute; discriminate)).
Defined.
