(* ===== verification/Lock.v ===== *)
(** * The spin lock (src/src/internals/lock.rs)

    [SerialLock] is one [AtomicBool]; [lock] spins on a compare-and-swap and
    returns a [_LockGuard] whose drop stores [false].  [unlock] also stores
    [false], and nothing ties it to the guard.

    A thread that uses a lock is a sequence of the calls below.  A caller that
    only relies on the guard calls [lock] and drops the guard; the early exits of
    [VaBitmap::grow] call [unlock] and then drop the guard as well. *)

From S2P Require Import Prelude Lib.

(** ** The lock word *)

(** [compare_exchange(false, true)]: the new word, or [None] on failure. *)
Definition try_lock (state : bool) : option bool := if state then None else Some true.

(** [_LockGuard::drop]: [store(false, Relaxed)]. *)
Definition guard_drop (state : bool) : bool := false.

(** [SerialLock::unlock]: [store(false, Release)]. *)
Definition unlock (state : bool) : bool := false.

Definition reset_on_fork (state : bool) : bool := unlock state.

(** ** Per-class locks *)

Definition GlobalLock_new (num_classes : nat) : list bool := replicate num_classes false.

Definition GlobalLock_try_lock (locks : list bool) (class : Z) : M (option (list bool)) :=
  s ← vget locks class;
  match try_lock s with
  | None => Ret None
  | Some s => locks ← vset locks class s; Ret (Some locks)
  end.

Definition GlobalLock_unlock (locks : list bool) (class : Z) : M (list bool) :=
  s ← vget locks class; vset locks class (unlock s).

Definition GlobalLock_reset_on_fork (locks : list bool) : list bool := reset_on_fork <$> locks.

(** ** Threads that use one lock *)

Inductive lock_call : Type :=
| CallLock      (* [let _guard = lock.lock()] *)
| CallUnlock    (* [lock.unlock()] *)
| DropGuard.    (* the end of the guard's scope *)

(** A thread: whether it is between a successful [lock] and its first release, and the
    calls it has still to make. *)
Record lthread : Type := mkThread { lt_inside : bool; lt_calls : list lock_call }.

(** One atomic access to the lock word; a failed compare-and-swap is not a step. *)
Definition lock_step (state : bool) (t : lthread) : option (bool * lthread) :=
  match lt_calls t with
  | [] => None
  | CallLock :: cs => s ← try_lock state; Some (s, mkThread true cs)
  | CallUnlock :: cs => Some (unlock state, mkThread false cs)
  | DropGuard :: cs => Some (guard_drop state, mkThread false cs)
  end.

Inductive lstep : bool * list lthread → bool * list lthread → Prop :=
| LStep s ts tid t s' t' :
    ts !! tid = Some t → lock_step s t = Some (s', t') →
    lstep (s, ts) (s', <[tid := t']> ts).

Fixpoint run_lock (sched : list nat) (st : bool * list lthread) : option (bool * list lthread) :=
  match sched with
  | [] => Some st
  | tid :: sched =>
      t ← st.2 !! tid;
      '(s, t) ← lock_step st.1 t;
      run_lock sched (s, <[tid := t]> st.2)
  end.

Lemma run_lock_steps sched st st' : run_lock sched st = Some st' → rtc lstep st st'.
Proof.
  revert st. induction sched as [|tid sched IH]; intros [s ts] H; cbn in H; simplify_eq; [done|].
  destruct (ts !! tid) as [t|] eqn:Ht; cbn in H; [|done].
  destruct (lock_step s t) as [[s1 t1]|] eqn:Hs; cbn in H; [|done].
  econstructor; [by econstructor|]. by apply IH.
Qed.

(** [n] critical sections that rely on the guard alone. *)
Fixpoint guarded (n : nat) : list lock_call :=
  match n with O => [] | S n => CallLock :: DropGuard :: guarded n end.

(** An early exit of [VaBitmap::grow]: [lock.unlock(); return ..] in the scope of [_guard]. *)
Definition grow_exit : list lock_call := [CallLock; CallUnlock; DropGuard].

Definition start (prog : list lock_call) : lthread := mkThread false prog.

(** ** Mutual exclusion for guarded sections *)

(** A thread outside has whole sections to run; one inside has its guard to drop first. *)
Definition guarded_thread (t : lthread) : Prop :=
  if lt_inside t then ∃ n, lt_calls t = DropGuard :: guarded n
  else ∃ n, lt_calls t = guarded n.

Record lock_inv (st : bool * list lthread) : Prop := {
  li_guarded : ∀ tid t, st.2 !! tid = Some t → guarded_thread t;
  li_held : st.1 = false → ∀ tid t, st.2 !! tid = Some t → lt_inside t = false;
  li_excl : ∀ i j t u, st.2 !! i = Some t → st.2 !! j = Some u →
    lt_inside t = true → lt_inside u = true → i = j;
  li_some : st.1 = true → ∃ tid t, st.2 !! tid = Some t ∧ lt_inside t = true
}.

Lemma guarded_step s t s' t' :
  guarded_thread t → lock_step s t = Some (s', t') →
  guarded_thread t' ∧ lt_inside t' = negb (lt_inside t) ∧ s' = lt_inside t' ∧
  (s = true → lt_inside t = true).
Proof.
  unfold guarded_thread, lock_step. destruct t as [[] cs]; cbn; intros [n ->] H.
  - cbn in H. simplify_eq. cbn. eauto.
  - destruct n as [|n]; cbn in H; [done|].
    destruct s; cbn in H; simplify_eq. cbn. eauto.
Qed.

Lemma lock_inv_step st st' : lock_inv st → lstep st st' → lock_inv st'.
Proof.
  intros [Hg Hh Hx _] Hstep. destruct Hstep as [s ts tid t s' t' Ht Hs]; cbn in *.
  destruct (guarded_step _ _ _ _ (Hg _ _ Ht) Hs) as (Hg' & Hin & -> & Hs').
  assert (Hother : ∀ i u, i ≠ tid → ts !! i = Some u → lt_inside u = false).
  { intros i u Hi Hu. destruct (lt_inside u) eqn:E; [|done]. destruct s.
    - destruct Hi. by eapply (Hx i tid u t); auto.
    - by rewrite (Hh eq_refl _ _ Hu) in E. }
  split; cbn.
  - intros i u [(-> & -> & _)|[_ Hu]]%list_lookup_insert_Some; [done|by eapply Hg].
  - intros Hf i u [(-> & -> & _)|[Hi Hu]]%list_lookup_insert_Some; [done|]. by eapply Hother.
  - intros i j u v Hu Hv Hiu Hiv.
    apply list_lookup_insert_Some in Hu as [(-> & -> & _)|[Hi Hu]];
    apply list_lookup_insert_Some in Hv as [(-> & -> & _)|[Hj Hv]]; try done.
    + by rewrite (Hother j v) in Hiv.
    + by rewrite (Hother i u) in Hiu.
    + by rewrite (Hother j v) in Hiv.
  - intros Hi. exists tid, t'. split; [|done]. apply list_lookup_insert_eq. by eapply lookup_lt_Some.
Qed.

Lemma lock_inv_start ns : lock_inv (false, (λ n, start (guarded n)) <$> ns).
Proof.
  assert (H : ∀ tid t, ((λ n, start (guarded n)) <$> ns) !! tid = Some t →
    ∃ n, t = start (guarded n)).
  { intros tid t. rewrite list_lookup_fmap_Some. intros (n & -> & _). eauto. }
  split; cbn.
  - intros tid t [n ->]%H. by exists n.
  - by intros _ tid t [n ->]%H.
  - by intros i j t u [n ->]%H _ ?.
  - done.
Qed.

(** C27: Threads that take a spin lock and release it by dropping the guard exclude one
    another: however their accesses to the lock word interleave, at most one thread is
    between a successful [lock] and the drop of its guard, and the word is [true] exactly
    while one is. *)
Theorem serial_lock_excludes (ns : list nat) (st : bool * list lthread)
    (Hreach : rtc lstep (false, (λ n, start (guarded n)) <$> ns) st) :
  (st.1 = true ↔ ∃ i t, st.2 !! i = Some t ∧ lt_inside t = true) ∧
  (∀ i j t u, st.2 !! i = Some t → st.2 !! j = Some u →
    lt_inside t = true → lt_inside u = true → i = j).
Proof.
  pose proof (rtc_preserve lock_inv lstep lock_inv_step _ _ Hreach (lock_inv_start ns))
    as [_ Hh Hx Hs].
  split; [|done]. split; [done|]. intros (i & t & Ht & Hi). destruct (st.1) eqn:E; [done|].
  by rewrite (Hh eq_refl _ _ Ht) in Hi.
Qed.

Lemma serial_lock_excludes_witness :
  let st := (true, [mkThread true [DropGuard]; mkThread false [CallLock; DropGuard]]) in
  rtc lstep (false, (λ n, start (guarded n)) <$> [1; 1]%nat) st ∧
  (st.1 = true ↔ ∃ i t, st.2 !! i = Some t ∧ lt_inside t = true).
Proof.
  intros st. assert (H : rtc lstep (false, (λ n, start (guarded n)) <$> [1; 1]%nat) st)
    by (apply (run_lock_steps [0%nat]); reflexivity).
  split; [exact H|]. exact (proj1 (serial_lock_excludes [1; 1]%nat st H)).
Defined.

(** Two threads, one of which leaves through an early exit of [grow]. *)
Definition grow_race : bool * list lthread :=
  (false, [start grow_exit; start (guarded 1); start (guarded 1)]).

(** C28: An early exit of [VaBitmap::grow] releases the lock twice, once by [lock.unlock()] and
    once more by dropping [_guard]: the second release can free the lock under another
    thread that has taken it in between, and a third thread then enters while the second
    is still inside. *)
Theorem grow_exit_breaks_exclusion :
  ∃ st, rtc lstep grow_race st ∧
    st.2 = [mkThread false []; mkThread true [DropGuard]; mkThread true [DropGuard]].
Proof.
  eexists. split; [|shelve].
  apply (run_lock_steps [0; 0; 1; 0; 2]%nat). reflexivity.
  Unshelve. reflexivity.
Qed.
