(* ===== verification/Once.v ===== *)
(** * One-time initialisation (src/src/internals/once.rs, oncelock.rs)

    [Once] is one [AtomicU8]: 0 before the first call, 1 while a thread runs the
    closure, 2 afterwards.  [OnceLock] adds the cell that the closure writes.
    [call_once] is modelled one atomic access at a time, for any number of
    threads that call [get_or_init] on the same cell, each with its own value. *)

From S2P Require Import Prelude Lib.

Section Once.
Context {T : Type}.

(** [Once.state] and [OnceLock.value]; [ol_runs] counts the runs of a closure. *)
Record OnceLock : Type := mkOnce { o_state : Z; o_value : option T; o_runs : Z }.

Definition OnceLock_new : OnceLock := mkOnce 0 None 0.

(** Where a thread is in [get_or_init]. *)
Inductive opc : Type :=
| OLoad     (* about to load the state, Relaxed *)
| OCas      (* about to [compare_exchange(0, 1)] *)
| ORun      (* about to run the closure, which writes the value *)
| OStore    (* about to store 2 *)
| OWait     (* in [while self.state.load(Acquire) != 2] *)
| ODone.    (* returned a reference to the value *)

(** A thread: its place and the value that its closure computes. *)
Record othread : Type := mkOT { ot_pc : opc; ot_val : T }.

(** One access; the failing load of the last loop is not a step. *)
Definition once_step (o : OnceLock) (t : othread) : option (OnceLock * othread) :=
  let goto pc := mkOT pc (ot_val t) in
  match ot_pc t with
  | OLoad => Some (o, goto (if o_state o =? 2 then ODone else OCas))
  | OCas =>
      if o_state o =? 0 then Some (mkOnce 1 (o_value o) (o_runs o), goto ORun)
      else Some (o, goto OWait)
  | ORun => Some (mkOnce (o_state o) (Some (ot_val t)) (o_runs o + 1), goto OStore)
  | OStore => Some (mkOnce 2 (o_value o) (o_runs o), goto OWait)
  | OWait => if o_state o =? 2 then Some (o, goto ODone) else None
  | ODone => None
  end.

(** [OnceLock::get]: reads the cell without a check. *)
Definition OnceLock_get (o : OnceLock) : option T := o_value o.

(** [reset_at_fork]: [compare_exchange(1, 0)]. *)
Definition reset_on_fork (o : OnceLock) : OnceLock :=
  if o_state o =? 1 then mkOnce 0 (o_value o) (o_runs o) else o.

Definition get_state (o : OnceLock) : Z := o_state o.

Inductive ostep : OnceLock * list othread → OnceLock * list othread → Prop :=
| OStep o ts tid t o' t' :
    ts !! tid = Some t → once_step o t = Some (o', t') →
    ostep (o, ts) (o', <[tid := t']> ts).

Definition callers (vs : list T) : list othread := mkOT OLoad <$> vs.

(** ** The invariant *)

Definition initialising (t : othread) : bool :=
  match ot_pc t with ORun | OStore => true | _ => false end.

Record once_inv (st : OnceLock * list othread) : Prop := {
  oi_range : o_state st.1 = 0 ∨ o_state st.1 = 1 ∨ o_state st.1 = 2;
  oi_active : ∀ i t, st.2 !! i = Some t → initialising t = true → o_state st.1 = 1;
  oi_one : ∀ i j t u, st.2 !! i = Some t → st.2 !! j = Some u →
    initialising t = true → initialising u = true → i = j;
  oi_some : o_state st.1 = 1 → ∃ i t, st.2 !! i = Some t ∧ initialising t = true;
  oi_done : ∀ i t, st.2 !! i = Some t → ot_pc t = ODone → o_state st.1 = 2;
  oi_stored : o_state st.1 = 2 → ∃ w, o_value st.1 = Some w;
  oi_storing : ∀ i t, st.2 !! i = Some t → ot_pc t = OStore → ∃ w, o_value st.1 = Some w;
  oi_waiting : ∀ i t, st.2 !! i = Some t → ot_pc t = OWait → o_state st.1 ≠ 0;
  oi_runs0 : o_state st.1 = 0 → o_runs st.1 = 0;
  oi_running : ∀ i t, st.2 !! i = Some t → ot_pc t = ORun → o_runs st.1 = 0;
  oi_runs : 0 ≤ o_runs st.1 ≤ 1
}.

Lemma once_inv_callers vs : once_inv (OnceLock_new, callers vs).
Proof.
  assert (H : ∀ i t, callers vs !! i = Some t → ot_pc t = OLoad).
  { intros i t. unfold callers. rewrite list_lookup_fmap_Some. by intros (v & -> & _). }
  split; cbn; try done; try lia; auto.
  - intros i t Ht%H. unfold initialising. by rewrite Ht.
  - intros i j t u Ht%H. unfold initialising. by rewrite Ht.
  - intros i t Ht%H. by rewrite Ht.
  - intros i t Ht%H. by rewrite Ht.
  - intros i t Ht%H. by rewrite Ht.
Qed.

(** Only one thread leaves or enters the closure at a step. *)
Ltac split_threads :=
  repeat match goal with
    | H : <[_ := _]> _ !! _ = Some _ |- _ =>
        apply list_lookup_insert_Some in H; destruct H as [(? & ? & ?)|[? ?]]; subst
    end.

(** A step that leaves the cell alone, of a thread outside the closure. *)
Lemma once_inv_quiet o ts tid t t' :
  once_inv (o, ts) → ts !! tid = Some t → initialising t = false → initialising t' = false →
  (ot_pc t' = ODone → o_state o = 2) → (ot_pc t' = OWait → o_state o ≠ 0) → once_inv (o, <[tid := t']> ts).
Proof.
  intros [Hr Ha H1 Hs Hd Hv Hw Hwt Hr0 Hrun Hruns] Ht Hn Hn' Hdone Hwait; cbn in *.
  assert (Hpc : ot_pc t' ≠ OStore ∧ ot_pc t' ≠ ORun)
    by (unfold initialising in Hn'; by destruct (ot_pc t')).
  split; cbn; try done; intros; split_threads; try congruence; eauto; try (exfalso; tauto).
  destruct Hs as (i & u & Hu & Hi); [done|]. exists i, u. split; [|done].
  rewrite list_lookup_insert_ne; congruence.
Qed.

(** The thread that enters the closure, runs it or leaves it is the only one there. *)
Lemma once_inv_active o ts tid t o' t' :
  once_inv (o, ts) → ts !! tid = Some t → (∀ i u, tid ≠ i → ts !! i = Some u →
    initialising u = false ∧ ot_pc u ≠ ODone) →
  match ot_pc t' with
  | ORun => o_state o' = 1 ∧ o_runs o' = 0
  | OStore => o_state o' = 1 ∧ 0 ≤ o_runs o' ≤ 1 ∧ ∃ w, o_value o' = Some w
  | OWait => o_state o' = 2 ∧ 0 ≤ o_runs o' ≤ 1 ∧ ∃ w, o_value o' = Some w
  | _ => False
  end → once_inv (o', <[tid := t']> ts).
Proof.
  intros _ Ht Hoth Hpc.
  assert (Hin : <[tid := t']> ts !! tid = Some t')
    by (apply list_lookup_insert_eq; by eapply lookup_lt_Some).
  assert (Hnot : ∀ i u, tid ≠ i → ts !! i = Some u →
    ot_pc u ≠ OStore ∧ ot_pc u ≠ ORun ∧ ot_pc u ≠ ODone ∧ initialising u ≠ true).
  { intros i u Hi Hu. destruct (Hoth i u Hi Hu) as [Hf ?]. unfold initialising in *.
    by destruct (ot_pc u). }
  clear Hoth. destruct t' as [pc v]; cbn in *.
  destruct pc; try done; split_hyps; split; cbn;
    try (intros; lia); try done; try (by eauto); try (by intros; exists tid, (mkOT ORun v));
    try (by intros; eexists tid, _);
    intros; split_threads; try done; try lia; try (by eauto);
    match goal with Hi : _ ≠ ?i, Hu : ts !! ?i = Some ?u |- _ =>
      by destruct (Hnot i u Hi Hu) as (? & ? & ? & ?) end.
Qed.

Lemma once_inv_step st st' : once_inv st → ostep st st' → once_inv st'.
Proof.
  intros Hinv Hstep. pose proof Hinv as [Hr Ha H1 Hs Hd Hv Hw Hwt Hr0 Hrun Hruns].
  destruct Hstep as [o ts tid t o' t' Ht Hst]; cbn in *.
  assert (Halone : o_state o = 0 ∨ initialising t = true →
    ∀ i u, tid ≠ i → ts !! i = Some u → initialising u = false ∧ ot_pc u ≠ ODone).
  { intros H0 i u Hi Hu. split.
    - destruct (initialising u) eqn:E; [|done]. pose proof (Ha _ _ Hu E).
      destruct H0; [lia|]. destruct Hi. by eapply (H1 tid i t u); destruct H0.
    - intros E%(Hd _ _ Hu). destruct H0 as [?|H0]; [lia|]. pose proof (Ha _ _ Ht H0). lia. }
  unfold once_step in Hst. destruct (ot_pc t) eqn:Epc; try done.
  - simplify_eq. apply (once_inv_quiet _ _ _ t); unfold initialising; rewrite ?Epc; try done;
      cbn; case_zb; done.
  - case_zb_in Hst; simplify_eq.
    + apply (once_inv_active o _ _ t); [done..|by apply Halone; left|]. cbn. auto.
    + by apply (once_inv_quiet _ _ _ t); unfold initialising; rewrite ?Epc.
  - assert (Hi : initialising t = true) by (unfold initialising; by rewrite Epc).
    simplify_eq. apply (once_inv_active o _ _ t); [done..|by apply Halone; right|]. cbn. pose proof (Ha _ _ Ht Hi).
    pose proof (Hrun _ _ Ht Epc). split_and!; try done; try lia; eauto.
  - assert (Hi : initialising t = true) by (unfold initialising; by rewrite Epc).
    simplify_eq. apply (once_inv_active o _ _ t); [done..|by apply Halone; right|]. cbn. split_and!; try done; try lia. eauto.
  - case_zb_in Hst; simplify_eq.
    by apply (once_inv_quiet _ _ _ t); unfold initialising; rewrite ?Epc.
Qed.

(** ** Steps are bounded *)

(** The accesses a thread still makes, at most. *)
Definition rank (t : othread) : nat :=
  match ot_pc t with OLoad => 5 | OCas => 4 | ORun => 3 | OStore => 2 | OWait => 1 | ODone => 0 end.

Lemma once_step_rank o t o' t' : once_step o t = Some (o', t') → (rank t' < rank t)%nat.
Proof.
  unfold once_step, rank. destruct (ot_pc t) eqn:E; intros H; repeat case_zb_in H;
    simplify_eq; cbn; try case_zb; lia.
Qed.

Lemma ostep_rank st st' : ostep st st' → (sum_list_with rank st'.2 < sum_list_with rank st.2)%nat.
Proof.
  intros [o ts tid t o' t' Ht Hs%once_step_rank]; cbn.
  pose proof (sum_list_with_insert rank ts tid t t' Ht). lia.
Qed.

Lemma nsteps_rank n st st' :
  nsteps ostep n st st' → (n + sum_list_with rank st'.2 ≤ sum_list_with rank st.2)%nat.
Proof. induction 1 as [|n x y z Hs%ostep_rank _ IH]; lia. Qed.

Lemma callers_rank vs : sum_list_with rank (callers vs) = (5 * length vs)%nat.
Proof. induction vs; cbn; [done|]. unfold callers in IHvs. rewrite IHvs. cbn. lia. Qed.

(** Some thread can move until all have returned. *)
Lemma once_progress st i t :
  once_inv st → st.2 !! i = Some t → ot_pc t ≠ ODone → ∃ st', ostep st st'.
Proof.
  intros [Hr Ha _ Hs _ _ _ Hwt _ _ _] Ht Hn. destruct st as [o ts]; cbn in *.
  assert (Hmove : ∀ i t, ts !! i = Some t → once_step o t ≠ None → ∃ st', ostep (o, ts) st').
  { intros i' t' Ht' Hs'. destruct (once_step o t') as [[o1 t1]|] eqn:E; [|done].
    eexists. by econstructor. }
  destruct (ot_pc t) eqn:E; try done;
    try (apply (Hmove i t Ht); unfold once_step; rewrite E; repeat case_zb; done).
  destruct Hr as [H0|[H0|H0]]; [by destruct (Hwt _ _ Ht E)| |].
  - destruct (Hs H0) as (j & u & Hu & Hi). apply (Hmove j u Hu). unfold once_step, initialising in *.
    by destruct (ot_pc u).
  - apply (Hmove i t Ht). unfold once_step. by rewrite E, H0.
Qed.

(** Once stored, the value stays. *)
Lemma once_value_step st st' w :
  once_inv st → o_state st.1 = 2 → o_value st.1 = Some w → ostep st st' →
  o_state st'.1 = 2 ∧ o_value st'.1 = Some w.
Proof.
  intros [_ Ha _ _ _ _ _ _ _ _ _] H2 Hw Hstep. destruct Hstep as [o ts tid t o' t' Ht Hst]; cbn in *.
  specialize (Ha _ _ Ht). unfold once_step, initialising in *.
  destruct (ot_pc t); repeat case_zb_in Hst; simplify_eq; try done; try lia;
    specialize (Ha eq_refl); lia.
Qed.

(** The steps of the calling thread alone, with fuel. *)
Fixpoint run_alone (fuel : nat) (o : OnceLock) (t : othread) : OnceLock * othread :=
  match fuel with
  | O => (o, t)
  | S fuel => match once_step o t with None => (o, t) | Some (o, t) => run_alone fuel o t end
  end.

Lemma run_alone_steps fuel o t :
  rtc ostep (o, [t]) ((run_alone fuel o t).1, [(run_alone fuel o t).2]).
Proof.
  revert o t. induction fuel as [|fuel IH]; intros o t; cbn; [done|].
  destruct (once_step o t) as [[o1 t1]|] eqn:E; [|done].
  eapply rtc_l; [|apply IH]. by apply (OStep o [t] 0 t o1 t1).
Qed.

(** A lone caller that finds state 1 never leaves the wait. *)
Definition stuck (st : OnceLock * list othread) : Prop :=
  o_state st.1 = 1 ∧ ∃ t, st.2 = [t] ∧ (ot_pc t = OLoad ∨ ot_pc t = OCas ∨ ot_pc t = OWait).

Lemma stuck_step st st' : stuck st → ostep st st' → stuck st'.
Proof.
  intros (H1 & t0 & Hts & Hpc) Hstep. destruct Hstep as [o ts tid t o' t' Ht Hst]; cbn in *. subst ts.
  destruct tid as [|tid]; [|done]. cbn in Ht. simplify_eq.
  unfold once_step in Hst. rewrite H1 in Hst.
  destruct Hpc as [E|[E|E]]; rewrite E in Hst; cbn in Hst; simplify_eq;
    (split; [done|]; eexists; split; [done|]; cbn; auto).
Qed.
End Once.
Arguments OnceLock : clear implicits.
Arguments othread : clear implicits.

(** ** Properties *)

(** C25: However the calls of [get_or_init] of any number of threads interleave, at most one
    closure runs; a call that has returned refers to a value that was written, and that
    value never changes afterwards, so all calls return the same value. *)
Theorem get_or_init_once {T} (vs : list T) (st st' : OnceLock T * list (othread T))
    (i : nat) (t : othread T)
    (Hst : rtc ostep (OnceLock_new, callers vs) st) (Hst' : rtc ostep st st')
    (Ht : st.2 !! i = Some t) (Hdone : ot_pc t = ODone) :
  o_runs st'.1 ≤ 1 ∧
  ∃ w, OnceLock_get st.1 = Some w ∧ OnceLock_get st'.1 = Some w ∧ get_state st'.1 = 2.
Proof.
  pose proof (rtc_preserve once_inv ostep once_inv_step _ _ Hst (once_inv_callers vs)) as Hinv.
  pose proof (oi_done _ Hinv _ _ Ht Hdone) as H2. destruct (oi_stored _ Hinv H2) as [w Hw].
  assert (H : once_inv st' ∧ o_state st'.1 = 2 ∧ o_value st'.1 = Some w).
  { apply (rtc_preserve (λ s, once_inv s ∧ o_state s.1 = 2 ∧ o_value s.1 = Some w) ostep)
      with (x := st); [|done..].
    intros x y (Hi & ? & ?) Hxy. split; [by eapply once_inv_step|by eapply once_value_step]. }
  destruct H as (Hi & ? & ?). split; [apply Hi|by exists w].
Qed.

(** C26: Calls of [get_or_init] return: no execution of [n] calls makes more than [5 n]
    accesses (failing loads of the spin aside), and as long as some call has not returned
    some thread can move, so the spinning threads are never stuck. *)
Theorem get_or_init_terminates {T} (vs : list T) (n : nat) (st : OnceLock T * list (othread T))
    (Hst : nsteps ostep n (OnceLock_new, callers vs) st) :
  (n ≤ 5 * length vs)%nat ∧
  ((∃ i t, st.2 !! i = Some t ∧ ot_pc t ≠ ODone) → ∃ st', ostep st st').
Proof.
  split.
  - pose proof (nsteps_rank _ _ _ Hst) as H. cbn in H. rewrite callers_rank in H. lia.
  - intros (i & t & Ht & Hn). eapply once_progress; [|done|done].
    eapply (rtc_preserve once_inv ostep once_inv_step); [|apply once_inv_callers].
    apply rtc_nsteps. eauto.
Qed.

(** A [fork] copies the cell but only the calling thread, at any point of the parent's
    initialisation.  After [reset_on_fork] the child's own [get_or_init] returns: it
    keeps a value that was complete and computes the value again otherwise.  Without the
    reset, if the initialising thread was another one, the child waits for ever. *)
Theorem fork_child_get_or_init {T} (vs : list T) (st : OnceLock T * list (othread T)) (v : T)
    (Hst : rtc ostep (OnceLock_new, callers vs) st) :
  (∃ o', rtc ostep (reset_on_fork st.1, [mkOT OLoad v]) (o', [mkOT ODone v]) ∧
     OnceLock_get o' = if o_state st.1 =? 2 then OnceLock_get st.1 else Some v) ∧
  (o_state st.1 = 1 → ∀ o' t', rtc ostep (st.1, [mkOT OLoad v]) (o', [t']) → ot_pc t' ≠ ODone).
Proof.
  pose proof (rtc_preserve once_inv ostep once_inv_step _ _ Hst (once_inv_callers vs)) as Hinv.
  destruct st as [[s val runs] ts]; cbn. split.
  - pose proof (run_alone_steps 6 (reset_on_fork (mkOnce s val runs)) (mkOT OLoad v)) as Hrun.
    unfold reset_on_fork in *; cbn [o_state] in *.
    destruct (oi_range _ Hinv) as [Hs|[Hs|Hs]]; cbn in Hs; subst s; cbn in *; eauto.
  - intros -> o' t' Hrun.
    assert (stuck (o', [t'])) as (_ & u & Hu & Hpc).
    { eapply (rtc_preserve stuck ostep stuck_step); [exact Hrun|].
      split; [done|]. eexists. split; [done|]. by left. }
    cbn in Hu. simplify_eq. destruct Hpc as [->|[->| ->]]; done.
Qed.

(** *** Instances *)

(** The first of two callers returns, and the second after it. *)
Definition two_callers : list (othread Z) := callers [10; 20].

Lemma get_or_init_once_witness :
  let st := (mkOnce 2 (Some 10) 1, [mkOT ODone 10; mkOT OLoad 20]) in
  rtc ostep (OnceLock_new, two_callers) st ∧
  (o_runs st.1 ≤ 1 ∧
   ∃ w, OnceLock_get st.1 = Some w ∧ OnceLock_get st.1 = Some w ∧ get_state st.1 = 2).
Proof.
  intros st. assert (H : rtc ostep (OnceLock_new, two_callers) st).
  { do 5 (eapply rtc_l; [eapply (OStep _ _ 0); reflexivity|]). reflexivity. }
  split; [exact H|].
  exact (get_or_init_once [10; 20] st st 0 (mkOT ODone 10) H (rtc_refl _ _) eq_refl eq_refl).
Defined.

Lemma get_or_init_terminates_witness :
  nsteps ostep 0 (OnceLock_new, two_callers) (OnceLock_new, two_callers) ∧
  ∃ st', ostep (OnceLock_new, two_callers) st'.
Proof.
  assert (H : nsteps ostep 0 (OnceLock_new, two_callers) (OnceLock_new, two_callers)) by constructor.
  split; [exact H|].
  apply (proj2 (get_or_init_terminates [10; 20] 0 _ H)).
  by exists 0%nat, (mkOT OLoad 10).
Defined.

Lemma fork_child_get_or_init_witness :
  let st := (mkOnce 1 None 0, [mkOT ORun 10; mkOT OLoad 20]) in
  rtc ostep (OnceLock_new, two_callers) st ∧
  (∃ o', rtc ostep (reset_on_fork st.1, [mkOT OLoad 30]) (o', [mkOT ODone 30]) ∧
     OnceLock_get o' = Some 30) ∧
  ∀ o' t', rtc ostep (st.1, [mkOT OLoad 30]) (o', [t']) → ot_pc t' ≠ ODone.
Proof.
  intros st. assert (H : rtc ostep (OnceLock_new, two_callers) st).
  { do 2 (eapply rtc_l; [eapply (OStep _ _ 0); reflexivity|]). reflexivity. }
  split; [exact H|]. destruct (fork_child_get_or_init [10; 20] st 30 H) as [Ha Hb].
  split; [exact Ha|exact (Hb eq_refl)].
Defined.
