(* ===== verification/WeakMemory.v ===== *)
(** * Memory orderings of the locks and of one-time initialisation (src/src/internals/lock.rs, once.rs)

    [Lock.v] and [Once.v] interleave accesses to one memory; here the [Ordering] arguments count.
    There is an atomic flag, the lock's word or the state of a [Once], and a datum that it is to
    protect. Both are histories of writes. A thread has a view of each: the newest write that it
    must have seen. A write of the flag carries the writer's view of the datum if it is a
    [Release], the view of the write that it replaced if it is a successful compare-and-swap
    without [Release], and none otherwise; an [Acquire] takes over the view of the write that it
    reads. A plain or [Relaxed] read may return any write that is not older than the view.

    The modification order of the flag is the order of execution: the code stores to it only in a
    thread that has set it by compare-and-swap. *)

From S2P Require Import Prelude Lib.

(** ** Histories and views *)

Section Machine.
Context {D : Type}.

(** The writes of the flag, with the views that they carry, and those of the datum; oldest first. *)
Record wmem : Type := mkWMem { w_flag : list (Z * nat); w_data : list D }.

(** The first write is there from the start. *)
Definition wmem_new (flag : Z) (d : D) : wmem := mkWMem [(flag, 0%nat)] [d].

Record wview : Type := mkWView { v_flag : nat; v_data : nat }.

(** [load]: the [i]-th write of the flag. *)
Definition flag_load (acquire : bool) (i : nat) (m : wmem) (v : wview) : option (Z * wview) :=
  if (v_flag v <=? i)%nat then
    '(x, r) ← w_flag m !! i;
    Some (x, mkWView i (if acquire then v_data v `max` r else v_data v)%nat)
  else None.

(** A successful [compare_exchange(old, new, Acquire, _)]. *)
Definition flag_cas (old new : Z) (m : wmem) (v : wview) : option (wmem * wview) :=
  '(x, r) ← last (w_flag m);
  if x =? old then
    Some (mkWMem (w_flag m ++ [(new, r)]) (w_data m), mkWView (length (w_flag m)) (v_data v `max` r)%nat)
  else None.

Definition flag_store (x : Z) (release : bool) (m : wmem) (v : wview) : wmem * wview :=
  (mkWMem (w_flag m ++ [(x, if release then v_data v else 0%nat)]) (w_data m), mkWView (length (w_flag m)) (v_data v)).

Definition data_read (i : nat) (m : wmem) (v : wview) : option (D * wview) :=
  if (v_data v <=? i)%nat then d ← w_data m !! i; Some (d, mkWView (v_flag v) i) else None.

Definition data_write (d : D) (m : wmem) (v : wview) : wmem * wview :=
  (mkWMem (w_flag m) (w_data m ++ [d]), mkWView (v_flag v) (length (w_data m))).
End Machine.

(** ** A counter under a [SerialLock] *)

Inductive wlpc : Type :=
| WLock             (* in the [while] of [lock] *)
| WRead             (* inside, about to read the counter *)
| WWrite (x : Z)    (* about to write [x + 1] *)
| WRelease.         (* about to drop the guard *)

(** A thread and the sections that it has not begun. *)
Record wlthread : Type := mkWL { wl_pc : wlpc; wl_left : nat; wl_view : wview }.

(** One access: [i] is the write that a read of the counter returns. The store that releases the
    lock is the one in the drop of the guard. A failing compare-and-swap is not a step. *)
Definition wl_step (i : nat) (m : wmem) (t : wlthread) : option (wmem * wlthread) :=
  match wl_pc t with
  | WLock =>
      match wl_left t with
      | O => None
      | S n => '(m, v) ← flag_cas 0 1 m (wl_view t); Some (m, mkWL WRead n v)
      end
  | WRead => '(x, v) ← data_read i m (wl_view t); Some (m, mkWL (WWrite x) (wl_left t) v)
  | WWrite x => let '(m, v) := data_write (x + 1) m (wl_view t) in Some (m, mkWL WRelease (wl_left t) v)
  | WRelease => let '(m, v) := flag_store 0 false m (wl_view t) in Some (m, mkWL WLock (wl_left t) v)
  end.

Inductive wlstep : wmem * list wlthread → wmem * list wlthread → Prop :=
| WLStep m ts tid t i m' t' :
    ts !! tid = Some t → wl_step i m t = Some (m', t') →
    wlstep (m, ts) (m', <[tid := t']> ts).

(** Thread [j] makes [ns !! j] increments. *)
Definition wl_start (ns : list nat) : wmem * list wlthread :=
  (wmem_new 0 0, (λ n, mkWL WLock n (mkWView 0 0)) <$> ns).

Definition wl_done (t : wlthread) : bool := match wl_pc t, wl_left t with WLock, O => true | _, _ => false end.

(** A schedule: thread and, for a read, the write that it returns. *)
Fixpoint wl_run (sched : list (nat * nat)) (st : wmem * list wlthread) : option (wmem * list wlthread) :=
  match sched with
  | [] => Some st
  | (tid, i) :: sched =>
      t ← st.2 !! tid;
      '(m, t) ← wl_step i st.1 t;
      wl_run sched (m, <[tid := t]> st.2)
  end.

Lemma wl_run_steps sched st st' : wl_run sched st = Some st' → rtc wlstep st st'.
Proof.
  revert st. induction sched as [|[tid i] sched IH]; intros [m ts] H; cbn in H; [by simplify_eq|].
  apply bind_Some in H as (t & Ht & H). apply bind_Some in H as ([m1 t1] & Hs & H).
  eapply rtc_l; [by econstructor|by apply IH].
Qed.

(** C30: The drop of a [_LockGuard] releases the lock with a [Relaxed] store, and an increment can
    be lost: two threads make one increment each, the second after the first has left its section,
    and the counter ends at 1, for the second need not have seen what the first wrote. *)
Theorem guard_drop_loses_increment :
  ∃ m ts, rtc wlstep (wl_start [1; 1]%nat) (m, ts) ∧ forallb wl_done ts = true ∧ last (w_data m) = Some 1.
Proof.
  destruct (wl_run [(0, 0); (0, 0); (0, 0); (0, 0); (1, 0); (1, 0); (1, 0); (1, 0)]%nat (wl_start [1; 1]%nat))
    as [[m ts]|] eqn:E; [|exfalso; revert E; by vm_compute].
  exists m, ts. split; [by eapply wl_run_steps|]. revert E. vm_compute. by intros [= <- <-].
Qed.

(** ** The value of an [OnceLock] *)

Section WeakOnce.
Context {T : Type}.

Inductive wopc : Type :=
| WOLoad            (* about to load the state, [Relaxed] *)
| WOCas             (* about to [compare_exchange(0, 1, Acquire, Relaxed)] *)
| WORun             (* about to run the closure, which writes the value *)
| WOStore           (* about to store 2, [Release] *)
| WOWait            (* in the [while] loop, which loads with [Acquire] *)
| WOGet             (* [call_once] has returned: about to read the value *)
| WODone (r : option T).

Record wothread : Type := mkWO { wo_pc : wopc; wo_val : T; wo_view : wview }.

(** One access: [i] is the write that a read returns; [fast] is whether the first load is an
    [Acquire]. A compare-and-swap that fails says nothing about the value. *)
Definition wo_step (fast : bool) (i : nat) (m : @wmem (option T)) (t : wothread) : option (@wmem (option T) * wothread) :=
  let goto pc v := mkWO pc (wo_val t) v in
  match wo_pc t with
  | WOLoad => '(x, v) ← flag_load fast i m (wo_view t); Some (m, goto (if x =? 2 then WOGet else WOCas) v)
  | WOCas =>
      match flag_cas 0 1 m (wo_view t) with
      | Some (m, v) => Some (m, goto WORun v)
      | None => Some (m, goto WOWait (wo_view t))
      end
  | WORun => let '(m, v) := data_write (Some (wo_val t)) m (wo_view t) in Some (m, goto WOStore v)
  | WOStore => let '(m, v) := flag_store 2 true m (wo_view t) in Some (m, goto WOWait v)
  | WOWait => '(x, v) ← flag_load true i m (wo_view t); if x =? 2 then Some (m, goto WOGet v) else None
  | WOGet => '(r, v) ← data_read i m (wo_view t); Some (m, goto (WODone r) v)
  | WODone _ => None
  end.

Inductive wostep (fast : bool) : @wmem (option T) * list wothread → @wmem (option T) * list wothread → Prop :=
| WOStep m ts tid t i m' t' :
    ts !! tid = Some t → wo_step fast i m t = Some (m', t') →
    wostep fast (m, ts) (m', <[tid := t']> ts).

Definition wo_start (vs : list T) : @wmem (option T) * list wothread :=
  (wmem_new 0 None, (λ x, mkWO WOLoad x (mkWView 0 0)) <$> vs).

(** *** With an [Acquire] in front, a value is there *)

Context (vs : list T).

(** The writes of the value: the empty cell first, then values of the threads. *)
Definition wo_written (m : @wmem (option T)) : Prop :=
  ∀ i r, (0 < i)%nat → w_data m !! i = Some r → ∃ w, r = Some w ∧ w ∈ vs.

(** What a thread's place says of its view. *)
Definition wo_knows (t : wothread) : Prop :=
  match wo_pc t with
  | WOStore | WOGet => (0 < v_data (wo_view t))%nat
  | WODone r => ∃ w, r = Some w ∧ w ∈ vs
  | _ => True
  end.

Record wo_inv (st : @wmem (option T) * list wothread) : Prop := {
  wo_data : w_data st.1 ≠ [] ∧ wo_written st.1;
  wo_flag i x r : w_flag st.1 !! i = Some (x, r) → x = 2 → (0 < r)%nat;
  wo_threads i t : st.2 !! i = Some t → wo_val t ∈ vs ∧ wo_knows t
}.

Lemma wo_inv_insert m ts tid t m' t' :
  wo_inv (m, ts) → ts !! tid = Some t → w_data m' ≠ [] ∧ wo_written m' →
  (∀ i x r, w_flag m' !! i = Some (x, r) → x = 2 → (0 < r)%nat) → wo_val t' = wo_val t → wo_knows t' →
  wo_inv (m', <[tid := t']> ts).
Proof.
  intros [_ _ Ht] Hl Hd Hf Hv Hk. split; [done..|]. cbn. intros i u [(-> & <- & _)|[_ Hu]]%list_lookup_insert_Some; [|by eapply Ht].
  rewrite Hv. split; [|done]. by eapply Ht.
Qed.

Lemma flag_load_inv acquire i m v x v' :
  flag_load (D := option T) acquire i m v = Some (x, v') →
  ∃ r, w_flag m !! i = Some (x, r) ∧ v_data v' = (if acquire then v_data v `max` r else v_data v)%nat.
Proof.
  unfold flag_load. destruct (v_flag v <=? i)%nat; [|done]. intros ([y r] & Hl & [= <- <-])%bind_Some. by exists r.
Qed.

Lemma wo_inv_step st st' : wo_inv st → wostep true st st' → wo_inv st'.
Proof.
  intros Hinv Hst. destruct Hst as [m ts tid t i m' t' Ht Hst]. pose proof Hinv as [[Hne Hd] Hf Hts]. cbn in Hne, Hd, Hf.
  destruct (Hts _ _ Ht) as [Hval Hk]. unfold wo_step in Hst. destruct t as [pc val v]. unfold wo_knows in Hk. cbn in Hst, Hk, Hval.
  destruct pc.
  - apply bind_Some in Hst as ([x v1] & (r & Hx & Hv)%flag_load_inv & [= <- <-]).
    apply (wo_inv_insert m ts tid _ _ _ Hinv Ht); try done. unfold wo_knows. cbn. case_zb; [|done].
    pose proof (Hf _ _ _ Hx e). cbn. lia.
  - destruct (flag_cas 0 1 m v) as [[m1 v1]|] eqn:E; injection Hst as <- <-.
    + unfold flag_cas in E. apply bind_Some in E as ([x r] & Hl & E). case_zb_in E; [|done]. injection E as <- <-.
      apply (wo_inv_insert m ts tid _ _ _ Hinv Ht); try done. cbn. intros j y r' [Hj|[_ Hj]]%lookup_app_Some; [by eapply Hf|].
      apply list_lookup_singleton_Some in Hj as [_ [= <- <-]]. done.
    + by apply (wo_inv_insert m ts tid _ _ _ Hinv Ht).
  - injection Hst as <- <-. assert (0 < length (w_data m))%nat as Hpos by (destruct (w_data m); [done|cbn; lia]).
    apply (wo_inv_insert m ts tid _ _ _ Hinv Ht); try done. split; [by destruct (w_data m)|].
    cbn. intros j r Hj [Hr|[_ Hr]]%lookup_app_Some; [by eapply Hd|]. apply list_lookup_singleton_Some in Hr as [_ <-]. eauto.
  - injection Hst as <- <-. apply (wo_inv_insert m ts tid _ _ _ Hinv Ht); try done.
    cbn. intros j y r' [Hj|[_ Hj]]%lookup_app_Some; [by eapply Hf|]. apply list_lookup_singleton_Some in Hj as [_ [= <- <-]]. done.
  - apply bind_Some in Hst as ([x v1] & (r & Hx & Hv)%flag_load_inv & Hst). case_zb_in Hst; [|done]. injection Hst as <- <-.
    apply (wo_inv_insert m ts tid _ _ _ Hinv Ht); try done. pose proof (Hf _ _ _ Hx e). unfold wo_knows. cbn. lia.
  - apply bind_Some in Hst as ([r v1] & Hr & [= <- <-]). unfold data_read in Hr.
    destruct (Nat.leb_spec (v_data v) i) as [Hi|]; [|done]. apply bind_Some in Hr as (r' & Hr & [= -> <-]).
    apply (wo_inv_insert m ts tid _ _ _ Hinv Ht); try done. eapply (Hd i); [lia|done].
  - done.
Qed.

Lemma wo_inv_start : wo_inv (wo_start vs).
Proof.
  split.
  - split; [done|]. intros [|i] r Hi Hr; [lia|done].
  - intros [|i] x r Hl Hx; [injection Hl as <- <-; done|done].
  - intros i t. cbn. rewrite list_lookup_fmap_Some. intros (x & -> & Hx). split; [|done]. by eapply list_elem_of_lookup_2.
Qed.
End WeakOnce.

(** If the first load of [Once::call_once] were an [Acquire], as the load of its last loop is,
    every caller of [get_or_init] would read a value that some thread's closure computed, whatever
    the memory model does. *)
Theorem acquire_reads_initialised {T} (vs : list T) (m : @wmem (option T)) ts i t r :
  rtc (wostep true) (wo_start vs) (m, ts) → ts !! i = Some t → wo_pc t = WODone r → ∃ w, r = Some w ∧ w ∈ vs.
Proof.
  intros Hr Ht Hpc. pose proof (rtc_preserve _ _ (wo_inv_step vs) _ _ Hr (wo_inv_start vs)) as [_ _ Hts].
  destruct (Hts _ _ Ht) as [_ Hk]. unfold wo_knows in Hk. by rewrite Hpc in Hk.
Qed.

Fixpoint wo_run {T} (fast : bool) (sched : list (nat * nat)) (st : @wmem (option T) * list wothread) :
    option (@wmem (option T) * list wothread) :=
  match sched with
  | [] => Some st
  | (tid, i) :: sched =>
      t ← st.2 !! tid;
      '(m, t) ← wo_step fast i st.1 t;
      wo_run fast sched (m, <[tid := t]> st.2)
  end.

Lemma wo_run_steps {T} fast sched (st st' : @wmem (option T) * list wothread) :
  wo_run fast sched st = Some st' → rtc (wostep fast) st st'.
Proof.
  revert st. induction sched as [|[tid i] sched IH]; intros [m ts] H; cbn in H; [by simplify_eq|].
  apply bind_Some in H as (t & Ht & H). apply bind_Some in H as ([m1 t1] & Hs & H).
  eapply rtc_l; [by econstructor|by apply IH].
Qed.

(** Thread 0 initialises the cell; thread 1 comes after it. *)
Definition wo_sched (read : nat) : list (nat * nat) :=
  [(0, 0); (0, 0); (0, 0); (0, 0); (1, 2); (1, read)]%nat.

Lemma acquire_reads_initialised_witness :
  ∃ m ts t r, rtc (wostep true) (wo_start [10; 20]) (m, ts) ∧ ts !! 1%nat = Some t ∧ wo_pc t = WODone r ∧
    ∃ w, r = Some w ∧ w ∈ [10; 20].
Proof.
  destruct (wo_run true (wo_sched 1) (wo_start [10; 20])) as [[m ts]|] eqn:E; [|exfalso; revert E; by vm_compute].
  assert (∃ t r, ts !! 1%nat = Some t ∧ wo_pc t = WODone r) as (t & r & Ht & Hr)
    by (revert E; vm_compute; intros [= <- <-]; eauto).
  exists m, ts, t, r. pose proof (wo_run_steps _ _ _ _ E). do 3 (split; [done|]).
  by apply (acquire_reads_initialised [10; 20] m ts 1 t r).
Defined.

(** C31: [Once::call_once] returns as soon as a [Relaxed] load gives 2, and the caller then reads
    the value without having synchronised with the thread that wrote it: it can find the cell
    empty. *)
Theorem relaxed_fast_path_reads_uninitialised :
  ∃ m ts t, rtc (wostep false) (wo_start [10; 20]) (m, ts) ∧ ts !! 1%nat = Some t ∧ wo_pc t = WODone None.
Proof.
  destruct (wo_run false (wo_sched 0) (wo_start [10; 20])) as [[m ts]|] eqn:E; [|exfalso; revert E; by vm_compute].
  assert (∃ t, ts !! 1%nat = Some t ∧ wo_pc t = WODone None) as (t & Ht & Hr)
    by (revert E; vm_compute; intros [= <- <-]; eauto).
  exists m, ts, t. split; [by eapply wo_run_steps|done].
Qed.
