(* ===== verification/Env.v ===== *)
(** * Settings from the environment (src/src/internals/env.rs, va/bootstrap.rs)

    [environ] is the list of the process's strings, as bytes without their
    terminating NUL; reading past the end of one reads the NUL.  The three
    settings are the decimal values of [OX_MAX_RESERVATION], [OX_TRIM_THRESHOLD]
    and [OX_FORCE_THP]. *)

From S2P Require Import Prelude Bits Lib.

(** [*p]: the next byte, 0 at the end. *)
Definition peek (p : list Z) : Z := match p with [] => 0 | b :: _ => b end.

Definition EQUALS : Z := 61.
Definition DIGIT0 : Z := 48.
Definition DIGIT9 : Z := 57.

(** [while *p != 0 && *p != b'=' { .. }]: the rest of the entry and [i]. *)
Fixpoint match_key (p key : list Z) (i : Z) : list Z * Z :=
  match p with
  | [] => (p, i)
  | b :: p' =>
      if (b =? 0) || (b =? EQUALS) then (p, i)
      else if (zlen key <=? i) || negb (b =? default 0 (zlookup key i)) then (p, i)
      else match_key p' key (i + 1)
  end.

Fixpoint getenv_raw (environ : list (list Z)) (key : list Z) : option (list Z) :=
  match environ with
  | [] => None
  | entry :: env =>
      let '(p, i) := match_key entry key 0 in
      if (i =? zlen key) && (peek p =? EQUALS) then Some (tail p) else getenv_raw env key
  end.

(** [while *p >= b'0' && *p <= b'9' { out = out * 10 + .. }], with overflow checks. *)
Fixpoint parse_digits (p : list Z) (out : Z) : M Z :=
  match p with
  | [] => Ret out
  | b :: p =>
      if (DIGIT0 <=? b) && (b <=? DIGIT9) then
        out10 ← umul out 10; out ← uadd out10 (b - DIGIT0); parse_digits p out
      else Ret out
  end.

Definition get_env_usize (environ : list (list Z)) (key : list Z) : M (option Z) :=
  match getenv_raw environ key with
  | None => Ret None
  | Some val => out ← parse_digits val 0; Ret (Some out)
  end.

(** ** The settings *)

(** The bytes of the three names. *)
Definition key_thp : list Z := [79; 88; 95; 70; 79; 82; 67; 69; 95; 84; 72; 80].
Definition key_threshold : list Z :=
  [79; 88; 95; 84; 82; 73; 77; 95; 84; 72; 82; 69; 83; 72; 79; 76; 68].
Definition key_reservation : list Z :=
  [79; 88; 95; 77; 65; 88; 95; 82; 69; 83; 69; 82; 86; 65; 84; 73; 79; 78].

Definition set_force_thp (g : Globals) (b : bool) : Globals :=
  mkGlobals (OX_CURRENT_STAMP g) (TOTAL_ALLOCATED g) (TOTAL_IN_USE g)
    (AVERAGE_BLOCK_TIMES_GLOBAL g) (OX_TRIM_THRESHOLD g) b (OX_MAX_RESERVATION g).
Definition set_trim_threshold (g : Globals) (v : Z) : Globals :=
  mkGlobals (OX_CURRENT_STAMP g) (TOTAL_ALLOCATED g) (TOTAL_IN_USE g)
    (AVERAGE_BLOCK_TIMES_GLOBAL g) v (OX_FORCE_THP g) (OX_MAX_RESERVATION g).
Definition set_max_reservation (g : Globals) (v : Z) : Globals :=
  mkGlobals (OX_CURRENT_STAMP g) (TOTAL_ALLOCATED g) (TOTAL_IN_USE g)
    (AVERAGE_BLOCK_TIMES_GLOBAL g) (OX_TRIM_THRESHOLD g) (OX_FORCE_THP g) v.

Section Settings.
Context (environ : list (list Z)).

Definition init_thp (g : Globals) : M Globals :=
  v ← get_env_usize environ key_thp;
  match v with
  | Some val => if val =? 1 then Ret (set_force_thp g true) else Ret g
  | None => Ret g
  end.

Definition init_threshold (g : Globals) : M Globals :=
  v ← get_env_usize environ key_threshold;
  match v with
  | Some val =>
      let val := if (val =? 0) || (val <? 1024 * 1024) then 1024 * 1024 else val in
      Ret (set_trim_threshold g val)
  | None => Ret g
  end.

Definition init_reverse (g : Globals) : M Globals :=
  v ← get_env_usize environ key_reservation;
  match v with
  | Some val =>
      let next_power_of_two :=
        Z.min (Z.max (default (1024 * 1024 * 1024 * 16) (checked_next_power_of_two val))
                 (1024 * 1024 * 1024 * 16))
          (1024 * 1024 * 1024 * 1024 * 256) in
      Ret (set_max_reservation g next_power_of_two)
  | None => Ret g
  end.

(** The three calls, in the order of [boot_strap]. *)
Definition init_settings (g : Globals) : M Globals :=
  g ← init_reverse g; g ← init_threshold g; init_thp g.
End Settings.

(** ** Looking up a name *)

(** A name: no NUL and no '='. *)
Definition name (l : list Z) : Prop := Forall (λ b, b ≠ 0 ∧ b ≠ EQUALS) l.

(** An entry split at its first '='; [None] if it has none. *)
Fixpoint split_entry (e : list Z) : option (list Z * list Z) :=
  match e with
  | [] => None
  | b :: e =>
      if b =? EQUALS then Some ([], e)
      else '(n, v) ← split_entry e; Some (b :: n, v)
  end.

(** The value of the first entry with the name. *)
Fixpoint env_lookup (environ : list (list Z)) (key : list Z) : option (list Z) :=
  match environ with
  | [] => None
  | e :: environ =>
      match split_entry e with
      | Some (n, v) => if decide (n = key) then Some v else env_lookup environ key
      | None => env_lookup environ key
      end
  end.

Definition c_string (e : list Z) : Prop := Forall (λ b, b ≠ 0) e.

Lemma zlookup_app_head (pre l : list Z) k : zlookup (pre ++ k :: l) (zlen pre) = Some k.
Proof.
  unfold zlookup, zlen. rewrite decide_True, Nat2Z.id by lia.
  by rewrite lookup_app_r, Nat.sub_diag by lia.
Qed.

(** The key loop stops after the key exactly when the entry's name is the key. *)
Lemma match_key_spec e key pre :
  c_string e → name key →
  let '(p, i) := match_key e (pre ++ key) (zlen pre) in
  if (i =? zlen (pre ++ key)) && (peek p =? EQUALS) then split_entry e = Some (key, tail p)
  else ∀ v, split_entry e ≠ Some (key, v).
Proof.
  revert key pre. induction e as [|b e IH]; intros key pre He Hk; cbn [match_key split_entry].
  { cbn. by rewrite andb_false_r. }
  apply Forall_cons in He as [Hb0 He]. rewrite (proj2 (Z.eqb_neq b 0)) by done. cbn [orb].
  rewrite zlen_app. destruct (Z.eqb_spec b EQUALS) as [->|Hb].
  - cbn [peek]. destruct key as [|k key]; cbn.
    + by rewrite Z.add_0_r, Z.eqb_refl.
    + rewrite (proj2 (Z.eqb_neq _ _)) by (unfold zlen; cbn; lia). by intros v [= ].
  - destruct key as [|k key].
    + cbn. rewrite Z.add_0_r, Z.leb_refl. cbn. rewrite Z.eqb_refl, (proj2 (Z.eqb_neq _ _)) by done.
      intros v. destruct (split_entry e) as [[n w]|]; cbn; done.
    + rewrite zlookup_app_head, (proj2 (Z.leb_gt _ _)) by (unfold zlen; cbn; lia). cbn [default from_option orb]. unfold id.
      apply Forall_cons in Hk as [_ Hk]. destruct (Z.eqb_spec b k) as [->|Hbk]; cbn [negb].
      * replace (zlen pre + 1) with (zlen (pre ++ [k])) by (rewrite zlen_app; done).
        specialize (IH key (pre ++ [k]) He Hk).
        replace ((pre ++ [k]) ++ key) with (pre ++ k :: key) in IH by (by rewrite <- app_assoc).
        assert (Hz : zlen pre + zlen (k :: key) = zlen (pre ++ k :: key)) by (by rewrite zlen_app).
        rewrite Hz. destruct (match_key _ _ _) as [p i].
        destruct ((i =? _) && _).
        -- by rewrite IH.
        -- intros v. destruct (split_entry e) as [[n w]|]; cbn; [|done]. intros [= -> ->].
           by eapply IH.
      * cbn. rewrite (proj2 (Z.eqb_neq _ _)) by (unfold zlen; cbn; lia).
        intros v. destruct (split_entry e) as [[n w]|]; cbn; [|done]. by intros [= ].
Qed.

Lemma getenv_raw_spec environ key :
  Forall c_string environ → name key → getenv_raw environ key = env_lookup environ key.
Proof.
  intros He Hk. induction He as [|e env Hs _ IH]; [done|]. cbn [getenv_raw env_lookup].
  pose proof (match_key_spec e key [] Hs Hk) as H. cbn [app] in H. change (zlen []) with 0 in H.
  destruct (match_key e key 0) as [p i]. destruct ((i =? _) && _).
  - by rewrite H, decide_True.
  - rewrite IH. destruct (split_entry e) as [[n v]|]; [|done].
    destruct (decide (n = key)) as [->|]; [|done]. by destruct (H v).
Qed.

(** ** Parsing a number *)

(** The leading decimal digits of a value, and the number they write. *)
Fixpoint digits (p : list Z) : list Z :=
  match p with
  | [] => []
  | b :: p => if (DIGIT0 <=? b) && (b <=? DIGIT9) then b :: digits p else []
  end.
Definition number (ds : list Z) : Z := fold_left (λ a b, 10 * a + (b - DIGIT0)) ds 0.

Lemma number_mono ds a :
  Forall (λ b, DIGIT0 ≤ b) ds → 0 ≤ a → a ≤ fold_left (λ a b, 10 * a + (b - DIGIT0)) ds a.
Proof.
  intros Hd. revert a. induction Hd as [|b ds Hb _ IH]; intros a Ha; cbn; [lia|].
  pose proof (IH (10 * a + (b - DIGIT0))). lia.
Qed.

Lemma digits_ge p : Forall (λ b, DIGIT0 ≤ b) (digits p).
Proof.
  induction p as [|b p IH]; cbn; [constructor|].
  destruct (Z.leb_spec DIGIT0 b); cbn; [|constructor]. case_zb; by constructor.
Qed.

Lemma parse_digits_spec p out :
  0 ≤ out ≤ usize_max →
  let n := fold_left (λ a b, 10 * a + (b - DIGIT0)) (digits p) out in
  parse_digits p out = if n <=? usize_max then Ret n else Abort (Panic ArithOverflow).
Proof.
  revert out. induction p as [|b p IH]; intros out Hout; cbn [parse_digits digits].
  - cbn. by rewrite (proj2 (Z.leb_le _ _)) by lia.
  - destruct ((DIGIT0 <=? b) && (b <=? DIGIT9)) eqn:E.
    2:{ cbn. by rewrite (proj2 (Z.leb_le _ _)) by lia. }
    cbn [fold_left]. apply andb_true_iff in E as [Hb%Z.leb_le _].
    pose proof (number_mono (digits p) (10 * out + (b - DIGIT0)) (digits_ge p) ltac:(lia)) as Hm.
    unfold umul, uadd. destruct (Z.leb_spec (out * 10) usize_max); cbn.
    + destruct (Z.leb_spec (out * 10 + (b - DIGIT0)) usize_max).
      * rewrite bind_ret, IH by lia. by replace (out * 10 + (b - DIGIT0)) with (10 * out + (b - DIGIT0)) by lia.
      * by rewrite (proj2 (Z.leb_gt _ _)) by lia.
    + by rewrite (proj2 (Z.leb_gt _ _)) by lia.
Qed.

(** What the code computes of a setting. *)
Definition setting (environ : list (list Z)) (key : list Z) : option Z :=
  number ∘ digits <$> env_lookup environ key.

Lemma number_nonneg p : 0 ≤ number (digits p).
Proof. apply number_mono; [apply digits_ge|lia]. Qed.

Lemma get_env_usize_spec environ key :
  Forall c_string environ → name key →
  get_env_usize environ key =
    match setting environ key with
    | None => Ret None
    | Some n => if n <=? usize_max then Ret (Some n) else Abort (Panic ArithOverflow)
    end.
Proof.
  intros He Hk. unfold get_env_usize, setting. rewrite getenv_raw_spec by done.
  destruct (env_lookup environ key) as [v|]; cbn; [|done].
  rewrite parse_digits_spec by (unfold usize_max, u64_max; lia).
  unfold number. case_zb; done.
Qed.

(** ** Clamping *)

Lemma next_power_of_two_spec n :
  0 ≤ n → ∃ k, 0 ≤ k ∧ next_power_of_two n = 2 ^ k ∧ n ≤ 2 ^ k ∧ 2 ^ k < 2 * Z.max n 1.
Proof.
  intros Hn. unfold next_power_of_two. case_zb.
  { exists 0. change (2 ^ 0) with 1. split_and!; try done; lia. }
  exists (Z.log2 (n - 1) + 1). pose proof (Z.log2_nonneg (n - 1)).
  pose proof (Z.log2_spec (n - 1) ltac:(lia)) as [Hlo Hhi].
  rewrite Z.add_1_r in *. rewrite Z.pow_succ_r in * by lia. split_and!; try done; lia.
Qed.

Definition clamp_reservation (n : Z) : Z :=
  Z.min (Z.max (default (1024 * 1024 * 1024 * 16) (checked_next_power_of_two n))
           (1024 * 1024 * 1024 * 16)) (1024 * 1024 * 1024 * 1024 * 256).

Lemma pow2_between k : 34 ≤ k ≤ 48 → 2 ^ 34 ≤ 2 ^ k ≤ 2 ^ 48.
Proof. intros. split; apply Z.pow_le_mono_r; lia. Qed.

Lemma clamp_reservation_spec n :
  0 ≤ n ≤ usize_max →
  (∃ k, 34 ≤ k ≤ 48 ∧ clamp_reservation n = 2 ^ k) ∧
  (n ≤ 2 ^ 48 → n ≤ clamp_reservation n < 2 * Z.max n (2 ^ 34)) ∧
  (2 ^ 48 < n ≤ 2 ^ 63 → clamp_reservation n = 2 ^ 48) ∧
  (2 ^ 63 < n → clamp_reservation n = 2 ^ 34).
Proof.
  intros Hn. destruct (next_power_of_two_spec n) as (k & Hk & Hp & Hge & Hlt); [lia|].
  unfold clamp_reservation, checked_next_power_of_two. rewrite Hp.
  change (1024 * 1024 * 1024 * 16) with (2 ^ 34).
  change (1024 * 1024 * 1024 * 1024 * 256) with (2 ^ 48).
  assert (Hsmall : k ≤ 63 → 2 ^ k ≤ 2 ^ 63) by (intros; apply Z.pow_le_mono_r; lia).
  assert (Hbig : 64 ≤ k → 2 ^ 64 ≤ 2 ^ k) by (intros; apply Z.pow_le_mono_r; lia).
  assert (Hcmp : k ≤ 34 ∨ 34 ≤ k ≤ 48 ∨ 48 < k) by lia.
  assert (Hk34 : k ≤ 34 → 2 ^ k ≤ 2 ^ 34) by (intros; apply Z.pow_le_mono_r; lia).
  assert (Hk48 : 48 < k → 2 ^ 49 ≤ 2 ^ k) by (intros; apply Z.pow_le_mono_r; lia).
  pose proof (pow2_between k) as Hk3448. unfold usize_max, u64_max in *.
  case_zb; cbn [from_option]; unfold id.
  - split.
    + destruct Hcmp as [Hc|[Hc|Hc]]; [exists 34; specialize (Hk34 Hc)|
        exists k; specialize (Hk3448 Hc)|exists 48; specialize (Hk48 Hc)]; lia.
    + lia.
  - split; [exists 34; lia|]. assert (2 ^ 63 < n); [|lia].
    destruct (Z.lt_ge_cases (2 ^ 63) n) as [|Hle]; [done|]. lia.
Qed.

(** Each setting of an environment whose numbers fit. *)
Section InitSpec.
Context (environ : list (list Z)) (Henv : Forall c_string environ).
Hypothesis Hfit : ∀ key n, setting environ key = Some n → n ≤ usize_max.

Lemma get_env_usize_fits key : name key → get_env_usize environ key = Ret (setting environ key).
Proof.
  intros Hn. rewrite get_env_usize_spec by done. pose proof (Hfit key) as H.
  destruct (setting environ key) as [n|]; [|done].
  rewrite (proj2 (Z.leb_le n _)); [done|by apply H].
Qed.

Lemma name_keys : name key_threshold ∧ name key_reservation ∧ name key_thp.
Proof. split_and!; unfold name; repeat constructor; discriminate. Qed.

Lemma init_reverse_spec g :
  init_reverse environ g =
    Ret (from_option (set_max_reservation g ∘ clamp_reservation) g (setting environ key_reservation)).
Proof.
  unfold init_reverse. rewrite get_env_usize_fits by apply name_keys. rewrite bind_ret.
  by destruct (setting environ key_reservation).
Qed.

Lemma init_threshold_spec g :
  init_threshold environ g =
    Ret (from_option (set_trim_threshold g ∘ Z.max MiB) g (setting environ key_threshold)).
Proof.
  unfold init_threshold. rewrite get_env_usize_fits by apply name_keys. rewrite bind_ret.
  destruct (setting environ key_threshold) as [n|]; [|done]. cbn [from_option compose].
  do 2 f_equal. unfold MiB. destruct (Z.ltb_spec n (1024 * 1024)).
  - rewrite orb_true_r. lia.
  - rewrite (proj2 (Z.eqb_neq n 0)) by lia. cbn [orb]. lia.
Qed.

Lemma init_thp_spec g :
  init_thp environ g =
    Ret (if bool_decide (setting environ key_thp = Some 1) then set_force_thp g true else g).
Proof.
  unfold init_thp. rewrite get_env_usize_fits by apply name_keys. rewrite bind_ret.
  destruct (setting environ key_thp) as [n|]; [|done].
  case_zb; [by subst|]. rewrite bool_decide_false by congruence. done.
Qed.

Lemma init_settings_spec g :
  init_settings environ g =
    Ret (let g := from_option (set_max_reservation g ∘ clamp_reservation) g (setting environ key_reservation) in
         let g := from_option (set_trim_threshold g ∘ Z.max MiB) g (setting environ key_threshold) in
         if bool_decide (setting environ key_thp = Some 1) then set_force_thp g true else g).
Proof.
  unfold init_settings.
  by rewrite init_reverse_spec, bind_ret, init_threshold_spec, bind_ret, init_thp_spec.
Qed.
End InitSpec.

(** ** Properties *)

(** Reading a number from the environment: the value is that of the first entry whose
    name, up to its first '=', is the key (a prefix or an extension of the key does not
    match); the result is the number that its leading digits write, [None] exactly when
    the name is absent, and a number that does not fit in a [usize] ends the process. *)
Theorem get_env_usize_correct (environ : list (list Z)) (key : list Z)
    (Henv : Forall c_string environ) (Hkey : name key) :
  get_env_usize environ key =
    match env_lookup environ key with
    | None => Ret None
    | Some v => if number (digits v) <=? usize_max then Ret (Some (number (digits v)))
                else Abort (Panic ArithOverflow)
    end.
Proof.
  rewrite get_env_usize_spec by done. unfold setting. by destruct (env_lookup environ key).
Qed.

(** [OX_TRIM=7], [OX_TRIM_THRESHOLD=2097152 bytes]. *)
Definition demo_environ : list (list Z) :=
  [ [79; 88; 95; 84; 82; 73; 77; 61; 55];
    key_threshold ++ [61; 50; 48; 57; 55; 49; 53; 50; 32; 98; 121; 116; 101; 115] ].

Lemma demo_environ_ok : Forall c_string demo_environ ∧ name key_threshold ∧
  name key_reservation ∧ name key_thp.
Proof. split_and!; unfold name, c_string; repeat constructor; discriminate. Qed.

Lemma get_env_usize_correct_witness :
  get_env_usize demo_environ key_threshold = Ret (Some 2097152).
Proof.
  exact (get_env_usize_correct demo_environ key_threshold (proj1 demo_environ_ok)
           (proj1 (proj2 demo_environ_ok))).
Defined.

(** C34: The settings of a process whose variables hold numbers that fit: the reservation is
    a power of two between 16 GiB and 256 TiB, at least the requested size if that is at
    most 256 TiB and less than twice it (or 16 GiB); a request above 2^63 gives the
    minimum and not the maximum; the trim threshold is at least 1 MiB and else as asked;
    huge pages are forced exactly by the value 1; unset variables leave the defaults. *)
Theorem init_settings_correct (environ : list (list Z)) (g : Globals)
    (Henv : Forall c_string environ)
    (Hfit : ∀ key n, setting environ key = Some n → n ≤ usize_max) :
  ∃ g', init_settings environ g = Ret g' ∧
    match setting environ key_reservation with
    | None => OX_MAX_RESERVATION g' = OX_MAX_RESERVATION g
    | Some n =>
        let r := OX_MAX_RESERVATION g' in
        (∃ k, 34 ≤ k ≤ 48 ∧ r = 2 ^ k) ∧ (n ≤ 2 ^ 48 → n ≤ r < 2 * Z.max n (2 ^ 34)) ∧
        (2 ^ 48 < n ≤ 2 ^ 63 → r = 2 ^ 48) ∧ (2 ^ 63 < n → r = 2 ^ 34)
    end ∧
    OX_TRIM_THRESHOLD g' = from_option (Z.max MiB) (OX_TRIM_THRESHOLD g) (setting environ key_threshold) ∧
    OX_FORCE_THP g' = OX_FORCE_THP g || bool_decide (setting environ key_thp = Some 1).
Proof.
  eexists. split; [by apply init_settings_spec|]. cbn zeta.
  assert (Hge : ∀ n, setting environ key_reservation = Some n → 0 ≤ n).
  { unfold setting. destruct (env_lookup environ _); cbn; [|done].
    intros n [= <-]. apply number_nonneg. }
  pose proof (Hfit key_reservation) as H1.
  split_and!.
  - destruct (setting environ key_reservation) as [r|];
      destruct (setting environ key_threshold); case_bool_decide; cbn; try done;
      apply clamp_reservation_spec; split; eauto.
  - destruct (setting environ key_reservation), (setting environ key_threshold);
      case_bool_decide; done.
  - destruct (setting environ key_reservation), (setting environ key_threshold);
      case_bool_decide; cbn; by rewrite ?orb_true_r, ?orb_false_r.
Qed.

Lemma init_settings_correct_witness :
  ∃ g', init_settings demo_environ initial_globals = Ret g' ∧
    OX_MAX_RESERVATION g' = 16 * GiB ∧ OX_TRIM_THRESHOLD g' = 2097152 ∧ OX_FORCE_THP g' = false.
Proof.
  exact (init_settings_correct demo_environ initial_globals (proj1 demo_environ_ok)
    ltac:(intros key n; unfold setting; cbn;
          repeat (case_decide; cbn; [intros [= <-]; vm_compute; discriminate|]); done)).
Defined.
