(* ===== verification/SizeClass.v ===== *)
(** * Size classes (src/src/slab/mod.rs)

    The 34 payload sizes of the slab allocator, the number of blocks of a slab
    and of a thread cache for each, and the map from a requested size to its
    class: a table for sizes up to 4096, a scan above. *)

From S2P Require Import Prelude Bits Lib.

Definition SIZE_CLASSES : list Z :=
  [16; 32; 48; 64; 80; 96; 128;
   160; 192; 256; 320; 384; 512;
   768; 1024; 1280; 1536; 1792; 2048; 2560; 3072;
   3840; 4096; 8192; 12288; 16384; 24576;
   32768; 65536; 131072; 262144; 524288; 1048576; 2097152].

Definition ITERATIONS : list Z :=
  [409; 341; 292; 255; 227; 153; 170;
   36; 31; 25; 21; 18; 14;
   9; 7; 6; 2; 4; 3; 1; 2;
   1; 1; 1; 1; 1; 1;
   1; 1; 1; 1; 1; 1; 1].

Definition NUM_SIZE_CLASSES : Z := zlen SIZE_CLASSES.

Definition TLS_BIG_CLASS_BYTES : Z := 1024 * 64.
Definition TLS_MEDIUM_CLASS_BYTES : Z := 1024 * 96.
Definition TLS_SMALL_CLASS_BYTES : Z := 1024 * 128.

Section TlsBlocks.
Context `{Config}.

(** One round of the loop that fills [TLS_MAX_BLOCKS]. *)
Definition tls_max_blocks_of (payload : Z) : M Z :=
  s ← uadd payload HEADER_SIZE;
  block_size ← align_to s 16;
  blocks ← (if 1024 * 1024 * 16 <? block_size then Ret 0
            else if payload <? 256 then udiv TLS_SMALL_CLASS_BYTES block_size
            else if payload <? 1024 * 16 then udiv TLS_MEDIUM_CLASS_BYTES block_size
            else udiv TLS_BIG_CLASS_BYTES block_size);
  Ret (if blocks =? 0 then 1 else blocks).

Fixpoint tls_max_blocks_loop (classes : list Z) : M (list Z) :=
  match classes with
  | [] => Ret []
  | payload :: classes =>
      b ← tls_max_blocks_of payload; bs ← tls_max_blocks_loop classes; Ret (b :: bs)
  end.

Definition TLS_MAX_BLOCKS : M (list Z) := tls_max_blocks_loop SIZE_CLASSES.
End TlsBlocks.

(** [while class < 34 && SIZE_CLASSES[class] < size { class += 1 }]. *)
Fixpoint lut_class (classes : list Z) (size : Z) : Z :=
  match classes with
  | [] => 0
  | c :: classes => if c <? size then 1 + lut_class classes size else 0
  end.

Definition SIZE_LUT : list Z :=
  (λ i, wrap8 (lut_class SIZE_CLASSES ((Z.of_nat i + 1) * 16))) <$> seq 0 256.

(** [SIZE_CLASSES.iter().position(|&s| s >= 4096).unwrap()], behind a [OnceLock]. *)
Fixpoint position (p : Z → bool) (l : list Z) : option Z :=
  match l with
  | [] => None
  | x :: l => if p x then Some 0 else Z.succ <$> position p l
  end.
Definition get_size_4096_class : M Z :=
  match position (λ s, 4096 <=? s) SIZE_CLASSES with
  | Some c => Ret c
  | None => Abort (Panic UnwrapNone)
  end.

(** [for i in 0..NUM_SIZE_CLASSES { .. }]. *)
Fixpoint slow_path_loop (n : nat) (i size : Z) : M (option Z) :=
  match n with
  | O => Ret None
  | S n =>
      c ← vget SIZE_CLASSES i;
      if size <=? c then Ret (Some i) else slow_path_loop n (i + 1) size
  end.
Definition slow_path_match (size : Z) : M (option Z) :=
  slow_path_loop (Z.to_nat NUM_SIZE_CLASSES) 0 size.

Definition match_size_class (size : Z) : M (option Z) :=
  if (size =? 0) || (2097152 <? size) then Ret None
  else if (size <=? 4096) && (0 <? size) then
    s ← usub size 1;
    let index := shr64 s 4 in
    match zlookup SIZE_LUT index with
    | Some c => Ret (Some c)
    | None => Abort WildAccess           (* [get_unchecked] *)
    end
  else slow_path_match size.

(** [xor_ptr_general]: the identity unless the list is hardened; null stays null. *)
Definition xor_ptr_general `{Config} (ptr key : Z) : Z :=
  if hardened then (if ptr =? 0 then 0 else Z.lxor ptr key) else ptr.

(** ** The smallest class that fits *)

Definition fits (size c : Z) : Prop :=
  ∃ payload, zlookup SIZE_CLASSES c = Some payload ∧ size ≤ payload ∧
    ∀ c' p', 0 ≤ c' < c → zlookup SIZE_CLASSES c' = Some p' → p' < size.

Definition fitsb (size c : Z) : bool :=
  match zlookup SIZE_CLASSES c with
  | Some p => (size <=? p) && forallb (λ p', p' <? size) (take (Z.to_nat c) SIZE_CLASSES)
  | None => false
  end.

Lemma fitsb_fits size c : fitsb size c = true → fits size c.
Proof.
  unfold fitsb, fits. destruct (zlookup SIZE_CLASSES c) as [p|] eqn:E; [|done].
  intros [Hle%Z.leb_le Hall]%andb_true_iff. exists p. split_and!; try done.
  intros c' p' Hc' Hl. apply Z.ltb_lt, (forallb_lookup _ _ (Z.to_nat c') p' Hall).
  unfold zlookup in Hl. rewrite decide_True in Hl by lia. rewrite lookup_take_lt; [done|lia].
Qed.

(** Every size up to 4096, through the table. *)
Definition lut_size_ok (i : nat) : bool :=
  match match_size_class (Z.of_nat i + 1) with
  | Ret (Some c) => fitsb (Z.of_nat i + 1) c
  | _ => false
  end.

Lemma lut_sizes_ok : forallb lut_size_ok (seq 0 (Z.to_nat 4096)) = true.
Proof. vm_compute. reflexivity. Qed.

Lemma match_small size :
  0 < size ≤ 4096 → ∃ c, match_size_class size = Ret (Some c) ∧ fits size c.
Proof.
  intros Hs. assert (H : lut_size_ok (Z.to_nat (size - 1)) = true).
  { apply (forallb_lookup _ _ (Z.to_nat (size - 1)) _ lut_sizes_ok), lookup_seq. lia. }
  unfold lut_size_ok in H. replace (Z.of_nat (Z.to_nat (size - 1)) + 1) with size in H by lia.
  destruct (match_size_class size) as [[c|]|]; try done.
  exists c. split; [done|]. by apply fitsb_fits.
Qed.

Lemma slow_path_loop_spec n i size :
  0 ≤ i → i + Z.of_nat n = NUM_SIZE_CLASSES → size ≤ 2097152 →
  (∀ c' p', 0 ≤ c' < i → zlookup SIZE_CLASSES c' = Some p' → p' < size) →
  ∃ c, slow_path_loop n i size = Ret (Some c) ∧ fits size c.
Proof.
  revert i. induction n as [|n IH]; intros i Hi Hn Hs Hlt; cbn [slow_path_loop].
  - exfalso. assert (2097152 < size); [|lia]. apply (Hlt 33); [|done].
    change NUM_SIZE_CLASSES with 34 in Hn. lia.
  - destruct (vget_in_bounds SIZE_CLASSES i) as (p & -> & Hl); [fold NUM_SIZE_CLASSES; lia|].
    rewrite bind_ret. destruct (Z.leb_spec size p).
    + exists i. split; [done|]. by exists p.
    + apply IH; try lia. intros c' p' Hc' Hl'. destruct (decide (c' = i)) as [->|].
      * rewrite Hl in Hl'. by simplify_eq.
      * apply (Hlt c'); [lia|done].
Qed.

Lemma match_size_class_spec size :
  0 ≤ size →
  if (size =? 0) || (2097152 <? size) then match_size_class size = Ret None
  else ∃ c, match_size_class size = Ret (Some c) ∧ fits size c.
Proof.
  intros Hs. destruct ((size =? 0) || (2097152 <? size)) eqn:E.
  - unfold match_size_class. by rewrite E.
  - apply orb_false_iff in E as [H0%Z.eqb_neq Hb%Z.ltb_ge].
    destruct (Z.le_gt_cases size 4096).
    + apply match_small. lia.
    + unfold match_size_class. rewrite (proj2 (Z.eqb_neq _ _)), (proj2 (Z.ltb_ge _ _)) by lia.
      rewrite (proj2 (Z.leb_gt size 4096)) by lia. cbn [orb andb].
      apply slow_path_loop_spec; try lia. done.
Qed.

(** The class of a size is unique. *)
Lemma fits_unique size c c' : 0 ≤ c → 0 ≤ c' → fits size c → fits size c' → c = c'.
Proof.
  intros Hc Hc' (p & Hp & Hle & Hmin) (p' & Hp' & Hle' & Hmin').
  destruct (Z.lt_trichotomy c c') as [Hlt|[?|Hlt]]; [|done|].
  - pose proof (Hmin' c p ltac:(lia) Hp). lia.
  - pose proof (Hmin c' p' ltac:(lia) Hp'). lia.
Qed.

Lemma fits_range size c : fits size c → 0 ≤ c < NUM_SIZE_CLASSES.
Proof. intros (p & Hl & _). by eapply zlookup_Some_lt. Qed.

(** ** Properties *)

(** [match_size_class] serves exactly the sizes from 1 to 2 MiB, never reads outside its
    tables, and returns the smallest class whose payload holds the size, whether the size
    goes through the 256-entry table or the scan. *)
Theorem match_size_class_smallest (size : Z) (Hsize : 0 ≤ size ≤ usize_max) :
  (size = 0 ∨ 2097152 < size → match_size_class size = Ret None) ∧
  (1 ≤ size ≤ 2097152 → ∃ c payload,
     match_size_class size = Ret (Some c) ∧ 0 ≤ c < NUM_SIZE_CLASSES ∧
     zlookup SIZE_CLASSES c = Some payload ∧ size ≤ payload ∧
     ∀ c' p', 0 ≤ c' < c → zlookup SIZE_CLASSES c' = Some p' → p' < size).
Proof.
  pose proof (match_size_class_spec size ltac:(lia)) as H.
  destruct ((size =? 0) || (2097152 <? size)) eqn:E.
  - split; [done|]. intros. apply orb_true_iff in E as [?%Z.eqb_eq|?%Z.ltb_lt]; lia.
  - apply orb_false_iff in E as [H0%Z.eqb_neq Hb%Z.ltb_ge]. split; [lia|]. intros _.
    destruct H as (c & -> & Hf). pose proof (fits_range _ _ Hf). destruct Hf as (p & ? & ? & ?).
    by exists c, p.
Qed.

Lemma match_size_class_smallest_witness :
  ∃ c payload, match_size_class 4097 = Ret (Some c) ∧ 0 ≤ c < NUM_SIZE_CLASSES ∧
     zlookup SIZE_CLASSES c = Some payload ∧ 4097 ≤ payload ∧
     ∀ c' p', 0 ≤ c' < c → zlookup SIZE_CLASSES c' = Some p' → p' < 4097.
Proof.
  exact (proj2 (match_size_class_smallest 4097 ltac:(vm_compute; split; discriminate))
           ltac:(split; discriminate)).
Defined.

(** C35: The table is only an optimisation: for every size that has a class, those that go through
    the 256-entry table included, [match_size_class] gives what the scan of all classes
    gives. *)
Theorem match_size_class_is_scan (size : Z) (Hsize : 1 ≤ size ≤ 2097152) :
  match_size_class size = slow_path_match size.
Proof.
  pose proof (match_size_class_spec size ltac:(lia)) as Hm.
  rewrite (proj2 (Z.eqb_neq size 0)), (proj2 (Z.ltb_ge _ _)) in Hm by lia. destruct Hm as (c & -> & Hc).
  destruct (slow_path_loop_spec (Z.to_nat NUM_SIZE_CLASSES) 0 size) as (c' & E & Hc'); [lia|done|lia|lia|].
  unfold slow_path_match. rewrite E. pose proof (fits_range _ _ Hc). pose proof (fits_range _ _ Hc').
  rewrite (fits_unique size c c') by (lia || done). done.
Qed.

Lemma match_size_class_is_scan_witness : match_size_class 3000 = slow_path_match 3000.
Proof. apply (match_size_class_is_scan 3000). lia. Defined.

(** The thread-cache limits of both builds are defined: one per class, at least one block,
    and never more than 128 KiB of blocks unless it is a single block. *)
Definition tls_limits_ok (c : Config) : bool :=
  match @TLS_MAX_BLOCKS c with
  | Ret bs =>
      (zlen bs =? NUM_SIZE_CLASSES) &&
      forallb (λ '(b, p), (1 <=? b) &&
        ((b =? 1) || (b * round_up (p + @HEADER_SIZE c) 16 <=? TLS_SMALL_CLASS_BYTES)))
        (zip bs SIZE_CLASSES)
  | Abort _ => false
  end.
Lemma tls_limits_ok_true c : tls_limits_ok c = true.
Proof. destruct c as [[]]; vm_compute; reflexivity. Qed.
