(* ===== verification/Sys.v ===== *)
(** * The system interface (src/src/sys/mod.rs, syscall_linux.rs)

    [syscall6] is an assembly stub: the kernel behind it is a parameter, with a
    state of its own.  A call takes the number and six arguments and gives the
    signed result, the bytes the kernel stored in the buffer the call names (if
    any), and the kernel's next state.  All that the code builds on it, the
    arguments, the flags and the translation of errors, is modelled. *)

From S2P Require Import Prelude Bits Lib.

(** ** Errors *)

Definition EINVAL : Z := 22.
Definition NOMEM : Z := 12.
Definition EEXIST : Z := 17.

Inductive SysErr : Type := OOM | Unaligned | RandomReqFail | MemAlreadyMapped | Other.

#[export] Instance SysErr_eq_dec : EqDecision SysErr.
Proof. solve_decision. Defined.

(** The [repr(i32)] discriminants. *)
Definition SysErr_code (e : SysErr) : Z :=
  match e with
  | OOM => NOMEM
  | Unaligned => EINVAL
  | RandomReqFail => 0
  | MemAlreadyMapped => EEXIST
  | Other => 1
  end.

Definition get_errno (e : SysErr) : Z :=
  match e with
  | OOM => NOMEM
  | Unaligned => EINVAL
  | RandomReqFail => 1
  | MemAlreadyMapped => EEXIST
  | Other => 0
  end.

Inductive result (A E : Type) : Type := Ok (a : A) | Err (e : E).
Arguments Ok {A E} a.
Arguments Err {A E} e.

Definition is_err {A E} (r : result A E) : bool := match r with Ok _ => false | Err _ => true end.

(** ** Flags *)

Definition Advice_DONTNEED : Z := 4.
Definition Advice_HUGEPAGE : Z := 14.
Definition Advice_NORMAL : Z := 0.

Definition Prot_NONE : Z := 0.
Definition Prot_READ : Z := 1.
Definition Prot_WRITE : Z := 2.

Definition Map_PRIVATE : Z := 2.
Definition Map_FIXED : Z := 16.
Definition Map_NORESERVE : Z := 16384.
Definition Map_FIXED_NOREPLACE : Z := 1048576.
Definition Map_ANONYMOUS : Z := 32.

(** [struct MMapFlags]. *)
Record MMapFlags : Type := mkFlags { mm_prot : Z; mm_map : Z }.

(** ** System call numbers *)

Inductive arch : Type := X86_64 | Aarch64.

Definition SYS_MMAP (a : arch) : Z := match a with X86_64 => 9 | Aarch64 => 222 end.
Definition SYS_MUNMAP (a : arch) : Z := match a with X86_64 => 11 | Aarch64 => 215 end.
Definition SYS_MADVISE (a : arch) : Z := match a with X86_64 => 28 | Aarch64 => 233 end.
Definition SYS_MPROTECT (a : arch) : Z := match a with X86_64 => 10 | Aarch64 => 226 end.
Definition SYS_GETRANDOM (a : arch) : Z := match a with X86_64 => 318 | Aarch64 => 278 end.
Definition SYS_RSEQ (a : arch) : Z := match a with X86_64 => 334 | Aarch64 => 293 end.

(** ** Calls *)

Class Kernel (K : Type) := {
  machine : arch;
  syscall6 : Z → list Z → K → Z * list Z * K
}.

(** The smallest [isize], whose negation overflows. *)
Definition isize_min : Z := - 2 ^ 63.

(** [-ret as i32]. *)
Definition as_i32 (x : Z) : Z :=
  let y := x mod 2 ^ 32 in if y <? 2 ^ 31 then y else y - 2 ^ 32.

Definition syscall_result (ret : Z) : M (result Z Z) :=
  if ret <? 0 then
    if ret =? isize_min then Abort (Panic ArithOverflow) else Ret (Err (as_i32 (- ret)))
  else Ret (Ok ret).

Section Calls.
Context {K : Type} `{Kernel K}.

Definition map_memory (ptr len prot flags : Z) (k : K) : M (result Z SysErr * K) :=
  let '(ret, _, k) :=
    syscall6 (SYS_MMAP machine) [ptr; len; prot; Z.lor flags Map_ANONYMOUS; usize_max; 0] k in
  r ← syscall_result ret;
  match r with
  | Ok out => Ret (Ok out, k)
  | Err e =>
      Ret (Err (if e =? NOMEM then OOM
                else if e =? EINVAL then Unaligned
                else if e =? EEXIST then MemAlreadyMapped
                else Other), k)
  end.

Definition munmap_memory (ptr len : Z) (k : K) : M (result unit SysErr * K) :=
  let '(ret, _, k) := syscall6 (SYS_MUNMAP machine) [ptr; len; 0; 0; 0; 0] k in
  r ← syscall_result ret;
  match r with
  | Ok _ => Ret (Ok (), k)
  | Err e =>
      Ret (Err (if e =? NOMEM then OOM else if e =? EINVAL then Unaligned else Other), k)
  end.

Definition madvise_memory (ptr len advice : Z) (k : K) : M (result unit SysErr * K) :=
  let '(ret, _, k) := syscall6 (SYS_MADVISE machine) [ptr; len; advice; 0; 0; 0] k in
  r ← syscall_result ret;
  match r with
  | Ok _ => Ret (Ok (), k)
  | Err e => Ret (Err (if e =? EINVAL then Unaligned else Other), k)
  end.

Definition mprotect_memory (ptr len prot : Z) (k : K) : M (result unit SysErr * K) :=
  let '(ret, _, k) := syscall6 (SYS_MPROTECT machine) [ptr; len; prot; 0; 0; 0] k in
  r ← syscall_result ret;
  match r with
  | Ok _ => Ret (Ok (), k)
  | Err e => Ret (Err (if e =? EINVAL then Unaligned else Other), k)
  end.

(** [buf] is the buffer's address, [len] its length in elements of [size_of_T] bytes; the
    bytes that the kernel stored come with the result. *)
Definition get_random_val (buf len size_of_T : Z) (k : K) : M (result Z SysErr * list Z * K) :=
  n ← umul len size_of_T;
  let '(ret, bytes, k) := syscall6 (SYS_GETRANDOM machine) [buf; n; 0; 0; 0; 0] k in
  r ← syscall_result ret;
  match r with
  | Ok out => Ret (Ok out, bytes, k)
  | Err _ => Ret (Err RandomReqFail, bytes, k)
  end.

(** [RSEQ_STATE] is a thread-local [i8]. *)
Definition register_rseq (RSEQ_STATE ptr len sig : Z) (k : K) : M (result unit Z * Z * K) :=
  if negb (RSEQ_STATE =? 0) then
    Ret (if RSEQ_STATE =? 1 then Ok () else Err (-1), RSEQ_STATE, k)
  else
    let '(ret, _, k) := syscall6 (SYS_RSEQ machine) [ptr; len; 0; sig; 0; 0] k in
    if ret <? 0 then
      if ret =? isize_min then Abort (Panic ArithOverflow)
      else Ret (Err (as_i32 (- ret)), -1, k)
    else Ret (Ok (), 1, k).

(** [memory_system]. *)
Definition mmap_memory (ptr size : Z) (flags : MMapFlags) (k : K) : M (result Z SysErr * K) :=
  map_memory ptr size (mm_prot flags) (mm_map flags) k.
Definition unmap_memory (ptr size : Z) (k : K) : M (result unit SysErr * K) :=
  munmap_memory ptr size k.
Definition madvise (ptr len advice : Z) (k : K) : M (result unit SysErr * K) :=
  madvise_memory ptr len advice k.
Definition protect_memory (ptr len prot : Z) (k : K) : M (result unit SysErr * K) :=
  mprotect_memory ptr len prot k.
Definition getrandom (buf len size_of_T : Z) (k : K) : M (result Z SysErr * list Z * K) :=
  get_random_val buf len size_of_T k.

(** The [u64]s of the mask: 1024 words over the bytes the kernel stored, zero after them. *)
Definition mask_words (bytes : list Z) : list Z :=
  (λ i, from_le_bytes (take 8 (drop (8 * i) (take (Z.to_nat 8192) bytes)))) <$> seq 0 1024.

Definition get_cpu_count (mask : Z) (k : K) : Z * K :=
  let '(ret, bytes, k) := syscall6 204 [0; 8192; mask; 0; 0; 0] k in
  if ret <? 0 then (1, k)
  else (foldr (λ part acc, count_ones part + acc) 0 (mask_words bytes), k).
End Calls.

(** ** What a result means *)

Lemma syscall_result_ok ret : 0 ≤ ret → syscall_result ret = Ret (Ok ret).
Proof. intros. unfold syscall_result. by rewrite (proj2 (Z.ltb_ge _ _)). Qed.

(** The kernel answers -4095..-1 for an error. *)
Lemma syscall_result_err ret : -4095 ≤ ret < 0 → syscall_result ret = Ret (Err (- ret)).
Proof.
  intros. unfold syscall_result, isize_min, as_i32.
  rewrite (proj2 (Z.ltb_lt _ _)), (proj2 (Z.eqb_neq _ _)) by lia.
  rewrite Z.mod_small, (proj2 (Z.ltb_lt _ _)) by lia. done.
Qed.

(** Results that a Linux system call can give. *)
Definition kernel_ret (ret : Z) : Prop := -4095 ≤ ret < 2 ^ 63.

(** [mmap_memory] asks for an anonymous mapping with the caller's protection and flags and
    reports every answer of the kernel: an address as it is, [ENOMEM], [EINVAL] and
    [EEXIST] as their own errors and any other errno as [Other], whatever the errno. *)
Theorem mmap_memory_reports {K} `{Kernel K} (ptr size : Z) (flags : MMapFlags) (k k' : K)
    (ret : Z) (bytes : list Z)
    (Hcall : syscall6 (SYS_MMAP machine)
       [ptr; size; mm_prot flags; Z.lor (mm_map flags) Map_ANONYMOUS; usize_max; 0] k = (ret, bytes, k'))
    (Hret : kernel_ret ret) :
  mmap_memory ptr size flags k =
    Ret (if 0 <=? ret then Ok ret
         else if ret =? -12 then Err OOM
         else if ret =? -22 then Err Unaligned
         else if ret =? -17 then Err MemAlreadyMapped
         else Err Other, k').
Proof.
  unfold mmap_memory, map_memory, kernel_ret in *. rewrite Hcall.
  destruct (Z.leb_spec 0 ret).
  - by rewrite syscall_result_ok, bind_ret by done.
  - rewrite syscall_result_err, bind_ret by lia. unfold NOMEM, EINVAL, EEXIST.
    repeat case_zb; try done; lia.
Qed.

(** A machine on which every [mmap] fails with [EEXIST]. *)
Definition refusing_kernel : Kernel unit :=
  {| machine := X86_64; syscall6 := λ _ _ _, (-17, [], ()) |}.

Lemma mmap_memory_reports_witness :
  @mmap_memory unit refusing_kernel 4096 8192 (mkFlags Prot_NONE Map_PRIVATE) () =
    Ret (Err MemAlreadyMapped, ()).
Proof.
  exact (@mmap_memory_reports unit refusing_kernel 4096 8192 (mkFlags Prot_NONE Map_PRIVATE) () ()
    (-17) [] eq_refl ltac:(split; [discriminate|reflexivity])).
Defined.
