(* ===== verification/Radix.v ===== *)
(** * The radix tree of segments (Radix and RadixTree of src/src/va/bitmap.rs)

    A two-level table from 4 GiB chunks of the address space to the segment
    that covers them.  The second level is mapped on first use; fresh anonymous
    memory is zero, and 0 means "no segment". *)

From S2P Require Import Prelude Bits Lib Sys.

Definition CHUNK_SIZE : Z := 1024 * 1024 * 1024 * 4.

Definition L1_BITS : Z := 12.
Definition L2_BITS : Z := 13.
Definition L1_SIZE : Z := Z.shiftl 1 L1_BITS.
Definition L2_SIZE : Z := Z.shiftl 1 L2_BITS.
Definition RADIX_MAX_CHUNKS : Z := Z.shiftl 1 (L1_BITS + L2_BITS).

(** [l1] is [None] while the pointer is null; an entry is [None] while it is null. *)
Record Radix : Type := mkRadix { l1 : option (list (option (list Z))) }.

Section Radix.
Context {K : Type} `{Kernel K}.

(** Maps zeroed memory; only the kernel's state is kept. *)
Definition Radix_map_memory (size : Z) (k : K) : M K :=
  '(r, k) ← mmap_memory 0 size (mkFlags (Z.lor Prot_READ Prot_WRITE) Map_PRIVATE) k;
  match r with
  | Ok _ => Ret k
  | Err _ => log_and_abort VAIinitFailed
  end.

Definition Radix_new (k : K) : M (Radix * K) :=
  size ← umul L1_SIZE 8;
  k ← Radix_map_memory size k;
  Ret (mkRadix (Some (replicate (Z.to_nat L1_SIZE) None)), k).

Definition Radix_split (idx : Z) : Z * Z := (shr64 idx L2_BITS, Z.land idx (L2_SIZE - 1)).

(** [*self.l1.add(i)]: an access through a raw pointer. *)
Definition raw_get {A} (l : list A) (i : Z) : M A :=
  match zlookup l i with Some x => Ret x | None => Abort WildAccess end.

Definition Radix_set (r : Radix) (chunk_idx seg : Z) (k : K) : M (Radix * K) :=
  if RADIX_MAX_CHUNKS <=? chunk_idx then Ret (r, k)
  else
    let '(i, j) := Radix_split chunk_idx in
    match l1 r with
    | None => Abort WildAccess
    | Some t =>
        l2 ← raw_get t i;
        '(l2, k) ← match l2 with
          | None =>
              size ← umul L2_SIZE 8;
              k ← Radix_map_memory size k;
              Ret (replicate (Z.to_nat L2_SIZE) 0, k)
          | Some l2 => Ret (l2, k)
          end;
        _ ← raw_get l2 j;
        Ret (mkRadix (Some (zinsert t i (Some (zinsert l2 j seg)))), k)
    end.

Definition Radix_get (r : Radix) (chunk_idx : Z) : M (option Z) :=
  if RADIX_MAX_CHUNKS <=? chunk_idx then Ret None
  else
    let '(i, j) := Radix_split chunk_idx in
    match l1 r with
    | None => Abort WildAccess
    | Some t =>
        l2 ← raw_get t i;
        match l2 with
        | None => Ret None
        | Some l2 => entry ← raw_get l2 j; Ret (if entry =? 0 then None else Some entry)
        end
    end.

(** ** [RadixTree] *)

(** [for i in 0..count { self.nodes.set(start_idx + i, seg_ptr) }] *)
Fixpoint set_range_loop (n : nat) (r : Radix) (idx seg : Z) (k : K) : M (Radix * K) :=
  match n with
  | O => Ret (r, k)
  | S n => '(r, k) ← Radix_set r idx seg k; set_range_loop n r (idx + 1) seg k
  end.

Definition set_range (r : Radix) (start size seg_ptr : Z) (k : K) : M (Radix * K) :=
  let start_idx := start / CHUNK_SIZE in
  let end_idx := saturating_add64 start (saturating_sub size 1) / CHUNK_SIZE in
  let count := saturating_sub end_idx start_idx + 1 in
  set_range_loop (Z.to_nat count) r start_idx seg_ptr k.

(** The segment pointer of an address, 0 for null. *)
Definition get_segment (r : Radix) (addr : Z) : M Z :=
  e ← Radix_get r (addr / CHUNK_SIZE);
  Ret (default 0 e).

(** [for i in start_idx..=end_idx { .. }] *)
Fixpoint collision_loop (n : nat) (r : Radix) (i : Z) : M bool :=
  match n with
  | O => Ret false
  | S n =>
      e ← Radix_get r i;
      match e with Some _ => Ret true | None => collision_loop n r (i + 1) end
  end.

Definition check_collision (r : Radix) (start size : Z) : M bool :=
  let start_idx := start / CHUNK_SIZE in
  let end_idx := saturating_add64 start (saturating_sub size 1) / CHUNK_SIZE in
  if RADIX_MAX_CHUNKS <=? end_idx then Ret true
  else collision_loop (Z.to_nat (end_idx - start_idx + 1)) r start_idx.
End Radix.

(** ** The table as a function *)

Definition radix_at (r : Radix) (idx : Z) : Z :=
  match l1 r with
  | None => 0
  | Some t =>
      match zlookup t (idx / 2 ^ 13) with
      | Some (Some l2) => default 0 (zlookup l2 (idx mod 2 ^ 13))
      | _ => 0
      end
  end.

Definition radix_ok (r : Radix) : Prop :=
  ∃ t, l1 r = Some t ∧ zlen t = 2 ^ 12 ∧ ∀ i l2, zlookup t i = Some (Some l2) → zlen l2 = 2 ^ 13.

Lemma split_eq idx : Radix_split idx = (idx / 2 ^ 13, idx mod 2 ^ 13).
Proof.
  unfold Radix_split, shr64, L2_BITS. rewrite Z.shiftr_div_pow2 by lia.
  change (L2_SIZE - 1) with (Z.ones 13). by rewrite Z.land_ones by lia.
Qed.

Lemma raw_get_ok {A} (l : list A) i x : zlookup l i = Some x → raw_get l i = Ret x.
Proof. unfold raw_get. by intros ->. Qed.

Lemma Radix_get_spec r idx :
  radix_ok r → 0 ≤ idx < RADIX_MAX_CHUNKS →
  Radix_get r idx = Ret (if radix_at r idx =? 0 then None else Some (radix_at r idx)).
Proof.
  intros (t & Ht & Hlen & Hl2) Hi. unfold Radix_get, radix_at.
  rewrite (proj2 (Z.leb_gt _ _)), split_eq, Ht by lia.
  change RADIX_MAX_CHUNKS with (2 ^ 25) in Hi.
  destruct (zlookup_lt t (idx / 2 ^ 13)) as [o Ho]; [rewrite Hlen; zdiv|].
  rewrite (raw_get_ok _ _ _ Ho), bind_ret, Ho. destruct o as [l2|]; [|done].
  destruct (zlookup_lt l2 (idx mod 2 ^ 13)) as [e He].
  { rewrite (Hl2 _ _ Ho). apply Z.mod_pos_bound. lia. }
  by rewrite (raw_get_ok _ _ _ He), bind_ret, He.
Qed.

Lemma Radix_get_high r idx : RADIX_MAX_CHUNKS ≤ idx → Radix_get r idx = Ret None.
Proof. intros. unfold Radix_get. by rewrite (proj2 (Z.leb_le _ _)). Qed.

(** ** A kernel that answers as Linux does *)

(** What Linux documents of the calls that the allocator makes.  A result is an errno or
    not negative; an anonymous mapping that is not [MAP_FIXED] lies in free address space
    of at most 57 bits, page aligned and not at 0, and exactly at the address asked for with
    [MAP_FIXED_NOREPLACE]; what is unmapped is in the range asked for; bytes are bytes.  [k_live k a]: a mapping made so begins at [a].
    Any call may be refused. *)
Class LinuxKernel (K : Type) `{Kernel K} := {
  k_live : K → Z → Prop;
  linux_ret n args (k : K) : kernel_ret (syscall6 n args k).1.1;
  linux_bytes n args (k : K) : Forall (λ b, 0 ≤ b < 256) (syscall6 n args k).1.2;
  linux_live n args (k : K) a :
    n ≠ SYS_MUNMAP machine → k_live k a → k_live (syscall6 n args k).2 a;
  linux_munmap addr len args (k : K) a :
    k_live k a → ¬ addr ≤ a < addr + len →
    k_live (syscall6 (SYS_MUNMAP machine) (addr :: len :: args) k).2 a;
  linux_mmap target len prot flags off (k : K) :
    let '(ret, _, k') := syscall6 (SYS_MMAP machine) [target; len; prot; flags; off; 0] k in
    Z.land flags Map_FIXED = 0 → 0 ≤ ret →
    0 < ret ∧ ret mod 4096 = 0 ∧ ret + len ≤ 2 ^ 57 ∧ ¬ k_live k ret ∧ k_live k' ret ∧
    (Z.land flags Map_FIXED_NOREPLACE ≠ 0 → target ≠ 0 → ret = target);
  linux_mmap_fixed target len prot flags off (k : K) :
    Z.land flags Map_FIXED ≠ 0 →
    0 ≤ (syscall6 (SYS_MMAP machine) [target; len; prot; flags; off; 0] k).1.1 →
    (syscall6 (SYS_MMAP machine) [target; len; prot; flags; off; 0] k).1.1 = target
}.

Section Spec.
Context {K : Type} `{LinuxKernel K}.

(** An anonymous mapping that is not [MAP_FIXED]. *)
Lemma mmap_memory_spec ptr size flags (k : K) :
  Z.land (Z.lor (mm_map flags) Map_ANONYMOUS) Map_FIXED = 0 →
  ∃ r k', mmap_memory ptr size flags k = Ret (r, k') ∧
    (∀ a, k_live k a → k_live k' a) ∧
    ∀ out, r = Ok out → 0 < out ∧ out mod 4096 = 0 ∧ out + size ≤ 2 ^ 57 ∧
      ¬ k_live k out ∧ k_live k' out ∧
      (Z.land (Z.lor (mm_map flags) Map_ANONYMOUS) Map_FIXED_NOREPLACE ≠ 0 → ptr ≠ 0 → out = ptr).
Proof.
  intros Hfl. unfold mmap_memory, map_memory.
  set (args := [ptr; size; mm_prot flags; Z.lor (mm_map flags) Map_ANONYMOUS; usize_max; 0]).
  pose proof (linux_ret (SYS_MMAP machine) args k) as Hr.
  pose proof (linux_mmap ptr size (mm_prot flags) (Z.lor (mm_map flags) Map_ANONYMOUS) usize_max k) as Hm.
  assert (Hl : ∀ a, k_live k a → k_live (syscall6 (SYS_MMAP machine) args k).2 a).
  { intros a. apply linux_live. by destruct machine. }
  fold args in Hm. destruct (syscall6 _ args k) as [[ret bytes] k'] eqn:E.
  unfold kernel_ret in Hr. cbn in Hr, Hl.
  destruct (Z.le_gt_cases 0 ret).
  - rewrite syscall_result_ok, bind_ret by done. eexists _, _. split; [done|]. split; [done|].
    intros out [= <-]. by apply Hm.
  - rewrite syscall_result_err, bind_ret by lia. eexists _, _. split; [done|]. split; [done|].
    by intros out [= ].
Qed.

(** An anonymous [MAP_FIXED] mapping is where it was asked for. *)
Lemma mmap_fixed_spec ptr size flags (k : K) :
  Z.land (Z.lor (mm_map flags) Map_ANONYMOUS) Map_FIXED ≠ 0 →
  ∃ r k', mmap_memory ptr size flags k = Ret (r, k') ∧ (∀ a, k_live k a → k_live k' a) ∧
    ∀ out, r = Ok out → out = ptr.
Proof.
  intros Hfl. unfold mmap_memory, map_memory.
  set (args := [ptr; size; mm_prot flags; Z.lor (mm_map flags) Map_ANONYMOUS; usize_max; 0]).
  pose proof (linux_ret (SYS_MMAP machine) args k) as Hr.
  pose proof (linux_mmap_fixed ptr size (mm_prot flags) (Z.lor (mm_map flags) Map_ANONYMOUS) usize_max k Hfl) as Hm.
  assert (Hl : ∀ a, k_live k a → k_live (syscall6 (SYS_MMAP machine) args k).2 a).
  { intros a. apply linux_live. by destruct machine. }
  fold args in Hm. destruct (syscall6 _ args k) as [[ret bytes] k'] eqn:E.
  unfold kernel_ret in Hr. cbn in Hr, Hl, Hm.
  destruct (Z.le_gt_cases 0 ret).
  - rewrite syscall_result_ok, bind_ret by done. eexists _, _. split; [done|]. split; [done|].
    intros out [= <-]. by apply Hm.
  - rewrite syscall_result_err, bind_ret by lia. eexists _, _. split; [done|]. split; [done|].
    by intros out [= ].
Qed.

(** Advice and protection changes report, and unmap nothing. *)
Lemma madvise_spec ptr len advice (k : K) :
  ∃ r k', madvise ptr len advice k = Ret (r, k') ∧ ∀ a, k_live k a → k_live k' a.
Proof.
  unfold madvise, madvise_memory.
  set (args := [ptr; len; advice; 0; 0; 0]).
  pose proof (linux_ret (SYS_MADVISE machine) args k) as Hr.
  assert (Hl : ∀ a, k_live k a → k_live (syscall6 (SYS_MADVISE machine) args k).2 a).
  { intros a. apply linux_live. by destruct machine. }
  destruct (syscall6 _ args k) as [[ret bytes] k'] eqn:E. unfold kernel_ret in Hr. cbn in Hr, Hl.
  destruct (Z.le_gt_cases 0 ret); [rewrite syscall_result_ok by done|rewrite syscall_result_err by lia];
    rewrite bind_ret; by eexists _, _.
Qed.

Lemma protect_memory_spec ptr len prot (k : K) :
  ∃ r k', protect_memory ptr len prot k = Ret (r, k') ∧ ∀ a, k_live k a → k_live k' a.
Proof.
  unfold protect_memory, mprotect_memory.
  set (args := [ptr; len; prot; 0; 0; 0]).
  pose proof (linux_ret (SYS_MPROTECT machine) args k) as Hr.
  assert (Hl : ∀ a, k_live k a → k_live (syscall6 (SYS_MPROTECT machine) args k).2 a).
  { intros a. apply linux_live. by destruct machine. }
  destruct (syscall6 _ args k) as [[ret bytes] k'] eqn:E. unfold kernel_ret in Hr. cbn in Hr, Hl.
  destruct (Z.le_gt_cases 0 ret); [rewrite syscall_result_ok by done|rewrite syscall_result_err by lia];
    rewrite bind_ret; by eexists _, _.
Qed.

(** Unmapping leaves what begins outside of the range. *)
Lemma unmap_memory_spec ptr len (k : K) :
  ∃ r k', unmap_memory ptr len k = Ret (r, k') ∧ ∀ a, k_live k a → ¬ ptr ≤ a < ptr + len → k_live k' a.
Proof.
  unfold unmap_memory, munmap_memory.
  pose proof (linux_ret (SYS_MUNMAP machine) [ptr; len; 0; 0; 0; 0] k) as Hr.
  pose proof (linux_munmap ptr len [0; 0; 0; 0] k) as Hl.
  destruct (syscall6 _ _ k) as [[ret bytes] k'] eqn:E. unfold kernel_ret in Hr. cbn in Hr, Hl.
  destruct (Z.le_gt_cases 0 ret); [rewrite syscall_result_ok by done|rewrite syscall_result_err by lia];
    rewrite bind_ret; by eexists _, _.
Qed.

(** What lives on stays, whatever is mapped besides. *)
Definition keeps (k k' : K) : Prop := ∀ a, k_live k a → k_live k' a.

#[export] Instance keeps_preorder : PreOrder keeps.
Proof. split; [by intros k a|by intros k1 k2 k3 H1 H2 a Ha%H1%H2]. Qed.

Lemma Radix_map_memory_total size (k : K) :
  (∃ k', Radix_map_memory size k = Ret k' ∧ keeps k k') ∨
  Radix_map_memory size k = Abort (Fatal VAIinitFailed).
Proof.
  unfold Radix_map_memory.
  destruct (mmap_memory_spec 0 size (mkFlags (Z.lor Prot_READ Prot_WRITE) Map_PRIVATE) k)
    as (r & k' & -> & Hk & _); [done|]. rewrite bind_ret. destruct r; eauto.
Qed.

Lemma zlookup_replicate_eq {A} n (x : A) i : 0 ≤ i < Z.of_nat n → zlookup (replicate n x) i = Some x.
Proof. intros. unfold zlookup. rewrite decide_True by lia. apply lookup_replicate_2. lia. Qed.

Lemma zlen_replicate {A} n (x : A) : zlen (replicate n x) = Z.of_nat n.
Proof. unfold zlen. by rewrite length_replicate. Qed.

Lemma Radix_new_spec (k : K) :
  (∃ r k', Radix_new k = Ret (r, k') ∧ keeps k k' ∧ radix_ok r ∧ ∀ idx, radix_at r idx = 0) ∨
  Radix_new k = Abort (Fatal VAIinitFailed).
Proof.
  unfold Radix_new. rewrite umul_ok, bind_ret by (vm_compute; discriminate).
  destruct (Radix_map_memory_total (L1_SIZE * 8) k) as [(k' & -> & Hk)| ->]; [left|by right].
  rewrite bind_ret. eexists _, _. split; [done|]. split; [done|].
  assert (Hn : ∀ i o, zlookup (replicate (Z.to_nat L1_SIZE) (None : option (list Z))) i = Some o → o = None).
  { intros i o. unfold zlookup. case_decide; [|done]. by intros [-> _]%lookup_replicate. }
  split.
  - eexists. split; [done|]. rewrite zlen_replicate. split; [done|]. by intros i l2 ?%Hn.
  - intros idx. unfold radix_at; cbn [l1]. destruct (zlookup _ _) as [[]|] eqn:E; [|done..].
    by apply Hn in E.
Qed.

Lemma Radix_set_spec r idx seg (k : K) :
  radix_ok r → 0 ≤ idx < RADIX_MAX_CHUNKS →
  (∃ r' k', Radix_set r idx seg k = Ret (r', k') ∧ keeps k k' ∧ radix_ok r' ∧
     ∀ j, 0 ≤ j < RADIX_MAX_CHUNKS → radix_at r' j = if decide (j = idx) then seg else radix_at r j) ∨
  Radix_set r idx seg k = Abort (Fatal VAIinitFailed).
Proof.
  intros (t & Ht & Hlen & Hl2) Hi. unfold Radix_set.
  rewrite (proj2 (Z.leb_gt _ _)), split_eq, Ht by lia.
  change RADIX_MAX_CHUNKS with (2 ^ 25) in *.
  destruct (zlookup_lt t (idx / 2 ^ 13)) as [o Ho]; [rewrite Hlen; zdiv|].
  pose proof (zlookup_Some_lt _ _ _ Ho) as Hi1.
  pose proof (Z.mod_pos_bound idx (2 ^ 13) ltac:(lia)) as Hj.
  rewrite (raw_get_ok _ _ _ Ho), bind_ret.
  assert (Hstep : ∃ l2, zlen l2 = 2 ^ 13 ∧
    (∀ j, 0 ≤ j < 2 ^ 13 → default 0 (zlookup l2 j) = match o with Some l => default 0 (zlookup l j) | None => 0 end) ∧
    ((∃ k', (match o with
          | None => size ← umul L2_SIZE 8; k ← Radix_map_memory size k;
                    Ret (replicate (Z.to_nat L2_SIZE) 0, k)
          | Some l2 => Ret (l2, k)
          end) = Ret (l2, k') ∧ keeps k k') ∨
     (match o with
          | None => size ← umul L2_SIZE 8; k ← Radix_map_memory size k;
                    Ret (replicate (Z.to_nat L2_SIZE) 0, k)
          | Some l2 => Ret (l2, k)
          end) = Abort (Fatal VAIinitFailed))).
  { destruct o as [l2|].
    - exists l2. split_and!; [by eapply Hl2|done|]. left. exists k. split; [done|]. by intros a.
    - exists (replicate (Z.to_nat L2_SIZE) 0). rewrite zlen_replicate. split_and!; [done| |].
      + intros j Hj'. rewrite zlookup_replicate_eq; [done|]. change (Z.of_nat (Z.to_nat L2_SIZE)) with (2 ^ 13). lia.
      + rewrite umul_ok, bind_ret by (vm_compute; discriminate).
        destruct (Radix_map_memory_total (L2_SIZE * 8) k) as [(k' & -> & Hk)| ->]; eauto. }
  destruct Hstep as (l2 & Hlen2 & Hl2v & [(k' & -> & Hk)| ->]); [left|by right].
  rewrite bind_ret. destruct (zlookup_lt l2 (idx mod 2 ^ 13)) as [e He]; [lia|].
  rewrite (raw_get_ok _ _ _ He), bind_ret. eexists _, _. split; [done|]. split; [done|]. split.
  - eexists. split; [done|]. rewrite zlen_zinsert. split; [done|]. intros i l Hl.
    destruct (decide (i = idx / 2 ^ 13)) as [->|].
    + rewrite zlookup_zinsert_eq in Hl by done. simplify_eq. by rewrite zlen_zinsert.
    + rewrite zlookup_zinsert_ne in Hl by (done || lia). by eapply Hl2.
  - intros j Hj'. unfold radix_at; cbn [l1]. rewrite Ht.
    destruct (decide (j / 2 ^ 13 = idx / 2 ^ 13)) as [Hd|Hd].
    + rewrite Hd, zlookup_zinsert_eq by done. rewrite Ho.
      destruct (decide (j mod 2 ^ 13 = idx mod 2 ^ 13)) as [Hm|Hm].
      * rewrite decide_True by (rewrite (Z.div_mod j (2 ^ 13)), (Z.div_mod idx (2 ^ 13)) by lia; congruence).
        by rewrite Hm, zlookup_zinsert_eq by (rewrite Hlen2; done).
      * rewrite decide_False by congruence. rewrite zlookup_zinsert_ne by (done || lia).
        apply Hl2v, Z.mod_pos_bound. lia.
    + rewrite decide_False by congruence. by rewrite zlookup_zinsert_ne by (done || lia).
Qed.

(** The chunks of [start .. start + size - 1]. *)
Definition first_chunk (start : Z) : Z := start / CHUNK_SIZE.
Definition last_chunk (start size : Z) : Z :=
  saturating_add64 start (saturating_sub size 1) / CHUNK_SIZE.

Lemma last_chunk_ge start size :
  0 ≤ start ≤ u64_max → first_chunk start ≤ last_chunk start size.
Proof.
  intros. unfold first_chunk, last_chunk, saturating_add64, saturating_sub, CHUNK_SIZE. zdiv.
Qed.

Lemma set_range_loop_spec n r idx seg (k : K) :
  radix_ok r → 0 ≤ idx → idx + Z.of_nat n ≤ RADIX_MAX_CHUNKS →
  (∃ r' k', set_range_loop n r idx seg k = Ret (r', k') ∧ keeps k k' ∧ radix_ok r' ∧
     ∀ j, 0 ≤ j < RADIX_MAX_CHUNKS →
       radix_at r' j = if decide (idx ≤ j < idx + Z.of_nat n) then seg else radix_at r j) ∨
  set_range_loop n r idx seg k = Abort (Fatal VAIinitFailed).
Proof.
  revert r idx k. induction n as [|n IH]; intros r idx k Hok Hi Hn; cbn [set_range_loop].
  - left. eexists _, _. split_and!; [done|by intros a|done|]. intros j Hj. by rewrite decide_False by lia.
  - destruct (Radix_set_spec r idx seg k Hok) as [(r1 & k1 & -> & Hk1 & Hok1 & Hat)| ->];
      [lia| |by right]. rewrite bind_ret.
    destruct (IH r1 (idx + 1) k1 Hok1) as [(r2 & k2 & -> & Hk2 & Hok2 & Hat2)| ->]; try lia; [left|by right].
    eexists _, _. split_and!; [done|by intros a Ha%Hk1%Hk2|done|]. intros j Hj. rewrite Hat2, Hat by done.
    repeat case_decide; try done; lia.
Qed.

Lemma set_range_spec r start size seg (k : K) :
  radix_ok r → 0 ≤ start ≤ u64_max → last_chunk start size < RADIX_MAX_CHUNKS →
  (∃ r' k', set_range r start size seg k = Ret (r', k') ∧ keeps k k' ∧ radix_ok r' ∧
     ∀ j, 0 ≤ j < RADIX_MAX_CHUNKS → radix_at r' j =
       if decide (first_chunk start ≤ j ≤ last_chunk start size) then seg else radix_at r j) ∨
  set_range r start size seg k = Abort (Fatal VAIinitFailed).
Proof.
  intros Hok Hs Hlast. pose proof (last_chunk_ge start size Hs) as Hge.
  unfold set_range. fold (last_chunk start size) (first_chunk start).
  assert (0 ≤ first_chunk start) by (unfold first_chunk, CHUNK_SIZE; zdiv).
  unfold saturating_sub. destruct (set_range_loop_spec
    (Z.to_nat (Z.max 0 (last_chunk start size - first_chunk start) + 1)) r (first_chunk start) seg k)
    as [(r' & k' & -> & Hk & Hok' & Hat)| ->]; try done; try lia; [left|by right].
  eexists _, _. split_and!; [done..|]. intros j Hj. rewrite Hat by done.
  repeat case_decide; try done; lia.
Qed.
End Spec.

Lemma collision_loop_spec n r i :
  radix_ok r → 0 ≤ i → i + Z.of_nat n ≤ RADIX_MAX_CHUNKS →
  ∃ b, collision_loop n r i = Ret b ∧
    (b = true ↔ ∃ j, i ≤ j < i + Z.of_nat n ∧ radix_at r j ≠ 0).
Proof.
  revert i. induction n as [|n IH]; intros i Hok Hi Hn; cbn [collision_loop].
  - eexists. split; [done|]. split; [done|]. intros (j & ? & _). lia.
  - rewrite Radix_get_spec, bind_ret by (done || lia).
    destruct (Z.eqb_spec (radix_at r i) 0) as [H0|H0].
    + destruct (IH (i + 1) Hok) as (b & -> & Hb); try lia. exists b. split; [done|]. rewrite Hb.
      split; intros (j & Hj & Hne); exists j; (split; [|done]); [lia|].
      destruct (decide (j = i)) as [->|]; [done|lia].
    + exists true. split; [done|]. split; [|done]. intros _. exists i. split; [lia|done].
Qed.

Lemma check_collision_spec r start size :
  radix_ok r → 0 ≤ start ≤ u64_max →
  ∃ b, check_collision r start size = Ret b ∧
    (b = true ↔ RADIX_MAX_CHUNKS ≤ last_chunk start size ∨
       ∃ j, first_chunk start ≤ j ≤ last_chunk start size ∧ radix_at r j ≠ 0).
Proof.
  intros Hok Hs. pose proof (last_chunk_ge start size Hs) as Hge.
  assert (0 ≤ first_chunk start) by (unfold first_chunk, CHUNK_SIZE; zdiv).
  unfold check_collision. fold (last_chunk start size) (first_chunk start).
  destruct (Z.leb_spec RADIX_MAX_CHUNKS (last_chunk start size)) as [Hle|Hlt].
  - exists true. split; [done|]. split; [by left|done].
  - destruct (collision_loop_spec (Z.to_nat (last_chunk start size - first_chunk start + 1)) r
      (first_chunk start)) as (b & -> & Hb); try done; try lia.
    exists b. split; [done|]. rewrite Hb. split.
    + intros (j & Hj & Hne). right. exists j. split; [lia|done].
    + intros [?|(j & Hj & Hne)]; [lia|]. exists j. split; [lia|done].
Qed.

Lemma get_segment_spec r addr :
  radix_ok r → 0 ≤ addr →
  get_segment r addr = Ret (if first_chunk addr <? RADIX_MAX_CHUNKS then radix_at r (first_chunk addr) else 0).
Proof.
  intros Hok Ha. unfold get_segment. fold (first_chunk addr).
  assert (0 ≤ first_chunk addr) by (unfold first_chunk, CHUNK_SIZE; zdiv).
  destruct (Z.ltb_spec (first_chunk addr) RADIX_MAX_CHUNKS).
  - rewrite Radix_get_spec, bind_ret by (done || lia). case_zb; [|done]. cbn. congruence.
  - by rewrite Radix_get_high, bind_ret by done.
Qed.
