(* ===== verification/VaMap.v ===== *)
(** * The map of reserved address space (VaBitmap of src/src/va/bitmap.rs)

    [VaBitmap] keeps a list of segments, linked through [next], and the radix
    tree that finds the segment of an address.  [alloc] tries the segment that
    served last, then the list, then reserves a new segment from the kernel.

    The segments live in memory that is mapped for them; [va_segs] is that
    memory, by address.  The functions run while no other thread runs inside
    them; what locks and claims guarantee between threads is in Lock.v and
    ClaimRace.v.  The first call of [boot_strap] precedes every call here (all
    entry points make it), so its call in [get_va_from_kernel] does nothing. *)

From S2P Require Import Prelude Bits Lib Rng Segment Sys Radix.

(** The statics of the file. *)
Record VaGlobals : Type := mkVG {
  LATEST_TRIED : Z;
  RESERVE : Z;
  BASE_HINT : Z;
  BASE_INIT : bool
}.
Definition initial_va_globals : VaGlobals := mkVG 0 0 0 false.

Definition with_base (g : VaGlobals) (hint : Z) (init : bool) : VaGlobals :=
  mkVG (LATEST_TRIED g) (RESERVE g) hint init.

(** [VaBitmap], the segments in memory, [ONCE] and [ONCE_PROTECTION] (whether each has run),
    and the statics. *)
Record VaState : Type := mkVa {
  va_map : Z;
  va_latest : Z;
  va_radix : Radix;
  va_segs : gmap Z Segment;
  va_once : bool;
  va_once_protection : bool;
  va_glob : VaGlobals
}.
Definition VaBitmap_new : VaState :=
  mkVa 0 0 (mkRadix None) ∅ false false initial_va_globals.

Definition with_segs (st : VaState) (segs : gmap Z Segment) : VaState :=
  mkVa (va_map st) (va_latest st) (va_radix st) segs (va_once st) (va_once_protection st) (va_glob st).
Definition with_latest (st : VaState) (p : Z) : VaState :=
  mkVa (va_map st) p (va_radix st) (va_segs st) (va_once st) (va_once_protection st) (va_glob st).
Definition with_glob (st : VaState) (g : VaGlobals) : VaState :=
  mkVa (va_map st) (va_latest st) (va_radix st) (va_segs st) (va_once st) (va_once_protection st) g.
Definition with_radix (st : VaState) (r : Radix) : VaState :=
  mkVa (va_map st) (va_latest st) r (va_segs st) (va_once st) (va_once_protection st) (va_glob st).
Definition with_once (st : VaState) (b : bool) : VaState :=
  mkVa (va_map st) (va_latest st) (va_radix st) (va_segs st) b (va_once_protection st) (va_glob st).

(** [&*p]: a segment through its pointer. *)
Definition seg_at (st : VaState) (p : Z) : M Segment :=
  match va_segs st !! p with Some s => Ret s | None => Abort WildAccess end.
Definition put_seg (st : VaState) (p : Z) (s : Segment) : VaState :=
  with_segs st (<[p := s]> (va_segs st)).

Section VaMap.
Context {K : Type} `{Kernel K}.

(** [stack_buf] is the address of a local buffer, [max_reservation] the value of
    [OX_MAX_RESERVATION]. *)
Context (stack_buf max_reservation : Z).

Definition randomize_base_hint (g : VaGlobals) (k : K) : M (VaGlobals * K) :=
  let max := LATEST_TRIED g in
  if max =? 0 then Ret (g, k)
  else
    '(ret, bytes, k) ← getrandom stack_buf 8 1 k;
    if is_err ret then log_and_abort SecurityViolation
    else
      let rand := from_le_bytes (take 8 bytes) in
      r ← urem rand max;
      a ← align_to r 4096;
      Ret (with_base g (wrapping_add64 (BASE_HINT g) a) (BASE_INIT g), k).

Definition MIN_RESERVE : Z := CHUNK_SIZE.

(** The [loop] of [get_va_from_kernel]; [size] is at least halved by each further round. *)
Fixpoint reserve_loop (fuel : nat) (g : VaGlobals) (size : Z) (k : K)
    : M ((Z * Z * Z) * VaGlobals * K) :=
  match fuel with
  | O => Abort OutOfFuel
  | S fuel =>
      let base_hint := BASE_HINT g in
      let flags :=
        if BASE_INIT g then Z.lor (Z.lor Map_PRIVATE Map_NORESERVE) Map_FIXED_NOREPLACE
        else Z.lor Map_PRIVATE Map_NORESERVE in
      let target := if BASE_INIT g then base_hint else 0 in
      '(probe, k) ← mmap_memory target size (mkFlags Prot_NONE flags) k;
      match probe with
      | Ok output =>
          let g := mkVG (Z.max size (LATEST_TRIED g)) (RESERVE g) (BASE_HINT g) (BASE_INIT g) in
          g ← (if negb (BASE_INIT g) then Ret (with_base g output true)
               else h ← uadd (BASE_HINT g) size; Ret (with_base g h true));
          e ← uadd output size;
          Ret ((output, e, size), g, k)
      | Err _ =>
          if (size <=? MIN_RESERVE) && negb (BASE_INIT g) then log_and_abort VAIinitFailed
          else if size <=? MIN_RESERVE then Ret ((0, 0, 0), with_base g (BASE_HINT g) false, k)
          else
            h ← uadd (BASE_HINT g) size;
            reserve_loop fuel (with_base g h (BASE_INIT g)) (size / 2) k
      end
  end.

(** 64 rounds halve any [usize] to nothing. *)
Definition reserve_fuel : nat := 64.

Definition get_va_from_kernel (g : VaGlobals) (k : K) : M ((Z * Z * Z) * VaGlobals * K) :=
  '(g, k) ← randomize_base_hint g k;
  let '(max_size, g) :=
    if 3 <? RESERVE g then (LATEST_TRIED g, g)
    else (max_reservation,
          mkVG (LATEST_TRIED g) (wrap8 (RESERVE g + 1)) (BASE_HINT g) (BASE_INIT g)) in
  let size := if max_size <? MIN_RESERVE then MIN_RESERVE else max_size in
  reserve_loop reserve_fuel g size k.

(** ** [is_ours] *)

Definition is_ours (st : VaState) (addr : Z) : M bool :=
  match l1 (va_radix st) with
  | None => Ret false
  | Some _ =>
      segment ← get_segment (va_radix st) addr;
      if segment =? 0 then Ret false
      else s ← seg_at st segment; Ret ((va_start s <=? addr) && (addr <? va_end s))
  end.

(** [va::is_ours]: only multiples of 8. *)
Definition va_is_ours (st : VaState) (addr : Z) : M bool :=
  if negb (addr mod 8 =? 0) then Ret false else is_ours st addr.

(** ** [grow] *)

Definition SEGMENT_SIZE : Z := 64.

Definition hint_seed (user_va : Z) : Z :=
  let v := user_va in
  let v := Z.lxor v (shr64 v 33) in
  let v := Z.lxor v (shl64 v 17) in
  Z.lxor v (shr64 v 7).

Definition rw_private : MMapFlags := mkFlags (Z.lor Prot_READ Prot_WRITE) Map_PRIVATE.

(** [grow] once the range from [user_va] to [e] is reserved. *)
Definition grow_segment (st : VaState) (user_va e total_size : Z) (k : K)
    : M (option Z * VaState * K) :=
  collision ← check_collision (va_radix st) user_va total_size;
  if collision : bool then Ret (None, st, k)
  else
    let bit_count := total_size / BLOCK_SIZE in
    b ← uadd bit_count 63;
    let map_len := b / 64 in
    map_bytes ← umul map_len 8;
    '(map_raw, k) ← mmap_memory 0 map_bytes rw_private k;
    if is_err map_raw then Ret (None, st, k)
    else
      '(claim_raw, k) ← mmap_memory 0 map_bytes rw_private k;
      if is_err claim_raw then Ret (None, st, k)
      else
        '(seg, k) ← mmap_memory 0 SEGMENT_SIZE rw_private k;
        match seg with
        | Err _ => Ret (None, st, k)
        | Ok seg_ptr =>
            hint ← urem (hint_seed user_va) map_len;
            let zeroed := zero_map (Z.to_nat map_len) in
            let segment :=
              mkSegment (va_map st) user_va e zeroed zeroed hint map_len false 0 in
            let st := put_seg st seg_ptr segment in
            '(r, k) ← set_range (va_radix st) user_va total_size seg_ptr k;
            Ret (Some seg_ptr,
                 mkVa seg_ptr (va_latest st) r (va_segs st) (va_once st)
                   (va_once_protection st) (va_glob st), k)
        end.

(** The radix tree is created by the first growth. *)
Definition ensure_radix (st : VaState) (k : K) : M (VaState * K) :=
  match l1 (va_radix st) with
  | None =>
      if va_once_protection st then Ret (st, k)
      else
        '(r, k) ← Radix_new k;
        Ret (mkVa (va_map st) (va_latest st) r (va_segs st) (va_once st) true (va_glob st), k)
  | Some _ => Ret (st, k)
  end.

Definition grow (st : VaState) (k : K) : M (option Z * VaState * K) :=
  '(st, k) ← ensure_radix st k;
  '(user_va, e, total_size, g, k) ← get_va_from_kernel (va_glob st) k;
  let st := with_glob st g in
  if user_va =? 0 then Ret (None, st, k) else grow_segment st user_va e total_size k.

(** ** [alloc] *)

(** [if needed == 1 { alloc_single() } else { alloc_multi(needed) }] *)
Definition seg_alloc (st : VaState) (p needed : Z) (ar : AllocRng)
    : M (option Z * VaState * AllocRng) :=
  s ← seg_at st p;
  '(res, s, ar) ← (if needed =? 1 then alloc_single s ar else alloc_multi s needed ar);
  Ret (res, put_seg st p s, ar).

(** [while !curr.is_null() { .. }]: [inl] with the address, or [inr] at the end of the list. *)
Fixpoint walk_alloc (fuel : nat) (st : VaState) (curr needed : Z) (ar : AllocRng)
    : M (option Z * VaState * AllocRng) :=
  if curr =? 0 then Ret (None, st, ar)
  else
    match fuel with
    | O => Abort OutOfFuel
    | S fuel =>
        s ← seg_at st curr;
        if seg_full s then walk_alloc fuel st (seg_next s) needed ar
        else
          '(res, st, ar) ← seg_alloc st curr needed ar;
          match res with
          | Some addr => Ret (Some addr, with_latest st curr, ar)
          | None =>
              s ← seg_at st curr;
              let try_count := failed_trys s in
              let s := with_trys s (wrap8 (failed_trys s + 1)) in
              let s := if 2 <? try_count then with_full s true else s in
              walk_alloc fuel (put_seg st curr s) (seg_next s) needed ar
          end
    end.

(** [while tried < 10 { .. }] *)
Fixpoint grow_tries (n : nat) (st : VaState) (k : K) : M (option Z * VaState * K) :=
  match n with
  | O => Ret (None, st, k)
  | S n =>
      '(seg, st, k) ← grow st k;
      match seg with
      | Some p => Ret (Some p, st, k)
      | None => grow_tries n st k
      end
  end.

(** The list is as long as there are segments. *)
Definition list_fuel (st : VaState) : nat := S (size (va_segs st)).

Definition alloc (st : VaState) (size : Z) (ar : AllocRng) (k : K)
    : M (option Z * VaState * AllocRng * K) :=
  if size =? 0 then Ret (None, st, ar, k)
  else
    sz ← uadd size BLOCK_SIZE;
    let needed := (sz - 1) / BLOCK_SIZE in
    '(res, st, ar) ← (if negb (va_latest st =? 0) then seg_alloc st (va_latest st) needed ar
                      else Ret (None, st, ar));
    match res with
    | Some addr => Ret (Some addr, st, ar, k)
    | None =>
        '(curr, st, k) ←
          (if va_map st =? 0 then
             '(curr, st, k) ←
               (if va_once st then Ret (0, st, k)
                else
                  '(seg, st, k) ← grow st k;
                  match seg with
                  | Some new => Ret (new, with_once st true, k)
                  | None => log_and_abort VAIinitFailed
                  end);
             Ret (if curr =? 0 then va_map st else curr, st, k)
           else Ret (va_map st, st, k));
        '(res, st, ar) ← walk_alloc (list_fuel st) st curr needed ar;
        match res with
        | Some addr => Ret (Some addr, st, ar, k)
        | None =>
            '(new, st, k) ← grow_tries 10 st k;
            match new with
            | None => Ret (None, st, ar, k)
            | Some seg_ptr =>
                '(res, st, ar) ← seg_alloc (with_latest st seg_ptr) seg_ptr needed ar;
                Ret (res, st, ar, k)
            end
        end
    end.

(** ** [free] and [realloc_inplace] *)

(** The segment an operation on [addr] goes to: the one of the radix tree, or else the first
    of the list that holds the address; 0 if there is none. *)
Fixpoint walk_find (fuel : nat) (st : VaState) (curr addr : Z) : M Z :=
  if curr =? 0 then Ret 0
  else
    match fuel with
    | O => Abort OutOfFuel
    | S fuel =>
        s ← seg_at st curr;
        if (va_start s <=? addr) && (addr <? va_end s) then Ret curr
        else walk_find fuel st (seg_next s) addr
    end.

Definition find_segment (st : VaState) (addr : Z) : M Z :=
  segment ← get_segment (va_radix st) addr;
  found ← (if segment =? 0 then Ret false
           else s ← seg_at st segment; Ret ((va_start s <=? addr) && (addr <? va_end s)));
  if found : bool then Ret segment else walk_find (list_fuel st) st (va_map st) addr.

Definition free (st : VaState) (addr size : Z) : M VaState :=
  if (addr =? 0) || (size =? 0) then Ret st
  else
    p ← find_segment st addr;
    if p =? 0 then Ret st
    else s ← seg_at st p; s ← Segment.free s addr size; Ret (put_seg st p s).

Definition realloc_inplace (st : VaState) (addr old_size new_size : Z) : M (option Z * VaState) :=
  p ← find_segment st addr;
  if p =? 0 then Ret (None, st)
  else
    s ← seg_at st p;
    '(res, s) ← Segment.realloc_inplace s addr old_size new_size;
    Ret (res, put_seg st p s).
End VaMap.
