(* ===== verification/VaMapSpec.v ===== *)
(** * The map of reserved address space: invariant and contract (proofs about VaMap.v) *)

From S2P Require Import Prelude Bits Lib Rng Segment SegmentSpec Sys Radix VaMap.

(** ** Reserving address space *)

(** The base hint stays far from wrapping; a larger one is left only by a failed search. *)
Record base_ok (g : VaGlobals) : Prop := {
  bo_hint : 0 ≤ BASE_HINT g ≤ (if BASE_INIT g then 2 ^ 57 else 2 ^ 61);
  bo_tried : 0 ≤ LATEST_TRIED g ≤ 2 ^ 57;
  bo_reserve : 0 ≤ RESERVE g < 256
}.

Section Reserve.
Context {K : Type} `{LinuxKernel K} (stack_buf max_reservation : Z).
Hypothesis max_reservation_ok : 0 ≤ max_reservation ≤ 2 ^ 57.

(** The values a reservation can end with. *)
Definition reserve_post (k : K) (out : M ((Z * Z * Z) * VaGlobals * K)) : Prop :=
  (∃ g' k', out = Ret ((0, 0, 0), g', k') ∧ base_ok g' ∧ keeps k k') ∨
  (∃ p size g' k', out = Ret ((p, p + size, size), g', k') ∧ base_ok g' ∧ keeps k k' ∧
     0 < p ∧ p mod 4096 = 0 ∧ MIN_RESERVE ≤ 2 * size ∧ p + size ≤ 2 ^ 57 ∧ k_live k' p) ∨
  out = Abort (Fatal VAIinitFailed) ∨ out = Abort (Fatal SecurityViolation).

Lemma reserve_loop_spec fuel g size (k : K) :
  0 ≤ BASE_HINT g → BASE_HINT g + 2 * size ≤ (if BASE_INIT g then 2 ^ 60 else 2 ^ 62) →
  0 ≤ LATEST_TRIED g ≤ 2 ^ 57 → 0 ≤ RESERVE g < 256 →
  MIN_RESERVE ≤ 2 * size → size ≤ 2 ^ 57 → 2 * size < MIN_RESERVE * 2 ^ Z.of_nat fuel →
  reserve_post k (reserve_loop fuel g size k).
Proof.
  revert g size k. induction fuel as [|fuel IH]; intros g size k Hb0 Hb Hlt Hres Hmin Hsz Hf.
  { change (2 ^ Z.of_nat 0) with 1 in Hf. lia. }
  assert (MIN_RESERVE = 2 * 2 ^ 31) as Hm by done.
  rewrite Nat2Z.inj_succ, Z.pow_succ_r in Hf by lia. cbn [reserve_loop].
  set (flags := if BASE_INIT g then _ else Z.lor Map_PRIVATE Map_NORESERVE).
  set (target := if BASE_INIT g then BASE_HINT g else 0).
  destruct (mmap_memory_spec target size (mkFlags Prot_NONE flags) k) as (r & k1 & -> & Hk1 & Hr).
  { unfold flags. by destruct (BASE_INIT g). }
  rewrite bind_ret. destruct r as [out|e].
  - destruct (Hr out eq_refl) as (Hp & Hal & Hend & _ & Hlive & Hfix). right; left.
    rewrite (uadd_ok out size) by (unfold usize_max, u64_max; lia).
    cbn [BASE_INIT BASE_HINT]. destruct (BASE_INIT g) eqn:Ei; cbn [negb].
    + rewrite uadd_ok, !bind_ret by (unfold usize_max, u64_max; lia).
      exists out, size. eexists _, _. split; [done|]. split; [|split_and!; try done; lia].
      assert (Hhint : BASE_HINT g + size ≤ 2 ^ 57).
      { destruct (decide (BASE_HINT g = 0)) as [E|E]; [lia|].
        unfold target in Hfix. rewrite Hfix in Hend; try done. }
      split; cbn; lia.
    + rewrite !bind_ret. exists out, size. eexists _, _. split; [done|].
      split; [|split_and!; try done; lia]. split; cbn; lia.
  - destruct (Z.leb_spec size MIN_RESERVE) as [Hle|Hgt]; cbn [andb].
    + destruct (BASE_INIT g) eqn:Ei; cbn [negb]; [left|right; right; by left].
      eexists _, _. split; [done|]. split; [|done]. split; cbn; lia.
    + rewrite uadd_ok, bind_ret by (unfold usize_max, u64_max; destruct (BASE_INIT g); lia).
      specialize (IH (with_base g (BASE_HINT g + size) (BASE_INIT g)) (size / 2) k1).
      cbn [with_base BASE_HINT BASE_INIT LATEST_TRIED RESERVE] in IH.
      ospecialize* IH; try done; try zdiv.
      destruct IH as [(g' & k' & -> & Hg & Hk)|[(p & sz & g' & k' & -> & Hg & Hk & Hrest)|[->| ->]]].
      * left. eexists _, _. split; [done|]. split; [done|]. by intros a Ha%Hk1%Hk.
      * right; left. eexists _, _, _, _. split; [done|]. split; [done|].
        split; [by intros a Ha%Hk1%Hk|done].
      * right; right; by left.
      * right; right; by right.
Qed.

Lemma from_le_bytes_bound l : Forall (λ b, 0 ≤ b < 256) l → 0 ≤ from_le_bytes l < 256 ^ zlen l.
Proof.
  induction 1 as [|b l Hb _ IH]; cbn [from_le_bytes]; [done|].
  replace (zlen (b :: l)) with (Z.succ (zlen l)) by (unfold zlen; cbn; lia).
  rewrite Z.pow_succ_r by apply zlen_nonneg. lia.
Qed.

(** A [getrandom] call: bytes, or a refusal. *)
Lemma getrandom_sized buf n size (k : K) :
  0 ≤ n * size ≤ usize_max →
  ∃ r bytes k', getrandom buf n size k = Ret (r, bytes, k') ∧ keeps k k' ∧ Forall (λ b, 0 ≤ b < 256) bytes.
Proof.
  intros Hn. unfold getrandom, get_random_val.
  rewrite umul_ok, bind_ret by lia.
  set (args := [buf; n * size; 0; 0; 0; 0]).
  pose proof (linux_ret (SYS_GETRANDOM machine) args k) as Hr.
  pose proof (linux_bytes (SYS_GETRANDOM machine) args k) as Hb.
  assert (Hl : keeps k (syscall6 (SYS_GETRANDOM machine) args k).2)
    by (intros a; apply linux_live; by destruct machine).
  destruct (syscall6 _ args k) as [[ret bytes] k'] eqn:E. cbn in *. unfold kernel_ret in Hr.
  destruct (Z.le_gt_cases 0 ret).
  - rewrite syscall_result_ok, bind_ret by done. by eexists _, _, _.
  - rewrite syscall_result_err, bind_ret by lia. by eexists _, _, _.
Qed.

Lemma getrandom_spec buf n (k : K) :
  0 ≤ n ≤ usize_max →
  ∃ r bytes k', getrandom buf n 1 k = Ret (r, bytes, k') ∧ keeps k k' ∧ Forall (λ b, 0 ≤ b < 256) bytes.
Proof. intros. apply getrandom_sized. lia. Qed.

Lemma randomize_base_hint_spec g (k : K) :
  base_ok g →
  (∃ g' k', randomize_base_hint stack_buf g k = Ret (g', k') ∧ keeps k k' ∧
     BASE_INIT g' = BASE_INIT g ∧ LATEST_TRIED g' = LATEST_TRIED g ∧ RESERVE g' = RESERVE g ∧
     0 ≤ BASE_HINT g' ≤ BASE_HINT g + 2 ^ 57 + 4096) ∨
  randomize_base_hint stack_buf g k = Abort (Fatal SecurityViolation).
Proof.
  intros [Hh Ht Hr]. unfold randomize_base_hint. destruct (Z.eqb_spec (LATEST_TRIED g) 0) as [E|E].
  { left. eexists _, _. split; [done|]. split; [by intros a|]. split_and!; try done; lia. }
  destruct (getrandom_spec stack_buf 8 k) as (r & bytes & k' & -> & Hk & Hb);
    [unfold usize_max, u64_max; lia|]. rewrite bind_ret.
  destruct (is_err r); [by right|left].
  pose proof (from_le_bytes_bound (take 8 bytes) (Forall_take _ _ _ Hb)) as [Hge _].
  rewrite urem_ok, bind_ret by done.
  pose proof (Z.mod_pos_bound (from_le_bytes (take 8 bytes)) (LATEST_TRIED g) ltac:(lia)) as Hm.
  rewrite align_to_4096, bind_ret by (unfold usize_max, u64_max; lia).
  pose proof (round_up_spec (from_le_bytes (take 8 bytes) mod LATEST_TRIED g) 4096 ltac:(lia)) as [Hu _].
  eexists _, _. split; [done|]. split; [done|]. cbn. split_and!; try done.
  - apply Z.mod_pos_bound. done.
  - etrans; [apply Z.mod_le; [destruct (BASE_INIT g); lia|done]|]. lia.
Qed.

Lemma get_va_from_kernel_spec g (k : K) :
  base_ok g → reserve_post k (get_va_from_kernel stack_buf max_reservation g k).
Proof.
  intros Hg. pose proof Hg as [Hh Ht Hr]. unfold get_va_from_kernel.
  destruct (randomize_base_hint_spec g k Hg) as [(g1 & k1 & -> & Hk1 & Hi & Hl & Hres & Hb)| ->];
    [|right; right; by right].
  rewrite bind_ret, Hres, Hl.
  assert (Hgen : ∀ g2 size, BASE_HINT g2 = BASE_HINT g1 → BASE_INIT g2 = BASE_INIT g1 →
    LATEST_TRIED g2 = LATEST_TRIED g1 → 0 ≤ RESERVE g2 < 256 → 0 ≤ size ≤ 2 ^ 57 →
    reserve_post k (reserve_loop reserve_fuel g2 (if size <? MIN_RESERVE then MIN_RESERVE else size) k1)).
  { intros g2 size E1 E2 E3 Hr2 Hs. assert (MIN_RESERVE = 2 ^ 32) as Hm by done.
    set (sz := if size <? MIN_RESERVE then MIN_RESERVE else size).
    assert (2 ^ 32 ≤ sz ≤ 2 ^ 57) by (unfold sz; case_zb; lia).
    destruct (reserve_loop_spec reserve_fuel g2 sz k1) as
      [(g' & k' & -> & Hg' & Hk)|[(p & sz' & g' & k' & -> & Hg' & Hk & Hrest)|[->| ->]]];
      rewrite ?E1, ?E2, ?E3, ?Hi, ?Hl; try done; try lia.
    - destruct (BASE_INIT g); lia.
    - change (2 ^ Z.of_nat reserve_fuel) with (2 ^ 64). rewrite Hm. lia.
    - left. eexists _, _. split; [done|]. split; [done|]. by intros a Ha%Hk1%Hk.
    - right; left. eexists _, _, _, _. split; [done|]. split; [done|].
      split; [by intros a Ha%Hk1%Hk|done].
    - right; right; by left.
    - right; right; by right. }
  destruct (3 <? RESERVE g).
  - apply Hgen; try done; lia.
  - apply Hgen; try done; cbn. apply Z.mod_pos_bound. lia.
Qed.
End Reserve.

(** ** The invariant *)

(** The list of segments that starts at [p]. *)
Fixpoint chain (segs : gmap Z Segment) (p : Z) (l : list Z) : Prop :=
  match l with
  | [] => p = 0
  | q :: l => p = q ∧ q ≠ 0 ∧ ∃ s, segs !! q = Some s ∧ chain segs (seg_next s) l
  end.

Definition in_segment (s : Segment) (x : Z) : Prop := va_start s ≤ x < va_end s.

Record va_inv {K} `{LinuxKernel K} (k : K) (st : VaState) (l : list Z) : Prop := {
  vi_radix : l1 (va_radix st) = None ∨ radix_ok (va_radix st);
  vi_chain : chain (va_segs st) (va_map st) l;
  vi_nodup : NoDup l;
  vi_dom : ∀ p, is_Some (va_segs st !! p) → p ∈ l;
  vi_seg : ∀ p s, va_segs st !! p = Some s →
    seg_ok s ∧ 0 < va_start s < va_end s ∧ va_start s mod 4096 = 0;
  vi_covers : ∀ p s x, va_segs st !! p = Some s → in_segment s x →
    first_chunk x < RADIX_MAX_CHUNKS ∧ radix_at (va_radix st) (first_chunk x) = p;
  vi_known : ∀ j, 0 ≤ j < RADIX_MAX_CHUNKS → radix_at (va_radix st) j ≠ 0 →
    is_Some (va_segs st !! radix_at (va_radix st) j);
  vi_latest : va_latest st = 0 ∨ is_Some (va_segs st !! va_latest st);
  vi_live : ∀ p, is_Some (va_segs st !! p) → 0 < p ∧ k_live k p;
  vi_once : va_once_protection st = true → radix_ok (va_radix st);
  vi_base : base_ok (va_glob st)
}.

Lemma chain_dom segs p l q : chain segs p l → q ∈ l → is_Some (segs !! q).
Proof.
  revert p. induction l as [|r l IH]; intros p; cbn; [by intros _ ?%elem_of_nil|].
  intros (-> & _ & s & Hs & Hc) [->|Hq]%elem_of_cons; [by exists s|by eapply IH].
Qed.

(** Replacing a segment by one with the same link keeps the list. *)
Lemma chain_update segs p l q s s' :
  segs !! q = Some s → seg_next s' = seg_next s → chain segs p l → chain (<[q := s']> segs) p l.
Proof.
  intros Hq Hn. revert p. induction l as [|r l IH]; intros p; cbn; [done|].
  intros (-> & Hr & s1 & Hs1 & Hc). split_and!; try done.
  destruct (decide (r = q)) as [->|Hne].
  - exists s'. rewrite lookup_insert_eq. split; [done|]. simplify_eq. rewrite Hn. by apply IH.
  - exists s1. rewrite lookup_insert_ne by done. split; [done|]. by apply IH.
Qed.

Lemma chain_fresh segs p l q s :
  segs !! q = None → chain segs p l → chain (<[q := s]> segs) p l.
Proof.
  intros Hq. revert p. induction l as [|r l IH]; intros p; cbn; [done|].
  intros (-> & Hr & s1 & Hs1 & Hc). split_and!; try done. exists s1.
  rewrite lookup_insert_ne by congruence. split; [done|]. by apply IH.
Qed.

(** A segment whose bitmap, hint, flag or counter may have changed. *)
Definition same_place (s s' : Segment) : Prop :=
  seg_next s' = seg_next s ∧ va_start s' = va_start s ∧ va_end s' = va_end s.

Lemma same_place_max_bits s s' : same_place s s' → max_bits s' = max_bits s.
Proof. intros (_ & E1 & E2). unfold max_bits. by rewrite E1, E2. Qed.

(** ** Which addresses are taken *)

(** The block of address [x] is taken in some segment. *)
Definition taken (st : VaState) (x : Z) : Prop :=
  ∃ p s, va_segs st !! p = Some s ∧ va_start s ≤ x < va_start s + max_bits s * BLOCK_SIZE ∧
    bit (seg_map s) ((x - va_start s) / BLOCK_SIZE) = true.

Lemma max_bits_end s : va_start s ≤ va_end s → va_start s + max_bits s * BLOCK_SIZE ≤ va_end s.
Proof. intros. unfold max_bits, BLOCK_SIZE. zdiv. Qed.

Section Inv.
Context {K : Type} `{LinuxKernel K}.

Lemma va_inv_keeps (k k' : K) st l : keeps k k' → va_inv k st l → va_inv k' st l.
Proof.
  intros Hk Hinv. split; try apply Hinv. intros p Hp. destruct (vi_live _ _ _ Hinv p Hp). auto.
Qed.

(** What is unmapped is no segment's. *)
Lemma va_inv_unmap (k k' : K) st l ptr len :
  (∀ a, k_live k a → ¬ ptr ≤ a < ptr + len → k_live k' a) →
  (∀ p, is_Some (va_segs st !! p) → ¬ ptr ≤ p < ptr + len) → va_inv k st l → va_inv k' st l.
Proof.
  intros Hk Hp Hinv. split; try apply Hinv. intros p Hs. destruct (vi_live _ _ _ Hinv p Hs). auto.
Qed.

Lemma va_inv_put (k : K) st l p s s' :
  va_inv k st l → va_segs st !! p = Some s → same_place s s' → seg_ok s' →
  va_inv k (put_seg st p s') l.
Proof.
  intros [Hr Hc Hnd Hdom Hseg Hcov Hkn Hlat Hlive Hon Hb] Hp (Hn & Hs & He) Hok.
  assert (Hsome : ∀ q, is_Some (<[p := s']> (va_segs st) !! q) ↔ is_Some (va_segs st !! q)).
  { intros q. destruct (decide (q = p)) as [->|]; [rewrite lookup_insert_eq, Hp; by split; eauto|].
    by rewrite lookup_insert_ne. }
  split; cbn; try done.
  - by eapply chain_update.
  - intros q Hq%Hsome. by apply Hdom.
  - intros q u [(-> & <-)|[? Hu]]%lookup_insert_Some; [|by eapply Hseg].
    split; [done|]. rewrite Hs, He. by apply (Hseg _ _ Hp).
  - intros q u x [(-> & <-)|[? Hu]]%lookup_insert_Some; [|by eapply Hcov].
    intros Hx. apply (Hcov _ s); [done|]. unfold in_segment in *. lia.
  - intros j Hj Hne. apply Hsome. by apply Hkn.
  - destruct Hlat as [?|?]; [by left|right]. by apply Hsome.
  - intros q Hq%Hsome. by apply Hlive.
Qed.

(** Segments do not overlap. *)
Lemma segments_disjoint (k : K) st l p q s u x :
  va_inv k st l → va_segs st !! p = Some s → va_segs st !! q = Some u →
  in_segment s x → in_segment u x → p = q.
Proof.
  intros Hinv Hp Hq Hx Hy.
  destruct (vi_covers _ _ _ Hinv _ _ _ Hp Hx) as [_ <-].
  by destruct (vi_covers _ _ _ Hinv _ _ _ Hq Hy) as [_ <-].
Qed.

Lemma seg_at_ok st p s : va_segs st !! p = Some s → seg_at st p = Ret s.
Proof. unfold seg_at. by intros ->. Qed.

(** Without a radix tree there are no segments. *)
Lemma no_radix_no_segs (k : K) st l p s :
  va_inv k st l → va_segs st !! p = Some s → radix_ok (va_radix st).
Proof.
  intros Hinv Hp. destruct (vi_radix _ _ _ Hinv) as [Hn|]; [exfalso|done].
  destruct (vi_seg _ _ _ Hinv _ _ Hp) as (_ & Hr & _).
  destruct (vi_covers _ _ _ Hinv _ _ (va_start s) Hp) as [_ E]; [unfold in_segment; lia|].
  unfold radix_at in E. rewrite Hn in E. subst p.
  destruct (vi_live _ _ _ Hinv 0) as [? _]; [by exists s|lia].
Qed.

Lemma first_chunk_nonneg x : 0 ≤ x → 0 ≤ first_chunk x.
Proof. intros. unfold first_chunk, CHUNK_SIZE. zdiv. Qed.

Lemma is_ours_spec (k : K) st l addr :
  va_inv k st l → 0 ≤ addr →
  ∃ b, is_ours st addr = Ret b ∧
    (b = true ↔ ∃ p s, va_segs st !! p = Some s ∧ in_segment s addr).
Proof.
  intros Hinv Ha. unfold is_ours. destruct (l1 (va_radix st)) as [t|] eqn:Hl.
  - assert (Hok : radix_ok (va_radix st)) by (destruct (vi_radix _ _ _ Hinv); congruence).
    rewrite get_segment_spec, bind_ret by done. pose proof (first_chunk_nonneg _ Ha) as Hc.
    destruct (Z.ltb_spec (first_chunk addr) RADIX_MAX_CHUNKS) as [Hlt|Hge].
    + destruct (Z.eqb_spec (radix_at (va_radix st) (first_chunk addr)) 0) as [E|E].
      * exists false. split; [done|]. split; [done|]. intros (p & s & Hp & Hx).
        destruct (vi_covers _ _ _ Hinv _ _ _ Hp Hx) as [_ E']. rewrite E in E'. subst p.
        destruct (vi_live _ _ _ Hinv 0) as [? _]; [by exists s|lia].
      * destruct (vi_known _ _ _ Hinv (first_chunk addr) ltac:(lia) E) as [s Hs].
        rewrite (seg_at_ok _ _ _ Hs), bind_ret. eexists. split; [done|].
        rewrite andb_true_iff, Z.leb_le, Z.ltb_lt. split.
        -- intros Hin. by exists (radix_at (va_radix st) (first_chunk addr)), s.
        -- intros (p & u & Hp & Hx). destruct (vi_covers _ _ _ Hinv _ _ _ Hp Hx) as [_ E'].
           rewrite E' in Hs. rewrite Hs in Hp. by simplify_eq.
    + rewrite Z.eqb_refl. exists false. split; [done|]. split; [done|]. intros (p & s & Hp & Hx).
      destruct (vi_covers _ _ _ Hinv _ _ _ Hp Hx). lia.
  - exists false. split; [done|]. split; [done|]. intros (p & s & Hp & _).
    destruct (no_radix_no_segs _ _ _ _ _ Hinv Hp) as (t & E & _). congruence.
Qed.

(** The radix tree is created before the first segment. *)
Lemma va_inv_new_radix (k : K) st l r :
  va_inv k st l → l1 (va_radix st) = None → radix_ok r → (∀ j, radix_at r j = 0) →
  va_inv k (mkVa (va_map st) (va_latest st) r (va_segs st) (va_once st) true (va_glob st)) l.
Proof.
  intros Hinv Hn Hr Hz.
  assert (Hno : ∀ p s, va_segs st !! p = Some s → False).
  { intros p s Hp. destruct (no_radix_no_segs _ _ _ _ _ Hinv Hp) as (t & E & _). congruence. }
  split; cbn; try apply Hinv; eauto.
  - intros p s x Hp. by destruct (Hno p s).
  - intros j _ Hj. by rewrite Hz in Hj.
Qed.

Lemma va_inv_glob (k : K) st l g : base_ok g → va_inv k st l → va_inv k (with_glob st g) l.
Proof. intros Hg []. by split. Qed.

(** A fresh segment: all its blocks are free. *)
Lemma fresh_segment_ok next p size hint :
  0 ≤ p → 0 ≤ size → p + size ≤ 2 ^ 57 →
  0 ≤ hint ≤ (size / BLOCK_SIZE + 63) / 64 →
  let n := (size / BLOCK_SIZE + 63) / 64 in
  seg_ok (mkSegment next p (p + size) (zero_map (Z.to_nat n)) (zero_map (Z.to_nat n)) hint n false 0).
Proof.
  intros Hp Hs He Hh n. assert (0 ≤ n) by (unfold n, BLOCK_SIZE; zdiv).
  assert (Hl : zlen (zero_map (Z.to_nat n)) = n)
    by (unfold zero_map; rewrite zlen_replicate; lia).
  split; cbn; try done; try lia.
  - unfold max_bits; cbn. by replace (p + size - p) with size by lia.
  - apply words64_zero_map.
  - unfold quiescent; cbn. unfold zero_map. by rewrite length_replicate.
Qed.

(** A new segment whose chunks were unknown to the radix tree. *)
Lemma va_inv_new_segment (k : K) st l p s r :
  va_inv k st l → va_segs st !! p = None → 0 < p → k_live k p →
  seg_ok s → 0 < va_start s < va_end s → va_start s mod 4096 = 0 → seg_next s = va_map st →
  radix_ok r →
  last_chunk (va_start s) (va_end s - va_start s) < RADIX_MAX_CHUNKS →
  (∀ j, 0 ≤ j < RADIX_MAX_CHUNKS → radix_at r j =
     if decide (first_chunk (va_start s) ≤ j ≤ last_chunk (va_start s) (va_end s - va_start s))
     then p else radix_at (va_radix st) j) →
  (∀ j, first_chunk (va_start s) ≤ j ≤ last_chunk (va_start s) (va_end s - va_start s) →
     radix_at (va_radix st) j = 0) →
  va_inv k (mkVa p (va_latest st) r (<[p := s]> (va_segs st)) (va_once st)
              (va_once_protection st) (va_glob st)) (p :: l).
Proof.
  intros Hinv Hnone Hp Hlive Hok Hse Hal Hnext Hr Hlast Hat Hfree.
  pose proof (ok_range _ Hok) as Hrange.
  assert (Hin : ∀ x, in_segment s x →
    first_chunk (va_start s) ≤ first_chunk x ≤ last_chunk (va_start s) (va_end s - va_start s)).
  { intros x Hx. unfold in_segment in Hx.
    unfold first_chunk, last_chunk, saturating_add64, saturating_sub, CHUNK_SIZE, u64_max. zdiv. }
  split; cbn; auto; try apply Hinv.
  - split_and!; try done; [lia|]. exists s. rewrite lookup_insert_eq. split; [done|].
    rewrite Hnext. apply chain_fresh; [done|apply Hinv].
  - constructor; [|apply Hinv]. intros Hpl.
    destruct (chain_dom _ _ _ _ (vi_chain _ _ _ Hinv) Hpl). congruence.
  - intros q [u [(<- & _)|[_ Hu]]%lookup_insert_Some]; [left|right].
    apply (vi_dom _ _ _ Hinv). eauto.
  - intros q u [(<- & <-)|[_ Hu]]%lookup_insert_Some; [done|by apply (vi_seg _ _ _ Hinv _ _ Hu)].
  - intros q u x [(<- & <-)|[Hq Hu]]%lookup_insert_Some Hx.
    + pose proof (Hin x Hx) as Hc. pose proof (first_chunk_nonneg (va_start s) ltac:(lia)).
      split; [lia|]. rewrite Hat by lia. by rewrite decide_True.
    + destruct (vi_covers _ _ _ Hinv _ _ _ Hu Hx) as [Hlt E]. split; [done|].
      destruct (vi_live _ _ _ Hinv q) as [Hq0 _]; [by exists u|].
      destruct (vi_seg _ _ _ Hinv _ _ Hu) as (_ & Hu0 & _). unfold in_segment in Hx.
      pose proof (first_chunk_nonneg x ltac:(lia)).
      rewrite Hat by lia. rewrite decide_False; [done|]. intros Hc%Hfree. lia.
  - intros j Hj. rewrite Hat by done. case_decide.
    + intros _. rewrite lookup_insert_eq. by exists s.
    + intros Hne. destruct (vi_known _ _ _ Hinv j Hj Hne) as [u Hu]. exists u.
      rewrite lookup_insert_ne; [done|]. congruence.
  - destruct (vi_latest _ _ _ Hinv) as [?|[u Hu]]; [by left|right]. exists u.
    rewrite lookup_insert_ne; [done|]. congruence.
  - intros q [u [(<- & _)|[_ Hu]]%lookup_insert_Some]; [done|]. apply (vi_live _ _ _ Hinv). eauto.
Qed.
End Inv.

(** ** [grow] *)

Section Grow.
Context {K : Type} `{LinuxKernel K} (stack_buf max_reservation : Z).
Hypothesis max_reservation_ok : 0 ≤ max_reservation ≤ 2 ^ 57.

(** A growth adds one free segment in front of the list, or leaves the segments alone. *)
Definition grow_post (k : K) (st : VaState) (l : list Z) (out : M (option Z * VaState * K)) : Prop :=
  (∃ st' k', out = Ret (None, st', k') ∧ keeps k k' ∧ va_inv k' st' l ∧
     va_segs st' = va_segs st ∧ va_map st' = va_map st) ∨
  (∃ p s st' k', out = Ret (Some p, st', k') ∧ keeps k k' ∧ va_inv k' st' (p :: l) ∧
     va_segs st !! p = None ∧ va_segs st' = <[p := s]> (va_segs st) ∧ va_map st' = p ∧
     ∀ i, bit (seg_map s) i = false) ∨
  out = Abort (Fatal VAIinitFailed) ∨ out = Abort (Fatal SecurityViolation).

(** The part of [grow] after the reservation. *)
Lemma grow_segment_spec (k : K) st l p size :
  va_inv k st l → radix_ok (va_radix st) → 0 < p → p mod 4096 = 0 → MIN_RESERVE ≤ 2 * size →
  p + size ≤ 2 ^ 57 →
  grow_post k st l (grow_segment st p (p + size) size k).
Proof.
  intros Hinv Hr Hp Hal Hmin Hend. assert (MIN_RESERVE = 2 ^ 32) as Hm by done.
  unfold grow_segment. assert (Hskip : ∀ k', keeps k k' → grow_post k st l (Ret (None, st, k'))).
  { intros k' Hk. left. eexists _, _. split; [done|]. split; [done|]. split; [|done].
    by eapply va_inv_keeps. }
  destruct (check_collision_spec (va_radix st) p size Hr) as (b & -> & Hb);
    [unfold u64_max; lia|]. rewrite bind_ret.
  destruct b; [apply Hskip; by intros a|].
  assert (Hlast : last_chunk p size < RADIX_MAX_CHUNKS)
    by (destruct (Z.lt_ge_cases (last_chunk p size) RADIX_MAX_CHUNKS); [done|destruct Hb; naive_solver]).
  assert (Hfree : ∀ j, first_chunk p ≤ j ≤ last_chunk p size → radix_at (va_radix st) j = 0).
  { intros j Hj. destruct (decide (radix_at (va_radix st) j = 0)) as [|Hne]; [done|].
    destruct Hb as [_ Hb]. ospecialize* Hb; [|done]. right. eauto. }
  rewrite uadd_ok, bind_ret by (unfold BLOCK_SIZE, usize_max, u64_max; zdiv).
  set (n := (size / BLOCK_SIZE + 63) / 64).
  assert (Hn : 0 < n ≤ 2 ^ 45) by (unfold n, BLOCK_SIZE; zdiv).
  rewrite umul_ok, bind_ret by (unfold usize_max, u64_max; lia).
  destruct (mmap_memory_spec 0 (n * 8) rw_private k eq_refl) as (r1 & k1 & -> & Hk1 & _).
  rewrite bind_ret. destruct (is_err r1); [by apply Hskip|].
  destruct (mmap_memory_spec 0 (n * 8) rw_private k1 eq_refl) as (r2 & k2 & -> & Hk2 & _).
  rewrite bind_ret. destruct (is_err r2); [apply Hskip; intros a Ha; auto|].
  destruct (mmap_memory_spec 0 SEGMENT_SIZE rw_private k2 eq_refl) as (r3 & k3 & -> & Hk3 & H3).
  rewrite bind_ret. destruct r3 as [seg_ptr|]; [|apply Hskip; intros a Ha; auto].
  destruct (H3 seg_ptr eq_refl) as (Hq & _ & _ & Hnew & Hlive & _).
  rewrite urem_ok, bind_ret by lia.
  pose proof (Z.mod_pos_bound (hint_seed p) n ltac:(lia)) as Hh. cbn [put_seg with_segs va_radix].
  set (s := mkSegment _ _ _ _ _ _ _ _ _).
  destruct (set_range_spec (va_radix st) p size seg_ptr k3 Hr) as
    [(r & k4 & -> & Hk4 & Hr4 & Hat)| ->]; [unfold u64_max; lia|done| |right; right; by left].
  rewrite bind_ret. right; left. exists seg_ptr, s. eexists _, _. split; [done|].
  assert (Hk : keeps k k4) by (intros a Ha; auto). split; [done|].
  assert (Hnone : va_segs st !! seg_ptr = None).
  { destruct (va_segs st !! seg_ptr) as [u|] eqn:E; [|done]. destruct Hnew.
    apply Hk2, Hk1. apply (vi_live _ _ _ Hinv). by exists u. }
  assert (Hsz : va_end s - va_start s = size) by (cbn; lia).
  split; [|split_and!; try done; intros i; apply bit_zero_map].
  cbn [put_seg with_segs va_segs va_map va_latest va_once va_once_protection va_glob].
  apply va_inv_new_segment; try done.
  - by eapply va_inv_keeps.
  - by apply Hk4.
  - apply fresh_segment_ok; try done; lia.
  - cbn. lia.
  - by rewrite Hsz.
  - by rewrite Hsz.
  - by rewrite Hsz.
Qed.

Lemma ensure_radix_spec (k : K) st l :
  va_inv k st l →
  (∃ st1 k1, ensure_radix st k = Ret (st1, k1) ∧ keeps k k1 ∧ va_inv k1 st1 l ∧
     radix_ok (va_radix st1) ∧ va_segs st1 = va_segs st ∧ va_map st1 = va_map st) ∨
  ensure_radix st k = Abort (Fatal VAIinitFailed).
Proof.
  intros Hinv. unfold ensure_radix. destruct (l1 (va_radix st)) as [t|] eqn:El.
  - left. exists st, k. split_and!; try done.
    destruct (vi_radix _ _ _ Hinv); congruence.
  - destruct (va_once_protection st) eqn:Eo.
    { destruct (vi_once _ _ _ Hinv Eo) as (t & E & _). congruence. }
    destruct (Radix_new_spec k) as [(r & k1 & -> & Hk1 & Hr & Hz)| ->]; [left|by right].
    rewrite bind_ret. eexists _, _. split; [done|]. split; [done|].
    split; [|done]. by apply va_inv_new_radix; [eapply va_inv_keeps|..].
Qed.

Lemma va_grow_spec (k : K) st l :
  va_inv k st l → grow_post k st l (grow stack_buf max_reservation st k).
Proof.
  intros Hinv. unfold grow. pose proof (ensure_radix_spec k st l Hinv) as Hrad.
  destruct Hrad as [(st1 & k1 & -> & Hk1 & Hinv1 & Hr1 & Esegs & Emap)| ->]; [|right; right; by left].
  rewrite bind_ret.
  destruct (get_va_from_kernel_spec stack_buf max_reservation max_reservation_ok (va_glob st1) k1
    (vi_base _ _ _ Hinv1)) as
    [(g & k2 & -> & Hg & Hk2)|[(p & size & g & k2 & -> & Hg & Hk2 & Hp & Hal & Hmin & Hend & _)|[->| ->]]].
  - rewrite bind_ret. cbn [Z.eqb]. left. eexists _, _. split; [done|].
    split; [by intros a Ha%Hk1%Hk2|]. split; [|done].
    apply va_inv_glob; [done|]. by eapply va_inv_keeps.
  - rewrite bind_ret. rewrite (proj2 (Z.eqb_neq p 0)) by lia.
    assert (Hinv2 : va_inv k2 (with_glob st1 g) l)
      by (apply va_inv_glob; [done|]; by eapply va_inv_keeps).
    destruct (grow_segment_spec k2 (with_glob st1 g) l p size Hinv2) as
      [(st3 & k3 & Heq & Hk3 & Hinv3 & E1 & E2)|[(q & s & st3 & k3 & Heq & Hk3 & Hinv3 & Hn & E1 & E2 & Hz)|[Heq|Heq]]];
      try done; rewrite Heq.
    + left. eexists _, _. split; [done|]. split; [by intros a Ha%Hk1%Hk2%Hk3|].
      rewrite E1, E2, <- Esegs, <- Emap. by split_and!.
    + right; left. exists q, s. eexists _, _. split; [done|].
      split; [by intros a Ha%Hk1%Hk2%Hk3|]. cbn in Hn, E1. rewrite <- Esegs. by split_and!.
    + right; right; by left.
    + right; right; by right.
  - right; right; by left.
  - right; right; by right.
Qed.
End Grow.

(** ** Allocation *)

(** [st'] differs from [st] in that the free range [a .. a + len - 1], of one segment, is
    taken. *)
Record takes (st st' : VaState) (a len : Z) : Prop := {
  tk_free : ∀ x, a ≤ x < a + len → ¬ taken st x;
  tk_taken : ∀ x, taken st' x ↔ taken st x ∨ a ≤ x < a + len;
  tk_owner : ∃ p s, va_segs st' !! p = Some s ∧ va_start s ≤ a ∧ a + len ≤ va_end s;
  tk_aligned : a mod BLOCK_SIZE = 0
}.

Definition same_taken (st st' : VaState) : Prop := ∀ x, taken st' x ↔ taken st x.

#[export] Instance same_taken_equiv : Equivalence same_taken.
Proof. split; [by intros st x|by intros s t Hst x; symmetry; apply Hst|].
  intros s t u H1 H2 x. etrans; [apply H2|apply H1]. Qed.
#[export] Instance taken_proper : Proper (same_taken ==> eq ==> iff) taken.
Proof. intros st st' Hs x y ->. symmetry. apply Hs. Qed.

Lemma takes_same_l st1 st2 st3 a len : same_taken st1 st2 → takes st2 st3 a len → takes st1 st3 a len.
Proof.
  intros Hs [Hf Ht Ho Ha]. split; try done.
  - intros x Hx. rewrite <- (Hs x). by apply Hf.
  - intros x. by rewrite Ht, (Hs x).
Qed.

Lemma with_latest_same st p : same_taken st (with_latest st p).
Proof. done. Qed.

(** Segments stay where they are; new ones may appear. *)
Definition evolves (st st' : VaState) : Prop :=
  ∀ p s, va_segs st !! p = Some s →
    ∃ s', va_segs st' !! p = Some s' ∧ va_start s' = va_start s ∧ va_end s' = va_end s.

#[export] Instance evolves_preorder : PreOrder evolves.
Proof.
  split; [by intros st p s Hp; exists s|]. intros st1 st2 st3 H1 H2 p s Hp.
  destruct (H1 p s Hp) as (s2 & Hp2 & E1 & E2). destruct (H2 p s2 Hp2) as (s3 & Hp3 & E3 & E4).
  exists s3. split; [done|]. split; congruence.
Qed.

Lemma evolves_put st p s s' :
  va_segs st !! p = Some s → same_place s s' → evolves st (put_seg st p s').
Proof.
  intros Hp (_ & Hs & He) q u Hu. cbn. destruct (decide (q = p)) as [->|].
  - exists s'. rewrite lookup_insert_eq. simplify_eq. done.
  - exists u. by rewrite lookup_insert_ne.
Qed.

Lemma evolves_segs st st' : va_segs st' = va_segs st → evolves st st'.
Proof. intros E p s Hp. exists s. by rewrite E. Qed.

Lemma evolves_fresh st st' p s :
  va_segs st !! p = None → va_segs st' = <[p := s]> (va_segs st) → evolves st st'.
Proof. intros Hn E q u Hu. exists u. rewrite E, lookup_insert_ne by congruence. done. Qed.

(** Changing one segment changes what is taken inside it only. *)
Lemma taken_put st p s s' x :
  va_segs st !! p = Some s → same_place s s' →
  taken (put_seg st p s') x ↔
    (va_start s ≤ x < va_start s + max_bits s * BLOCK_SIZE ∧
     bit (seg_map s') ((x - va_start s) / BLOCK_SIZE) = true) ∨
    ∃ q u, q ≠ p ∧ va_segs st !! q = Some u ∧
      va_start u ≤ x < va_start u + max_bits u * BLOCK_SIZE ∧
      bit (seg_map u) ((x - va_start u) / BLOCK_SIZE) = true.
Proof.
  intros Hp Hsp. pose proof (same_place_max_bits _ _ Hsp) as Hm. destruct Hsp as (_ & Hs & _).
  unfold taken; cbn. split.
  - intros (q & u & [(<- & <-)|[Hq Hu]]%lookup_insert_Some & Hx & Hb).
    + left. rewrite Hs, Hm in *. done.
    + right. exists q, u. split_and!; try done; lia.
  - intros [[Hx Hb]|(q & u & Hq & Hu & Hx & Hb)].
    + exists p, s'. rewrite lookup_insert_eq, Hs, Hm. done.
    + exists q, u. rewrite lookup_insert_ne by done. done.
Qed.

Lemma put_seg_id st p s : va_segs st !! p = Some s → put_seg st p s = st.
Proof.
  intros Hp. unfold put_seg, with_segs. rewrite insert_id by done. by destruct st.
Qed.

Lemma put_seg_same_taken st p s s' :
  va_segs st !! p = Some s → same_place s s' → seg_map s' = seg_map s →
  same_taken st (put_seg st p s').
Proof.
  intros Hp Hsp Hm x. rewrite (taken_put _ _ _ _ _ Hp Hsp), Hm.
  by rewrite <- (taken_put _ _ _ _ _ Hp (conj eq_refl (conj eq_refl eq_refl))), put_seg_id.
Qed.

Section Alloc.
Context {K : Type} `{LinuxKernel K}.

Lemma block_of_in_run s x pos count :
  va_start s + pos * BLOCK_SIZE ≤ x < va_start s + pos * BLOCK_SIZE + count * BLOCK_SIZE ↔
  in_run pos count ((x - va_start s) / BLOCK_SIZE) = true.
Proof. rewrite in_run_true. unfold BLOCK_SIZE. split; intros; zdiv. Qed.

Lemma put_seg_takes (k : K) st l p s s' pos count :
  va_inv k st l → va_segs st !! p = Some s → same_place s s' →
  0 ≤ pos → pos + count ≤ max_bits s → run_free (seg_map s) pos count →
  run_set (seg_map s) (seg_map s') pos count →
  takes st (put_seg st p s') (va_start s + pos * BLOCK_SIZE) (count * BLOCK_SIZE).
Proof.
  intros Hinv Hp Hsp Hpos Hle Hfree Hset.
  destruct (vi_seg _ _ _ Hinv _ _ Hp) as (Hok & Hse & Hal).
  pose proof (max_bits_end s ltac:(lia)) as Hend.
  split.
  - intros x Hx (q & u & Hu & Hxu & Hb).
    assert (q = p) as ->.
    { eapply (segments_disjoint k st l q p u s x); try done; unfold in_segment.
      - pose proof (max_bits_end u). destruct (vi_seg _ _ _ Hinv _ _ Hu) as (_ & ? & _). lia.
      - unfold BLOCK_SIZE in *. lia. }
    simplify_eq. rewrite Hfree in Hb; [done|]. apply in_run_true, block_of_in_run. lia.
  - intros x. rewrite (taken_put _ _ _ _ _ Hp Hsp). rewrite block_of_in_run. split.
    + intros [[Hx Hb]|(q & u & Hq & Hu & Hx & Hb)].
      * rewrite Hset in Hb by (unfold BLOCK_SIZE in *; zdiv). apply orb_true_iff in Hb as [Hb|Hb].
        -- by right.
        -- left. by exists p, s.
      * left. by exists q, u.
    + intros [(q & u & Hu & Hx & Hb)|Hr].
      * destruct (decide (q = p)) as [->|Hq]; [|right; by exists q, u].
        simplify_eq. left. split; [done|]. rewrite Hset by (unfold BLOCK_SIZE in *; zdiv).
        by rewrite Hb, orb_true_r.
      * left. apply block_of_in_run in Hr as Hx. split; [unfold BLOCK_SIZE in *; lia|].
        rewrite Hset by (apply in_run_true in Hr; lia). by rewrite Hr.
  - exists p, s'. cbn. rewrite lookup_insert_eq. destruct Hsp as (_ & -> & ->).
    split; [done|]. unfold BLOCK_SIZE in *. lia.
  - unfold BLOCK_SIZE. rewrite Z.add_mod, Z.mod_mul by lia. by rewrite Hal.
Qed.

(** What one allocation does to the whole map. *)
Definition alloc_result (st st' : VaState) (len : Z) (res : option Z) : Prop :=
  evolves st st' ∧
  match res with
  | Some a => takes st st' a len
  | None => same_taken st st'
  end.

(** Quiet steps before an allocation do not matter. *)
Lemma alloc_result_after st1 st2 st3 len res :
  evolves st1 st2 → same_taken st1 st2 → alloc_result st2 st3 len res → alloc_result st1 st3 len res.
Proof.
  intros He Hs [He' Hr]. split; [by etrans|].
  destruct res; [by eapply takes_same_l|by rewrite Hs].
Qed.

Lemma seg_alloc_spec (k : K) st l p s needed ar :
  va_inv k st l → va_segs st !! p = Some s → ar_ok ar → 1 ≤ needed →
  ∃ res st' ar', seg_alloc st p needed ar = Ret (res, st', ar') ∧ ar_ok ar' ∧ va_inv k st' l ∧
    alloc_result st st' (needed * BLOCK_SIZE) res ∧ (res = None → st' = st) ∧
    is_Some (va_segs st' !! p).
Proof.
  intros Hinv Hp Har Hn. unfold seg_alloc. rewrite (seg_at_ok _ _ _ Hp), bind_ret.
  destruct (vi_seg _ _ _ Hinv _ _ Hp) as (Hok & _ & _).
  assert (Hcall : ∃ res s' ar', (if needed =? 1 then alloc_single s ar else alloc_multi s needed ar)
      = Ret (res, s', ar') ∧ ar_ok ar' ∧ alloc_post s needed res s').
  { destruct (Z.eqb_spec needed 1) as [->|].
    - destruct (alloc_single_post s ar Hok Har) as (res & s' & ar' & -> & Har' & Hpost & _). eauto 10.
    - destruct (alloc_multi_post s needed ar Hok Har Hn) as (res & s' & ar' & -> & Har' & Hpost & _).
      eauto 10. }
  destruct Hcall as (res & s' & ar' & -> & Har' & Hpost). rewrite bind_ret.
  eexists res, _, ar'. split; [done|]. split; [done|]. destruct res as [a|]; cbn in Hpost.
  - destruct Hpost as (pos & m' & h & -> & Hpos & Hle & Hfree & Hset & -> & Hok').
    split; [by eapply va_inv_put|].
    split; [split; [by eapply evolves_put|by eapply (put_seg_takes k)]|].
    split; [done|]. cbn. rewrite lookup_insert_eq. eauto.
  - subst s'. rewrite (put_seg_id _ _ _ Hp). by split_and!.
Qed.

Lemma va_inv_latest (k : K) st l p :
  is_Some (va_segs st !! p) → va_inv k st l → va_inv k (with_latest st p) l.
Proof. intros Hp []. split; try done. by right. Qed.

Lemma seg_ok_with_trys_full s t b : seg_ok s → 0 ≤ t < 256 → seg_ok (with_full (with_trys s t) b).
Proof. intros [] Ht. by split. Qed.

Lemma walk_alloc_spec (k : K) l2 fuel st l curr needed ar :
  va_inv k st l → chain (va_segs st) curr l2 → (length l2 < fuel)%nat → ar_ok ar → 1 ≤ needed →
  ∃ res st' ar', walk_alloc fuel st curr needed ar = Ret (res, st', ar') ∧ ar_ok ar' ∧
    va_inv k st' l ∧ alloc_result st st' (needed * BLOCK_SIZE) res.
Proof.
  revert fuel st curr ar. induction l2 as [|q l2 IH]; intros fuel st curr ar Hinv Hc Hf Har Hn.
  - cbn in Hc. subst curr. destruct fuel; cbn; (eexists _, _, _; split; [done|];
      by split_and!).
  - destruct Hc as (-> & Hq & s & Hs & Hc). destruct fuel as [|fuel]; [cbn in Hf; lia|].
    cbn [walk_alloc]. rewrite (proj2 (Z.eqb_neq q 0)) by done.
    rewrite (seg_at_ok _ _ _ Hs), bind_ret. cbn in Hf. destruct (seg_full s) eqn:Ef.
    { apply IH; try done. lia. }
    destruct (seg_alloc_spec k st l q s needed ar Hinv Hs Har Hn)
      as (res & st1 & ar1 & -> & Har1 & Hinv1 & Hres & Hsame & Hsome). rewrite bind_ret.
    destruct res as [a|].
    + eexists _, _, _. split; [done|]. split; [done|].
      split; [by apply va_inv_latest|]. destruct Hres as [? []]. by split.
    + rewrite (Hsame eq_refl) in *. rewrite (seg_at_ok _ _ _ Hs), bind_ret.
      destruct (vi_seg _ _ _ Hinv _ _ Hs) as (Hok & _ & _).
      pose proof (Z.mod_pos_bound (failed_trys s + 1) 256 ltac:(lia)) as Htr. fold (wrap8 (failed_trys s + 1)) in Htr.
      set (s' := if 2 <? failed_trys s then _ else _).
      assert (Hsp : same_place s s') by (unfold s'; by case_zb).
      assert (Hm : seg_map s' = seg_map s) by (unfold s'; by case_zb).
      assert (Hok' : seg_ok s').
      { unfold s'. case_zb; [by apply seg_ok_with_trys_full|]. destruct Hok. by split. }
      replace (seg_next s') with (seg_next s) by (by destruct Hsp as [-> _]).
      destruct (IH fuel (put_seg st q s') (seg_next s) ar1) as (res & st2 & ar2 & Heq & Har2 & Hinv2 & Hres2);
        try done; try lia.
      { by eapply va_inv_put. }
      { cbn. eapply chain_update; try done. by destruct Hsp. }
      exists res, st2, ar2. split; [exact Heq|]. split; [done|]. split; [done|].
      eapply alloc_result_after; [|by eapply put_seg_same_taken|done]. by eapply evolves_put.
Qed.

Lemma chain_length (k : K) st l : va_inv k st l → (length l ≤ size (va_segs st))%nat.
Proof.
  intros Hinv. rewrite <- (size_list_to_set (C := gset Z) l) by apply Hinv.
  rewrite <- size_dom. apply subseteq_size. intros p Hp%elem_of_list_to_set.
  apply elem_of_dom. eapply chain_dom; [apply Hinv|done].
Qed.

Lemma fresh_same_taken st st' p s :
  va_segs st !! p = None → va_segs st' = <[p := s]> (va_segs st) →
  (∀ i, bit (seg_map s) i = false) → same_taken st st'.
Proof.
  intros Hn Hs Hz x. unfold taken. rewrite Hs. split.
  - intros (q & u & [(<- & <-)|[Hq Hu]]%lookup_insert_Some & Hx & Hb).
    + by rewrite Hz in Hb.
    + by exists q, u.
  - intros (q & u & Hu & Hx). exists q, u. rewrite lookup_insert_ne by congruence. done.
Qed.

Lemma same_segs_same_taken st st' : va_segs st' = va_segs st → same_taken st st'.
Proof. intros E x. unfold taken. by rewrite E. Qed.
End Alloc.

Section TopAlloc.
Context {K : Type} `{LinuxKernel K} (stack_buf max_reservation : Z).
Hypothesis max_reservation_ok : 0 ≤ max_reservation ≤ 2 ^ 57.

(** How a call that may have to grow ends. *)
Definition grown (k : K) (st : VaState) {A} (Q : A → VaState → K → Prop) (out : M (A * VaState * K)) : Prop :=
  (∃ a st' k', out = Ret (a, st', k') ∧ keeps k k' ∧ Q a st' k') ∨
  out = Abort (Fatal VAIinitFailed) ∨ out = Abort (Fatal SecurityViolation).

Definition grew (st : VaState) (seg : option Z) (st' : VaState) (k' : K) : Prop :=
  ∃ l', va_inv k' st' l' ∧ evolves st st' ∧ same_taken st st' ∧ ∀ p, seg = Some p → is_Some (va_segs st' !! p) ∧ p ≠ 0.

Lemma grow_grown (k : K) st l :
  va_inv k st l → grown k st (grew st) (grow stack_buf max_reservation st k).
Proof.
  intros Hinv. destruct (va_grow_spec stack_buf max_reservation max_reservation_ok k st l Hinv) as
    [(st' & k' & -> & Hk & Hinv' & E & _)|[(p & s & st' & k' & -> & Hk & Hinv' & Hn & E & _ & Hz)|[->| ->]]].
  - left. eexists _, _, _. split; [done|]. split; [done|]. exists l. split; [done|].
    split; [by apply evolves_segs|]. split; [by apply same_segs_same_taken|done].
  - left. eexists _, _, _. split; [done|]. split; [done|]. exists (p :: l). split; [done|].
    split; [by eapply evolves_fresh|]. split; [by eapply fresh_same_taken|]. intros q [= <-].
    assert (Hs : is_Some (va_segs st' !! p)) by (rewrite E, lookup_insert_eq; eauto).
    split; [done|]. destruct (vi_live _ _ _ Hinv' p Hs). lia.
  - right; by left.
  - right; by right.
Qed.

Lemma grow_tries_spec n (k : K) st l :
  va_inv k st l → grown k st (grew st) (grow_tries stack_buf max_reservation n st k).
Proof.
  revert k st l. induction n as [|n IH]; intros k st l Hinv; cbn [grow_tries].
  { left. eexists _, _, _. split; [done|]. split; [by intros a|]. exists l. by split_and!. }
  destruct (grow_grown k st l Hinv) as [(seg & st1 & k1 & -> & Hk1 & l1 & Hinv1 & He1 & Hst1 & Hseg)|[->| ->]];
    [|right; by left|right; by right].
  rewrite bind_ret. destruct seg as [p|].
  - left. eexists _, _, _. split; [done|]. split; [done|]. exists l1. split_and!; try done.
  - destruct (IH k1 st1 l1 Hinv1) as [(seg & st2 & k2 & -> & Hk2 & l2 & Hinv2 & He2 & Hst2 & Hseg2)|[->| ->]];
      [left|right; by left|right; by right].
    eexists _, _, _. split; [done|]. split; [by intros a Ha%Hk1%Hk2|]. exists l2.
    split; [done|]. split; [by etrans|]. split; [by rewrite Hst1|done].
Qed.

(** The head of the list, after the first growth if there has been none. *)
Definition first_segment (st : VaState) (k : K) : M (Z * VaState * K) :=
  if va_map st =? 0 then
    '(curr, st, k) ←
      (if va_once st then Ret (0, st, k)
       else
         '(seg, st, k) ← grow stack_buf max_reservation st k;
         match seg with
         | Some new => Ret (new, with_once st true, k)
         | None => log_and_abort VAIinitFailed
         end);
    Ret (if curr =? 0 then va_map st else curr, st, k)
  else Ret (va_map st, st, k).

Lemma first_segment_spec (k : K) st l :
  va_inv k st l →
  grown k st (λ curr st' k', ∃ l', va_inv k' st' l' ∧ evolves st st' ∧ same_taken st st' ∧ chain (va_segs st') curr l')
    (first_segment st k).
Proof.
  intros Hinv. unfold first_segment. destruct (Z.eqb_spec (va_map st) 0) as [E|E].
  - destruct (va_once st).
    + rewrite bind_ret. cbn [Z.eqb]. left. eexists _, _, _. split; [done|]. split; [by intros a|].
      exists l. split_and!; try done. apply Hinv.
    + destruct (va_grow_spec stack_buf max_reservation max_reservation_ok k st l Hinv) as
        [(st' & k' & -> & _)|[(p & s & st' & k' & -> & Hk & Hinv' & Hn & Es & Em & Hz)|[->| ->]]].
      * right; by left.
      * rewrite !bind_ret. left. eexists _, _, _. split; [done|]. split; [done|].
        exists (p :: l). split; [by destruct Hinv'|]. split; [by eapply evolves_fresh|].
        split; [by eapply fresh_same_taken|].
        pose proof (vi_chain _ _ _ Hinv') as Hc. rewrite Em in Hc. cbn [with_once va_segs].
        destruct (Z.eqb_spec p 0); [|done]. subst p. by destruct Hc as (_ & ? & _).
      * right; by left.
      * right; by right.
  - left. eexists _, _, _. split; [done|]. split; [by intros a|]. exists l. split_and!; try done. apply Hinv.
Qed.

Definition blocks_bytes (size : Z) : Z := (size + BLOCK_SIZE - 1) / BLOCK_SIZE * BLOCK_SIZE.

Lemma va_alloc_spec (k : K) st l size ar :
  va_inv k st l → ar_ok ar → 1 ≤ size → size + BLOCK_SIZE ≤ usize_max →
  (∃ res st' ar' k' l', alloc stack_buf max_reservation st size ar k = Ret (res, st', ar', k') ∧
     ar_ok ar' ∧ keeps k k' ∧ va_inv k' st' l' ∧ alloc_result st st' (blocks_bytes size) res) ∨
  alloc stack_buf max_reservation st size ar k = Abort (Fatal VAIinitFailed) ∨
  alloc stack_buf max_reservation st size ar k = Abort (Fatal SecurityViolation).
Proof.
  intros Hinv Har Hs Hov. unfold alloc. rewrite (proj2 (Z.eqb_neq size 0)) by lia.
  rewrite uadd_ok, bind_ret by done. fold (first_segment st k).
  set (needed := (size + BLOCK_SIZE - 1) / BLOCK_SIZE).
  assert (Hn : 1 ≤ needed) by (unfold needed, BLOCK_SIZE; zdiv).
  change (blocks_bytes size) with (needed * BLOCK_SIZE).
  assert (Hfirst : ∃ res st1 ar1,
    (if negb (va_latest st =? 0) then seg_alloc st (va_latest st) needed ar
     else Ret (None, st, ar)) = Ret (res, st1, ar1) ∧ ar_ok ar1 ∧ va_inv k st1 l ∧
    alloc_result st st1 (needed * BLOCK_SIZE) res ∧ (res = None → st1 = st)).
  { destruct (Z.eqb_spec (va_latest st) 0) as [E|E]; cbn [negb].
    - exists None, st, ar. by split_and!.
    - destruct (vi_latest _ _ _ Hinv) as [?|[s Hl]]; [done|].
      destruct (seg_alloc_spec k st l _ s needed ar Hinv Hl Har Hn)
        as (res & st1 & ar1 & -> & ? & ? & ? & ? & _). eauto 10. }
  destruct Hfirst as (res & st1 & ar1 & -> & Har1 & Hinv1 & Hres & Hsame). rewrite bind_ret.
  destruct res as [a|].
  { left. eexists _, _, _, _, l. split; [done|]. by split_and!. }
  rewrite (Hsame eq_refl) in *. fold (first_segment st k).
  destruct (first_segment_spec k st l Hinv) as
    [(curr & st2 & k2 & -> & Hk2 & l2 & Hinv2 & He2 & Hst2 & Hc2)|[->| ->]]; [|right; by left|right; by right].
  rewrite bind_ret.
  destruct (walk_alloc_spec k2 l2 (list_fuel st2) st2 l2 curr needed ar1) as
    (res & st3 & ar3 & -> & Har3 & Hinv3 & Hres3); try done.
  { pose proof (chain_length k2 st2 l2 Hinv2). unfold list_fuel. lia. }
  rewrite bind_ret. destruct res as [a|].
  { left. eexists _, _, _, _, l2. split; [done|]. split_and!; try done. by eapply alloc_result_after. }
  destruct (grow_tries_spec 10 k2 st3 l2 Hinv3) as
    [(new & st4 & k4 & -> & Hk4 & l4 & Hinv4 & He4 & Hst4 & Hnew)|[->| ->]]; [|right; by left|right; by right].
  rewrite bind_ret. left. destruct Hres3 as [He3 Hst3].
  assert (Hst : same_taken st st4) by (by rewrite Hst2, Hst3).
  assert (He : evolves st st4) by (by do 2 (etrans; [done|])).
  assert (Hk : keeps k k4) by (by intros a Ha%Hk2%Hk4).
  destruct new as [p|].
  - destruct (Hnew p eq_refl) as [[s Hp] _].
    destruct (seg_alloc_spec k4 (with_latest st4 p) l4 p s needed ar3) as
      (res & st5 & ar5 & -> & Har5 & Hinv5 & Hres5 & _); try done.
    { apply va_inv_latest; [by exists s|done]. }
    rewrite bind_ret. eexists _, _, _, _, l4. split; [done|]. split_and!; try done.
    by eapply (alloc_result_after st (with_latest st4 p)).
  - eexists _, _, _, _, l4. split; [done|]. by split_and!.
Qed.
End TopAlloc.

(** ** Freeing and resizing in place *)

Section Free.
Context {K : Type} `{LinuxKernel K}.

Lemma walk_find_spec (k : K) st l l2 fuel curr addr :
  va_inv k st l → chain (va_segs st) curr l2 → (length l2 < fuel)%nat →
  ∃ p, walk_find fuel st curr addr = Ret p ∧
    (p ≠ 0 → ∃ s, va_segs st !! p = Some s ∧ in_segment s addr).
Proof.
  intros Hinv. revert fuel curr. induction l2 as [|q l2 IH]; intros fuel curr Hc Hf.
  - cbn in Hc. subst curr. destruct fuel; cbn; exists 0; done.
  - destruct Hc as (-> & Hq & s & Hs & Hc). destruct fuel as [|fuel]; [cbn in Hf; lia|].
    cbn [walk_find]. rewrite (proj2 (Z.eqb_neq q 0)) by done. cbn in Hf.
    rewrite (seg_at_ok _ _ _ Hs), bind_ret. destruct ((va_start s <=? addr) && _) eqn:E.
    + exists q. split; [done|]. intros _. exists s. split; [done|].
      apply andb_true_iff in E as [?%Z.leb_le ?%Z.ltb_lt]. done.
    + apply IH; [done|lia].
Qed.

Lemma find_segment_spec (k : K) st l addr :
  va_inv k st l → radix_ok (va_radix st) → 0 ≤ addr →
  ∃ p, find_segment st addr = Ret p ∧
    if decide (p = 0) then ∀ q s, va_segs st !! q = Some s → ¬ in_segment s addr
    else ∃ s, va_segs st !! p = Some s ∧ in_segment s addr.
Proof.
  intros Hinv Hr Ha. unfold find_segment. rewrite get_segment_spec, bind_ret by done.
  pose proof (first_chunk_nonneg _ Ha) as Hc0.
  set (c := if first_chunk addr <? RADIX_MAX_CHUNKS then _ else _).
  assert (Hown : ∀ q s, va_segs st !! q = Some s → in_segment s addr → c = q).
  { intros q s Hq Hx. destruct (vi_covers _ _ _ Hinv _ _ _ Hq Hx) as [Hlt <-].
    unfold c. by rewrite (proj2 (Z.ltb_lt _ _)). }
  assert (Hno : (∀ q s, va_segs st !! q = Some s → ¬ in_segment s addr) →
    ∃ p, walk_find (list_fuel st) st (va_map st) addr = Ret p ∧
      if decide (p = 0) then ∀ q s, va_segs st !! q = Some s → ¬ in_segment s addr
      else ∃ s, va_segs st !! p = Some s ∧ in_segment s addr).
  { intros Hn. destruct (walk_find_spec k st l l (list_fuel st) (va_map st) addr Hinv) as (p & -> & Hp).
    - apply Hinv.
    - pose proof (chain_length k st l Hinv). unfold list_fuel. lia.
    - exists p. split; [done|]. destruct (decide (p = 0)); auto. }
  destruct (Z.eqb_spec c 0) as [E|E].
  - rewrite bind_ret. apply Hno. intros q s Hq Hx. rewrite (Hown q s Hq Hx) in E. subst q.
    destruct (vi_live _ _ _ Hinv 0) as [? _]; [by exists s|lia].
  - assert (Hs : is_Some (va_segs st !! c)).
    { unfold c in *. destruct (Z.ltb_spec (first_chunk addr) RADIX_MAX_CHUNKS); [|done].
      by apply (vi_known _ _ _ Hinv); [lia|]. }
    destruct Hs as [s Hs]. rewrite (seg_at_ok _ _ _ Hs), !bind_ret.
    destruct ((va_start s <=? addr) && _) eqn:Ein.
    + exists c. split; [done|]. rewrite decide_False by done. exists s. split; [done|].
      apply andb_true_iff in Ein as [?%Z.leb_le ?%Z.ltb_lt]. done.
    + apply Hno. intros q u Hq Hx. rewrite <- (Hown q u Hq Hx) in Hq. simplify_eq.
      apply andb_false_iff in Ein. unfold in_segment in Hx.
      destruct Ein as [?%Z.leb_gt|?%Z.ltb_ge]; lia.
Qed.

(** A whole number of blocks inside a segment. *)
Definition inside (s : Segment) (addr len : Z) : Prop :=
  va_start s ≤ addr ∧ addr + len ≤ va_end s ∧ addr mod BLOCK_SIZE = 0.

Lemma inside_bits (k : K) st l p s addr n :
  va_inv k st l → va_segs st !! p = Some s → inside s addr (n * BLOCK_SIZE) → 1 ≤ n →
  let b := (addr - va_start s) / BLOCK_SIZE in
  addr = va_start s + b * BLOCK_SIZE ∧ 0 ≤ b ∧ b + n ≤ max_bits s.
Proof.
  intros Hinv Hp (H1 & H2 & H3) Hn b. destruct (vi_seg _ _ _ Hinv _ _ Hp) as (_ & _ & Hal).
  unfold b, max_bits, BLOCK_SIZE in *. zdiv.
Qed.

(** Clearing a run of blocks of a segment. *)
Lemma put_seg_clears (k : K) st l p s s' pos count x :
  va_inv k st l → va_segs st !! p = Some s → same_place s s' →
  0 ≤ pos → pos + count ≤ max_bits s → run_clear (seg_map s) (seg_map s') pos count →
  taken (put_seg st p s') x ↔
    taken st x ∧ ¬ va_start s + pos * BLOCK_SIZE ≤ x < va_start s + pos * BLOCK_SIZE + count * BLOCK_SIZE.
Proof.
  intros Hinv Hp Hsp Hpos Hle Hclear.
  destruct (vi_seg _ _ _ Hinv _ _ Hp) as (Hok & Hse & Hal).
  pose proof (max_bits_end s ltac:(lia)) as Hend.
  rewrite (taken_put _ _ _ _ _ Hp Hsp), block_of_in_run. split.
  - intros [[Hx Hb]|(q & u & Hq & Hu & Hx & Hb)].
    + rewrite Hclear in Hb by (unfold BLOCK_SIZE in *; zdiv).
      apply andb_true_iff in Hb as [Hn Hb]. split; [by exists p, s|]. by destruct (in_run _ _ _).
    + split; [by exists q, u|]. rewrite <- block_of_in_run. intros Hr. apply Hq.
      destruct (vi_seg _ _ _ Hinv _ _ Hu) as (_ & Hu' & _). pose proof (max_bits_end u ltac:(lia)).
      eapply (segments_disjoint k st l q p u s x); try done; unfold in_segment, BLOCK_SIZE in *; lia.
  - intros [(q & u & Hu & Hx & Hb) Hn]. destruct (decide (q = p)) as [->|Hq]; [|right; by exists q, u].
    simplify_eq. left. split; [done|]. rewrite Hclear by (unfold BLOCK_SIZE in *; zdiv).
    rewrite Hb. by destruct (in_run _ _ _).
Qed.

(** The segment of an address that is in one. *)
Lemma find_own_segment (k : K) st l p s addr :
  va_inv k st l → va_segs st !! p = Some s → in_segment s addr → 0 ≤ addr →
  find_segment st addr = Ret p ∧ p ≠ 0 ∧ seg_at st p = Ret s.
Proof.
  intros Hinv Hp Hx Ha.
  destruct (find_segment_spec k st l addr Hinv (no_radix_no_segs k st l p s Hinv Hp) Ha) as (q & Hfind & Hq).
  destruct (decide (q = 0)) as [->|Hq0]; [by destruct (Hq p s Hp)|].
  destruct Hq as (u & Hu & Hxu). assert (q = p) as -> by (by eapply (segments_disjoint k st l)).
  split; [done|]. split; [done|]. by apply seg_at_ok.
Qed.

Lemma va_free_spec (k : K) st l p s addr size :
  va_inv k st l → va_segs st !! p = Some s → 1 ≤ size → inside s addr (blocks_bytes size) →
  ∃ st', free st addr size = Ret st' ∧ va_inv k st' l ∧ evolves st st' ∧
    ∀ x, taken st' x ↔ taken st x ∧ ¬ addr ≤ x < addr + blocks_bytes size.
Proof.
  intros Hinv Hp Hs Hin. set (n := (size + BLOCK_SIZE - 1) / BLOCK_SIZE).
  assert (Hn : 1 ≤ n) by (unfold n, BLOCK_SIZE; zdiv).
  destruct (inside_bits k st l p s addr n Hinv Hp Hin Hn) as (Haddr & Hb0 & Hbn).
  destruct (vi_seg _ _ _ Hinv _ _ Hp) as (Hok & Hse & Hal). pose proof (ok_range _ Hok) as Hrange.
  pose proof (max_bits_end s ltac:(lia)) as Hend.
  assert (Hlen : blocks_bytes size = n * BLOCK_SIZE) by done.
  assert (Hsz : size ≤ n * BLOCK_SIZE) by (unfold n, BLOCK_SIZE; zdiv).
  destruct Hin as (Hlo & Hhi & _).
  assert (Hx : in_segment s addr) by (unfold in_segment, BLOCK_SIZE in *; lia).
  unfold free. rewrite (proj2 (Z.eqb_neq addr 0)), (proj2 (Z.eqb_neq size 0)) by lia. cbn [orb].
  destruct (find_own_segment k st l p s addr Hinv Hp Hx ltac:(lia)) as (-> & Hp0 & Hseg).
  rewrite bind_ret, (proj2 (Z.eqb_neq p 0)), Hseg, bind_ret by done.
  destruct (free_in_range s addr size Hok) as
    (m' & h & full & trys & -> & Hclear & Hw & Hl & Hh & Ht & _); try lia.
  { unfold BLOCK_SIZE in *. lia. }
  { unfold BLOCK_SIZE, usize_max, u64_max in *. lia. }
  rewrite bind_ret. eexists. split; [done|].
  set (s' := with_trys _ _). assert (Hsp : same_place s s') by done.
  split; [eapply va_inv_put; try done; by apply seg_ok_after_free|].
  split; [by eapply evolves_put|]. intros x.
  assert (Hc : free_count s addr size = n) by (unfold free_count, free_start; fold n; lia).
  unfold run_clear in Hclear. rewrite Hc in Hclear. unfold free_start in Hclear.
  rewrite (put_seg_clears k st l p s s' _ n x Hinv Hp Hsp Hb0 Hbn Hclear). rewrite Hlen, <- Haddr. done.
Qed.

(** What resizing a range in place does to the whole map. *)
Definition resized (st st' : VaState) (addr old new : Z) (res : option Z) : Prop :=
  match res with
  | None => same_taken st st' ∧ blocks_bytes old < blocks_bytes new
  | Some sz =>
      sz = blocks_bytes new ∧
      (∃ p s, va_segs st' !! p = Some s ∧ inside s addr (blocks_bytes new)) ∧
      (∀ x, addr + blocks_bytes old ≤ x < addr + blocks_bytes new → ¬ taken st x) ∧
      ∀ x, taken st' x ↔
        (taken st x ∧ ¬ addr + blocks_bytes new ≤ x < addr + blocks_bytes old) ∨
        addr + blocks_bytes old ≤ x < addr + blocks_bytes new
  end.

Lemma va_realloc_inplace_spec (k : K) st l p s addr old new :
  va_inv k st l → va_segs st !! p = Some s → 1 ≤ old → 1 ≤ new → new + BLOCK_SIZE ≤ usize_max →
  inside s addr (blocks_bytes old) →
  ∃ res st', realloc_inplace st addr old new = Ret (res, st') ∧ va_inv k st' l ∧ evolves st st' ∧
    resized st st' addr old new res.
Proof.
  intros Hinv Hp Ho Hn Hov Hin.
  set (ob := (old + BLOCK_SIZE - 1) / BLOCK_SIZE). set (nb := (new + BLOCK_SIZE - 1) / BLOCK_SIZE).
  assert (Hob : 1 ≤ ob) by (unfold ob, BLOCK_SIZE; zdiv).
  assert (Hnb : 1 ≤ nb) by (unfold nb, BLOCK_SIZE; zdiv).
  destruct (inside_bits k st l p s addr ob Hinv Hp Hin Hob) as (Haddr & Hb0 & Hbn).
  destruct (vi_seg _ _ _ Hinv _ _ Hp) as (Hok & Hse & Hal). pose proof (ok_range _ Hok) as Hrange.
  pose proof (max_bits_end s ltac:(lia)) as Hend.
  assert (Hlo : blocks_bytes old = ob * BLOCK_SIZE) by done.
  assert (Hln : blocks_bytes new = nb * BLOCK_SIZE) by done.
  assert (Hsz : old ≤ ob * BLOCK_SIZE) by (unfold ob, BLOCK_SIZE; zdiv).
  destruct Hin as (Hin1 & Hin2 & Hin3).
  assert (Hx : in_segment s addr) by (unfold in_segment, BLOCK_SIZE in *; lia).
  unfold realloc_inplace.
  destruct (find_own_segment k st l p s addr Hinv Hp Hx ltac:(lia)) as (-> & Hp0 & Hseg).
  rewrite bind_ret, (proj2 (Z.eqb_neq p 0)), Hseg, bind_ret by done.
  pose proof (realloc_inplace_post s addr old new Hok ltac:(lia) ltac:(lia) ltac:(lia)) as Hpost.
  ospecialize* Hpost; [unfold BLOCK_SIZE, usize_max, u64_max in *; lia|done|fold ob; lia|].
  fold ob nb in Hpost. unfold resized. rewrite Hlo, Hln.
  set (b := (addr - va_start s) / BLOCK_SIZE) in *. clearbody ob nb b. unfold BLOCK_SIZE in *.
  case_decide as Heq; [|case_decide as Hlt; [|case_decide as Hfit]].
  - rewrite Hpost, bind_ret, (put_seg_id _ _ _ Hp). eexists _, _. split; [done|]. split; [done|].
    split; [done|]. rewrite Heq. split; [done|].
    split; [exists p, s; split; [done|]; unfold inside, BLOCK_SIZE; lia|].
    split; [intros; lia|]. intros x. split; [intros; left; split; [done|lia]|intros [[? _]|?]; [done|lia]].
  - destruct Hpost as (m' & -> & Hok' & Hclear). rewrite bind_ret. eexists _, _. split; [done|].
    assert (Hsp : same_place s (with_map s m')) by done.
    split; [by eapply va_inv_put|]. split; [by eapply evolves_put|]. split; [done|].
    split; [exists p, (with_map s m'); cbn; rewrite lookup_insert_eq; split; [done|];
      unfold inside, BLOCK_SIZE; cbn; lia|].
    split; [intros; lia|]. intros x.
    rewrite (put_seg_clears k st l p s _ (b + nb) (ob - nb) x Hinv Hp Hsp); try done; try lia.
    unfold BLOCK_SIZE. split.
    + intros [? Hnot]. left. split; [done|]. lia.
    + intros [[? Hnot]|?]; [split; [done|lia]|lia].
  - destruct Hpost as (m' & -> & Hok' & Hset). rewrite bind_ret. eexists _, _. split; [done|].
    assert (Hsp : same_place s (with_map s m')) by done. destruct Hfit as [Hfit Hfree].
    split; [by eapply va_inv_put|]. split; [by eapply evolves_put|]. split; [done|].
    split; [exists p, (with_map s m'); cbn; rewrite lookup_insert_eq; split; [done|];
      unfold inside, BLOCK_SIZE; cbn; lia|].
    destruct (put_seg_takes k st l p s _ (b + ob) (nb - ob) Hinv Hp Hsp) as [Hf Ht _ _];
      try done; try lia. unfold BLOCK_SIZE in *. split.
    + intros x Hxr. apply Hf. lia.
    + intros x. rewrite Ht. split.
      * intros [?|?]; [left; split; [done|lia]|right; lia].
      * intros [[? _]|?]; [by left|right; lia].
  - rewrite Hpost, bind_ret, (put_seg_id _ _ _ Hp). eexists _, _. split; [done|]. split; [done|].
    split; [done|]. split; [done|]. lia.
Qed.
End Free.

(** ** Histories of calls

    [live] is what the callers hold: the ranges that were returned and not given back, with
    the sizes that were asked for. *)

Section History.
Context {K : Type} `{LinuxKernel K} (stack_buf max_reservation : Z).

Inductive va_step : VaState * gmap Z Z * K → VaState * gmap Z Z * K → Prop :=
| StepAlloc st live k size ar res st' ar' k' :
    1 ≤ size → size + BLOCK_SIZE ≤ usize_max → ar_ok ar →
    alloc stack_buf max_reservation st size ar k = Ret (res, st', ar', k') →
    va_step (st, live, k) (st', from_option (λ a, <[a := size]> live) live res, k')
| StepFree st live k a size st' :
    live !! a = Some size → free st a size = Ret st' →
    va_step (st, live, k) (st', delete a live, k)
| StepRealloc st live k a old new res st' :
    live !! a = Some old → 1 ≤ new → new + BLOCK_SIZE ≤ usize_max →
    realloc_inplace st a old new = Ret (res, st') →
    va_step (st, live, k) (st', if res is Some _ then <[a := new]> live else live, k).

(** The live ranges are in segments, do not overlap, and are exactly what is taken. *)
Record live_inv (k : K) (st : VaState) (live : gmap Z Z) : Prop := {
  lv_inv : ∃ l, va_inv k st l;
  lv_size : ∀ a size, live !! a = Some size → 1 ≤ size;
  lv_inside : ∀ a size, live !! a = Some size →
    ∃ p s, va_segs st !! p = Some s ∧ inside s a (blocks_bytes size);
  lv_disjoint : ∀ a b sa sb, live !! a = Some sa → live !! b = Some sb → a ≠ b →
    a + blocks_bytes sa ≤ b ∨ b + blocks_bytes sb ≤ a;
  lv_taken : ∀ x, taken st x ↔ ∃ a size, live !! a = Some size ∧ a ≤ x < a + blocks_bytes size
}.

Lemma blocks_bytes_bounds size : 1 ≤ size → size ≤ blocks_bytes size ∧ 4096 ≤ blocks_bytes size.
Proof. intros. unfold blocks_bytes, BLOCK_SIZE. zdiv. Qed.

Lemma inside_evolves st st' a len :
  evolves st st' → (∃ p s, va_segs st !! p = Some s ∧ inside s a len) →
  ∃ p s, va_segs st' !! p = Some s ∧ inside s a len.
Proof.
  intros He (p & s & Hp & Hin). destruct (He p s Hp) as (s' & Hp' & E1 & E2).
  exists p, s'. split; [done|]. unfold inside in *. by rewrite E1, E2.
Qed.

(** Two intervals without a common point. *)
Lemma intervals_apart a la b lb :
  0 < la → 0 < lb → (∀ x, a ≤ x < a + la → ¬ b ≤ x < b + lb) → a + la ≤ b ∨ b + lb ≤ a.
Proof. intros Ha Hb Hx. specialize (Hx (Z.max a b)). lia. Qed.

Lemma live_inv_start (k : K) : live_inv k VaBitmap_new ∅.
Proof.
  split; try (by intros ?? ?); try done.
  - exists []. split; cbn; try done; auto.
    + constructor.
    + by intros p [? ?].
    + by intros p [? ?].
  - intros x. split; [intros (p & s & Hp & _); done|intros (a & sz & Hl & _); done].
Qed.

(** A range that is free does not meet a live one. *)
Lemma live_apart (k : K) st live a len b sb :
  live_inv k st live → (∀ x, a ≤ x < a + len → ¬ taken st x) → 0 < len → live !! b = Some sb →
  a + len ≤ b ∨ b + blocks_bytes sb ≤ a.
Proof.
  intros Hinv Hf Hlen Hb. pose proof (blocks_bytes_bounds sb (lv_size _ _ _ Hinv _ _ Hb)).
  apply intervals_apart; [done|lia|]. intros x Hx Hxb. apply (Hf x Hx).
  apply (lv_taken _ _ _ Hinv). eauto.
Qed.

Lemma live_inv_alloc (k k' : K) st st' live size res l' :
  live_inv k st live → 1 ≤ size → va_inv k' st' l' → alloc_result st st' (blocks_bytes size) res →
  live_inv k' st' (from_option (λ a, <[a := size]> live) live res).
Proof.
  intros Hinv Hs Hva [He Hres]. pose proof (blocks_bytes_bounds size Hs).
  destruct res as [a|]; cbn [from_option].
  - destruct Hres as [Hf Ht (p & s & Hp & Hlo & Hhi) Hal].
    assert (Hnew : live !! a = None).
    { destruct (live !! a) as [sz|] eqn:E; [|done]. destruct (Hf a ltac:(lia)).
      apply (lv_taken _ _ _ Hinv). exists a, sz. split; [done|].
      pose proof (blocks_bytes_bounds sz (lv_size _ _ _ Hinv _ _ E)). lia. }
    assert (Hap : ∀ b sb, live !! b = Some sb → a + blocks_bytes size ≤ b ∨ b + blocks_bytes sb ≤ a)
      by (intros b sb; apply (live_apart k st live a); [done..|lia]).
    split.
    + eauto.
    + intros b sb [(<- & <-)|[_ Hb]]%lookup_insert_Some; [done|by eapply lv_size].
    + intros b sb [(<- & <-)|[_ Hb]]%lookup_insert_Some.
      * exists p, s. done.
      * eapply inside_evolves; [done|]. by eapply lv_inside.
    + intros b c sb sc [(<- & <-)|[? Hb]]%lookup_insert_Some [(<- & <-)|[? Hc]]%lookup_insert_Some Hbc;
        try done.
      * by apply Hap.
      * destruct (Hap b sb Hb); auto.
      * by eapply lv_disjoint.
    + intros x. rewrite Ht, (lv_taken _ _ _ Hinv). split.
      * intros [(b & sb & Hb & Hx)|Hx].
        -- exists b, sb. rewrite lookup_insert_ne by congruence. done.
        -- exists a, size. by rewrite lookup_insert_eq.
      * intros (b & sb & [(<- & <-)|[_ Hb]]%lookup_insert_Some & Hx); [by right|left; eauto].
  - split; try apply Hinv; [by exists l'| |].
    + intros a sz Ha. eapply inside_evolves; [done|]. by eapply lv_inside.
    + intros x. rewrite (Hres x). apply Hinv.
Qed.

Lemma live_inv_free (k : K) st st' live a size l :
  live_inv k st live → live !! a = Some size → va_inv k st' l → evolves st st' →
  (∀ x, taken st' x ↔ taken st x ∧ ¬ a ≤ x < a + blocks_bytes size) →
  live_inv k st' (delete a live).
Proof.
  intros Hinv Ha Hva He Ht. split.
  - eauto.
  - intros b sb [_ Hb]%lookup_delete_Some. by eapply lv_size.
  - intros b sb [_ Hb]%lookup_delete_Some. eapply inside_evolves; [done|]. by eapply lv_inside.
  - intros b c sb sc [_ Hb]%lookup_delete_Some [_ Hc]%lookup_delete_Some. by eapply lv_disjoint.
  - intros x. rewrite Ht, (lv_taken _ _ _ Hinv). split.
    + intros [(b & sb & Hb & Hx) Hn]. exists b, sb. split; [|done].
      apply lookup_delete_Some. split; [|done]. intros <-. by simplify_eq.
    + intros (b & sb & [Hne Hb]%lookup_delete_Some & Hx). split; [by exists b, sb|].
      intros Hxa. destruct (lv_disjoint _ _ _ Hinv a b size sb Ha Hb Hne); lia.
Qed.

Lemma live_inv_realloc (k : K) st st' live a old new res l :
  live_inv k st live → live !! a = Some old → 1 ≤ new → va_inv k st' l → evolves st st' →
  resized st st' a old new res →
  live_inv k st' (if res is Some _ then <[a := new]> live else live).
Proof.
  intros Hinv Ha Hn Hva He Hres. pose proof (blocks_bytes_bounds new Hn).
  pose proof (blocks_bytes_bounds old (lv_size _ _ _ Hinv _ _ Ha)).
  destruct res as [sz|]; cbn in Hres.
  - destruct Hres as (_ & Hin & Hf & Ht).
    assert (Hap : ∀ b sb, live !! b = Some sb → a ≠ b →
      a + blocks_bytes new ≤ b ∨ b + blocks_bytes sb ≤ a).
    { intros b sb Hb Hne. pose proof (blocks_bytes_bounds sb (lv_size _ _ _ Hinv _ _ Hb)).
      pose proof (lv_disjoint _ _ _ Hinv a b old sb Ha Hb Hne).
      destruct (Z.le_gt_cases (blocks_bytes new) (blocks_bytes old)); [lia|].
      pose proof (live_apart k st live (a + blocks_bytes old) (blocks_bytes new - blocks_bytes old) b sb
        Hinv) as Hx. ospecialize* Hx; [intros y Hy; apply Hf; lia|lia|done|]. lia. }
    split.
    + eauto.
    + intros b sb [(<- & <-)|[_ Hb]]%lookup_insert_Some; [done|by eapply lv_size].
    + intros b sb [(<- & <-)|[_ Hb]]%lookup_insert_Some; [done|].
      eapply inside_evolves; [done|]. by eapply lv_inside.
    + intros b c sb sc [(<- & <-)|[? Hb]]%lookup_insert_Some [(<- & <-)|[? Hc]]%lookup_insert_Some Hbc;
        try done.
      * by apply Hap.
      * destruct (Hap b sb Hb); auto.
      * by eapply lv_disjoint.
    + intros x. rewrite Ht, (lv_taken _ _ _ Hinv). split.
      * intros [[(b & sb & Hb & Hx) Hnot]|Hx].
        -- destruct (decide (b = a)) as [->|].
           ++ exists a, new. rewrite lookup_insert_eq. split; [done|]. simplify_eq. lia.
           ++ exists b, sb. by rewrite lookup_insert_ne.
        -- exists a, new. rewrite lookup_insert_eq. split; [done|]. lia.
      * intros (b & sb & [(<- & <-)|[Hne Hb]]%lookup_insert_Some & Hx).
        -- destruct (Z.lt_ge_cases x (a + blocks_bytes old)); [left|right; lia].
           split; [|lia]. exists a, old. split; [done|lia].
        -- left. split; [by exists b, sb|]. pose proof (lv_disjoint _ _ _ Hinv a b old sb Ha Hb Hne).
           pose proof (Hap b sb Hb Hne). lia.
  - destruct Hres as [Hst _]. split; try apply Hinv; [by exists l| |].
    + intros b sb Hb. eapply inside_evolves; [done|]. by eapply lv_inside.
    + intros x. rewrite (Hst x). apply Hinv.
Qed.

Hypothesis max_reservation_ok : 0 ≤ max_reservation ≤ 2 ^ 57.

Lemma live_inv_step c c' :
  live_inv c.2 c.1.1 c.1.2 → va_step c c' → live_inv c'.2 c'.1.1 c'.1.2.
Proof.
  intros Hinv Hstep. destruct Hstep as [st live k size ar res st' ar' k' Hs Hov Har Hcall|
    st live k a size st' Ha Hcall|st live k a old new res st' Ha Hn Hov Hcall]; cbn in *;
    destruct (lv_inv _ _ _ Hinv) as [l Hva].
  - destruct (va_alloc_spec stack_buf max_reservation max_reservation_ok k st l size ar Hva Har Hs Hov)
      as [(res2 & st2 & ar2 & k2 & l2 & Heq & _ & _ & Hva2 & Hres)|[Heq|Heq]];
      rewrite Hcall in Heq; simplify_eq. by eapply live_inv_alloc.
  - destruct (lv_inside _ _ _ Hinv a size Ha) as (p & s & Hp & Hin).
    destruct (va_free_spec k st l p s a size Hva Hp (lv_size _ _ _ Hinv _ _ Ha) Hin)
      as (st2 & Heq & Hva2 & He & Ht). rewrite Hcall in Heq. simplify_eq.
    by eapply live_inv_free.
  - destruct (lv_inside _ _ _ Hinv a old Ha) as (p & s & Hp & Hin).
    destruct (va_realloc_inplace_spec k st l p s a old new Hva Hp (lv_size _ _ _ Hinv _ _ Ha) Hn Hov Hin)
      as (res2 & st2 & Heq & Hva2 & He & Hres). rewrite Hcall in Heq. simplify_eq.
    by eapply live_inv_realloc.
Qed.

Lemma live_inv_reach k0 c :
  rtc va_step (VaBitmap_new, ∅, k0) c → live_inv c.2 c.1.1 c.1.2.
Proof.
  intros Hr. apply (rtc_preserve (λ c, live_inv c.2 c.1.1 c.1.2) va_step live_inv_step _ _ Hr).
  apply live_inv_start.
Qed.
End History.

(** ** A kernel for the instances: it hands out increasing addresses *)

Definition bump_base (k : Z) : Z := 4096 * (1 + Z.max 0 k).

Definition bump_mmap (target len flags k : Z) : Z * Z :=
  if negb (Z.land flags Map_FIXED =? 0) then
    (if (0 <=? target) && (target <? 2 ^ 57) then target else -22, k)
  else
    let addr := if (Z.land flags Map_FIXED_NOREPLACE =? 0) || (target =? 0)
                then bump_base k else target in
    if (bump_base k <=? addr) && (addr mod 4096 =? 0) && (0 <=? len) && (addr + len <=? 2 ^ 57)
    then (addr, (addr + len) / 4096 + 1) else (-17, k).

#[export] Instance bump_kernel : Kernel Z := {|
  machine := X86_64;
  syscall6 n args k :=
    if n =? 9 then
      match args with
      | [target; len; _; flags; _; _] => let '(ret, k) := bump_mmap target len flags k in (ret, [], k)
      | _ => (-22, [], k)
      end
    else if n =? 318 then (8, [1; 2; 3; 4; 5; 6; 7; 8], k)
    else (0, [], k)
|}.

Lemma bump_mmap_spec target len flags k ret k' :
  bump_mmap target len flags k = (ret, k') →
  kernel_ret ret ∧ bump_base k ≤ bump_base k' ∧
  (Z.land flags Map_FIXED = 0 → 0 ≤ ret →
    bump_base k ≤ ret < bump_base k' ∧ ret mod 4096 = 0 ∧ ret + len ≤ 2 ^ 57 ∧
    (Z.land flags Map_FIXED_NOREPLACE ≠ 0 → target ≠ 0 → ret = target)).
Proof.
  unfold bump_mmap, kernel_ret. destruct (Z.eqb_spec (Z.land flags Map_FIXED) 0) as [E|E]; cbn [negb].
  - set (addr := if _ || _ then _ else _).
    destruct ((bump_base k <=? addr) && _ && _ && _) eqn:Ec; intros [= <- <-]; [|split_and!; try done; lia].
    rewrite !andb_true_iff, !Z.leb_le, Z.eqb_eq in Ec. destruct Ec as [[[Hb Hm] Hl] He].
    assert (Hk : bump_base k = 4096 * (1 + Z.max 0 k)) by done.
    assert (Hk' : bump_base ((addr + len) / 4096 + 1) = 4096 * (1 + Z.max 0 ((addr + len) / 4096 + 1))) by done.
    assert (0 ≤ (addr + len) / 4096) by zdiv.
    assert (addr < 4096 * ((addr + len) / 4096 + 1)) by zdiv.
    split; [lia|]. split; [lia|]. intros _ _. split; [lia|]. split; [done|]. split; [done|].
    intros Hf Ht. unfold addr. rewrite (proj2 (Z.eqb_neq _ _)) by done.
    by rewrite (proj2 (Z.eqb_neq target 0)).
  - intros [= <- <-]. split; [|split; [done|done]].
    destruct ((0 <=? target) && _) eqn:Ec; [|lia].
    apply andb_true_iff in Ec as [?%Z.leb_le ?%Z.ltb_lt]. lia.
Qed.

#[export] Instance bump_linux : LinuxKernel Z.
Proof.
  refine {| k_live k a := a < bump_base k |}.
  - intros n args k. cbn. repeat case_match; cbn; unfold kernel_ret; try lia.
    by eapply bump_mmap_spec.
  - intros n args k. cbn. repeat case_match; cbn; repeat constructor; lia.
  - intros n args k a _ Ha. cbn. repeat case_match; cbn in *; try lia.
    match goal with E : bump_mmap _ _ _ _ = _ |- _ => apply bump_mmap_spec in E as (_ & ? & _) end. lia.
  - intros addr len args k a Ha _. exact Ha.
  - intros target len prot flags off k. cbn. destruct (bump_mmap target len flags k) as [ret k'] eqn:E.
    intros Hf Hr. destruct (bump_mmap_spec _ _ _ _ _ _ E) as (_ & _ & Hs).
    destruct (Hs Hf Hr) as ([? ?] & ? & ? & ?). split_and!; try done; try lia.
    unfold bump_base in *. lia.
  - intros target len prot flags off k Hf. cbn. unfold bump_mmap.
    rewrite (proj2 (Z.eqb_neq _ _)) by done. cbn. by case_match.
Defined.

(** ** Properties *)

(** C6: The whole address map, for any sequence of allocations, frees and in-place resizes,
    starting from the empty map and growing as needed, on any kernel that behaves as
    documented: the ranges that the callers hold are page aligned, lie inside reserved
    segments, never overlap, and are exactly the blocks marked taken, so nothing is handed
    out twice and nothing is leaked. *)
Theorem va_live_ranges_exclusive {K} `{LinuxKernel K} (stack_buf max_reservation : Z) (k0 k : K)
    (st : VaState) (live : gmap Z Z)
    (Hres : 0 ≤ max_reservation ≤ 2 ^ 57)
    (Hreach : rtc (va_step stack_buf max_reservation) (VaBitmap_new, ∅, k0) (st, live, k)) :
  (∀ a b sa sb, live !! a = Some sa → live !! b = Some sb → a ≠ b →
     a + blocks_bytes sa ≤ b ∨ b + blocks_bytes sb ≤ a) ∧
  (∀ x, taken st x ↔ ∃ a size, live !! a = Some size ∧ a ≤ x < a + blocks_bytes size) ∧
  (∀ a size, live !! a = Some size → a mod BLOCK_SIZE = 0 ∧
     ∃ p s, va_segs st !! p = Some s ∧ va_start s ≤ a ∧ a + blocks_bytes size ≤ va_end s).
Proof.
  pose proof (live_inv_reach stack_buf max_reservation Hres k0 _ Hreach) as Hinv. cbn in Hinv.
  split; [apply Hinv|]. split; [apply Hinv|]. intros a size Ha.
  destruct (lv_inside _ _ _ Hinv a size Ha) as (p & s & Hp & H1 & H2 & H3). eauto 10.
Qed.

(** The first allocation of a process, on the kernel above. *)
Definition first_alloc : M (option Z * VaState * AllocRng * Z) :=
  alloc 0 0 VaBitmap_new 10000 demo_rng 0.

Lemma first_alloc_address : (λ '(r, _, _, _), r) <$> first_alloc = Ret (Some 3439960064).
Proof. vm_compute. reflexivity. Qed.

Lemma first_alloc_step :
  ∃ st ar k, first_alloc = Ret (Some 3439960064, st, ar, k) ∧
    rtc (va_step 0 0) (VaBitmap_new, ∅, 0) (st, <[3439960064 := 10000]> ∅, k).
Proof.
  destruct (fmap_Ret_inv _ _ _ first_alloc_address) as ([[[r st] ar] k] & E & Hr).
  cbn in Hr. subst r.
  exists st, ar, k. split; [done|]. apply rtc_once.
  apply (StepAlloc 0 0 VaBitmap_new ∅ 0 10000 demo_rng (Some 3439960064) st ar k);
    [lia|done|apply demo_rng_ok|exact E].
Qed.

Lemma va_live_ranges_exclusive_witness :
  ∃ st ar k, first_alloc = Ret (Some 3439960064, st, ar, k) ∧
    ∀ x, taken st x ↔
      ∃ a size, (<[3439960064 := 10000]> ∅ : gmap Z Z) !! a = Some size ∧ a ≤ x < a + blocks_bytes size.
Proof.
  destruct first_alloc_step as (st & ar & k & E & Hreach). exists st, ar, k. split; [exact E|].
  exact (proj1 (proj2 (va_live_ranges_exclusive 0 0 0 k st _ ltac:(lia) Hreach))).
Defined.

(** C7: In every reachable state each call returns: an allocation gives an address, gives
    [None] and leaves what is taken alone, or ends the process with one of its two
    documented errors; it never panics, never loops and never touches an unknown segment.
    Freeing and resizing a live range always return.  Sizes are at least 1 and, rounded up to a
    block, fit in a word, which the callers see to. *)
Theorem va_calls_return {K} `{LinuxKernel K} (stack_buf max_reservation : Z) (k0 k : K)
    (st : VaState) (live : gmap Z Z)
    (Hres : 0 ≤ max_reservation ≤ 2 ^ 57)
    (Hreach : rtc (va_step stack_buf max_reservation) (VaBitmap_new, ∅, k0) (st, live, k)) :
  (∀ size ar, 1 ≤ size → size + BLOCK_SIZE ≤ usize_max → ar_ok ar →
     (∃ a st' ar' k', alloc stack_buf max_reservation st size ar k = Ret (Some a, st', ar', k')) ∨
     (∃ st' ar' k', alloc stack_buf max_reservation st size ar k = Ret (None, st', ar', k') ∧
        same_taken st st') ∨
     alloc stack_buf max_reservation st size ar k = Abort (Fatal VAIinitFailed) ∨
     alloc stack_buf max_reservation st size ar k = Abort (Fatal SecurityViolation)) ∧
  (∀ a size, live !! a = Some size → is_ret (free st a size) = true) ∧
  (∀ a size new, live !! a = Some size → 1 ≤ new → new + BLOCK_SIZE ≤ usize_max →
     is_ret (realloc_inplace st a size new) = true).
Proof.
  pose proof (live_inv_reach stack_buf max_reservation Hres k0 _ Hreach) as Hinv. cbn in Hinv.
  destruct (lv_inv _ _ _ Hinv) as [l Hva]. split; [|split].
  - intros size ar Hs Hov Har.
    destruct (va_alloc_spec stack_buf max_reservation Hres k st l size ar Hva Har Hs Hov)
      as [(res & st2 & ar2 & k2 & l2 & -> & _ & _ & _ & _ & Hr)|[->| ->]]; [|auto..].
    destruct res as [a|]; [left; eauto|right; left; eauto].
  - intros a size Ha. destruct (lv_inside _ _ _ Hinv a size Ha) as (p & s & Hp & Hin).
    by destruct (va_free_spec k st l p s a size Hva Hp (lv_size _ _ _ Hinv _ _ Ha) Hin) as (st2 & -> & _).
  - intros a size new Ha Hn Hov. destruct (lv_inside _ _ _ Hinv a size Ha) as (p & s & Hp & Hin).
    by destruct (va_realloc_inplace_spec k st l p s a size new Hva Hp (lv_size _ _ _ Hinv _ _ Ha) Hn Hov Hin)
      as (res & st2 & -> & _).
Qed.

Lemma va_calls_return_witness :
  ∃ st ar k, first_alloc = Ret (Some 3439960064, st, ar, k) ∧ is_ret (free st 3439960064 10000) = true.
Proof.
  destruct first_alloc_step as (st & ar & k & E & Hreach). exists st, ar, k. split; [exact E|].
  apply (proj1 (proj2 (va_calls_return 0 0 0 k st _ ltac:(lia) Hreach))). apply lookup_insert_eq.
Defined.

(** C22: [is_ours] is exact in every reachable state: it answers for every address, and says
    yes exactly for the addresses of reserved segments; in particular for every address of
    a live range. *)
Theorem is_ours_exact {K} `{LinuxKernel K} (stack_buf max_reservation : Z) (k0 k : K)
    (st : VaState) (live : gmap Z Z) (addr : Z)
    (Hres : 0 ≤ max_reservation ≤ 2 ^ 57)
    (Hreach : rtc (va_step stack_buf max_reservation) (VaBitmap_new, ∅, k0) (st, live, k))
    (Haddr : 0 ≤ addr) :
  ∃ b, is_ours st addr = Ret b ∧
    (b = true ↔ ∃ p s, va_segs st !! p = Some s ∧ va_start s ≤ addr < va_end s) ∧
    (∀ a size, live !! a = Some size → a ≤ addr < a + size → b = true).
Proof.
  pose proof (live_inv_reach stack_buf max_reservation Hres k0 _ Hreach) as Hinv. cbn in Hinv.
  destruct (lv_inv _ _ _ Hinv) as [l Hva]. destruct (is_ours_spec k st l addr Hva Haddr) as (b & -> & Hb).
  exists b. split; [done|]. split; [done|]. intros a size Ha Hx. apply Hb.
  destruct (lv_inside _ _ _ Hinv a size Ha) as (p & s & Hp & H1 & H2 & _).
  pose proof (blocks_bytes_bounds size (lv_size _ _ _ Hinv _ _ Ha)).
  exists p, s. split; [done|]. unfold in_segment. lia.
Qed.

Lemma is_ours_exact_witness :
  ∃ st ar k, first_alloc = Ret (Some 3439960064, st, ar, k) ∧
  ∃ b, is_ours st 3439969999 = Ret b ∧
    (b = true ↔ ∃ p s, va_segs st !! p = Some s ∧ va_start s ≤ 3439969999 < va_end s) ∧
    (∀ a size, (<[3439960064 := 10000]> ∅ : gmap Z Z) !! a = Some size →
       a ≤ 3439969999 < a + size → b = true).
Proof.
  destruct first_alloc_step as (st & ar & k & E & Hreach). exists st, ar, k. split; [exact E|].
  exact (is_ours_exact 0 0 0 k st _ 3439969999 ltac:(lia) Hreach ltac:(lia)).
Defined.

(** Reserving address space always ends: within 64 rounds of halving it returns a page
    aligned range of at least 2 GiB that the kernel granted, with its end and size, or a
    null range, or it ends the process; the running base hint never overflows. *)
Theorem get_va_from_kernel_ends {K} `{LinuxKernel K} (stack_buf max_reservation : Z)
    (g : VaGlobals) (k : K)
    (Hres : 0 ≤ max_reservation ≤ 2 ^ 57) (Hg : base_ok g) :
  (∃ g' k', get_va_from_kernel stack_buf max_reservation g k = Ret ((0, 0, 0), g', k') ∧ base_ok g') ∨
  (∃ p size g' k', get_va_from_kernel stack_buf max_reservation g k = Ret ((p, p + size, size), g', k') ∧
     base_ok g' ∧ 0 < p ∧ p mod 4096 = 0 ∧ 2 ^ 31 ≤ size ∧ p + size ≤ 2 ^ 57) ∨
  get_va_from_kernel stack_buf max_reservation g k = Abort (Fatal VAIinitFailed) ∨
  get_va_from_kernel stack_buf max_reservation g k = Abort (Fatal SecurityViolation).
Proof.
  destruct (get_va_from_kernel_spec stack_buf max_reservation Hres g k Hg) as
    [(g' & k' & -> & Hg' & _)|[(p & size & g' & k' & -> & Hg' & _ & ? & ? & Hm & ? & _)|[->| ->]]].
  - left. eauto.
  - right; left. change MIN_RESERVE with (2 ^ 32) in Hm. exists p, size, g', k'.
    split_and!; try done; lia.
  - auto.
  - auto.
Qed.

Lemma get_va_from_kernel_ends_witness :
  (∃ g' k', get_va_from_kernel 0 (2 ^ 34) initial_va_globals 0 = Ret ((0, 0, 0), g', k') ∧ base_ok g') ∨
  (∃ p size g' k', get_va_from_kernel 0 (2 ^ 34) initial_va_globals 0 = Ret ((p, p + size, size), g', k') ∧
     base_ok g' ∧ 0 < p ∧ p mod 4096 = 0 ∧ 2 ^ 31 ≤ size ∧ p + size ≤ 2 ^ 57) ∨
  get_va_from_kernel 0 (2 ^ 34) initial_va_globals 0 = Abort (Fatal VAIinitFailed) ∨
  get_va_from_kernel 0 (2 ^ 34) initial_va_globals 0 = Abort (Fatal SecurityViolation).
Proof.
  apply (get_va_from_kernel_ends 0 (2 ^ 34) initial_va_globals 0); [lia|].
  split; cbn; lia.
Defined.
