(* ===== verification/VaLive.v ===== *)
(** * The address map as its clients see it

    [live_inv k va live] is all that the slab and the big allocations rely on: a
    finite map from the addresses of the ranges in use to their sizes.  Each call
    is one lemma about that map. *)

From S2P Require Import Prelude Bits Lib Rng Segment SegmentSpec Sys Radix VaMap VaMapSpec.

Section Live.
Context {K : Type} `{LinuxKernel K}.
Context (stack_buf max_reservation : Z).
Context (Hres : 0 ≤ max_reservation ≤ 2 ^ 57).

(** Where the ranges lie. *)
Lemma live_range (k : K) va live a size :
  live_inv k va live → live !! a = Some size →
  0 < a ∧ a mod 4096 = 0 ∧ 1 ≤ size ≤ blocks_bytes size ∧ a + blocks_bytes size ≤ 2 ^ 57.
Proof.
  intros Hinv Ha. pose proof (lv_size _ _ _ Hinv a size Ha) as Hs.
  destruct (lv_inside _ _ _ Hinv a size Ha) as (p & s & Hp & H1 & H2 & H3).
  destruct (lv_inv _ _ _ Hinv) as [l Hva]. destruct (vi_seg _ _ _ Hva p s Hp) as (_ & Hpos & _).
  pose proof (blocks_bytes_bounds size Hs).
  destruct (vi_covers _ _ _ Hva p s (va_end s - 1) Hp) as [Hc _]; [unfold in_segment; lia|].
  unfold first_chunk in Hc. change RADIX_MAX_CHUNKS with 33554432 in Hc.
  change CHUNK_SIZE with 4294967296 in Hc. split_and!; try done; try lia. zdiv.
Qed.

Lemma live_keeps (k k' : K) va live : keeps k k' → live_inv k va live → live_inv k' va live.
Proof.
  intros Hk [[l Hinv] ? ? ? ?]. split; try done. exists l. by eapply va_inv_keeps.
Qed.

Lemma live_unmap (k k' : K) va live ptr len :
  (∀ a, k_live k a → ¬ ptr ≤ a < ptr + len → k_live k' a) →
  (∀ p, is_Some (va_segs va !! p) → ¬ ptr ≤ p < ptr + len) → live_inv k va live → live_inv k' va live.
Proof.
  intros Hk Hp [[l Hinv] ? ? ? ?]. split; try done. exists l. by eapply va_inv_unmap.
Qed.

(** [is_ours] holds of every address of a range. *)
Lemma live_ours (k : K) va live a size x :
  live_inv k va live → live !! a = Some size → a ≤ x < a + blocks_bytes size → is_ours va x = Ret true.
Proof.
  intros Hinv Ha Hx. destruct (live_range k va live a size Hinv Ha) as (Hpos & _).
  destruct (lv_inv _ _ _ Hinv) as [l Hva]. destruct (is_ours_spec k va l x Hva) as (b & -> & Hb); [lia|].
  f_equal. apply Hb. destruct (lv_inside _ _ _ Hinv a size Ha) as (p & s & Hp & H1 & H2 & _).
  exists p, s. split; [done|]. unfold in_segment. lia.
Qed.

Lemma live_va_ours (k : K) va live a size x :
  live_inv k va live → live !! a = Some size → a ≤ x < a + blocks_bytes size → x mod 8 = 0 →
  va_is_ours va x = Ret true.
Proof.
  intros Hinv Ha Hx Hm. unfold va_is_ours. rewrite Hm. cbn. by eapply live_ours.
Qed.

(** The null pointer never is. *)
Lemma null_not_ours (k : K) va live : live_inv k va live → va_is_ours va 0 = Ret false.
Proof.
  intros Hinv. destruct (lv_inv _ _ _ Hinv) as [l Hva]. unfold va_is_ours. cbn.
  destruct (is_ours_spec k va l 0 Hva) as (b & -> & Hb); [lia|]. destruct b; [|done].
  destruct (proj1 Hb eq_refl) as (p & s & Hp & Hin). destruct (vi_seg _ _ _ Hva p s Hp) as (_ & Hs & _).
  unfold in_segment in Hin. lia.
Qed.

(** The ways in which an allocation can end the process. *)
Definition va_aborts {A} (out : M A) : Prop :=
  out = Abort (Fatal VAIinitFailed) ∨ out = Abort (Fatal SecurityViolation).

(** An allocation adds a fresh range. *)
Lemma live_alloc (k : K) va live size ar :
  live_inv k va live → ar_ok ar → 1 ≤ size → size + BLOCK_SIZE ≤ usize_max →
  (∃ res va' ar' k', alloc stack_buf max_reservation va size ar k = Ret (res, va', ar', k') ∧
     ar_ok ar' ∧ keeps k k' ∧
     match res with
     | Some a => live !! a = None ∧ live_inv k' va' (<[a := size]> live)
     | None => live_inv k' va' live
     end) ∨
  va_aborts (alloc stack_buf max_reservation va size ar k).
Proof.
  intros Hinv Har Hs Hov. destruct (lv_inv _ _ _ Hinv) as [l Hva].
  destruct (va_alloc_spec stack_buf max_reservation Hres k va l size ar Hva Har Hs Hov)
    as [(res & va' & ar' & k' & l' & -> & Har' & Hk & Hva' & Hr)|Hab]; [left|by right].
  exists res, va', ar', k'. split; [done|]. split; [done|]. split; [done|].
  pose proof (live_inv_alloc k k' va va' live size res l' Hinv Hs Hva' Hr) as Hinv'.
  destruct res as [a|]; [|done]. split; [|done]. destruct Hr as [_ Htk].
  destruct (live !! a) as [s|] eqn:Ha; [|done]. exfalso.
  pose proof (blocks_bytes_bounds size Hs).
  apply (tk_free _ _ _ _ Htk a); [lia|]. apply (lv_taken _ _ _ Hinv). exists a, s. split; [done|].
  pose proof (blocks_bytes_bounds s (lv_size _ _ _ Hinv a s Ha)). lia.
Qed.

(** Freeing removes a range. *)
Lemma live_free (k : K) va live a size :
  live_inv k va live → live !! a = Some size →
  ∃ va', free va a size = Ret va' ∧ live_inv k va' (delete a live).
Proof.
  intros Hinv Ha. destruct (lv_inv _ _ _ Hinv) as [l Hva].
  destruct (lv_inside _ _ _ Hinv a size Ha) as (p & s & Hp & Hin).
  destruct (va_free_spec k va l p s a size Hva Hp (lv_size _ _ _ Hinv _ _ Ha) Hin)
    as (va' & Hf & Hva' & Hev & Htk).
  exists va'. split; [done|]. by eapply live_inv_free.
Qed.

(** Freeing the end of a range shortens it. *)
Lemma live_shrink (k : K) va live a old new :
  live_inv k va live → live !! a = Some old → 1 ≤ new < old → old mod BLOCK_SIZE = 0 → new mod BLOCK_SIZE = 0 →
  ∃ va', free va (a + new) (old - new) = Ret va' ∧ live_inv k va' (<[a := new]> live).
Proof.
  intros Hinv Ha Hn Hom Hnm. destruct (lv_inv _ _ _ Hinv) as [l Hva].
  destruct (lv_inside _ _ _ Hinv a old Ha) as (p & s & Hp & Hin1 & Hin2 & Hin3).
  assert (∀ n, n mod BLOCK_SIZE = 0 → blocks_bytes n = n) as Hbb.
  { intros n Hz. unfold blocks_bytes, BLOCK_SIZE in *. zdiv. }
  assert ((old - new) mod BLOCK_SIZE = 0) as Hdm by (unfold BLOCK_SIZE in *; zdiv).
  rewrite (Hbb old Hom) in Hin2.
  assert (inside s (a + new) (blocks_bytes (old - new))) as Hin.
  { rewrite (Hbb _ Hdm). unfold inside, BLOCK_SIZE in *. split; [lia|]. split; [lia|]. zdiv. }
  destruct (va_free_spec k va l p s (a + new) (old - new) Hva Hp ltac:(lia) Hin)
    as (va' & Hf & Hva' & Hev & Htk). rewrite (Hbb _ Hdm) in Htk.
  exists va'. split; [done|].
  apply (live_inv_realloc k va va' live a old new (Some (blocks_bytes new)) l Hinv Ha (proj1 Hn) Hva' Hev).
  split; [done|]. rewrite (Hbb old Hom), (Hbb new Hnm). split.
  { eapply inside_evolves; [exact Hev|]. exists p, s. split; [done|]. unfold inside in *. lia. }
  split; [intros; lia|]. intros x. rewrite Htk. split; [intros [? ?]; left; split; [done|lia]|].
  intros [[? ?]|?]; [split; [done|lia]|lia].
Qed.

(** Resizing in place changes the size of a range, or nothing. *)
Lemma live_resize (k : K) va live a old new :
  live_inv k va live → live !! a = Some old → 1 ≤ new → new + BLOCK_SIZE ≤ usize_max →
  ∃ res va', realloc_inplace va a old new = Ret (res, va') ∧
    (res = None ∧ live_inv k va' live ∨ res = Some (blocks_bytes new) ∧ live_inv k va' (<[a := new]> live)).
Proof.
  intros Hinv Ha Hn Hov. destruct (lv_inv _ _ _ Hinv) as [l Hva].
  destruct (lv_inside _ _ _ Hinv a old Ha) as (p & s & Hp & Hin).
  destruct (va_realloc_inplace_spec k va l p s a old new Hva Hp (lv_size _ _ _ Hinv _ _ Ha) Hn Hov Hin)
    as (res & va' & -> & Hva' & Hev & Hrs). exists res, va'. split; [done|].
  pose proof (live_inv_realloc k va va' live a old new res l Hinv Ha Hn Hva' Hev Hrs) as Hl.
  destruct res as [sz|]; [right|by left]. destruct Hrs as [-> _]. done.
Qed.
End Live.
