(* ===== verification/Mem.v ===== *)
(** * Memory and block headers (struct OxHeader of src/src/lib.rs)

    Memory is a function from addresses to bytes; integers are stored little
    endian.  A header is read and written field by field at the offsets of its
    [repr(C, align(16))] layout, which differ between the two builds. *)

From S2P Require Import Prelude Bits Lib.

Definition mem : Type := Z → Z.

(** The [n]-byte integer at [a]. *)
Fixpoint load (n : nat) (m : mem) (a : Z) : Z :=
  match n with
  | O => 0
  | S n => m a + 256 * load n m (a + 1)
  end.

Fixpoint store (n : nat) (m : mem) (a v : Z) : mem :=
  match n with
  | O => m
  | S n => λ x, if x =? a then v mod 256 else store n m (a + 1) (v / 256) x
  end.

Lemma store_outside n m a v x : x < a ∨ a + Z.of_nat n ≤ x → store n m a v x = m x.
Proof.
  revert a v. induction n as [|n IH]; intros a v Hx; cbn [store]; [done|].
  rewrite (proj2 (Z.eqb_neq x a)) by lia. apply IH. lia.
Qed.

(** Reading depends only on the bytes read. *)
Lemma load_ext n m m' a :
  (∀ x, a ≤ x < a + Z.of_nat n → m x = m' x) → load n m a = load n m' a.
Proof.
  revert a. induction n as [|n IH]; intros a Hx; cbn [load]; [done|].
  rewrite (Hx a) by lia. f_equal. f_equal. apply IH. intros x ?. apply Hx. lia.
Qed.

Lemma load_store_ne n k m a b v :
  a + Z.of_nat n ≤ b ∨ b + Z.of_nat k ≤ a → load k (store n m a v) b = load k m b.
Proof. intros Hd. apply load_ext. intros x Hx. apply store_outside. lia. Qed.

Lemma load_store_eq n m a v : 0 ≤ v < 256 ^ Z.of_nat n → load n (store n m a v) a = v.
Proof.
  revert a v. induction n as [|n IH]; intros a v Hv; cbn [load store].
  { change (256 ^ Z.of_nat 0) with 1 in Hv. lia. }
  rewrite Z.eqb_refl.
  rewrite (load_ext n _ (store n m (a + 1) (v / 256))).
  - rewrite IH; [pose proof (Z.div_mod v 256 ltac:(lia)); lia|].
    rewrite Nat2Z.inj_succ, Z.pow_succ_r in Hv by lia. split; [zdiv|].
    apply Z.div_lt_upper_bound; lia.
  - intros x Hx. by rewrite (proj2 (Z.eqb_neq x a)) by lia.
Qed.

(** All bytes are bytes. *)
Definition bytes_ok (m : mem) : Prop := ∀ x, 0 ≤ m x < 256.

Lemma bytes_ok_store n m a v : bytes_ok m → bytes_ok (store n m a v).
Proof.
  intros Hm. revert a v. induction n as [|n IH]; intros a v x; cbn [store]; [apply Hm|].
  case_zb; [apply Z.mod_pos_bound; lia|apply IH].
Qed.

Lemma load_bound n m a : bytes_ok m → 0 ≤ load n m a < 256 ^ Z.of_nat n.
Proof.
  intros Hm. revert a. induction n as [|n IH]; intros a; cbn [load]; [done|].
  rewrite Nat2Z.inj_succ, Z.pow_succ_r by lia. pose proof (Hm a). pose proof (IH (a + 1)). lia.
Qed.

(** ** Header fields *)

Inductive field : Type := FNext | FClass | FMagic | FLifeTime.

#[export] Instance field_eq_dec : EqDecision field.
Proof. solve_decision. Defined.

Section Fields.
Context `{Config}.

Definition field_off (f : field) : Z :=
  match f with
  | FNext => off_next | FClass => off_class | FMagic => off_magic | FLifeTime => off_life_time
  end.

Definition field_width (f : field) : nat :=
  match f with
  | FNext => 8 | FClass => 1 | FMagic => Z.to_nat size_magic | FLifeTime => 4
  end.

(** Reading and writing the field [f] of the header at [h]. *)
Definition hget (f : field) (m : mem) (h : Z) : Z := load (field_width f) m (h + field_off f).
Definition hput (f : field) (m : mem) (h v : Z) : mem :=
  store (field_width f) m (h + field_off f) v.

(** [write(header, OxHeader { .. })]. *)
Definition write_header (m : mem) (h : Z) (hdr : OxHeader) : mem :=
  let m := hput FNext m h (h_next hdr) in
  let m := hput FClass m h (h_class hdr) in
  let m := hput FMagic m h (h_magic hdr) in
  hput FLifeTime m h (h_life_time hdr).

(** The fields lie in the header and do not overlap. *)
Lemma field_inside f : 0 ≤ field_off f ∧ field_off f + Z.of_nat (field_width f) ≤ HEADER_SIZE.
Proof.
  unfold field_off, field_width, off_next, off_class, off_magic, off_life_time, size_magic, HEADER_SIZE.
  destruct f, hardened; cbn; lia.
Qed.

Lemma field_apart f g :
  f ≠ g → field_off f + Z.of_nat (field_width f) ≤ field_off g ∨
          field_off g + Z.of_nat (field_width g) ≤ field_off f.
Proof.
  unfold field_off, field_width, off_next, off_class, off_magic, off_life_time, size_magic.
  destruct f, g, hardened; cbn; try done; lia.
Qed.

Definition fits_field (f : field) (v : Z) : Prop := 0 ≤ v < 256 ^ Z.of_nat (field_width f).

Lemma hget_hput_eq f m h v : fits_field f v → hget f (hput f m h v) h = v.
Proof. apply load_store_eq. Qed.

Lemma hget_hput_field f g m h v : f ≠ g → hget g (hput f m h v) h = hget g m h.
Proof. intros Hfg%field_apart. apply load_store_ne. lia. Qed.

(** Two headers that do not overlap. *)
Definition apart (h h' : Z) : Prop := h + HEADER_SIZE ≤ h' ∨ h' + HEADER_SIZE ≤ h.

Lemma hget_hput_apart f g m h h' v : apart h h' → hget g (hput f m h v) h' = hget g m h'.
Proof.
  intros Ha. pose proof (field_inside f). pose proof (field_inside g).
  apply load_store_ne. unfold apart in Ha. lia.
Qed.

Lemma hput_outside f m h v x : x < h ∨ h + HEADER_SIZE ≤ x → hput f m h v x = m x.
Proof. intros Hx. pose proof (field_inside f). apply store_outside. lia. Qed.

Lemma fits_next p : word64 p → fits_field FNext p.
Proof. done. Qed.

Lemma write_header_outside m h hdr x :
  x < h ∨ h + HEADER_SIZE ≤ x → write_header m h hdr x = m x.
Proof. intros Hx. unfold write_header. by rewrite !hput_outside. Qed.

Lemma hget_write_header_apart g m h h' hdr :
  apart h h' → hget g (write_header m h hdr) h' = hget g m h'.
Proof. intros Ha. unfold write_header. by rewrite !hget_hput_apart. Qed.

Definition hdr_field (f : field) (hdr : OxHeader) : Z :=
  match f with
  | FNext => h_next hdr | FClass => h_class hdr | FMagic => h_magic hdr | FLifeTime => h_life_time hdr
  end.

Lemma hget_write_header f m h hdr :
  fits_field f (hdr_field f hdr) → hget f (write_header m h hdr) h = hdr_field f hdr.
Proof.
  intros Hf. unfold write_header. destruct f;
    repeat first [rewrite hget_hput_eq by done | rewrite hget_hput_field by done]; done.
Qed.
End Fields.

#[global] Arguments hget : simpl never.
#[global] Arguments hput : simpl never.

#[export] Hint Resolve fits_next bytes_ok_store : ox.

(** Reading a field after writing fields: the last write to it, if any. *)
Ltac read_fields :=
  repeat first
    [ rewrite hget_hput_eq by eauto with ox
    | rewrite hget_hput_field by done
    | rewrite hget_hput_apart by eauto with ox ].
