(* ===== verification/BlockList.v ===== *)
(** * Linked lists of blocks through the headers

    Free blocks are linked by the [next] fields of their headers, in the thread
    caches, in the per-cpu lists and in the chains that move between them.  In
    the hardened build the links and the head are xored with the key of the
    list; a chain in transit has plain links, which is the case of key 0.

    A block whose address equals the key would be encoded as the null pointer,
    which ends a list: [block_ok] excludes it. *)

From S2P Require Import Prelude Bits Lib SizeClass Mem.

(** An access through a pointer: null is not mapped. *)
Definition deref (p : Z) : M unit := if p =? 0 then Abort WildAccess else Ret ().

Lemma deref_ok p : p ≠ 0 → deref p = Ret ().
Proof. intros. unfold deref. by rewrite (proj2 (Z.eqb_neq _ _)). Qed.

Section BlockList.
Context `{Config}.

Definition block_ok (key h : Z) : Prop := 0 < h ∧ word64 h ∧ xor_ptr_general h key ≠ 0.

(** Consecutive blocks of [l] are linked under [key]; the last link is free. *)
Fixpoint linked (m : mem) (key : Z) (l : list Z) : Prop :=
  match l with
  | x :: (y :: _) as l' => hget FNext m x = xor_ptr_general y key ∧ linked m key l'
  | _ => True
  end.

(** The null-terminated list that starts at the encoded pointer [p]. *)
Fixpoint enc_list (m : mem) (key p : Z) (l : list Z) : Prop :=
  match l with
  | [] => p = 0
  | h :: l => block_ok key h ∧ p = xor_ptr_general h key ∧ enc_list m key (hget FNext m h) l
  end.

(** Pairwise disjoint headers. *)
Fixpoint separated (l : list Z) : Prop :=
  match l with
  | [] => True
  | h :: l => Forall (apart h) l ∧ separated l
  end.

(** [m'] differs from [m] in the [next] fields of the blocks of [l] only. *)
Definition only_links (m m' : mem) (l : list Z) : Prop :=
  ∀ x, (∀ h, h ∈ l → x < h + off_next ∨ h + off_next + 8 ≤ x) → m' x = m x.

(** ** Separation *)

Lemma apart_sym h h' : apart h h' → apart h' h.
Proof. unfold apart. lia. Qed.

Lemma apart_ne h h' : apart h h' → h ≠ h'.
Proof. unfold apart. destruct (HEADER_SIZE_cases _) as [-> | ->]; lia. Qed.

Lemma separated_app l1 l2 :
  separated (l1 ++ l2) ↔ separated l1 ∧ separated l2 ∧ Forall (λ x, Forall (apart x) l2) l1.
Proof.
  induction l1 as [|h l1 IH]; cbn [app separated].
  { rewrite Forall_nil. tauto. }
  rewrite IH, Forall_app, Forall_cons. tauto.
Qed.

#[export] Instance separated_proper : Proper (Permutation ==> iff) separated.
Proof.
  intros l1 l2 Hp. induction Hp as [|x l1 l2 Hp IH|x y l|l1 l2 l3 _ IH1 _ IH2]; cbn; [done| | |].
  - by rewrite IH, Hp.
  - rewrite !Forall_cons. pose proof (apart_sym x y). pose proof (apart_sym y x). tauto.
  - by rewrite IH1.
Qed.

(** In the form that the frame lemmas below ask for. *)
Lemma separated_apart ws l : separated (ws ++ l) → Forall (λ h, Forall (apart h) ws) l.
Proof.
  intros (_ & _ & Hap)%separated_app. rewrite Forall_forall in Hap.
  apply Forall_forall. intros h Hh. apply Forall_forall. intros w Hw. apply apart_sym.
  specialize (Hap w Hw). rewrite Forall_forall in Hap. by apply Hap.
Qed.

Lemma separated_elem l h h' : separated l → h ∈ l → h' ∈ l → h ≠ h' → apart h h'.
Proof.
  induction l as [|x l IH]; [by intros _ ?%elem_of_nil|]. intros [Ha Hs].
  rewrite !elem_of_cons. rewrite Forall_forall in Ha.
  intros [->|Hh] [->|Hh'] Hne; [done|by apply Ha|by apply apart_sym, Ha|by apply IH].
Qed.

Lemma separated_mid l1 l2 l3 : separated (l1 ++ l2 ++ l3) → separated (l1 ++ l3).
Proof.
  intros Hs. assert (l1 ++ l2 ++ l3 ≡ₚ l2 ++ (l1 ++ l3)) as Hp by solve_Permutation.
  rewrite Hp in Hs. by apply separated_app in Hs as (_ & ? & _).
Qed.

Lemma separated_NoDup l : separated l → NoDup l.
Proof.
  induction l as [|h l IH]; cbn; [constructor|]. intros [Ha Hs]. constructor; [|by apply IH].
  intros Hin. rewrite Forall_forall in Ha. by apply (apart_ne h h); [apply Ha|].
Qed.

Lemma block_ok_word key h : block_ok key h → word64 h.
Proof. by intros (_ & ? & _). Qed.

Lemma block_ok_words key l : Forall (block_ok key) l → Forall word64 l.
Proof. intros Hl. eapply Forall_impl; [done|]. apply block_ok_word. Qed.

(** There are fewer blocks than addresses, so that a list's length fits in a [usize]. *)
Lemma separated_zlen key l : separated l → Forall (block_ok key) l → zlen l ≤ usize_max.
Proof.
  intros Hs%separated_NoDup Hw. unfold zlen.
  assert (l ⊆+ seqZ 1 usize_max) as Hsub%submseteq_length.
  { apply NoDup_submseteq; [done|]. intros x Hx. rewrite Forall_forall in Hw.
    apply elem_of_seqZ. destruct (Hw x Hx) as (? & Hx64 & _). unfold word64, usize_max, u64_max in *. lia. }
  rewrite length_seqZ in Hsub. unfold usize_max, u64_max in *. lia.
Qed.

(** ** Encoding *)

Lemma xor_ptr_general_inv key h : word64 key → block_ok key h →
  xor_ptr_general (xor_ptr_general h key) key = h.
Proof.
  unfold block_ok, xor_ptr_general. destruct hardened; [|done]. intros Hk (Hp & _ & Hne).
  rewrite (proj2 (Z.eqb_neq h 0)) in * by lia. rewrite (proj2 (Z.eqb_neq _ 0)) by done.
  by rewrite Z.lxor_assoc, Z.lxor_nilpotent, Z.lxor_0_r.
Qed.

Lemma word64_xor_ptr_general key h : word64 h → word64 key → word64 (xor_ptr_general h key).
Proof.
  intros. unfold xor_ptr_general. destruct hardened; [|done]. case_zb; [done|]. by apply word64_lxor.
Qed.

Lemma xor_ptr_general_0 key : xor_ptr_general 0 key = 0.
Proof. unfold xor_ptr_general. by destruct hardened. Qed.

Lemma xor_ptr_general_plain h : xor_ptr_general h 0 = h.
Proof. unfold xor_ptr_general. destruct hardened; [|done]. case_zb; [done|]. apply Z.lxor_0_r. Qed.

Lemma block_ok_plain key h : block_ok key h → block_ok 0 h.
Proof. unfold block_ok. rewrite xor_ptr_general_plain. intros (? & ? & _). split_and!; [done..|lia]. Qed.

(** ** Frame *)

Lemma only_links_refl m l : only_links m m l.
Proof. by intros x _. Qed.

Lemma only_links_trans m1 m2 m3 l :
  only_links m1 m2 l → only_links m2 m3 l → only_links m1 m3 l.
Proof. intros H1 H2 x Hx. by rewrite (H2 x Hx), (H1 x Hx). Qed.

Lemma only_links_mono m m' l1 l2 : l1 ⊆ l2 → only_links m m' l1 → only_links m m' l2.
Proof. intros Hs Ho x Hx. apply Ho. intros h Hh. apply Hx. by apply Hs. Qed.

Lemma only_links_cons m1 m2 m3 x l :
  only_links m1 m2 [x] → only_links m2 m3 l → only_links m1 m3 (x :: l).
Proof.
  intros H1 H2. eapply only_links_trans; eapply only_links_mono; [|done| |done].
  - intros z ->%list_elem_of_singleton. left.
  - intros z Hz. by right.
Qed.

Lemma only_links_hput m h v l : h ∈ l → only_links m (hput FNext m h v) l.
Proof. intros Hl x Hx. apply store_outside. destruct (Hx h Hl); cbn [field_off field_width]; lia. Qed.

(** Fields of headers apart from the written ones, and the other fields of those. *)
Lemma only_links_hget m m' l f h :
  only_links m m' l → Forall (apart h) l → hget f m' h = hget f m h.
Proof.
  intros Ho Ha. apply load_ext. intros x Hx. apply Ho. intros h' Hh'.
  rewrite Forall_forall in Ha. pose proof (Ha h' Hh') as Hap.
  pose proof (field_inside f). pose proof (field_inside FNext) as Hn.
  cbn [field_off field_width] in Hn. unfold apart in Hap. lia.
Qed.

Lemma only_links_field m m' l f h :
  only_links m m' l → f ≠ FNext → Forall (λ h', h' = h ∨ apart h h') l → hget f m' h = hget f m h.
Proof.
  intros Ho Hf Ha. apply load_ext. intros x Hx. apply Ho. intros h' Hh'.
  rewrite Forall_forall in Ha. pose proof (field_inside f). pose proof (field_inside FNext) as Hn.
  pose proof (field_apart f FNext Hf) as Hd. cbn [field_off field_width] in Hn, Hd.
  destruct (Ha h' Hh') as [-> | Hap]; [lia|]. unfold apart in Hap. lia.
Qed.

Lemma only_links_outside m m' l x :
  only_links m m' l → (∀ h, h ∈ l → x < h ∨ h + HEADER_SIZE ≤ x) → m' x = m x.
Proof.
  intros Ho Hx. apply Ho. intros h Hh. pose proof (field_inside FNext) as Hn.
  cbn [field_off field_width] in Hn. destruct (Hx h Hh); lia.
Qed.

Lemma enc_list_frame m m' key p l :
  (∀ h, h ∈ l → hget FNext m' h = hget FNext m h) → enc_list m key p l → enc_list m' key p l.
Proof.
  revert p. induction l as [|h l IH]; intros p Hf; [done|]. intros (Hb & -> & Hl).
  split_and!; [done..|]. rewrite Hf by (by left). apply IH; [|done]. intros x Hx. apply Hf. by right.
Qed.

Lemma enc_list_only_links m m' key p l ws :
  only_links m m' ws → Forall (λ h, Forall (apart h) ws) l → enc_list m key p l → enc_list m' key p l.
Proof.
  intros Ho Ha. apply enc_list_frame. intros h Hh. apply (only_links_hget _ _ ws); [done|].
  rewrite Forall_forall in Ha. by apply Ha.
Qed.

Lemma linked_frame m m' key l :
  (∀ h, h ∈ l → hget FNext m' h = hget FNext m h) → linked m key l → linked m' key l.
Proof.
  induction l as [|x [|y l] IH]; intros Hf; [done|done|]. intros [Hn Hc].
  split; [rewrite Hf by (by left); done|]. apply IH; [|done]. intros h Hh. apply Hf. by right.
Qed.

Lemma enc_list_head_word m key p l : word64 key → enc_list m key p l → word64 p.
Proof.
  destruct l as [|h l]; cbn; intros Hk; [intros ->; done|].
  intros ((_ & Hh & _) & -> & _). by apply word64_xor_ptr_general.
Qed.

Lemma enc_list_blocks m key p l : enc_list m key p l → Forall (block_ok key) l.
Proof. revert p. induction l as [|h l IH]; intros p; [constructor|]. intros (? & _ & Hl). constructor; eauto. Qed.

(** Every link is null or leads to a block of the list. *)
Lemma enc_list_next m key p l x :
  enc_list m key p l → x ∈ l →
  hget FNext m x = 0 ∨ ∃ y, y ∈ l ∧ hget FNext m x = xor_ptr_general y key.
Proof.
  revert p. induction l as [|h l IH]; intros p He Hx; [by apply elem_of_nil in Hx|].
  destruct He as (_ & _ & He). apply elem_of_cons in Hx as [->|Hx].
  - destruct l as [|y l]; [by left|right]. exists y. split; [right; left|]. apply He.
  - destruct (IH _ He Hx) as [?|(y & ? & ?)]; [by left|right]. exists y. split; [by right|done].
Qed.

(** A list is empty exactly when its head pointer is null. *)
Lemma enc_list_null m key p l : enc_list m key p l → p = 0 ↔ l = [].
Proof. destruct l as [|h l]; cbn; [by intros ->|]. intros ((_ & _ & Hne) & -> & _). split; [done|discriminate]. Qed.

(** ** Splitting and joining *)

Lemma enc_list_app m key p l1 l2 t :
  last l1 = Some t →
  enc_list m key p (l1 ++ l2) ↔
    (∃ h, head l1 = Some h ∧ p = xor_ptr_general h key) ∧ Forall (block_ok key) l1 ∧
    linked m key l1 ∧ enc_list m key (hget FNext m t) l2.
Proof.
  revert p. induction l1 as [|x [|y l1] IH]; intros p Ht; [done| |].
  - injection Ht as ->. cbn. rewrite Forall_singleton. naive_solver.
  - cbn [app enc_list]. specialize (IH (hget FNext m x) Ht). cbn [app enc_list] in IH. rewrite IH.
    cbn [linked head]. rewrite (Forall_cons _ x). naive_solver.
Qed.

(** Without hardening links are plain under any key. *)
Lemma linked_unhardened m key key' l : hardened = false → linked m key l → linked m key' l.
Proof.
  intros Hh. induction l as [|x [|y l] IH]; [done..|]. intros [Hn Hc]. split; [|by apply IH].
  revert Hn. unfold xor_ptr_general. by rewrite Hh.
Qed.

(** The last link of a chain is not part of it. *)
Lemma linked_only_last m m' key l t :
  separated l → last l = Some t → only_links m m' [t] → linked m key l → linked m' key l.
Proof.
  intros Hs Ht Ho. induction l as [|x [|y l] IH]; intros Hc; [done..|]. destruct Hs as [Ha Hs], Hc as [Hn Hc].
  split; [|by apply IH]. rewrite (only_links_hget _ _ _ _ _ Ho); [done|]. apply Forall_singleton.
  rewrite Forall_forall in Ha. apply Ha. by apply last_Some_elem_of.
Qed.

Lemma only_links_last m m' l t : last l = Some t → only_links m m' [t] → only_links m m' l.
Proof.
  intros Ht. apply only_links_mono. intros x ->%list_elem_of_singleton. by apply last_Some_elem_of.
Qed.

Lemma only_links_hput_one m h v : only_links m (hput FNext m h v) [h].
Proof. apply only_links_hput. by left. Qed.

(** ** Re-encoding the links of a chain *)

(** [while curr != tail { .. }]: encodes the links of a plain chain, its last one excepted.
    The callers pass the length of the chain, which bounds the rounds. *)
Fixpoint encode_loop (enc : Z → Z) (fuel : nat) (m : mem) (curr tail : Z) : M mem :=
  if curr =? tail then Ret m
  else
    match fuel with
    | O => Abort OutOfFuel
    | S fuel =>
        _ ← deref curr;
        let next_raw := hget FNext m curr in
        encode_loop enc fuel (hput FNext m curr (enc next_raw)) next_raw tail
    end.

(** The inverse loop, which follows the decoded links. *)
Fixpoint decode_loop (dec : Z → Z) (fuel : nat) (m : mem) (curr tail : Z) : M mem :=
  if curr =? tail then Ret m
  else
    match fuel with
    | O => Abort OutOfFuel
    | S fuel =>
        _ ← deref curr;
        let next_raw := dec (hget FNext m curr) in
        decode_loop dec fuel (hput FNext m curr next_raw) next_raw tail
    end.

(** One round of either loop: the link of the first block is rewritten. *)
Lemma linked_relink m key key' x y l :
  Forall (block_ok key') (x :: y :: l) → word64 key' → separated (x :: y :: l) →
  linked m key (x :: y :: l) →
  let m' := hput FNext m x (xor_ptr_general y key') in
  linked m' key (y :: l) ∧ hget FNext m' x = xor_ptr_general y key' ∧
  only_links m m' [x].
Proof.
  intros Hb Hk [Ha _] [_ Hc] m'. rewrite Forall_forall in Hb, Ha. split_and!.
  - revert Hc. apply linked_frame. intros h Hh. unfold m'.
    rewrite hget_hput_apart; [done|]. by apply Ha.
  - apply hget_hput_eq. apply fits_next, word64_xor_ptr_general; [|done].
    eapply block_ok_word, Hb. right; left.
  - apply only_links_hput. left.
Qed.

Lemma encode_loop_chain m key l h t fuel :
  word64 key → head l = Some h → last l = Some t → Forall (block_ok key) l → separated l →
  linked m 0 l → (length l ≤ S fuel)%nat →
  ∃ m', encode_loop (λ p, xor_ptr_general p key) fuel m h t = Ret m' ∧
    linked m' key l ∧ only_links m m' l.
Proof.
  intros Hk. revert m h fuel. induction l as [|x [|y l] IH]; intros m h fuel Hh Ht Hb Hs Hc Hf; [done| |].
  - injection Hh as ->. injection Ht as ->. exists m. destruct fuel; cbn; rewrite Z.eqb_refl;
      (split_and!; [done..|apply only_links_refl]).
  - injection Hh as ->. destruct (linked_relink m 0 key h y l) as (Hc1 & Hn1 & Ho1); [done..|].
    assert (h ≠ t) as Hne.
    { apply apart_ne. destruct Hs as [Ha _]. rewrite Forall_forall in Ha. apply Ha. by apply last_Some_elem_of. }
    destruct fuel as [|fuel]; [cbn in Hf; lia|]. cbn [encode_loop].
    rewrite (proj2 (Z.eqb_neq h t)) by done.
    apply Forall_cons in Hb as [(Hp & _) Hb]. rewrite deref_ok, bind_ret by lia.
    destruct Hc as [Hn _]. rewrite Hn, xor_ptr_general_plain. destruct Hs as [Ha Hs].
    destruct (IH (hput FNext m h (xor_ptr_general y key)) y fuel) as (m' & -> & Hc' & Ho'); try done.
    { cbn in Hf |- *. lia. }
    exists m'. split; [done|]. split; [split; [|done]|].
    + by rewrite (only_links_hget (hput FNext m h (xor_ptr_general y key)) m' (y :: l)).
    + by apply (only_links_cons _ _ _ _ _ Ho1).
Qed.

Lemma decode_loop_chain m key l h t fuel :
  word64 key → head l = Some h → last l = Some t → Forall (block_ok key) l → separated l →
  linked m key l → (length l ≤ S fuel)%nat →
  ∃ m', decode_loop (λ p, xor_ptr_general p key) fuel m h t = Ret m' ∧
    linked m' 0 l ∧ only_links m m' l.
Proof.
  intros Hk. revert m h fuel. induction l as [|x [|y l] IH]; intros m h fuel Hh Ht Hb Hs Hc Hf; [done| |].
  - injection Hh as ->. injection Ht as ->. exists m. destruct fuel; cbn; rewrite Z.eqb_refl;
      (split_and!; [done..|apply only_links_refl]).
  - injection Hh as ->.
    assert (Forall (block_ok 0) (h :: y :: l)) as Hb0.
    { eapply Forall_impl; [done|]. apply block_ok_plain. }
    destruct (linked_relink m key 0 h y l) as (Hc1 & Hn1 & Ho1); [done..|].
    rewrite xor_ptr_general_plain in *.
    assert (h ≠ t) as Hne.
    { apply apart_ne. destruct Hs as [Ha _]. rewrite Forall_forall in Ha. apply Ha. by apply last_Some_elem_of. }
    destruct fuel as [|fuel]; [cbn in Hf; lia|]. cbn [decode_loop].
    rewrite (proj2 (Z.eqb_neq h t)) by done.
    apply Forall_cons in Hb as [(Hp & _) Hb]. rewrite deref_ok, bind_ret by lia.
    destruct Hc as [-> _]. destruct Hs as [Ha Hs].
    rewrite (xor_ptr_general_inv key y Hk (proj1 (proj1 (Forall_cons _ _ _) Hb))).
    destruct (IH (hput FNext m h y) y fuel) as (m' & -> & Hc' & Ho'); try done.
    { cbn in Hf |- *. lia. }
    exists m'. split; [done|]. split; [split; [|done]|].
    + by rewrite (only_links_hget (hput FNext m h y) m' (y :: l)), xor_ptr_general_plain.
    + by apply (only_links_cons _ _ _ _ _ Ho1).
Qed.
End BlockList.

(** Disjointness of concrete blocks. *)
Ltac solve_separated :=
  repeat lazymatch goal with
    | |- separated _ => split
    | |- Forall _ _ => constructor
    | |- apart _ _ => first [by left | by right]
    end; try done.
