(* ===== verification/ThreadLocal.v ===== *)
(** * The thread cache (src/src/slab/thread_local.rs)

    Each thread keeps, per size class, a linked list of free blocks that runs
    through the [next] fields of their headers, and the number of its blocks.
    In the hardened build every stored pointer (the head and all [next] fields)
    is xored with a per-thread key.

    The theorem: each operation acts on the lists as the obvious operation on
    sequences, whatever the build, as long as distinct blocks do not overlap
    and no block lies at the address that equals the key. *)

From S2P Require Import Prelude Bits Lib SizeClass Mem BlockList.

Record TlsBin : Type := mkBin { bin_head : Z; bin_usage : Z }.

Record ThreadLocalEngine : Type := mkEngine {
  tls : list TlsBin;
  pending : list Z;
  xor_key : Z
}.

Definition with_bin (e : ThreadLocalEngine) (class : Z) (b : TlsBin) : ThreadLocalEngine :=
  mkEngine (zinsert (tls e) class b) (pending e) (xor_key e).
Definition with_pending (e : ThreadLocalEngine) (p : list Z) : ThreadLocalEngine :=
  mkEngine (tls e) p (xor_key e).

(** The structure that [init_tls] writes. *)
Definition engine_new (key : Z) : ThreadLocalEngine :=
  mkEngine (replicate (Z.to_nat NUM_SIZE_CLASSES) (mkBin 0 0))
    (replicate (Z.to_nat NUM_SIZE_CLASSES) 0) key.

Section ThreadLocal.
Context `{Config}.

Definition xor_ptr (e : ThreadLocalEngine) (ptr : Z) : Z :=
  if hardened then (if ptr =? 0 then 0 else Z.lxor ptr (xor_key e)) else ptr.

(** [prefetch] has no effect on the state. *)
Definition pop_from_thread (m : mem) (e : ThreadLocalEngine) (class : Z)
    : M (Z * ThreadLocalEngine) :=
  bin ← vget (tls e) class;
  let current_header := bin_head bin in
  if current_header =? 0 then Ret (0, e)
  else
    let header := xor_ptr e current_header in
    _ ← deref header;
    let next := hget FNext m header in
    usage ← usub (bin_usage bin) 1;
    Ret (header, with_bin e class (mkBin next usage)).

Definition push_to_thread (m : mem) (e : ThreadLocalEngine) (class head : Z)
    : M (mem * ThreadLocalEngine) :=
  bin ← vget (tls e) class;
  _ ← deref head;
  let m := hput FNext m head (bin_head bin) in
  usage ← uadd (bin_usage bin) 1;
  Ret (m, with_bin e class (mkBin (xor_ptr e head) usage)).

Definition push_to_thread_tailed (m : mem) (e : ThreadLocalEngine) (class head tail batch_size : Z)
    : M (mem * ThreadLocalEngine) :=
  bin ← vget (tls e) class;
  m ← (if hardened then encode_loop (xor_ptr e) (Z.to_nat batch_size) m head tail else Ret m);
  _ ← deref tail;
  let m := hput FNext m tail (bin_head bin) in
  usage ← uadd (bin_usage bin) batch_size;
  Ret (m, with_bin e class (mkBin (xor_ptr e head) usage)).

Lemma xor_ptr_spec e p : xor_ptr e p = xor_ptr_general p (xor_key e).
Proof. done. Qed.

(** ** What the cache stores *)

Definition bin_rep (m : mem) (key : Z) (b : TlsBin) (l : list Z) : Prop :=
  enc_list m key (bin_head b) l ∧ bin_usage b = zlen l.

(** The bins hold the lists [ls], whose blocks do not overlap. *)
Record engine_rep (m : mem) (e : ThreadLocalEngine) (ls : list (list Z)) : Prop := {
  er_key : word64 (xor_key e);
  er_bins : Forall2 (bin_rep m (xor_key e)) (tls e) ls;
  er_classes : zlen ls = NUM_SIZE_CLASSES;
  er_sep : separated (concat ls)
}.

(** ** The operations on the lists *)

Inductive tls_op : Type :=
| OpPush (class h : Z)
| OpPushTailed (class : Z) (l : list Z)
| OpPop (class : Z).

Definition op_class (op : tls_op) : Z :=
  match op with OpPush c _ | OpPushTailed c _ | OpPop c => c end.

(** The blocks that the operation adds. *)
Definition op_blocks (op : tls_op) : list Z :=
  match op with OpPush _ h => [h] | OpPushTailed _ l => l | OpPop _ => [] end.

(** The operations of the code; a chain is passed as its ends and its length. *)
Definition run_op (m : mem) (e : ThreadLocalEngine) (op : tls_op)
    : M (Z * mem * ThreadLocalEngine) :=
  match op with
  | OpPush class h => '(m, e) ← push_to_thread m e class h; Ret (0, m, e)
  | OpPushTailed class l =>
      '(m, e) ← push_to_thread_tailed m e class (default 0 (head l)) (default 0 (last l)) (zlen l);
      Ret (0, m, e)
  | OpPop class => '(h, e) ← pop_from_thread m e class; Ret (h, m, e)
  end.

(** What they do to the list of their class, and the pointer they return. *)
Definition list_op (op : tls_op) (l : list Z) : Z * list Z :=
  match op with
  | OpPush _ h => (0, h :: l)
  | OpPushTailed _ l' => (0, l' ++ l)
  | OpPop _ => match l with [] => (0, []) | h :: l => (h, l) end
  end.

(** The caller's obligations: a valid class; blocks that are not yet in the cache and whose
    encoding is not null; a chain with plain links and at least one block. *)
Definition op_ok (m : mem) (e : ThreadLocalEngine) (ls : list (list Z)) (op : tls_op) : Prop :=
  0 ≤ op_class op < NUM_SIZE_CLASSES ∧
  Forall (block_ok (xor_key e)) (op_blocks op) ∧
  separated (op_blocks op ++ concat ls) ∧
  linked m 0 (op_blocks op) ∧
  match op with OpPushTailed _ l => l ≠ [] | _ => True end.

(** ** Refinement *)

Lemma engine_rep_frame_next m m' e ls :
  engine_rep m e ls → (∀ h, h ∈ concat ls → hget FNext m' h = hget FNext m h) → engine_rep m' e ls.
Proof.
  intros [Hk Hb Hc Hs] Hn. split; [done| |done..].
  apply Forall2_same_length_lookup_2; [by eapply Forall2_length|].
  intros i b l Hi Hl. destruct (Forall2_lookup_lr _ _ _ _ _ _ Hb Hi Hl) as [He Hu].
  split; [|done]. revert He. apply enc_list_frame. intros h Hh. apply Hn. by eapply elem_of_concat.
Qed.

Lemma engine_rep_frame_apart m m' e ls ws :
  engine_rep m e ls → only_links m m' ws → Forall (λ h, Forall (apart h) ws) (concat ls) →
  engine_rep m' e ls.
Proof.
  intros Hrep Ho Hsep. rewrite Forall_forall in Hsep. apply (engine_rep_frame_next m); [done|].
  intros h Hh. apply (only_links_hget _ _ ws); auto.
Qed.

Lemma engine_rep_frame m m' e ls ws :
  engine_rep m e ls → only_links m m' ws → separated (ws ++ concat ls) → engine_rep m' e ls.
Proof. intros Hrep Ho Hsep%separated_apart. by eapply engine_rep_frame_apart. Qed.

Lemma engine_rep_bin m e ls c :
  engine_rep m e ls → 0 ≤ c < NUM_SIZE_CLASSES →
  ∃ b l, zlookup (tls e) c = Some b ∧ zlookup ls c = Some l ∧ bin_rep m (xor_key e) b l.
Proof.
  intros [Hk Hb Hc Hs] Hlt. destruct (zlookup_lt ls c) as [l Hl]; [lia|].
  setoid_rewrite (zlookup_nonneg _ c); [|lia..]. rewrite zlookup_nonneg in Hl by lia.
  destruct (Forall2_lookup_r _ _ _ _ _ Hb Hl) as (b & ? & ?). eauto.
Qed.

Lemma engine_rep_with_bin m e ls c b l' :
  engine_rep m e ls → bin_rep m (xor_key e) b l' → separated (concat (zinsert ls c l')) →
  engine_rep m (with_bin e c b) (zinsert ls c l').
Proof.
  intros [Hk Hb Hc Hs] Hr Hsep. split; [done| |by rewrite zlen_zinsert|done].
  by apply Forall2_insert.
Qed.

(** The blocks of the operation and of the other classes are apart. *)
Lemma engine_rep_sep m e ls c l :
  engine_rep m e ls → 0 ≤ c → zlookup ls c = Some l →
  ∀ ws, separated (ws ++ concat ls) → separated (concat (zinsert ls c (ws ++ l))).
Proof.
  intros [_ _ _ Hs] Hc Hl ws Hsep. rewrite zlookup_nonneg in Hl by lia.
  destruct (concat_insert_perm _ _ _ Hl) as (rest & Hp & Hi).
  unfold zinsert. rewrite Hi, <- app_assoc, <- Hp. done.
Qed.

(** The counter of a bin cannot overflow. *)
Lemma engine_rep_room m e ls c l ws :
  engine_rep m e ls → 0 ≤ c → zlookup ls c = Some l → separated (ws ++ concat ls) →
  Forall (block_ok (xor_key e)) ws → zlen l + zlen ws ≤ usize_max.
Proof.
  intros Hrep Hc Hl Hsep Hws.
  destruct (engine_rep_bin m e ls c Hrep) as (b & l0 & _ & Hl0 & [He _]).
  { rewrite <- (er_classes _ _ _ Hrep). split; [done|]. by eapply zlookup_Some_lt. }
  simplify_eq. pose proof (separated_zlen (xor_key e) (ws ++ l)) as Hz.
  unfold zlen in *. rewrite length_app in Hz. rewrite Nat2Z.inj_add in Hz.
  rewrite Z.add_comm. apply Hz.
  - pose proof (engine_rep_sep _ _ _ _ _ Hrep Hc Hl ws Hsep) as Hs'.
    destruct (zlookup_lt (zinsert ls c (ws ++ l)) c) as [l' Hl'].
    { rewrite zlen_zinsert. split; [done|]. by eapply zlookup_Some_lt. }
    pose proof Hl' as Hl''. rewrite zlookup_zinsert_eq in Hl'' by by eapply zlookup_Some_lt.
    injection Hl'' as <-. rewrite zlookup_nonneg in Hl' by lia.
    destruct (concat_insert_perm _ _ _ Hl') as (rest & Hp & _). rewrite Hp in Hs'.
    by apply separated_app in Hs' as [? _].
  - apply Forall_app. split; [done|]. by eapply enc_list_blocks.
Qed.

(** The common end of the two pushes: the chain [ws], linked under the key, goes in front. *)
Lemma push_chain m m' e ls c b l ws h t :
  engine_rep m e ls → 0 ≤ c < NUM_SIZE_CLASSES →
  zlookup (tls e) c = Some b → zlookup ls c = Some l → bin_rep m (xor_key e) b l →
  Forall (block_ok (xor_key e)) ws → separated (ws ++ concat ls) →
  only_links m m' ws → linked m' (xor_key e) ws → head ws = Some h → last ws = Some t →
  ∃ usage, uadd (bin_usage b) (zlen ws) = Ret usage ∧
    let m'' := hput FNext m' t (bin_head b) in
    engine_rep m'' (with_bin e c (mkBin (xor_ptr e h) usage)) (zinsert ls c (ws ++ l)) ∧
    only_links m m'' ws.
Proof.
  intros Hrep Hc Hb Hl [He Hu] Hws Hsep Ho Hch Hh Ht.
  pose proof (engine_rep_room _ _ _ _ _ ws Hrep (proj1 Hc) Hl Hsep Hws) as Hroom.
  exists (zlen (ws ++ l)). rewrite Hu. split.
  { rewrite uadd_ok by lia. unfold zlen. rewrite length_app. f_equal. lia. }
  assert (only_links m (hput FNext m' t (bin_head b)) ws) as Ho2.
  { eapply only_links_trans; [done|]. apply only_links_hput. by apply last_Some_elem_of. }
  split; [|done].
  pose proof (engine_rep_frame _ _ _ _ _ Hrep Ho2 Hsep) as Hrep'.
  pose proof (engine_rep_sep _ _ _ _ _ Hrep (proj1 Hc) Hl ws Hsep) as Hsep'.
  apply engine_rep_with_bin; [done| |done]. split; [|done]. cbn [bin_head].
  destruct (engine_rep_bin _ _ _ c Hrep' Hc) as (b' & l' & Hb' & Hl' & [He' _]). simplify_eq.
  apply (enc_list_app _ _ _ _ _ t Ht). split_and!; [by exists h|done| |].
  - apply (linked_only_last m' _ _ _ t); try done; [|apply only_links_hput_one].
    by apply separated_app in Hsep as [? _].
  - rewrite hget_hput_eq by (by apply fits_next, (enc_list_head_word m (xor_key e) _ l); [apply Hrep|]). done.
Qed.

Lemma push_to_thread_ok m e ls c h :
  engine_rep m e ls → op_ok m e ls (OpPush c h) →
  ∃ m' e' l, push_to_thread m e c h = Ret (m', e') ∧ zlookup ls c = Some l ∧
    engine_rep m' e' (zinsert ls c (h :: l)) ∧ only_links m m' [h] ∧
    pending e' = pending e ∧ xor_key e' = xor_key e.
Proof.
  intros Hrep (Hc & Hws & Hsep & Hch & _). cbn [op_class op_blocks] in *.
  destruct (engine_rep_bin _ _ _ c Hrep Hc) as (b & l & Hb & Hl & Hbl).
  destruct (push_chain m m e ls c b l [h] h h) as (u & Hu & Hrep' & Ho);
    try done.
  unfold push_to_thread. rewrite (vget_ok _ _ _ Hb), bind_ret.
  apply Forall_singleton in Hws as (Hp & _).
  rewrite deref_ok, bind_ret by lia. change (zlen [h]) with 1 in Hu. rewrite Hu, bind_ret.
  eexists _, _, l. split_and!; done.
Qed.

Lemma push_to_thread_tailed_ok m e ls c ws h t :
  engine_rep m e ls → op_ok m e ls (OpPushTailed c ws) → head ws = Some h → last ws = Some t →
  ∃ m' e' l, push_to_thread_tailed m e c h t (zlen ws) = Ret (m', e') ∧ zlookup ls c = Some l ∧
    engine_rep m' e' (zinsert ls c (ws ++ l)) ∧ only_links m m' ws ∧
    pending e' = pending e ∧ xor_key e' = xor_key e.
Proof.
  intros Hrep (Hc & Hws & Hsep & Hch & _) Hh Ht. cbn [op_class op_blocks] in *.
  destruct (engine_rep_bin _ _ _ c Hrep Hc) as (b & l & Hb & Hl & Hbl).
  assert (∃ m', (if hardened then encode_loop (xor_ptr e) (Z.to_nat (zlen ws)) m h t else Ret m) = Ret m' ∧
    linked m' (xor_key e) ws ∧ only_links m m' ws) as (m' & Hm' & Hch' & Ho).
  { destruct hardened eqn:Hhard.
    - apply (encode_loop_chain m (xor_key e)); try done; [apply Hrep| |].
      + by apply separated_app in Hsep as [? _].
      + unfold zlen. lia.
    - exists m. split_and!; [done| |apply only_links_refl]. by apply (linked_unhardened _ 0). }
  destruct (push_chain m m' e ls c b l ws h t) as (u & Hu & Hrep' & Ho'); [done..|].
  unfold push_to_thread_tailed. rewrite (vget_ok _ _ _ Hb), bind_ret, Hm', bind_ret.
  rewrite Forall_forall in Hws. destruct (Hws t) as (Hp & _); [by apply last_Some_elem_of|].
  rewrite deref_ok, bind_ret by lia. rewrite Hu, bind_ret.
  eexists _, _, l. split_and!; done.
Qed.

Lemma pop_from_thread_ok m e ls c :
  engine_rep m e ls → 0 ≤ c < NUM_SIZE_CLASSES →
  ∃ e' l, zlookup ls c = Some l ∧
    pop_from_thread m e c = Ret (fst (list_op (OpPop c) l), e') ∧
    engine_rep m e' (zinsert ls c (snd (list_op (OpPop c) l))) ∧
    pending e' = pending e ∧ xor_key e' = xor_key e.
Proof.
  intros Hrep Hc. destruct (engine_rep_bin _ _ _ c Hrep Hc) as (b & l & Hb & Hl & [He Hu]).
  pose proof Hl as Hl'. rewrite zlookup_nonneg in Hl' by lia.
  unfold pop_from_thread. rewrite (vget_ok _ _ _ Hb), bind_ret.
  destruct l as [|h l]; cbn [list_op fst snd].
  - exists e, []. cbn in He. rewrite He. split_and!; try done.
    unfold zinsert. by rewrite list_insert_id.
  - destruct He as (Hok & Hhd & He). rewrite Hhd.
    destruct (Hok) as (Hp & _ & Hne). rewrite (proj2 (Z.eqb_neq _ 0)) by done.
    rewrite xor_ptr_spec, xor_ptr_general_inv by (done || apply Hrep).
    rewrite deref_ok, bind_ret by lia.
    rewrite Hu, usub_ok, bind_ret by (unfold zlen; cbn; lia).
    eexists _, (h :: l). split_and!; try done.
    apply engine_rep_with_bin; [done| |].
    + split; [done|]. unfold zlen; cbn [bin_usage length snd]. lia.
    + destruct (concat_insert_perm _ _ _ Hl') as (rest & Hp' & Hi). unfold zinsert. rewrite Hi.
      pose proof (er_sep _ _ _ Hrep) as Hs. rewrite Hp' in Hs. by destruct Hs.
Qed.

(** Every operation of a thread's cache does what it does on lists of blocks. *)
Theorem thread_cache_refines m e ls op :
  engine_rep m e ls → op_ok m e ls op →
  ∃ r l l' m' e', run_op m e op = Ret (r, m', e') ∧
    zlookup ls (op_class op) = Some l ∧ list_op op l = (r, l') ∧
    engine_rep m' e' (zinsert ls (op_class op) l') ∧
    only_links m m' (op_blocks op) ∧ pending e' = pending e ∧ xor_key e' = xor_key e.
Proof.
  intros Hrep Hok. destruct op as [c h|c ws|c]; cbn [run_op op_class op_blocks].
  - destruct (push_to_thread_ok _ _ _ _ _ Hrep Hok) as (m' & e' & l & -> & ? & ? & ? & ? & ?).
    eexists 0, l, _, m', e'. split_and!; done.
  - pose proof Hok as (_ & _ & _ & _ & Hne).
    destruct (head ws) as [h|] eqn:Hh; [|by destruct ws].
    destruct (last ws) as [t|] eqn:Ht; [|by apply last_None in Ht].
    cbn [default from_option]. unfold id.
    destruct (push_to_thread_tailed_ok _ _ _ _ _ _ _ Hrep Hok Hh Ht) as (m' & e' & l & -> & ? & ? & ? & ? & ?).
    eexists 0, l, _, m', e'. split_and!; done.
  - destruct (pop_from_thread_ok m e ls c Hrep (proj1 Hok)) as (e' & l & Hl & -> & ? & ? & ?).
    eexists _, l, _, m, e'. split_and!; try done. by destruct l.
Qed.
End ThreadLocal.

(** A new cache is empty. *)
Lemma engine_new_rep (c : Config) m key :
  word64 key → engine_rep m (engine_new key) (replicate (Z.to_nat NUM_SIZE_CLASSES) []).
Proof.
  intros Hk. split; [done| |done|].
  - apply Forall2_replicate. done.
  - assert (concat (replicate (Z.to_nat NUM_SIZE_CLASSES) ([] : list Z)) = []) as -> by done. done.
Qed.

(** Two blocks, linked, are pushed to an empty hardened cache. *)
Lemma thread_cache_refines_witness :
  let m := @hput hardened_build FNext (λ _, 0) 4096 8192 in
  @run_op hardened_build m (engine_new 12345) (OpPushTailed 3 [4096; 8192])
    ≫= (λ '(_, m, e), '(p, _, _) ← @run_op hardened_build m e (OpPop 3); Ret p) = Ret 4096 ∧
  ∃ m' e', @run_op hardened_build m (engine_new 12345) (OpPushTailed 3 [4096; 8192]) = Ret (0, m', e') ∧
    @engine_rep hardened_build m' e' (zinsert (replicate 34 []) 3 [4096; 8192]).
Proof.
  intros m. split; [by vm_compute|].
  destruct (@thread_cache_refines hardened_build m (engine_new 12345) (replicate 34 [])
    (OpPushTailed 3 [4096; 8192])) as (r & l & l' & m' & e' & Hrun & Hl & Hop & Hrep & _).
  - apply (engine_new_rep hardened_build). done.
  - split_and!; try done; cbn; repeat constructor; try done; right; done.
  - injection Hl as <-. injection Hop as <- <-. by exists m', e'.
Defined.
