(* ===== verification/Interconnect.v ===== *)
(** * The per-cpu lists (src/src/slab/interconnect.rs, slab/global.rs)

    [InterConnectCache] keeps, for every cpu and size class, a stack of free
    blocks that all threads share and a counter of its blocks.  In the default
    build a head is packed with a 4-bit tag that every update increments; in the
    hardened build heads and links are xored with [NUMA_KEY] and a lock per cpu
    and class replaces the tag.  [GlobalHandler] encodes chains on their way in.

    The functions run here without interference ([StackRace.v] interleaves them): the compare-and-swap of a loop
    then succeeds in its first round, except that [compare_exchange_weak] may
    fail spuriously, and the locks are free ([Lock.v] is about them).

    The table is one row of classes per cpu: cell [cpu * NUM_SIZE_CLASSES + class]. *)

From S2P Require Import Prelude Bits Lib Sys SizeClass Mem BlockList.

Definition ABA_TAG_BITS : Z := 4.
Definition ABA_TAG_MASK : Z := Z.shiftl 1 ABA_TAG_BITS - 1.
Definition ABA_PTR_MASK : Z := lnot64 ABA_TAG_MASK.

Section Heads.
Context `{Config}.

Definition head_pack (ptr tag : Z) : Z :=
  if hardened then ptr else Z.lor ptr (Z.land tag ABA_TAG_MASK).

Definition head_ptr (val : Z) : Z := if hardened then val else Z.land val ABA_PTR_MASK.

Definition head_tag (val : Z) : Z := if hardened then 0 else Z.land val ABA_TAG_MASK.

(** Blocks are aligned to 16, so that a packed head gives back both of its parts. *)
Definition packable (p : Z) : Prop := word64 p ∧ p mod 16 = 0.

Lemma land_tag_mask x : 0 ≤ x → Z.land x ABA_TAG_MASK = x mod 16.
Proof. intros. unfold ABA_TAG_MASK. change (Z.shiftl 1 ABA_TAG_BITS - 1) with (Z.ones 4). by rewrite Z.land_ones. Qed.

Lemma land_ptr_mask x : word64 x → Z.land x ABA_PTR_MASK = x / 16 * 16.
Proof.
  intros. unfold ABA_PTR_MASK. change ABA_TAG_MASK with (2 ^ 4 - 1). by rewrite land_lnot64_ones.
Qed.

Lemma lor_tag p t : p mod 16 = 0 → 0 ≤ p → Z.lor p (t mod 16) = p + t mod 16.
Proof.
  intros Hp Hp0. rewrite Z.add_nocarry_lxor, Z.lxor_lor; try done.
  all: apply Z.bits_inj'; intros i Hi; rewrite Z.land_spec, Z.bits_0;
    destruct (Z.lt_ge_cases i 4).
  all: try (replace p with (p / 2 ^ 4 * 2 ^ 4) by zdiv; rewrite Z.mul_pow2_bits_low by lia; done).
  all: change 16 with (2 ^ 4); rewrite Z.mod_pow2_bits_high by lia; apply andb_false_r.
Qed.

Lemma head_ptr_pack p t : (hardened = false → packable p) → 0 ≤ t → head_ptr (head_pack p t) = p.
Proof.
  intros Hpk Ht. unfold head_ptr, head_pack, word64 in *. destruct hardened; [done|].
  destruct Hpk as [Hw Hp]; [done|]. unfold word64 in Hw. rewrite land_tag_mask, lor_tag by lia. rewrite land_ptr_mask; [zdiv|]. unfold word64. zdiv.
Qed.

Lemma head_tag_pack p t :
  hardened = false → packable p → 0 ≤ t → head_tag (head_pack p t) = t mod 16.
Proof.
  intros Hh [Hw Hp] Ht. unfold head_tag, head_pack, word64 in *. rewrite Hh.
  rewrite !land_tag_mask; [|lia|rewrite land_tag_mask, lor_tag by lia; zdiv].
  rewrite lor_tag by lia. zdiv.
Qed.

Lemma head_tag_nonneg v : word64 v → 0 ≤ head_tag v < 16.
Proof.
  unfold head_tag, word64. destruct hardened; [lia|]. intros. rewrite land_tag_mask by lia.
  apply Z.mod_pos_bound. lia.
Qed.

Lemma word64_head_pack p t :
  word64 p → (hardened = false → packable p) → 0 ≤ t → word64 (head_pack p t).
Proof.
  intros Hw Hpk Ht. unfold head_pack, word64 in *. destruct hardened; [done|].
  destruct Hpk as [_ Hp]; [done|]. rewrite land_tag_mask, lor_tag by lia. zdiv.
Qed.
End Heads.

(** ** State *)

Record InterConnectCache : Type := mkICC {
  icc_list : list Z;
  icc_usage : list Z;
  icc_ncpu : Z;
  icc_once : bool
}.
Definition InterConnectCache_new : InterConnectCache := mkICC [] [] 0 false.

Definition with_cell (icc : InterConnectCache) (i head usage : Z) : InterConnectCache :=
  mkICC (zinsert (icc_list icc) i head) (zinsert (icc_usage icc) i usage) (icc_ncpu icc) (icc_once icc).

(** [&*self.list.add(cpu)] and the index of a class in the row: the pointer is not checked,
    the index is. *)
Definition icc_cell (icc : InterConnectCache) (cpu class : Z) : M Z :=
  if (0 <=? cpu) && (cpu <? icc_ncpu icc) then
    if (0 <=? class) && (class <? NUM_SIZE_CLASSES) then Ret (cpu * NUM_SIZE_CLASSES + class)
    else Abort (Panic IndexOutOfBounds)
  else Abort WildAccess.

Section ICC.
Context `{Config}.
Context {K : Type} `{Kernel K}.

(** The value of [NUMA_KEY], and the address of [get_cpu_count]'s buffer. *)
Context (NUMA_KEY mask_buf : Z).

Definition rw : MMapFlags := mkFlags (Z.lor Prot_READ Prot_WRITE) Map_PRIVATE.

(** The macro [mmap!]. *)
Definition icc_mmap (size : Z) (k : K) : M (Z * K) :=
  '(r, k) ← mmap_memory 0 size rw k;
  match r with Ok p => Ret (p, k) | Err _ => log_and_abort ICCFailedToInitialize end.

Definition SIZE_OF_ROW : Z := 8 * NUM_SIZE_CLASSES.

(** A [GlobalLock] is one byte per class. *)
Definition SIZE_OF_LOCKS : Z := NUM_SIZE_CLASSES.

(** The mapped rows are zero. *)
Definition ensure_cache (icc : InterConnectCache) (k : K) : M (InterConnectCache * K) :=
  if icc_once icc then Ret (icc, k)
  else
    let '(thread_count, k) := get_cpu_count mask_buf k in
    size ← umul SIZE_OF_ROW thread_count;
    '(_, k) ← icc_mmap size k;
    '(_, k) ← icc_mmap size k;
    k ← (if hardened then
           size ← umul SIZE_OF_LOCKS thread_count;
           '(_, k) ← icc_mmap size k; Ret k
         else Ret k);
    let cells := Z.to_nat (thread_count * NUM_SIZE_CLASSES) in
    Ret (mkICC (replicate cells 0) (replicate cells 0) thread_count true, k).

(** [id] is the result of [sched_getcpu]. *)
Definition get_cpu_id (id : Z) : result Z Z := if id <? 0 then Sys.Err id else Ok id.
Definition unwrap_or_0 (r : result Z Z) : Z := match r with Ok c => c | Err _ => 0 end.

(** The [loop] of [try_push] from its [current_head] on; [spurious] says which of the rounds'
    compare-and-swaps fail without a reason.  The result is the stored head. *)
Fixpoint push_loop (spurious : list bool) (m : mem) (actual head tail current_head : Z) : mem * Z :=
  let m := hput FNext m tail (head_ptr current_head) in
  match spurious with
  | true :: rest => push_loop rest m actual head tail actual
  | _ => (m, head_pack (xor_ptr_general head NUMA_KEY) (wrapping_add64 (head_tag current_head) 1))
  end.

Definition try_push (m : mem) (icc : InterConnectCache) (class head tail batch_size cpu : Z)
    (spurious : list bool) (k : K) : M (mem * InterConnectCache * K) :=
  '(icc, k) ← ensure_cache icc k;
  let thread_id := unwrap_or_0 (get_cpu_id cpu) in
  i ← icc_cell icc thread_id class;
  current_head ← vget (icc_list icc) i;
  usage ← vget (icc_usage icc) i;
  _ ← deref tail;
  let '(m, new_head) := push_loop spurious m current_head head tail current_head in
  Ret (m, with_cell icc i new_head (wrapping_add64 usage batch_size), k).

Fixpoint get_size_loop (n : nat) (icc : InterConnectCache) (i class total : Z) : M Z :=
  match n with
  | O => Ret total
  | S n =>
      c ← icc_cell icc i class;
      u ← vget (icc_usage icc) c;
      total ← uadd total u;
      get_size_loop n icc (i + 1) class total
  end.

Definition get_size (icc : InterConnectCache) (class : Z) : M Z :=
  get_size_loop (Z.to_nat (icc_ncpu icc)) icc 0 class 0.

(** [for _ in 1..batch_size { .. }]: the last block taken and the number of blocks. *)
Fixpoint take_loop (n : nat) (m : mem) (tail count : Z) : M (Z * Z) :=
  match n with
  | O => Ret (tail, count)
  | S n =>
      _ ← deref tail;
      let next_enc := hget FNext m tail in
      if next_enc =? 0 then Ret (tail, count)
      else take_loop n m (xor_ptr_general next_enc NUMA_KEY) (count + 1)
  end.

Definition pop (m : mem) (icc : InterConnectCache) (class batch_size thread_id : Z) (k : K)
    : M (option Z * mem * InterConnectCache * K) :=
  '(icc, k) ← ensure_cache icc k;
  i ← icc_cell icc thread_id class;
  usage ← vget (icc_usage icc) i;
  if usage =? 0 then Ret (None, m, icc, k)
  else
    cur ← vget (icc_list icc) i;
    if head_ptr cur =? 0 then Ret (None, m, icc, k)
    else
      let head := xor_ptr_general (head_ptr cur) NUMA_KEY in
      '(tail, count) ← take_loop (Z.to_nat (batch_size - 1)) m head 1;
      _ ← deref tail;
      let new_head_enc := hget FNext m tail in
      let icc :=
        with_cell icc i (head_pack new_head_enc (wrapping_add64 (head_tag cur) 1))
          (wrapping_sub64 usage count) in
      m ← (if hardened then
             decode_loop (λ p, xor_ptr_general p NUMA_KEY) (Z.to_nat count) m head tail
           else Ret m);
      Ret (Some head, hput FNext m tail 0, icc, k).

(** [for i in 1..ncpu { .. }]. *)
Fixpoint steal_loop (n : nat) (i : Z) (m : mem) (icc : InterConnectCache)
    (class batch_size cpu ncpu : Z) (k : K) : M (Z * mem * InterConnectCache * K) :=
  match n with
  | O => Ret (0, m, icc, k)
  | S n =>
      s ← uadd cpu i;
      victim ← urem s ncpu;
      '(r, m, icc, k) ← pop m icc class batch_size victim k;
      match r with
      | Some block => Ret (block, m, icc, k)
      | None => steal_loop n (i + 1) m icc class batch_size cpu ncpu k
      end
  end.

(** [ncpu] is read before the first [pop] runs [ensure_cache]. *)
Definition try_pop (m : mem) (icc : InterConnectCache) (class batch_size cpu : Z) (k : K)
    : M (Z * mem * InterConnectCache * K) :=
  let cpu := unwrap_or_0 (get_cpu_id cpu) in
  let ncpu := icc_ncpu icc in
  '(r, m, icc, k) ← pop m icc class batch_size cpu k;
  match r with
  | Some popped => Ret (popped, m, icc, k)
  | None => steal_loop (Z.to_nat (ncpu - 1)) 1 m icc class batch_size cpu ncpu k
  end.

(** ** [GlobalHandler] *)

Definition push_to_global (m : mem) (icc : InterConnectCache) (class head tail batch_size cpu : Z)
    (spurious : list bool) (k : K) : M (mem * InterConnectCache * K) :=
  m ← (if hardened then
         encode_loop (λ p, xor_ptr_general p NUMA_KEY) (Z.to_nat batch_size) m head tail
       else Ret m);
  try_push m icc class head tail batch_size cpu spurious k.

Definition pop_from_global (m : mem) (icc : InterConnectCache) (class batch_size cpu : Z) (k : K)
    : M (Z * mem * InterConnectCache * K) :=
  try_pop m icc class batch_size cpu k.
End ICC.
