(* ===== verification/InterconnectSpec.v ===== *)
(** * The per-cpu lists as sequences

    Every cell of the table stands for a list of blocks.  Pushing a chain puts
    it in front of one list; popping takes at most a batch from the front of the
    first list of the class that is not empty, in cyclic order from the own cpu,
    and hands it over as a plain null-terminated chain; the counters are the
    lengths. *)

From S2P Require Import Prelude Bits Lib Sys SizeClass Mem BlockList Interconnect.

Section Spec.
Context `{Config}.
Context (NUMA_KEY : Z).

Definition cell_index (cpu class : Z) : Z := cpu * NUM_SIZE_CLASSES + class.

Definition cell_rep (m : mem) (v u : Z) (l : list Z) : Prop :=
  word64 v ∧ enc_list m NUMA_KEY (head_ptr v) l ∧ u = zlen l.

(** The table after [ensure_cache] holds the lists [ls], whose blocks are aligned and do not
    overlap. *)
Record icc_rep (m : mem) (icc : InterConnectCache) (ls : list (list Z)) : Prop := {
  ir_once : icc_once icc = true;
  ir_ncpu : 0 < icc_ncpu icc ≤ 65536;
  ir_len : zlen ls = icc_ncpu icc * NUM_SIZE_CLASSES;
  ir_heads : zlen (icc_list icc) = zlen ls;
  ir_usage : zlen (icc_usage icc) = zlen ls;
  ir_cells : ∀ i l, zlookup ls i = Some l →
    ∃ v u, zlookup (icc_list icc) i = Some v ∧ zlookup (icc_usage icc) i = Some u ∧ cell_rep m v u l;
  ir_sep : separated (concat ls);
  ir_aligned : Forall (λ h, h mod 16 = 0) (concat ls)
}.

Definition valid_cell (icc : InterConnectCache) (cpu class : Z) : Prop :=
  0 ≤ cpu < icc_ncpu icc ∧ 0 ≤ class < NUM_SIZE_CLASSES.

Lemma icc_cell_ok icc cpu class :
  valid_cell icc cpu class → icc_cell icc cpu class = Ret (cell_index cpu class).
Proof. intros [Hcpu Hc]. unfold icc_cell. by rewrite !(proj2 (Z.leb_le _ _)), !(proj2 (Z.ltb_lt _ _)) by lia. Qed.

Lemma cell_index_bound icc cpu class :
  valid_cell icc cpu class → 0 ≤ cell_index cpu class < icc_ncpu icc * NUM_SIZE_CLASSES.
Proof. unfold valid_cell, cell_index. change NUM_SIZE_CLASSES with 34. nia. Qed.

Lemma icc_rep_cell m icc ls cpu class :
  icc_rep m icc ls → valid_cell icc cpu class →
  ∃ l v u, icc_cell icc cpu class = Ret (cell_index cpu class) ∧
    zlookup ls (cell_index cpu class) = Some l ∧
    vget (icc_list icc) (cell_index cpu class) = Ret v ∧
    vget (icc_usage icc) (cell_index cpu class) = Ret u ∧ cell_rep m v u l.
Proof.
  intros Hrep Hv. pose proof (cell_index_bound _ _ _ Hv) as Hi.
  destruct (zlookup_lt ls (cell_index cpu class)) as [l Hl]; [rewrite (ir_len _ _ _ Hrep); lia|].
  destruct (ir_cells _ _ _ Hrep _ _ Hl) as (v & u & Hv' & Hu & Hc).
  exists l, v, u. rewrite icc_cell_ok, (vget_ok _ _ _ Hv'), (vget_ok _ _ _ Hu) by done. done.
Qed.

(** The table after [ensure_cache] has created it. *)
Lemma icc_rep_empty m ncpu :
  0 < ncpu ≤ 65536 →
  let cells := Z.to_nat (ncpu * NUM_SIZE_CLASSES) in
  icc_rep m (mkICC (replicate cells 0) (replicate cells 0) ncpu true) (replicate cells []).
Proof.
  intros Hn cells. assert (concat (replicate cells []) = ([] : list Z)) as Hc.
  { clear Hn. generalize cells. intros n. induction n as [|n IH]; [done|]. exact IH. }
  split; cbn; try rewrite Hc; try done.
  - unfold zlen, cells. rewrite length_replicate. change NUM_SIZE_CLASSES with 34. lia.
  - unfold zlen. by rewrite !length_replicate.
  - unfold zlen. by rewrite !length_replicate.
  - intros i l Hl. pose proof (zlookup_Some_lt _ _ _ Hl) as Hi. unfold zlen in Hi.
    rewrite length_replicate in Hi. rewrite zlookup_nonneg in Hl by lia.
    apply lookup_replicate in Hl as [-> _].
    exists 0, 0. rewrite !zlookup_nonneg, !lookup_replicate_2 by lia. split; [done|]. split; [done|].
    split; [done|]. split; [|done]. unfold head_ptr. by destruct hardened.
Qed.

(** A cell gets the list [l'] after writes to the links of blocks of no other cell. *)
Lemma icc_rep_with_cell m m' icc ls i v u l' ws :
  icc_rep m icc ls → 0 ≤ i < zlen ls → only_links m m' ws →
  separated (ws ++ concat (zinsert ls i [])) → cell_rep m' v u l' →
  separated (concat (zinsert ls i l')) → Forall (λ h, h mod 16 = 0) l' →
  icc_rep m' (with_cell icc i v u) (zinsert ls i l').
Proof.
  intros [Ho Hn Hlen Hh Hu Hcells Hs Ha] Hi Hw Hsep Hc Hs' Ha'.
  destruct (zlookup_lt ls i Hi) as [l Hl]. destruct (concat_zinsert_perm _ _ _ Hl) as (rest & Hp & Hins).
  split; cbn; rewrite ?zlen_zinsert; try done.
  - intros j lj Hj. destruct (decide (j = i)) as [-> | Hne].
    + rewrite zlookup_zinsert_eq in Hj by done. injection Hj as <-.
      exists v, u. rewrite !zlookup_zinsert_eq by lia. done.
    + rewrite zlookup_zinsert_ne in Hj by lia.
      destruct (Hcells j lj Hj) as (vj & uj & Hvj & Huj & Hwj & Hej & Hzj).
      exists vj, uj. rewrite !zlookup_zinsert_ne by lia. split; [done|]. split; [done|].
      split; [done|]. split; [|done].
      apply (enc_list_only_links m m' _ _ _ ws); [done| |done].
      apply separated_apart in Hsep. rewrite Forall_forall in Hsep.
      apply Forall_forall. intros h Hin. apply Hsep.
      apply (elem_of_concat_z _ j lj); [|done]. by rewrite zlookup_zinsert_ne by lia.
  - rewrite Hins. rewrite Hp in Ha. apply Forall_app in Ha as [_ Ha]. by apply Forall_app.
Qed.

Lemma icc_rep_frame_next m m' icc ls :
  icc_rep m icc ls → (∀ h, h ∈ concat ls → hget FNext m' h = hget FNext m h) → icc_rep m' icc ls.
Proof.
  intros [Ho Hn Hlen Hh Hu Hcells Hs Ha] Hnx. split; try done.
  intros i l Hl. destruct (Hcells i l Hl) as (v & u & ? & ? & ? & He & ?).
  exists v, u. split; [done|]. split; [done|]. split; [done|]. split; [|done].
  revert He. apply enc_list_frame. intros h Hin. apply Hnx. by eapply elem_of_concat_z.
Qed.

Lemma icc_rep_frame_apart m m' icc ls ws :
  icc_rep m icc ls → only_links m m' ws → Forall (λ h, Forall (apart h) ws) (concat ls) →
  icc_rep m' icc ls.
Proof.
  intros Hrep Ho Hsep. rewrite Forall_forall in Hsep. apply (icc_rep_frame_next m); [done|].
  intros h Hh. apply (only_links_hget _ _ ws); auto.
Qed.

Lemma icc_rep_frame m m' icc ls ws :
  icc_rep m icc ls → only_links m m' ws → separated (ws ++ concat ls) → icc_rep m' icc ls.
Proof. intros Hrep Ho Hsep%separated_apart. by eapply icc_rep_frame_apart. Qed.

(** ** Pushing *)

(** Whatever fails spuriously, the loop links the tail to the head that was there. *)
Lemma push_loop_spec sp m v head tail :
  ∃ m', push_loop NUMA_KEY sp m v head tail v =
    (hput FNext m' tail (head_ptr v),
     head_pack (xor_ptr_general head NUMA_KEY) (wrapping_add64 (head_tag v) 1)) ∧ only_links m m' [tail].
Proof.
  revert m. induction sp as [|[|] sp IH]; intros m; cbn [push_loop].
  - exists m. split; [done|apply only_links_refl].
  - destruct (IH (hput FNext m tail (head_ptr v))) as (m' & -> & Ho).
    exists m'. split; [done|]. eapply only_links_trans; [|done]. apply only_links_hput. by left.
  - exists m. split; [done|apply only_links_refl].
Qed.

Lemma packable_head p h l :
  word64 NUMA_KEY → (hardened = false → Forall (λ h, h mod 16 = 0) l) → head l = Some h → Forall word64 l →
  p = xor_ptr_general h NUMA_KEY → word64 p ∧ (hardened = false → packable p).
Proof.
  intros Hk Ha Hh Hw ->. destruct l as [|h' l]; [done|]. injection Hh as ->.
  apply Forall_cons in Hw as [Hw _]. split; [by apply word64_xor_ptr_general|].
  intros Hhard. specialize (Ha Hhard). apply Forall_cons in Ha as [Ha _].
  unfold xor_ptr_general. rewrite Hhard. done.
Qed.

Definition blocks_ok (l : list Z) : Prop := Forall (block_ok NUMA_KEY) l ∧ Forall (λ h, h mod 16 = 0) l.

(** A chain that is linked under the key goes in front of the list of the cell. *)
Lemma try_push_ok {K} `{Kernel K} mask_buf m icc ls class ws h t cpu sp (k : K) :
  word64 NUMA_KEY → icc_rep m icc ls → valid_cell icc (unwrap_or_0 (get_cpu_id cpu)) class →
  head ws = Some h → last ws = Some t → blocks_ok ws → separated (ws ++ concat ls) →
  linked m NUMA_KEY ws →
  let i := cell_index (unwrap_or_0 (get_cpu_id cpu)) class in
  ∃ m' icc' l, try_push NUMA_KEY mask_buf m icc class h t (zlen ws) cpu sp k = Ret (m', icc', k) ∧
    zlookup ls i = Some l ∧ icc_rep m' icc' (zinsert ls i (ws ++ l)) ∧ only_links m m' ws ∧
    icc_ncpu icc' = icc_ncpu icc.
Proof.
  intros Hk Hrep Hv Hh Ht [Hok Hal] Hsep Hlk i.
  destruct (icc_rep_cell _ _ _ _ _ Hrep Hv) as (l & v & u & Hcell & Hl & Hgv & Hgu & Hwv & Hel & Hu).
  pose proof (cell_index_bound _ _ _ Hv) as Hi. rewrite <- (ir_len _ _ _ Hrep) in Hi.
  destruct (concat_zinsert_perm _ _ _ Hl) as (rest & Hp & Hins).
  pose proof Hsep as Hsep'. rewrite Hp in Hsep'.
  unfold try_push, ensure_cache. rewrite (ir_once _ _ _ Hrep), bind_ret, Hcell, bind_ret, Hgv, bind_ret.
  rewrite Hgu, bind_ret. rewrite Forall_forall in Hok. pose proof (Hok t (last_Some_elem_of _ _ Ht)) as (Hpos & _).
  rewrite deref_ok, bind_ret by lia.
  destruct (push_loop_spec sp m v h t) as (m1 & -> & Ho1).
  assert (only_links m (hput FNext m1 t (head_ptr v)) [t]) as Hot.
  { eapply only_links_trans; [done|]. apply only_links_hput_one. }
  pose proof (only_links_last _ _ _ _ Ht Hot) as Ho.
  eexists _, _, l. split; [done|]. split; [done|].
  assert (word64 (xor_ptr_general h NUMA_KEY) ∧ (hardened = false → packable (xor_ptr_general h NUMA_KEY)))
    as [Hwp Hpk].
  { apply (packable_head _ h ws); try done. apply Forall_forall. intros x Hx.
    by eapply block_ok_word, Hok. }
  assert (0 ≤ wrapping_add64 (head_tag v) 1) as Htag by apply wrap64_range.
  split; [|done]. eapply (icc_rep_with_cell m _ _ _ _ _ _ _ ws); try done.
  - rewrite Hins. cbn. rewrite app_assoc in Hsep'. apply (separated_mid ws l rest). by rewrite app_assoc.
  - split; [by apply word64_head_pack|]. split.
    + rewrite head_ptr_pack by done. apply (enc_list_app _ _ _ _ _ t Ht). split_and!.
      * by exists h.
      * by apply Forall_forall.
      * apply separated_app in Hsep as [Hs _]. by apply (linked_only_last m _ _ _ t).
      * rewrite hget_hput_eq by (apply fits_next, (enc_list_head_word m NUMA_KEY _ l); done).
        apply (enc_list_only_links m _ _ _ _ ws); [done| |done]. apply separated_apart.
        rewrite app_assoc in Hsep'. by apply separated_app in Hsep' as [? _].
    + rewrite Hu. unfold wrapping_add64. rewrite wrap64_small.
      * unfold zlen. rewrite length_app. lia.
      * pose proof (separated_zlen NUMA_KEY (ws ++ l)) as Hz. rewrite app_assoc in Hsep'.
        apply separated_app in Hsep' as [Hs' _]. unfold zlen in *. rewrite length_app in Hz.
        specialize (Hz Hs'). unfold word64, usize_max, u64_max in *.
        assert (Forall (block_ok NUMA_KEY) (ws ++ l)).
        { apply Forall_app. split; [by apply Forall_forall|by eapply enc_list_blocks]. }
        specialize (Hz ltac:(done)). lia.
  - rewrite Hins, <- app_assoc. done.
  - apply Forall_app. split; [done|]. pose proof (ir_aligned _ _ _ Hrep) as Ha.
    rewrite Hp in Ha. by apply Forall_app in Ha as [? _].
Qed.

(** [push_to_global] takes a chain with plain links. *)
Lemma push_to_global_ok {K} `{Kernel K} mask_buf m icc ls class ws h t cpu sp (k : K) :
  word64 NUMA_KEY → icc_rep m icc ls → valid_cell icc (unwrap_or_0 (get_cpu_id cpu)) class →
  head ws = Some h → last ws = Some t → blocks_ok ws → separated (ws ++ concat ls) →
  linked m 0 ws →
  let i := cell_index (unwrap_or_0 (get_cpu_id cpu)) class in
  ∃ m' icc' l, push_to_global NUMA_KEY mask_buf m icc class h t (zlen ws) cpu sp k = Ret (m', icc', k) ∧
    zlookup ls i = Some l ∧ icc_rep m' icc' (zinsert ls i (ws ++ l)) ∧ only_links m m' ws ∧
    icc_ncpu icc' = icc_ncpu icc.
Proof.
  intros Hk Hrep Hv Hh Ht Hok Hsep Hlk i.
  assert (∃ m1, (if hardened then
      encode_loop (λ p, xor_ptr_general p NUMA_KEY) (Z.to_nat (zlen ws)) m h t else Ret m) = Ret m1 ∧
    linked m1 NUMA_KEY ws ∧ only_links m m1 ws) as (m1 & Hm1 & Hlk1 & Ho1).
  { destruct hardened eqn:Hhard.
    - apply encode_loop_chain; try done; [apply Hok| |unfold zlen; lia].
      by apply separated_app in Hsep as [? _].
    - exists m. split_and!; [done|by apply (linked_unhardened _ 0)|apply only_links_refl]. }
  pose proof (icc_rep_frame _ _ _ _ _ Hrep Ho1 Hsep) as Hrep1.
  unfold push_to_global. rewrite Hm1, bind_ret.
  destruct (try_push_ok mask_buf m1 icc ls class ws h t cpu sp k) as (m' & icc' & l & -> & ? & ? & ? & ?);
    try done.
  exists m', icc', l. split_and!; try done. by eapply only_links_trans.
Qed.

(** ** Popping *)

Lemma take_loop_spec n m key p h l count :
  key = NUMA_KEY → word64 key → enc_list m key p (h :: l) →
  ∃ t, take_loop NUMA_KEY n m h count = Ret (t, count + zlen (take n l)) ∧
    last (h :: take n l) = Some t.
Proof.
  intros -> Hk. revert p h l count. induction n as [|n IH]; intros p h l count Hl; cbn [take_loop].
  - exists h. rewrite take_0, Z.add_0_r. done.
  - cbn [enc_list] in Hl. destruct Hl as ((Hp & _) & _ & Hl). rewrite deref_ok, bind_ret by lia.
    destruct l as [|y l]; cbn [enc_list] in Hl.
    + rewrite Hl. exists h. by rewrite take_nil, Z.add_0_r.
    + destruct (Hl) as (Hy & Hn & _). rewrite Hn.
      rewrite (proj2 (Z.eqb_neq _ 0)) by apply Hy. rewrite xor_ptr_general_inv by done.
      destruct (IH _ y l (count + 1) Hl) as (t & -> & Ht). exists t. split; [|done].
      do 2 f_equal. unfold zlen. cbn [take length]. lia.
Qed.

(** The decoding of a popped chain. *)
Lemma decode_step m ws h t count :
  word64 NUMA_KEY → head ws = Some h → last ws = Some t → Forall (block_ok NUMA_KEY) ws →
  separated ws → linked m NUMA_KEY ws → count = zlen ws →
  ∃ m', (if hardened then
      decode_loop (λ p, xor_ptr_general p NUMA_KEY) (Z.to_nat count) m h t else Ret m) = Ret m' ∧
    linked m' 0 ws ∧ only_links m m' ws.
Proof.
  intros Hk Hh Ht Hb Hs Hlk ->. destruct hardened eqn:Hhard.
  - apply decode_loop_chain; try done. unfold zlen. lia.
  - exists m. split_and!; [done|by apply (linked_unhardened _ NUMA_KEY)|apply only_links_refl].
Qed.

(** Cutting the first blocks off the list of a cell. *)
Lemma pop_split m icc ls i l v b t :
  word64 NUMA_KEY → icc_rep m icc ls → zlookup ls i = Some l →
  enc_list m NUMA_KEY (head_ptr v) l → last (take b l) = Some t →
  Forall (block_ok NUMA_KEY) (take b l) ∧ Forall (λ h, h mod 16 = 0) l ∧
  linked m NUMA_KEY (take b l) ∧ enc_list m NUMA_KEY (hget FNext m t) (drop b l) ∧
  separated (take b l ++ concat (zinsert ls i (drop b l))) ∧
  (word64 (hget FNext m t) ∧ (hardened = false → packable (hget FNext m t))).
Proof.
  intros Hk Hrep Hl Hel Ht.
  destruct (concat_zinsert_perm _ _ _ Hl) as (rest & Hp & Hins).
  pose proof (ir_aligned _ _ _ Hrep) as Ha. rewrite Hp in Ha. apply Forall_app in Ha as [Ha _].
  rewrite <- (take_drop b l) in Hel. apply (enc_list_app _ _ _ _ _ t Ht) in Hel as (_ & Hb & Hlk & Hd).
  assert (word64 (hget FNext m t)) as Hw by by eapply enc_list_head_word.
  split_and!; try done.
  - rewrite Hins, app_assoc, take_drop, <- Hp. apply Hrep.
  - intros Hhard. split; [done|]. pose proof Hd as Hd'.
    rewrite <- (take_drop b l), Forall_app in Ha. destruct Ha as [_ Ha].
    destruct (drop b l) as [|x d]; cbn [enc_list] in Hd'; [by rewrite Hd'|].
    destruct Hd' as (_ & -> & _). apply Forall_cons in Ha as [Ha _].
    unfold xor_ptr_general. by rewrite Hhard.
Qed.

(** The popped chain ends where the batch was cut. *)
Lemma pop_chain m m1 l b h t :
  head (take b l) = Some h → last (take b l) = Some t → Forall (block_ok NUMA_KEY) (take b l) →
  separated (take b l) → linked m1 0 (take b l) → only_links m m1 (take b l) →
  enc_list (hput FNext m1 t 0) 0 h (take b l) ∧ only_links m (hput FNext m1 t 0) (take b l).
Proof.
  intros Hh Ht Hbks Hs Hlk1 Ho1. split.
  - rewrite <- (app_nil_r (take b l)). apply (enc_list_app _ _ _ _ _ t Ht). split_and!.
    + exists h. by rewrite xor_ptr_general_plain.
    + eapply Forall_impl; [done|]. apply block_ok_plain.
    + apply (linked_only_last m1 _ _ _ t); try done. apply only_links_hput_one.
    + cbn [enc_list]. by apply hget_hput_eq.
  - eapply only_links_trans; [done|]. apply (only_links_last _ _ _ t); [done|apply only_links_hput_one].
Qed.

(** The cell keeps what follows the batch. *)
Lemma pop_rest m m' icc ls i l v b t :
  word64 NUMA_KEY → icc_rep m icc ls → zlookup ls i = Some l →
  enc_list m NUMA_KEY (head_ptr v) l → last (take b l) = Some t → only_links m m' (take b l) →
  icc_rep m'
    (with_cell icc i (head_pack (hget FNext m t) (wrapping_add64 (head_tag v) 1))
       (wrapping_sub64 (zlen l) (zlen (take b l))))
    (zinsert ls i (drop b l)).
Proof.
  intros Hk Hrep Hl Hel Ht Ho. pose proof (zlookup_Some_lt _ _ _ Hl) as Hi.
  destruct (pop_split m icc ls _ l v b t Hk Hrep Hl Hel Ht)
    as (_ & Hal & _ & Hrest & Hsep & Hpw & Hpk).
  destruct (concat_zinsert_perm _ _ _ Hl) as (rest & Hp & Hins).
  assert (0 ≤ wrapping_add64 (head_tag v) 1) as Htag by apply wrap64_range.
  apply (icc_rep_with_cell m _ _ _ _ _ _ _ (take b l)); try done.
  - rewrite Hins in Hsep |- *. rewrite app_nil_l. by eapply separated_mid.
  - rewrite Hins, app_assoc, take_drop in Hsep. apply separated_app in Hsep as [Hs _].
    split; [by apply word64_head_pack|]. split.
    + rewrite head_ptr_pack by done.
      apply (enc_list_only_links m _ _ _ _ (take b l)); [done| |done].
      rewrite <- (take_drop b l) in Hs. by apply separated_apart.
    + unfold wrapping_sub64. pose proof (separated_zlen NUMA_KEY l) as Hzl.
      assert (zlen l = zlen (take b l) + zlen (drop b l)) as Hsum.
      { rewrite <- (take_drop b l) at 1. unfold zlen. rewrite length_app. lia. }
      rewrite wrap64_small; [lia|]. specialize (Hzl Hs ltac:(by eapply enc_list_blocks)).
      unfold word64, usize_max, u64_max, zlen in *. lia.
  - by apply separated_app in Hsep as (_ & ? & _).
  - by apply Forall_drop.
Qed.

(** Popping from a cell that holds [l]: nothing if it is empty, or else at most a batch of its
    first blocks, as a plain null-terminated chain. *)
Lemma pop_ok {K} `{Kernel K} mask_buf m icc ls class batch cpu (k : K) l :
  word64 NUMA_KEY → icc_rep m icc ls → valid_cell icc cpu class → 1 ≤ batch →
  zlookup ls (cell_index cpu class) = Some l →
  (l = [] ∧ pop NUMA_KEY mask_buf m icc class batch cpu k = Ret (None, m, icc, k)) ∨
  ∃ h m' icc', pop NUMA_KEY mask_buf m icc class batch cpu k = Ret (Some h, m', icc', k) ∧
    enc_list m' 0 h (take (Z.to_nat batch) l) ∧ head l = Some h ∧
    icc_rep m' icc' (zinsert ls (cell_index cpu class) (drop (Z.to_nat batch) l)) ∧
    only_links m m' (take (Z.to_nat batch) l) ∧ icc_ncpu icc' = icc_ncpu icc.
Proof.
  intros Hk Hrep Hv Hb Hl.
  destruct (icc_rep_cell _ _ _ _ _ Hrep Hv) as (l' & v & u & Hcell & Hl' & Hgv & Hgu & Hwv & Hel & Hu).
  simplify_eq. unfold pop, ensure_cache. rewrite (ir_once _ _ _ Hrep), bind_ret, Hcell, bind_ret, Hgu, bind_ret.
  destruct l as [|h l0] eqn:Hleq; [by left|right]. rewrite <- Hleq in *.
  set (b := Z.to_nat batch) in *.
  assert (take b l = h :: take (Z.to_nat (batch - 1)) l0) as Htk.
  { rewrite Hleq. unfold b. replace (Z.to_nat batch) with (S (Z.to_nat (batch - 1))) by lia. done. }
  assert (head l = Some h) as Hhl by by rewrite Hleq.
  assert (zlen l ≠ 0) as Hz by (rewrite Hleq; unfold zlen; cbn; lia).
  rewrite (proj2 (Z.eqb_neq _ 0)) by done. rewrite Hgv, bind_ret.
  assert (head_ptr v ≠ 0 ∧ xor_ptr_general (head_ptr v) NUMA_KEY = h ∧ 0 < h) as (Hv0 & Hvh & Hpos).
  { rewrite Hleq in Hel. cbn [enc_list] in Hel. destruct Hel as (Hbk & -> & _).
    split; [apply Hbk|]. split; [by apply xor_ptr_general_inv|apply Hbk]. }
  rewrite (proj2 (Z.eqb_neq _ 0)) by done. rewrite Hvh.
  destruct (take_loop_spec (Z.to_nat (batch - 1)) m NUMA_KEY (head_ptr v) h l0 1) as (t & -> & Ht);
    [done|done|by rewrite <- Hleq|].
  rewrite <- Htk in Ht. rewrite bind_ret.
  destruct (pop_split m icc ls _ l v b t Hk Hrep Hl Hel) as (Hbks & Hal & Hlk & Hrest & Hsep & Hpt); [done|].
  assert (0 < t) as Htpos.
  { rewrite Forall_forall in Hbks. apply Hbks. by apply last_Some_elem_of. }
  rewrite deref_ok, bind_ret by lia.
  assert (zlen (take (Z.to_nat (batch - 1)) l0) + 1 = zlen (take b l)) as Hcount.
  { rewrite Htk. unfold zlen. cbn [length]. lia. }
  destruct (decode_step m (take b l) h t (1 + zlen (take (Z.to_nat (batch - 1)) l0)))
    as (m1 & Hm1 & Hlk1 & Ho1); try done.
  { by rewrite Htk. }
  { by apply separated_app in Hsep as [? _]. }
  { lia. }
  rewrite Hm1, bind_ret.
  destruct (pop_chain m m1 l b h t) as [Hch Ho]; try done.
  { by rewrite Htk. }
  { by apply separated_app in Hsep as [? _]. }
  eexists h, _, _. split; [done|]. split; [done|]. split; [done|]. split; [|done].
  rewrite (Z.add_comm 1), Hcount. by apply (pop_rest m).
Qed.

(** ** Stealing *)

(** The cpus in the order in which [try_pop] looks at them. *)
Definition victims (ncpu cpu : Z) : list Z :=
  cpu :: ((λ i, (cpu + Z.of_nat i) mod ncpu) <$> seq 1 (Z.to_nat (ncpu - 1))).

Definition has_blocks (ls : list (list Z)) (class cpu : Z) : bool :=
  match zlookup ls (cell_index cpu class) with Some (_ :: _) => true | _ => false end.

(** Every cpu is looked at. *)
Lemma victims_all ncpu cpu c : 0 ≤ cpu < ncpu → 0 ≤ c < ncpu → c ∈ victims ncpu cpu.
Proof.
  intros Hcpu Hc. unfold victims. destruct (decide (c = cpu)) as [-> | Hne]; [by left|]. right.
  apply list_elem_of_fmap. exists (Z.to_nat ((c - cpu) mod ncpu)). split.
  - rewrite Z2Nat.id by (apply Z.mod_pos_bound; lia).
    rewrite Zplus_mod_idemp_r. replace (cpu + (c - cpu)) with c by lia. by rewrite Z.mod_small.
  - apply elem_of_seq. pose proof (Z.mod_pos_bound (c - cpu) ncpu ltac:(lia)).
    assert ((c - cpu) mod ncpu ≠ 0); [|lia]. intros Hz.
    destruct (Z.le_gt_cases cpu c); [rewrite Z.mod_small in Hz; lia|].
    rewrite <- (Z_mod_plus_full _ 1), Z.mod_small in Hz; lia.
Qed.

(** What popping a batch from the list of [c] gives. *)
Definition popped {K} (m : mem) (icc : InterConnectCache) (ls : list (list Z)) (class batch c : Z)
    (k : K) (out : M (Z * mem * InterConnectCache * K)) : Prop :=
  ∃ l h m' icc', zlookup ls (cell_index c class) = Some l ∧ head l = Some h ∧
    out = Ret (h, m', icc', k) ∧ enc_list m' 0 h (take (Z.to_nat batch) l) ∧
    icc_rep m' icc' (zinsert ls (cell_index c class) (drop (Z.to_nat batch) l)) ∧
    only_links m m' (take (Z.to_nat batch) l) ∧ icc_ncpu icc' = icc_ncpu icc.

(** The result of looking at the cpus [cs] in turn. *)
Definition pop_result {K} (m : mem) (icc : InterConnectCache) (ls : list (list Z)) (class batch : Z)
    (cs : list Z) (k : K) (out : M (Z * mem * InterConnectCache * K)) : Prop :=
  match List.find (has_blocks ls class) cs with
  | Some c => popped m icc ls class batch c k out
  | None => out = Ret (0, m, icc, k)
  end.

(** One [pop], and what the caller does when it finds nothing. *)
Lemma pop_then {K} `{Kernel K} mask_buf m icc ls class batch c cs (k : K) rest :
  word64 NUMA_KEY → icc_rep m icc ls → valid_cell icc c class → 1 ≤ batch →
  pop_result m icc ls class batch cs k (rest m icc k) →
  pop_result m icc ls class batch (c :: cs) k
    ('(r, m, icc, k) ← pop NUMA_KEY mask_buf m icc class batch c k;
     match r with Some block => Ret (block, m, icc, k) | None => rest m icc k end).
Proof.
  intros Hk Hrep Hv Hb Hrest.
  destruct (icc_rep_cell _ _ _ _ _ Hrep Hv) as (l & _ & _ & _ & Hl & _).
  unfold pop_result. cbn [List.find].
  assert (has_blocks ls class c = match l with [] => false | _ => true end) as ->.
  { unfold has_blocks. rewrite Hl. by destruct l. }
  destruct (pop_ok mask_buf m icc ls class batch c k l)
    as [[-> ->] | (h & m' & icc' & -> & Hch & Hh & Hrep' & Ho & Hn)]; try done.
  destruct l as [|x l]; [done|]. eexists _, h, m', icc'. split_and!; done.
Qed.

Lemma steal_loop_spec {K} `{Kernel K} mask_buf n i m icc ls class batch cpu (k : K) :
  word64 NUMA_KEY → icc_rep m icc ls → 0 ≤ cpu < icc_ncpu icc → 0 ≤ class < NUM_SIZE_CLASSES →
  1 ≤ batch → Z.of_nat i + Z.of_nat n ≤ icc_ncpu icc →
  pop_result m icc ls class batch
    ((λ i, (cpu + Z.of_nat i) mod icc_ncpu icc) <$> seq i n) k
    (steal_loop NUMA_KEY mask_buf n (Z.of_nat i) m icc class batch cpu (icc_ncpu icc) k).
Proof.
  intros Hk Hrep Hcpu Hc Hb. revert i. induction n as [|n IH]; intros i Hi; [done|].
  cbn [steal_loop seq fmap list_fmap]. pose proof (ir_ncpu _ _ _ Hrep) as Hn.
  checked. apply (pop_then mask_buf m icc ls class batch _ _ k
    (λ m icc' k, steal_loop NUMA_KEY mask_buf n (Z.of_nat i + 1) m icc' class batch cpu (icc_ncpu icc) k));
    try done.
  - split; [|done]. apply Z.mod_pos_bound. lia.
  - replace (Z.of_nat i + 1) with (Z.of_nat (S i)) by lia. apply IH. lia.
Qed.

Lemma find_victims_None ls class ncpu cpu :
  0 ≤ cpu < ncpu → List.find (has_blocks ls class) (victims ncpu cpu) = None →
  ∀ c, 0 ≤ c < ncpu → has_blocks ls class c = false.
Proof.
  intros Hcpu Hf c Hc. eapply List.find_none; [done|]. apply list_elem_of_In.
  by apply victims_all.
Qed.

(** The popped block is not null and belongs to the class's list. *)
Lemma try_pop_ok {K} `{Kernel K} mask_buf m icc ls class batch cpu (k : K) :
  word64 NUMA_KEY → icc_rep m icc ls → valid_cell icc (unwrap_or_0 (get_cpu_id cpu)) class → 1 ≤ batch →
  pop_result m icc ls class batch (victims (icc_ncpu icc) (unwrap_or_0 (get_cpu_id cpu))) k
    (try_pop NUMA_KEY mask_buf m icc class batch cpu k).
Proof.
  intros Hk Hrep Hv Hb. unfold try_pop, victims.
  apply (pop_then mask_buf m icc ls class batch _ _ k
    (λ m icc' k, steal_loop NUMA_KEY mask_buf (Z.to_nat (icc_ncpu icc - 1)) 1 m icc' class batch
       (unwrap_or_0 (get_cpu_id cpu)) (icc_ncpu icc) k)); try done.
  pose proof (ir_ncpu _ _ _ Hrep) as Hn. destruct Hv as [Hcpu Hc].
  apply (steal_loop_spec mask_buf _ 1); try done. lia.
Qed.

(** C20: A chain with plain links that is pushed, on a cpu that has a row in the table, ends up, in its
    order, in front of the list of that cpu, whichever rounds of the weak compare-and-swap fail; the other lists, and all
    memory but the links of the chain, stay as they are. *)
Theorem push_to_global_correct {K} `{Kernel K} (mask_buf class cpu h t : Z) (m : mem)
    (icc : InterConnectCache) (ls : list (list Z)) (ws : list Z) (sp : list bool) (k : K)
    (Hk : word64 NUMA_KEY) (Hrep : icc_rep m icc ls)
    (Hv : valid_cell icc (unwrap_or_0 (get_cpu_id cpu)) class)
    (Hh : head ws = Some h) (Ht : last ws = Some t) (Hok : blocks_ok ws)
    (Hsep : separated (ws ++ concat ls)) (Hlk : linked m 0 ws) :
  ∃ m' icc' l, push_to_global NUMA_KEY mask_buf m icc class h t (zlen ws) cpu sp k = Ret (m', icc', k) ∧
    zlookup ls (cell_index (unwrap_or_0 (get_cpu_id cpu)) class) = Some l ∧
    icc_rep m' icc' (zinsert ls (cell_index (unwrap_or_0 (get_cpu_id cpu)) class) (ws ++ l)) ∧
    only_links m m' ws.
Proof.
  destruct (push_to_global_ok mask_buf m icc ls class ws h t cpu sp k) as (m' & icc' & l & ? & ? & ? & ? & _);
    eauto 10.
Qed.

(** C21: A pop, on a cpu that has a row in the table, takes at most a batch from the front of the first list of the class that is not
    empty, in cyclic order from the calling cpu, and returns it as a plain chain that ends in
    null; it returns null, and changes nothing, only when no cpu has a block of the class. *)
Theorem pop_from_global_correct {K} `{Kernel K} (mask_buf class batch cpu : Z) (m : mem)
    (icc : InterConnectCache) (ls : list (list Z)) (k : K)
    (Hk : word64 NUMA_KEY) (Hrep : icc_rep m icc ls)
    (Hv : valid_cell icc (unwrap_or_0 (get_cpu_id cpu)) class) (Hb : 1 ≤ batch) :
  let out := pop_from_global NUMA_KEY mask_buf m icc class batch cpu k in
  match List.find (has_blocks ls class) (victims (icc_ncpu icc) (unwrap_or_0 (get_cpu_id cpu))) with
  | Some c => popped m icc ls class batch c k out
  | None => out = Ret (0, m, icc, k) ∧
      ∀ c, 0 ≤ c < icc_ncpu icc → zlookup ls (cell_index c class) = Some []
  end.
Proof.
  intros out. pose proof (try_pop_ok mask_buf m icc ls class batch cpu k Hk Hrep Hv Hb) as Hp.
  unfold pop_result in Hp. fold out in Hp. destruct (List.find _ _) as [c|] eqn:Hf; [done|].
  split; [done|]. intros c Hc. pose proof (find_victims_None _ _ _ _ (proj1 Hv) Hf c Hc) as Hno.
  destruct (icc_rep_cell m icc ls c class Hrep) as (l & _ & _ & _ & Hl & _); [by destruct Hv|].
  unfold has_blocks in Hno. rewrite Hl in Hno |- *. by destruct l.
Qed.
End Spec.

(** Two cpus, no blocks. *)
Definition two_cpus : InterConnectCache := mkICC (replicate 68 0) (replicate 68 0) 2 true.

(** Three blocks, linked by plain pointers. *)
Definition three_blocks `{Config} : mem := hput FNext (hput FNext (λ _, 0) 4096 8192) 8192 12288.

Section Witness.
Local Existing Instance hardened_build.
Local Existing Instance refusing_kernel.

Definition key : Z := 0xABCDE0.

Lemma two_cpus_rep m : icc_rep key m two_cpus (replicate 68 []).
Proof. apply (icc_rep_empty key m 2). done. Qed.

(** Cpu 1 pushes three blocks; its first compare-and-swap fails spuriously. *)
Lemma push_to_global_correct_witness :
  ∃ m' icc' l, push_to_global key 0 three_blocks two_cpus 3 4096 12288 3 1 [true] () = Ret (m', icc', ()) ∧
    zlookup (replicate 68 []) (cell_index 1 3) = Some l ∧
    icc_rep key m' icc' (zinsert (replicate 68 []) (cell_index 1 3) ([4096; 8192; 12288] ++ l)) ∧
    only_links three_blocks m' [4096; 8192; 12288].
Proof.
  apply (push_to_global_correct key 0 3 1 4096 12288 three_blocks two_cpus (replicate 68 [])
    [4096; 8192; 12288] [true] ()).
  - done.
  - apply two_cpus_rep.
  - done.
  - done.
  - done.
  - split; repeat constructor; done.
  - change (separated [4096; 8192; 12288]). solve_separated.
  - by vm_compute.
Defined.

(** One block on cpu 0's list. *)
Definition one_block_icc : InterConnectCache :=
  mkICC (<[3%nat := Z.lxor 4096 key]> (replicate 68 0)) (<[3%nat := 1]> (replicate 68 0)) 2 true.

Lemma one_block_rep : icc_rep key (λ _, 0) one_block_icc (<[3%nat := [4096]]> (replicate 68 [])).
Proof.
  apply (icc_rep_with_cell key (λ _, 0) (λ _, 0) two_cpus (replicate 68 []) 3 (Z.lxor 4096 key) 1 [4096] []);
    try done.
  - apply two_cpus_rep.
  - by repeat constructor.
Qed.

(** Cpu 1, whose list is empty, steals it. *)
Lemma pop_from_global_correct_witness :
  popped key (λ _, 0) one_block_icc (<[3%nat := [4096]]> (replicate 68 [])) 3 8 0 ()
    (pop_from_global key 0 (λ _, 0) one_block_icc 3 8 1 ()).
Proof.
  exact (pop_from_global_correct key 0 3 8 1 (λ _, 0) one_block_icc (<[3%nat := [4096]]> (replicate 68 []))
    () ltac:(done) one_block_rep ltac:(done) ltac:(done)).
Defined.
End Witness.
