(* ===== verification/StackRace.v ===== *)
(** * Threads racing on one per-cpu list (src/src/slab/interconnect.rs)

    The loops of [try_push] and [pop] of the default build, one access to shared memory at a time,
    for any number of threads that share the list of one cpu and class: its tagged head, its
    counter and the links of the blocks. Accesses are interleaved in any order, and the weak
    compare-and-swap of [try_push] may fail spuriously. The hardened build runs the same loops
    under a lock ([Lock.v]). The [batch_size] of [try_push] is the length of its chain, which is what
    its callers pass.

    Between its calls a thread has blocks in its hands, and may link them as it likes. [sh_ver]
    counts the updates of the head: no access reads it, the theorems do. *)

From S2P Require Import Prelude Bits Lib SizeClass Sys BlockList Interconnect.

#[local] Existing Instance default_build.

(** ** State *)

(** [list[class]], [usage[class]] and the [next] fields. *)
Record shared : Type := mkShared {
  sh_head : Z;
  sh_usage : Z;
  sh_next : Z → Z;
  sh_ver : Z
}.

(** Where a thread is. [ws]: the chain of [try_push], or the blocks that [pop] has walked over;
    [cur]: the head that it has loaded, the [ver]-th; [b]: [batch_size]. *)
Inductive spc : Type :=
| SIdle
| PushLink (ws : list Z) (cur ver : Z)          (* about to store [tail.next] *)
| PushCas (ws : list Z) (cur ver : Z)           (* about to [compare_exchange_weak] *)
| PushCount (n : Z)                             (* about to [usage.fetch_add(n)] *)
| PopCheck (b : nat)                            (* about to load [usage] *)
| PopLoad (b : nat)                             (* at the top of the [loop] *)
| PopWalk (b : nat) (ws : list Z) (cur ver : Z) (todo : nat)  (* in [for _ in 1..batch_size] *)
| PopNew (b : nat) (ws : list Z) (cur ver : Z)  (* about to load [new_head_enc] *)
| PopCas (b : nat) (ws : list Z) (cur ver new : Z)
| PopCount (ws : list Z)                        (* about to [usage.fetch_sub(count)] *)
| PopCut (ws : list Z).                         (* about to store null to [tail.next] *)

Record sthread : Type := mkSThread { st_pc : spc; st_held : list Z }.

Definition first_of (ws : list Z) : Z := default 0 (head ws).
Definition tail_of (ws : list Z) : Z := default 0 (last ws).

Definition set_next (s : shared) (x v : Z) : shared :=
  mkShared (sh_head s) (sh_usage s) (λ y, if y =? x then v else sh_next s y) (sh_ver s).
Definition set_usage (s : shared) (u : Z) : shared := mkShared (sh_head s) u (sh_next s) (sh_ver s).

(** The head changes: the next version. *)
Definition set_head (s : shared) (v : Z) : shared := mkShared v (sh_usage s) (sh_next s) (sh_ver s + 1).

(** [for _ in 1..batch_size] ends, or has [todo] rounds to go. *)
Definition walk_on (b : nat) (ws : list Z) (cur ver : Z) (todo : nat) : spc :=
  match todo with O => PopNew b ws cur ver | S _ => PopWalk b ws cur ver todo end.

(** ** One access *)

(** An access of [try_push]: the link of the tail, the swap, the counter. *)
Definition push_step (spurious : bool) (s : shared) (t : sthread) : option (shared * sthread) :=
  let go pc := mkSThread pc (st_held t) in
  match st_pc t with
  | PushLink ws cur ver => Some (set_next s (tail_of ws) (head_ptr cur), go (PushCas ws cur ver))
  | PushCas ws cur ver =>
      if (sh_head s =? cur) && negb spurious then
        Some (set_head s (head_pack (first_of ws) (wrapping_add64 (head_tag cur) 1)), go (PushCount (zlen ws)))
      else Some (s, go (PushLink ws (sh_head s) (sh_ver s)))
  | PushCount n => Some (set_usage s (wrapping_add64 (sh_usage s) n), go SIdle)
  | _ => None
  end.

(** An access of [pop]. *)
Definition pop_step (s : shared) (t : sthread) : option (shared * sthread) :=
  let go pc := mkSThread pc (st_held t) in
  let return_with ws := mkSThread SIdle (ws ++ st_held t) in
  match st_pc t with
  | PopCheck b => Some (s, go (if sh_usage s =? 0 then SIdle else PopLoad b))
  | PopLoad b =>
      let cur := sh_head s in
      Some (s, go (if head_ptr cur =? 0 then SIdle else walk_on b [head_ptr cur] cur (sh_ver s) (b - 1)))
  | PopWalk b ws cur ver todo =>
      let next := sh_next s (tail_of ws) in
      Some (s, go (if next =? 0 then PopNew b ws cur ver else walk_on b (ws ++ [next]) cur ver (todo - 1)))
  | PopNew b ws cur ver => Some (s, go (PopCas b ws cur ver (sh_next s (tail_of ws))))
  | PopCas b ws cur ver new =>
      if sh_head s =? cur then
        Some (set_head s (head_pack new (wrapping_add64 (head_tag cur) 1)), go (PopCount ws))
      else Some (s, go (PopLoad b))
  | PopCount ws => Some (set_usage s (wrapping_sub64 (sh_usage s) (zlen ws)), go (PopCut ws))
  | PopCut ws => Some (set_next s (tail_of ws) 0, return_with ws)
  | _ => None
  end.

Definition stack_step (spurious : bool) (s : shared) (t : sthread) : option (shared * sthread) :=
  match st_pc t with
  | SIdle => None
  | PushLink _ _ _ | PushCas _ _ _ | PushCount _ => push_step spurious s t
  | _ => pop_step s t
  end.

(** The block whose [next] field the access reads or writes. *)
Definition touched (t : sthread) : option Z :=
  match st_pc t with
  | PushLink ws _ _ | PopWalk _ ws _ _ _ | PopNew _ ws _ _ | PopCut ws => Some (tail_of ws)
  | _ => None
  end.

(** ** Between the calls *)

(** Consecutive blocks are linked. *)
Fixpoint chained (next : Z → Z) (l : list Z) : Prop :=
  match l with
  | x :: (y :: _) as l' => next x = y ∧ chained next l'
  | _ => True
  end.

(** What an idle thread does with the blocks in its hands: it links one to another, or to nothing;
    it hands a chain of them to [try_push], which loads the head; or it calls [pop]. *)
Inductive idle_step (s : shared) : sthread → shared → sthread → Prop :=
| IRelink held x v :
    x ∈ held → v = 0 ∨ v ∈ held →
    idle_step s (mkSThread SIdle held) (set_next s x v) (mkSThread SIdle held)
| IPush held ws rest :
    ws ≠ [] → held ≡ₚ ws ++ rest → chained (sh_next s) ws →
    idle_step s (mkSThread SIdle held) s (mkSThread (PushLink ws (sh_head s) (sh_ver s)) rest)
| IPop held b :
    idle_step s (mkSThread SIdle held) s (mkSThread (PopCheck b) held).

Record sstate : Type := mkSS { ss_shared : shared; ss_threads : list sthread }.

(** Thread [tid] makes a step. *)
Inductive tid_step (tid : nat) : sstate → sstate → Prop :=
| TAccess spurious s ts t s' t' :
    ts !! tid = Some t → stack_step spurious s t = Some (s', t') →
    tid_step tid (mkSS s ts) (mkSS s' (<[tid := t']> ts))
| TIdle s ts t s' t' :
    ts !! tid = Some t → idle_step s t s' t' →
    tid_step tid (mkSS s ts) (mkSS s' (<[tid := t']> ts)).

Definition sstep (x y : sstate) : Prop := ∃ tid, tid_step tid x y.

(** The swap of a [pop] that succeeds although the head has been changed since it was loaded, 16
    times or more, so that the tag is the same again. *)
Definition stale_swap (s : shared) (t : sthread) : bool :=
  match st_pc t with
  | PopCas _ _ cur ver _ => (sh_head s =? cur) && (ver + 16 <=? sh_ver s)
  | _ => false
  end.

(** A step that is not such a swap. *)
Definition fresh_step (x y : sstate) : Prop :=
  ∃ tid t, ss_threads x !! tid = Some t ∧ stale_swap (ss_shared x) t = false ∧ tid_step tid x y.

(** ** The start *)

(** An empty list, and threads that hold blocks. *)
Definition stack_start (next : Z → Z) (hands : list (list Z)) : sstate :=
  mkSS (mkShared 0 0 next 0) (mkSThread SIdle <$> hands).

(** The blocks of a thread: in its hands, in a chain that is not in the list yet, or taken out. *)
Definition pc_blocks (pc : spc) : list Z :=
  match pc with
  | PushLink ws _ _ | PushCas ws _ _ | PopCount ws | PopCut ws => ws
  | _ => []
  end.
Definition thread_blocks (t : sthread) : list Z := pc_blocks (st_pc t) ++ st_held t.
Definition all_hands (x : sstate) : list Z := concat (thread_blocks <$> ss_threads x).

(** The null-terminated list that begins at [p]. *)
Fixpoint stack_list (next : Z → Z) (p : Z) (l : list Z) : Prop :=
  match l with
  | [] => p = 0
  | x :: l => p = x ∧ x ≠ 0 ∧ stack_list next (next x) l
  end.

(** A run of a thread alone, without spurious failures, until it is idle. *)
Fixpoint run_alone (fuel : nat) (s : shared) (t : sthread) : option (shared * sthread) :=
  match fuel with
  | O => None
  | S fuel =>
      match stack_step false s t with
      | None => Some (s, t)
      | Some (s, t) => run_alone fuel s t
      end
  end.
