(* ===== verification/StackRaceSpec.v ===== *)
(** * What the threads on a per-cpu list can rely on

    In every run they read and write the links of blocks only. As long as no [pop] swaps a head
    that has been changed 16 times since it was loaded, the list is an atomic stack, and every block
    is in it or in the hands of one thread. With such a swap it is not: the tag has four bits. *)

From S2P Require Import Prelude Bits Lib SizeClass Sys BlockList Interconnect InterconnectSpec StackRace.

#[local] Existing Instance default_build.

(** ** Pointers *)

Definition stack_block (x : Z) : Prop := 0 < x ∧ word64 x ∧ x mod 16 = 0.

Lemma stack_block_packable p : p = 0 ∨ stack_block p → packable p.
Proof. intros [->|(_ & ? & ?)]; by split. Qed.

Lemma pack_ptr p t : p = 0 ∨ stack_block p → 0 ≤ t → head_ptr (head_pack p t) = p.
Proof. intros Hp%stack_block_packable Ht. by apply head_ptr_pack. Qed.

Lemma pack_word p t : p = 0 ∨ stack_block p → 0 ≤ t → word64 (head_pack p t).
Proof. intros Hp%stack_block_packable Ht. by apply word64_head_pack; [apply Hp| |]. Qed.

(** The tag of the next version. *)
Lemma pack_tag p cur ver :
  p = 0 ∨ stack_block p → word64 cur → head_tag cur = ver mod 16 →
  head_tag (head_pack p (wrapping_add64 (head_tag cur) 1)) = (ver + 1) mod 16.
Proof.
  intros Hp%stack_block_packable Hw Ht. pose proof (head_tag_nonneg cur Hw).
  unfold wrapping_add64, wrap64. rewrite Z.mod_small by lia. rewrite head_tag_pack by (done || lia). rewrite Ht. zdiv.
Qed.

(** ** The abstract stack

    A list of blocks and the blocks in each thread's hands. A thread puts blocks in front of the
    list, or takes some from its front, or neither, in one step. *)

Record astack : Type := mkAStack { as_list : list Z; as_hands : list (list Z) }.

Inductive astack_step (tid : nat) : astack → astack → Prop :=
| APut l hs h ws h' :
    hs !! tid = Some h → ws ≠ [] → h ≡ₚ ws ++ h' → astack_step tid (mkAStack l hs) (mkAStack (ws ++ l) (<[tid := h']> hs))
| ATake l hs h ws h' :
    hs !! tid = Some h → ws ≠ [] → h' ≡ₚ ws ++ h → astack_step tid (mkAStack (ws ++ l) hs) (mkAStack l (<[tid := h']> hs))
| AQuiet l hs h h' :
    hs !! tid = Some h → h' ≡ₚ h → astack_step tid (mkAStack l hs) (mkAStack l (<[tid := h']> hs)).

Definition astep (a a' : astack) : Prop := ∃ tid, astack_step tid a a'.

(** What a state with the list [l] is in the abstract. *)
Definition abstract (x : sstate) (l : list Z) : astack := mkAStack l (thread_blocks <$> ss_threads x).

Section Race.
Context (Bs : list Z) (HBs : Forall stack_block Bs) (Hnd : NoDup Bs).

Definition ptr_in (p : Z) : Prop := p = 0 ∨ p ∈ Bs.
Definition head_in (v : Z) : Prop := word64 v ∧ ptr_in (head_ptr v).

Lemma ptr_in_block p : ptr_in p → p = 0 ∨ stack_block p.
Proof. rewrite Forall_forall in HBs. intros [?|?]; [by left|right; auto]. Qed.

Lemma head_in_pack p cur : ptr_in p → word64 cur → head_in (head_pack p (wrapping_add64 (head_tag cur) 1)).
Proof.
  intros Hp Hw. pose proof (head_tag_nonneg cur Hw). assert (0 ≤ wrapping_add64 (head_tag cur) 1) as Ht.
  { unfold wrapping_add64, wrap64. apply Z.mod_pos_bound. lia. }
  split; [apply pack_word|rewrite pack_ptr]; auto using ptr_in_block.
Qed.

Lemma first_in ws : ws ≠ [] → ws ⊆ Bs → first_of ws ∈ Bs.
Proof. destruct ws as [|x ws]; [done|]. intros _ Hs. apply Hs. left. Qed.

Lemma tail_in_ws ws : ws ≠ [] → tail_of ws ∈ ws.
Proof.
  intros Hne. unfold tail_of. destruct (last ws) as [x|] eqn:E; cbn.
  - by apply last_Some_elem_of.
  - by apply last_None in E.
Qed.

Lemma tail_in ws : ws ≠ [] → ws ⊆ Bs → tail_of ws ∈ Bs.
Proof. intros Hne Hs. by apply Hs, tail_in_ws. Qed.

(** ** In every run, all pointers lead to blocks *)

Definition pc_ptrs (pc : spc) : Prop :=
  match pc with
  | PushLink ws cur _ | PushCas ws cur _ | PopWalk _ ws cur _ _ | PopNew _ ws cur _ => ws ≠ [] ∧ ws ⊆ Bs ∧ head_in cur
  | PopCas _ ws cur _ new => ws ≠ [] ∧ ws ⊆ Bs ∧ head_in cur ∧ ptr_in new
  | PopCount ws | PopCut ws => ws ≠ [] ∧ ws ⊆ Bs
  | SIdle | PushCount _ | PopCheck _ | PopLoad _ => True
  end.

Definition thread_ptrs (t : sthread) : Prop := pc_ptrs (st_pc t) ∧ st_held t ⊆ Bs.
Definition shared_ptrs (s : shared) : Prop := head_in (sh_head s) ∧ ∀ x, x ∈ Bs → ptr_in (sh_next s x).
Definition ptrs_inv (x : sstate) : Prop := shared_ptrs (ss_shared x) ∧ Forall thread_ptrs (ss_threads x).

Lemma set_next_ptrs s x v : shared_ptrs s → ptr_in v → shared_ptrs (set_next s x v).
Proof. intros [Hh Hn] Hv. split; [done|]. intros y Hy. cbn. destruct (y =? x); auto. Qed.

Lemma walk_on_ptrs b ws cur ver todo :
  ws ≠ [] → ws ⊆ Bs → head_in cur → pc_ptrs (walk_on b ws cur ver todo).
Proof. by destruct todo. Qed.

Lemma stack_step_ptrs sp s t s' t' :
  shared_ptrs s → thread_ptrs t → stack_step sp s t = Some (s', t') → shared_ptrs s' ∧ thread_ptrs t'.
Proof.
  intros Hs [Hpc Hh] E. pose proof Hs as [Hhd Hn]. destruct t as [pc held]. unfold thread_ptrs. cbn [st_pc st_held] in *.
  destruct pc as [|ws cur ver|ws cur ver|n|b|b|b ws cur ver todo|b ws cur ver|b ws cur ver new|ws|ws];
    cbn in E, Hpc.
  - done.
  - destruct Hpc as (Hne & Hsub & Hcur). injection E as <- <-. split; [|done]. apply set_next_ptrs; [done|apply Hcur].
  - destruct Hpc as (Hne & Hsub & Hcur).
    destruct ((sh_head s =? cur) && negb sp); injection E as <- <-; cbn; [|done].
    split; [|done]. split; [|done]. apply head_in_pack; [right; by apply first_in|apply Hcur].
  - by injection E as <- <-.
  - injection E as <- <-. split; [done|]. by case_match.
  - injection E as <- <-. split; [done|]. case_zb; [done|]. destruct Hhd as [Hw [?|Hp]]; [done|]. split; [|done].
    apply walk_on_ptrs; [done| |by split; [|right]]. by intros y ->%list_elem_of_singleton.
  - destruct Hpc as (Hne & Hsub & Hcur). injection E as <- <-. split; [done|]. case_zb; [done|]. split; [|done].
    destruct (Hn (tail_of ws)) as [?|Hx]; [by apply tail_in|done|]. apply walk_on_ptrs; [by destruct ws| |done].
    intros y [Hy| ->%list_elem_of_singleton]%elem_of_app; auto.
  - destruct Hpc as (Hne & Hsub & Hcur). injection E as <- <-. split; [done|]. split; [|done]. cbn. split_and!; try done.
    by apply Hn, tail_in.
  - destruct Hpc as (Hne & Hsub & Hcur & Hnew). destruct (sh_head s =? cur); injection E as <- <-; cbn; [|done].
    split; [|done]. split; [|done]. apply head_in_pack; [done|apply Hcur].
  - by injection E as <- <-.
  - destruct Hpc as (Hne & Hsub). injection E as <- <-. split; [by apply set_next_ptrs; [|left]|]. split; [done|].
    cbn. intros y [?|?]%elem_of_app; auto.
Qed.

Lemma idle_step_ptrs s t s' t' :
  shared_ptrs s → thread_ptrs t → idle_step s t s' t' → shared_ptrs s' ∧ thread_ptrs t'.
Proof.
  intros Hs [Hpc Hh] Hst. destruct Hst as [held x v Hx Hv|held ws rest Hne Hp Hc|held b]; cbn in *.
  - split; [|done]. apply set_next_ptrs; [done|]. destruct Hv as [?|?]; [by left|right; auto].
  - split; [done|]. split; cbn; [|intros y Hy; apply Hh; rewrite Hp; by apply elem_of_app; right].
    split; [done|]. split; [|apply Hs]. intros y Hy. apply Hh. rewrite Hp. by apply elem_of_app; left.
  - done.
Qed.

Lemma ptrs_inv_step x y : ptrs_inv x → sstep x y → ptrs_inv y.
Proof.
  intros [Hs Hts] [tid Hst]. destruct Hst as [sp s ts t s' t' Ht Hst|s ts t s' t' Ht Hst]; cbn in *;
    pose proof (proj1 (Forall_lookup _ _) Hts tid t Ht) as Hok.
  - destruct (stack_step_ptrs _ _ _ _ _ Hs Hok Hst). split; [done|]. by apply Forall_insert.
  - destruct (idle_step_ptrs _ _ _ _ Hs Hok Hst). split; [done|]. by apply Forall_insert.
Qed.

(** ** What a thread knows of the list *)

(** [cur] is the [ver]-th head. *)
Definition seen (s : shared) (cur ver : Z) : Prop := ver ≤ sh_ver s ∧ head_tag cur = ver mod 16.

Definition pc_inv (s : shared) (l : list Z) (pc : spc) : Prop :=
  match pc with
  | PushLink ws _ _ => chained (sh_next s) ws
  | PushCas ws cur _ => chained (sh_next s) ws ∧ sh_next s (tail_of ws) = head_ptr cur
  | PopWalk _ ws cur ver _ | PopNew _ ws cur ver =>
      seen s cur ver ∧ (ver = sh_ver s → ∃ rest, l = ws ++ rest)
  | PopCas _ ws cur ver new =>
      seen s cur ver ∧ (ver = sh_ver s → ∃ rest, l = ws ++ rest ∧ new = first_of rest)
  | _ => True
  end.

(** The counter's part that the thread has still to add. *)
Definition owed (t : sthread) : Z :=
  match st_pc t with PushCount n => n | PopCount ws => - zlen ws | _ => 0 end.
Definition all_owed (ts : list sthread) : Z := foldr (λ t n, owed t + n) 0 ts.

(** The list of the head is [l]. *)
Definition head_inv (s : shared) (l : list Z) : Prop :=
  stack_list (sh_next s) (head_ptr (sh_head s)) l ∧ head_tag (sh_head s) = sh_ver s mod 16.

(** The list of the state is [l]. *)
Definition stack_rep (x : sstate) (l : list Z) : Prop :=
  ptrs_inv x ∧ head_inv (ss_shared x) l ∧ l ++ all_hands x ≡ₚ Bs ∧
  Forall (λ t, pc_inv (ss_shared x) l (st_pc t)) (ss_threads x) ∧
  sh_usage (ss_shared x) = wrap64 (zlen l - all_owed (ss_threads x)).

(** *** Links *)

Lemma stack_list_mono n n' p l : (∀ x, x ∈ l → n' x = n x) → stack_list n p l → stack_list n' p l.
Proof.
  revert p. induction l as [|x l IH]; intros p Hn; cbn; [done|]. intros (-> & ? & Hl). split_and!; [done..|].
  rewrite Hn by left. apply IH; [|done]. intros y Hy. apply Hn. by right.
Qed.

Lemma chained_mono n n' l : (∀ x, x ∈ l → n' x = n x) → chained n l → chained n' l.
Proof.
  induction l as [|x [|y l] IH]; intros Hn; [done..|]. intros [? ?]. split; [rewrite Hn by left; done|].
  apply IH; [|done]. intros z Hz. apply Hn. by right.
Qed.

Lemma tail_of_snoc ws x : tail_of (ws ++ [x]) = x.
Proof. unfold tail_of. by rewrite last_snoc. Qed.

(** A chain before a list. *)
Lemma stack_list_app n ws p l :
  ws ≠ [] → Forall stack_block ws → chained n ws → n (tail_of ws) = p → stack_list n p l →
  stack_list n (first_of ws) (ws ++ l).
Proof.
  intros Hne Hw. revert Hne. induction Hw as [|x ws [? _] Hw IH]; [done|]. intros _ Hc Ht Hl.
  destruct ws as [|y ws]; cbn in *.
  - subst p. split_and!; [done|lia|done].
  - destruct Hc as [Hxy Hc]. split; [done|]. split; [lia|]. rewrite Hxy. by apply IH.
Qed.

(** The link after a prefix. *)
Lemma stack_list_tail n p ws l :
  ws ≠ [] → stack_list n p (ws ++ l) → n (tail_of ws) = first_of l ∧ stack_list n (first_of l) l.
Proof.
  revert p. induction ws as [|x [|y ws] IH]; intros p Hne; [done| |].
  - cbn. intros (_ & _ & Hl). destruct l as [|y l]; [done|]. cbn in *. destruct Hl as (-> & ? & ?). done.
  - intros (_ & _ & Hl). by apply (IH (n x)).
Qed.

Lemma stack_list_first n p l : stack_list n p l → p = first_of l.
Proof. destruct l; [done|]. by intros (-> & _). Qed.

(** *** One thread moves *)

(** What a step of one thread may change, as the others see it. *)
Record moves (s : shared) (l : list Z) (t : sthread) (s' : shared) (l' : list Z) (t' : sthread) : Prop := {
  mv_head : head_inv s' l';
  mv_pc : pc_inv s' l' (st_pc t');
  mv_list : l' = l ∨ (∃ ws, ws ≠ [] ∧ l' = ws ++ l) ∨ (∃ ws, ws ≠ [] ∧ l = ws ++ l');
  mv_ver : sh_ver s' = sh_ver s ∧ l' = l ∨ sh_ver s' = sh_ver s + 1;
  mv_next y : y ∉ thread_blocks t → sh_next s' y = sh_next s y;
  mv_blocks : thread_blocks t' ++ l' ≡ₚ thread_blocks t ++ l;
  mv_usage k : sh_usage s = wrap64 (zlen l - owed t - k) → sh_usage s' = wrap64 (zlen l' - owed t' - k)
}.

Lemma all_owed_insert ts tid t t' :
  ts !! tid = Some t → all_owed (<[tid := t']> ts) = all_owed ts - owed t + owed t'.
Proof.
  revert tid. induction ts as [|u ts IH]; intros [|tid] Ht; [done..| |]; cbn in Ht.
  - injection Ht as ->. cbn. lia.
  - change (owed u + all_owed (<[tid := t']> ts) = owed u + all_owed ts - owed t + owed t'). rewrite (IH tid Ht). lia.
Qed.

(** What another thread knows stays true. *)
Lemma pc_inv_other s l t s' l' t' u :
  moves s l t s' l' t' → (∀ y, y ∈ thread_blocks t → y ∉ thread_blocks u) →
  thread_ptrs u → pc_inv s l (st_pc u) → pc_inv s' l' (st_pc u).
Proof.
  intros Hm Hd [Hpt _]. assert (∀ y, y ∈ pc_blocks (st_pc u) → sh_next s' y = sh_next s y) as Hn.
  { intros y Hy. apply (mv_next _ _ _ _ _ _ Hm). intros Ht. apply (Hd y Ht), elem_of_app. by left. }
  assert (∀ cur ver (P : list Z → Prop), seen s cur ver ∧ (ver = sh_ver s → P l) →
    seen s' cur ver ∧ (ver = sh_ver s' → P l')) as Hver.
  { intros cur ver P [[Hle ?] Hp]. unfold seen. destruct (mv_ver _ _ _ _ _ _ Hm) as [[-> ->]| ->]; [done|].
    split; [split; [lia|done]|]. intros ?. lia. }
  destruct (st_pc u) as [|ws cur ver|ws cur ver|n|b|b|b ws cur ver todo|b ws cur ver|b ws cur ver new|ws|ws]; cbn in *;
    try done.
  - by apply chained_mono.
  - intros [? ?]. split; [by eapply chained_mono|]. rewrite Hn; [done|]. by apply tail_in_ws, Hpt.
  - apply (Hver _ _ (λ l, ∃ rest, l = ws ++ rest)).
  - apply (Hver _ _ (λ l, ∃ rest, l = ws ++ rest)).
  - apply (Hver _ _ (λ l, ∃ rest, l = ws ++ rest ∧ new = first_of rest)).
Qed.

(** The invariant moves along. *)
Lemma stack_rep_moves s ts tid t l s' l' t' :
  ts !! tid = Some t → ptrs_inv (mkSS s ts) → ptrs_inv (mkSS s' (<[tid := t']> ts)) →
  l ++ all_hands (mkSS s ts) ≡ₚ Bs → Forall (λ t, pc_inv s l (st_pc t)) ts →
  sh_usage s = wrap64 (zlen l - all_owed ts) → moves s l t s' l' t' →
  stack_rep (mkSS s' (<[tid := t']> ts)) l'.
Proof.
  intros Ht Hp Hp' Hb Hpc Hu Hm. split; [done|].
  destruct (concat_insert_perm (thread_blocks <$> ts) tid (thread_blocks t)) as (rest & Hc & Hc').
  { by rewrite list_lookup_fmap, Ht. }
  split; [apply Hm|]. split; [|split].
  - unfold all_hands in *. cbn in *. rewrite list_fmap_insert, Hc'. rewrite <- Hb, Hc, !(assoc_L app).
    apply Permutation_app_tail. rewrite (Permutation_app_comm l'), (Permutation_app_comm l). apply Hm.
  - apply Forall_lookup. intros i u Hi. change (<[tid := t']> ts !! i = Some u) in Hi. destruct (decide (i = tid)) as [->|Hne].
    + rewrite list_lookup_insert_eq in Hi by (by eapply lookup_lt_Some). injection Hi as <-. apply Hm.
    + rewrite list_lookup_insert_ne in Hi by done. apply (pc_inv_other s l t s' l' t'); [done| | |].
      * assert (NoDup (concat (thread_blocks <$> ts))) as Hd.
        { rewrite <- Hb in Hnd. by apply NoDup_app in Hnd as (_ & _ & ?). }
        intros y Hy Hu'. apply (concat_nodup_other _ tid i (thread_blocks t) (thread_blocks u) y Hd); try done;
          rewrite list_lookup_fmap; [by rewrite Ht|by rewrite Hi].
      * by apply (proj1 (Forall_lookup _ _) (proj2 Hp) i).
      * by apply (proj1 (Forall_lookup _ _) Hpc i).
  - change (sh_usage s' = wrap64 (zlen l' - all_owed (<[tid := t']> ts))).
    rewrite (all_owed_insert ts tid t t' Ht), (mv_usage _ _ _ _ _ _ Hm (all_owed ts - owed t)).
    + f_equal. lia.
    + rewrite Hu. f_equal. lia.
Qed.

(** In the abstract a move is one step. *)
Lemma moves_abstract s ts tid t l s' l' t' :
  ts !! tid = Some t → moves s l t s' l' t' →
  astack_step tid (abstract (mkSS s ts) l) (abstract (mkSS s' (<[tid := t']> ts)) l').
Proof.
  intros Ht Hm. assert ((thread_blocks <$> ts) !! tid = Some (thread_blocks t)) as Hh by by rewrite list_lookup_fmap, Ht.
  unfold abstract. cbn [ss_threads]. rewrite list_fmap_insert. pose proof (mv_blocks _ _ _ _ _ _ Hm) as Hb.
  destruct (mv_list _ _ _ _ _ _ Hm) as [->|[(ws & Hne & ->)|(ws & Hne & ->)]].
  - by apply (AQuiet _ _ _ (thread_blocks t)); [|apply Permutation_app_inv_r in Hb].
  - apply (APut _ _ _ (thread_blocks t) ws); [done|done|]. apply (Permutation_app_inv_r l). rewrite <- Hb. solve_Permutation.
  - apply (ATake _ _ _ (thread_blocks t) ws); [done|done|]. apply (Permutation_app_inv_r l'). rewrite Hb. solve_Permutation.
Qed.

(** *** The kinds of move *)

Lemma moves_local s l t t' :
  head_inv s l → pc_inv s l (st_pc t') → thread_blocks t' ≡ₚ thread_blocks t → owed t' = owed t →
  moves s l t s l t'.
Proof. intros Hh Hpc Hb Ho. split; [done|done|by left|by left|done|by rewrite Hb|]. by rewrite Ho. Qed.

Lemma set_next_ne s x v y : y ≠ x → sh_next (set_next s x v) y = sh_next s y.
Proof. intros. cbn. by case_zb. Qed.

Lemma set_next_eq s x v : sh_next (set_next s x v) x = v.
Proof. cbn. by rewrite Z.eqb_refl. Qed.

(** A block that is not in the list gets another link. *)
Lemma moves_link s l t x v t' :
  head_inv s l → x ∈ thread_blocks t → x ∉ l → pc_inv (set_next s x v) l (st_pc t') →
  thread_blocks t' ≡ₚ thread_blocks t → owed t' = owed t → moves s l t (set_next s x v) l t'.
Proof.
  intros [Hl Ht] Hx Hxl Hpc Hb Ho. split; try done.
  - split; [|done]. apply (stack_list_mono (sh_next s)); [|done]. intros y Hy. apply set_next_ne. by intros ->.
  - by left.
  - by left.
  - intros y Hy. apply set_next_ne. by intros ->.
  - by rewrite Hb.
  - by rewrite Ho.
Qed.

Lemma chained_mono_tail n n' us x :
  (∀ y, y ∈ us → n' y = n y) → chained n (us ++ [x]) → chained n' (us ++ [x]).
Proof.
  induction us as [|y us IH]; intros Hn; [done|]. intros Hc.
  assert (chained n (us ++ [x])) as Hc' by (destruct us; [done|apply Hc]).
  assert (chained n' (us ++ [x])) as Hi by (apply IH; [|done]; intros z Hz; apply Hn; by right).
  pose proof (Hn y ltac:(left)) as Hy. destruct us as [|z us]; split; try done; rewrite Hy; apply Hc.
Qed.

Lemma split_tail ws : ws ≠ [] → ∃ us, ws = us ++ [tail_of ws].
Proof. destruct ws as [|x ws _] using rev_ind; [done|]. exists ws. by rewrite tail_of_snoc. Qed.

Lemma chained_set_tail s ws v :
  NoDup ws → chained (sh_next s) ws → chained (sh_next (set_next s (tail_of ws) v)) ws.
Proof.
  intros Hd Hc. destruct (decide (ws = [])) as [->|Hne]; [done|]. destruct (split_tail ws Hne) as [us E].
  rewrite E in Hd, Hc |- * at 2. apply NoDup_app in Hd as (_ & Hd & _). revert Hc. apply chained_mono_tail. intros y Hy.
  apply set_next_ne. intros ->. apply (Hd _ Hy). left.
Qed.

(** [a] is what the counter had, [n] what is added to it. *)
Lemma usage_add u a n : u = wrap64 a → wrapping_add64 u n = wrap64 (a + n).
Proof. intros ->. unfold wrapping_add64, wrap64. by rewrite Zplus_mod_idemp_l. Qed.

Lemma usage_sub u a n : u = wrap64 a → wrapping_sub64 u n = wrap64 (a - n).
Proof. intros ->. unfold wrapping_sub64, wrap64. by rewrite Zminus_mod_idemp_l. Qed.

Lemma seen_now s l : head_inv s l → seen s (sh_head s) (sh_ver s).
Proof. intros [_ ?]. by split. Qed.

Lemma head_inv_set s p cur ver l :
  ptr_in p → word64 cur → head_tag cur = ver mod 16 → ver mod 16 = sh_ver s mod 16 → stack_list (sh_next s) p l →
  head_inv (set_head s (head_pack p (wrapping_add64 (head_tag cur) 1))) l.
Proof.
  intros Hp%ptr_in_block Hw Ht Hv Hl. unfold head_inv. cbn [set_head sh_head sh_next sh_ver]. split.
  - rewrite pack_ptr; [done|done|]. unfold wrapping_add64. apply wrap64_range.
  - rewrite (pack_tag _ _ ver Hp Hw Ht). zdiv.
Qed.

(** A push publishes its chain. *)
Lemma moves_push s l ws cur ver held :
  shared_ptrs s → thread_ptrs (mkSThread (PushCas ws cur ver) held) → head_inv s l →
  pc_inv s l (PushCas ws cur ver) → sh_head s = cur →
  moves s l (mkSThread (PushCas ws cur ver) held)
    (set_head s (head_pack (first_of ws) (wrapping_add64 (head_tag cur) 1))) (ws ++ l)
    (mkSThread (PushCount (zlen ws)) held).
Proof.
  intros [[Hw _] _] [(Hne & Hsub & _) _] [Hl Ht] [Hc Htl] <-. split; try done.
  - apply (head_inv_set _ _ _ (sh_ver s)); try done; [right; by apply first_in|].
    apply (stack_list_app _ _ (head_ptr (sh_head s))); try done.
    rewrite Forall_forall in HBs |- *. auto.
  - right. left. by exists ws.
  - by right.
  - unfold thread_blocks. cbn. solve_Permutation.
  - unfold owed. cbn. intros k ->. rewrite zlen_app. f_equal. lia.
Qed.

(** A pop whose head is the one that it loaded takes what it walked over. *)
Lemma moves_pop s l b ws cur ver new held :
  shared_ptrs s → thread_ptrs (mkSThread (PopCas b ws cur ver new) held) → head_inv s l →
  pc_inv s l (PopCas b ws cur ver new) → sh_head s = cur → sh_ver s < ver + 16 →
  ∃ l', moves s l (mkSThread (PopCas b ws cur ver new) held)
    (set_head s (head_pack new (wrapping_add64 (head_tag cur) 1))) l' (mkSThread (PopCount ws) held).
Proof.
  intros [[Hw _] _] [(Hne & _ & _ & Hnew) _] [Hl Ht] [[Hle Hv] Hp] <- Hlt.
  assert (ver = sh_ver s) as -> by (rewrite Ht in Hv; zdiv).
  destruct Hp as (rest & -> & ->); [done|]. exists rest.
  destruct (stack_list_tail _ _ _ _ Hne Hl) as [_ Hr]. split; try done.
  - by apply (head_inv_set _ _ _ (sh_ver s)).
  - right. right. by exists ws.
  - by right.
  - unfold thread_blocks. cbn. solve_Permutation.
  - unfold owed. cbn. intros k ->. rewrite zlen_app. f_equal. lia.
Qed.

(** [todo] rounds of the walk are left. *)
Lemma pc_inv_walk_on s l b ws cur ver todo :
  pc_inv s l (PopNew b ws cur ver) → pc_inv s l (walk_on b ws cur ver todo).
Proof. by destruct todo. Qed.

(** The link that a walk reads, if the list is still the one it began in. *)
Lemma pop_next s l ws rest :
  head_inv s l → ws ≠ [] → l = ws ++ rest → sh_next s (tail_of ws) = first_of rest ∧ stack_list (sh_next s) (first_of rest) rest.
Proof. intros [Hl _] Hne ->. by eapply stack_list_tail. Qed.

Lemma first_of_cons n rest : stack_list n (first_of rest) rest → first_of rest ≠ 0 → ∃ rest', rest = first_of rest :: rest'.
Proof. destruct rest as [|x rest]; [done|]. intros _ _. by exists rest. Qed.

Lemma stack_step_moves sp s t s' t' l :
  shared_ptrs s → thread_ptrs t → head_inv s l → pc_inv s l (st_pc t) → NoDup (thread_blocks t ++ l) →
  stale_swap s t = false → stack_step sp s t = Some (s', t') → ∃ l', moves s l t s' l' t'.
Proof.
  intros Hs Ht Hh Hpc Hd Hst E. pose proof Ht as [Htp _]. destruct t as [pc held]. cbn [st_pc] in *.
  assert (∀ y, y ∈ pc_blocks pc → y ∉ l) as Hout.
  { intros y Hy. apply NoDup_app in Hd as (_ & Hd & _). apply Hd, elem_of_app. by left. }
  destruct pc as [|ws cur ver|ws cur ver|n|b|b|b ws cur ver todo|b ws cur ver|b ws cur ver new|ws|ws];
    cbn in E, Hst, Htp.
  - done.
  - injection E as <- <-. exists l. destruct Htp as (Hne & _). apply moves_link; try done.
    + apply elem_of_app. left. by apply tail_in_ws.
    + by apply Hout, tail_in_ws.
    + split; [|apply set_next_eq]. apply chained_set_tail; [|done].
      apply NoDup_app in Hd as (Hd & _ & _). by apply NoDup_app in Hd as (? & _ & _).
  - destruct (Z.eqb_spec (sh_head s) cur) as [Heq|]; cbn in E; [destruct sp|]; injection E as <- <-.
    + exists l. apply moves_local; [done|apply Hpc|done..].
    + exists (ws ++ l). by apply moves_push.
    + exists l. apply moves_local; [done|apply Hpc|done..].
  - injection E as <- <-. exists l. split; [done|done|by left|by left|done|done|]. cbn. unfold owed. cbn. intros k Hu.
    rewrite (usage_add _ _ n Hu). f_equal. lia.
  - injection E as <- <-. exists l. apply moves_local; [done|by case_match|by case_match..].
  - injection E as <- <-. exists l. case_zb; [by apply moves_local|]. apply moves_local; [done| |by destruct (b - 1)%nat..].
    apply pc_inv_walk_on. split; [by eapply seen_now|]. intros _. destruct Hh as [Hl _].
    destruct l as [|x l]; [done|]. exists l. cbn. f_equal. symmetry. apply Hl.
  - injection E as <- <-. exists l. destruct Hpc as [Hseen Hp]. case_zb; [by apply moves_local|].
    apply moves_local; [done| |by destruct (todo - 1)%nat..]. apply pc_inv_walk_on. split; [done|]. intros Hv.
    destruct (Hp Hv) as (rest & Hl). destruct (pop_next _ _ _ _ Hh (proj1 Htp) Hl) as [Hx Hr].
    destruct (first_of_cons _ _ Hr) as (rest' & Hr'); [congruence|]. exists rest'. rewrite Hl, Hr', Hx.
    by rewrite <- (assoc_L app).
  - injection E as <- <-. exists l. destruct Hpc as [Hseen Hp]. apply moves_local; [done| |done..]. split; [done|].
    intros Hv. destruct (Hp Hv) as (rest & Hl). exists rest. split; [done|]. by apply (pop_next _ _ _ _ Hh (proj1 Htp) Hl).
  - destruct (Z.eqb_spec (sh_head s) cur) as [Heq|]; injection E as <- <-; [|exists l; by apply moves_local].
    apply Z.leb_gt in Hst. by apply (moves_pop _ _ _ _ _ ver).
  - injection E as <- <-. exists l. split; [done|done|by left|by left|done|done|]. cbn. unfold owed. cbn. intros k Hu.
    rewrite (usage_sub _ _ (zlen ws) Hu). f_equal. lia.
  - injection E as <- <-. exists l. destruct Htp as (Hne & _). apply moves_link; try done.
    + apply elem_of_app. left. by apply tail_in_ws.
    + by apply Hout, tail_in_ws.
Qed.

Lemma idle_step_moves s t s' t' l :
  head_inv s l → NoDup (thread_blocks t ++ l) → idle_step s t s' t' → moves s l t s' l t'.
Proof.
  intros Hh Hd Hst. destruct Hst as [held x v Hx Hv|held ws rest Hne Hp Hc|held b].
  - apply moves_link; try done. apply NoDup_app in Hd as (_ & Hd & _). by apply Hd.
  - apply moves_local; [done..| |done]. unfold thread_blocks. cbn. by rewrite Hp.
  - by apply moves_local.
Qed.

(** The implementation simulates the abstract stack. *)
Lemma stack_rep_step x y l :
  stack_rep x l → fresh_step x y → ∃ l', stack_rep y l' ∧ astep (abstract x l) (abstract y l').
Proof.
  intros (Hp & Hh & Hb & Hpc & Hu) (tid & t & Ht & Hstale & Hst).
  assert (ptrs_inv y) as Hp'. { apply (ptrs_inv_step x); [done|by exists tid]. }
  assert (NoDup (thread_blocks t ++ l)) as Hd.
  { destruct (concat_insert_perm (thread_blocks <$> ss_threads x) tid (thread_blocks t)) as (rest & Hc & _).
    { by rewrite list_lookup_fmap, Ht. }
    unfold all_hands in Hb. rewrite <- Hb, Hc, (assoc_L app) in Hnd. apply NoDup_app in Hnd as (Hnd' & _ & _).
    by rewrite Permutation_app_comm. }
  pose proof (proj1 (Forall_lookup _ _) (proj2 Hp) tid t Ht) as Htp. pose proof (proj1 (Forall_lookup _ _) Hpc tid t Ht) as Htpc.
  assert (∃ s ts s' t' l', x = mkSS s ts ∧ y = mkSS s' (<[tid := t']> ts) ∧ moves s l t s' l' t') as (s & ts & s' & t' & l' & -> & -> & Hm).
  { destruct Hst as [sp s ts t0 s' t' Ht0 Hst|s ts t0 s' t' Ht0 Hst]; cbn [ss_shared ss_threads] in *;
      rewrite Ht in Ht0; injection Ht0 as <-; exists s, ts, s', t'.
    - destruct (stack_step_moves sp s t s' t' l (proj1 Hp) Htp Hh Htpc Hd Hstale Hst) as [l' Hm]. by exists l'.
    - exists l. split; [done|]. split; [done|]. by apply idle_step_moves. }
  exists l'. split; [by apply (stack_rep_moves s ts tid t l s' l' t')|]. exists tid. by apply (moves_abstract s ts tid t).
Qed.

(** The start. *)
Lemma stack_rep_start next hands :
  concat hands ≡ₚ Bs → (∀ x, x ∈ Bs → ptr_in (next x)) → stack_rep (stack_start next hands) [].
Proof.
  intros Hb Hn. split; [split; [split; [split; [by compute|by left]|done]|]|].
  - apply Forall_lookup. intros i t Hi. apply list_lookup_fmap_Some in Hi as (held & -> & Hi). split; [done|].
    intros x Hx. rewrite <- Hb. by apply (elem_of_concat _ i held).
  - split; [done|]. split; [|split].
    + unfold all_hands, stack_start. cbn. rewrite <- list_fmap_compose. unfold thread_blocks. cbn. by rewrite list_fmap_id.
    + by apply Forall_fmap, Forall_true.
    + cbn. replace (all_owed (mkSThread SIdle <$> hands)) with 0; [done|]. clear. induction hands as [|held hands IH]; [done|]. exact IH.
Qed.

Lemma abstract_start next hands : abstract (stack_start next hands) [] = mkAStack [] hands.
Proof. unfold abstract, stack_start. cbn. f_equal. rewrite <- list_fmap_compose. unfold thread_blocks. cbn. apply list_fmap_id. Qed.

(** Every run of the implementation is a run of the abstract stack. *)
Lemma stack_rep_reachable next hands x :
  concat hands ≡ₚ Bs → (∀ x, x ∈ Bs → ptr_in (next x)) → rtc fresh_step (stack_start next hands) x →
  ∃ l, stack_rep x l ∧ rtc astep (mkAStack [] hands) (abstract x l).
Proof.
  intros Hb Hn Hr. rewrite <- (abstract_start next). pose proof (stack_rep_start next hands Hb Hn) as Hs. revert Hs. generalize ([] : list Z).
  induction Hr as [x|x y z Hxy _ IH]; intros l Hl; [by exists l; split; [|apply rtc_refl]|].
  destruct (stack_rep_step _ _ _ Hl Hxy) as (l1 & Hl1 & Ha). destruct (IH l1 Hl1) as (l2 & Hl2 & Har).
  exists l2. split; [done|]. by eapply rtc_l.
Qed.

Lemma ptrs_inv_reachable next hands x :
  concat hands ≡ₚ Bs → (∀ x, x ∈ Bs → ptr_in (next x)) → rtc sstep (stack_start next hands) x → ptrs_inv x.
Proof. intros Hb Hn Hr. apply (rtc_preserve _ _ ptrs_inv_step _ _ Hr). by apply stack_rep_start. Qed.
End Race.

(** ** Theorems *)

(** C13: As long as no [pop] swaps a head that was changed 16 times since its load, no block is
    lost and none is in two places: in every state of every interleaving, the blocks of the list
    and those of the threads are together the blocks that the threads began with. The counter lags
    behind the length of the list by what the threads have yet to add, modulo 2^64, so it is the
    length when all threads are idle. *)
Theorem stack_no_block_lost Bs next hands x :
  Forall stack_block Bs → NoDup Bs → concat hands ≡ₚ Bs → (∀ y, y ∈ Bs → ptr_in Bs (next y)) →
  rtc fresh_step (stack_start next hands) x →
  ∃ l, stack_list (sh_next (ss_shared x)) (head_ptr (sh_head (ss_shared x))) l ∧ l ++ all_hands x ≡ₚ Bs ∧
    sh_usage (ss_shared x) = wrap64 (zlen l - all_owed (ss_threads x)) ∧
    (Forall (λ t, st_pc t = SIdle) (ss_threads x) → sh_usage (ss_shared x) = wrap64 (zlen l)).
Proof.
  intros HBs Hnd Hb Hn Hr.
  destruct (stack_rep_reachable Bs HBs Hnd next hands x Hb Hn Hr) as (l & (_ & [Hl _] & Hp & _ & Hu) & _).
  exists l. do 3 (split; [done|]). intros Hidle. rewrite Hu. f_equal. clear -Hidle.
  enough (all_owed (ss_threads x) = 0) by lia. induction Hidle as [|t ts Ht _ IH]; [done|].
  change (owed t + all_owed ts = 0). unfold owed. rewrite Ht. lia.
Qed.

(** C14: With the same proviso the list is an atomic stack, whatever the interleaving: each access
    that matters puts the whole chain of a push in front of it, or takes the whole chain of a pop
    from its front, in one step, and all other accesses change neither it nor what the threads
    hold; so what any run reaches is what a run of the abstract stack reaches. *)
Theorem stack_refines_atomic Bs next hands x :
  Forall stack_block Bs → NoDup Bs → concat hands ≡ₚ Bs → (∀ y, y ∈ Bs → ptr_in Bs (next y)) →
  rtc fresh_step (stack_start next hands) x →
  ∃ l, stack_list (sh_next (ss_shared x)) (head_ptr (sh_head (ss_shared x))) l ∧
    rtc astep (mkAStack [] hands) (mkAStack l (thread_blocks <$> ss_threads x)).
Proof.
  intros HBs Hnd Hb Hn Hr.
  destruct (stack_rep_reachable Bs HBs Hnd next hands x Hb Hn Hr) as (l & (_ & [Hl _] & _) & Ha). by exists l.
Qed.

(** In every interleaving, however stale the swaps, an access reads or writes the link of one
    of the allocator's blocks, never of null or of anything else. *)
Theorem stack_accesses_blocks Bs next hands x tid t y :
  Forall stack_block Bs → concat hands ≡ₚ Bs → (∀ y, y ∈ Bs → ptr_in Bs (next y)) →
  rtc sstep (stack_start next hands) x → ss_threads x !! tid = Some t → touched t = Some y → y ∈ Bs.
Proof.
  intros HBs Hb Hn Hr Ht Hy. destruct (ptrs_inv_reachable Bs HBs next hands x Hb Hn Hr) as [_ Hts].
  destruct (proj1 (Forall_lookup _ _) Hts tid t Ht) as [Hpc _]. destruct t as [pc held]. cbn in Hpc.
  destruct pc; try done; injection Hy as <-; apply tail_in; apply Hpc.
Qed.
