(* ===== verification/StackRaceLive.v ===== *)
(** * Progress of the threads on a per-cpu list, and two schedules that go wrong

    The loops of [try_push] and [pop] are lock-free. Schedules are executable here: [play] runs
    one, and what it reaches is reachable. With it: a tag of four bits comes round again, and a
    block is handed out twice; and a counter is below zero while a push is on its way. *)

From S2P Require Import Prelude Bits Lib SizeClass Sys BlockList Interconnect InterconnectSpec StackRace StackRaceSpec.

#[local] Existing Instance default_build.

(** ** Lock-freedom *)

(** One thread makes an access, and a weak compare-and-swap does not fail without a reason. *)
Definition access (x y : sstate) : Prop :=
  ∃ tid t s' t', ss_threads x !! tid = Some t ∧ stack_step false (ss_shared x) t = Some (s', t') ∧
    y = mkSS s' (<[tid := t']> (ss_threads x)).

(** The head that a thread has loaded is the current one, if the version is. *)
Definition pc_current (s : shared) (pc : spc) : Prop :=
  match pc with
  | PushLink _ cur ver | PushCas _ cur ver | PopWalk _ _ cur ver _ | PopNew _ _ cur ver | PopCas _ _ cur ver _ =>
      ver ≤ sh_ver s ∧ (ver = sh_ver s → cur = sh_head s)
  | _ => True
  end.

(** The accesses that are left until the thread swaps the head or ends its call, while nobody else
    swaps it: [again] more if its next swap fails. *)
Definition rank (s : shared) (pc : spc) : nat :=
  let again ver n := if ver =? sh_ver s then O else n in
  (match pc with
   | SIdle => 0
   | PushCount _ => 1
   | PopCut _ => 1
   | PopCount _ => 2
   | PushCas _ _ ver => 1 + again ver 2
   | PushLink _ _ ver => 2 + again ver 2
   | PopCheck b => b + 5
   | PopLoad b => b + 4
   | PopWalk b _ _ ver todo => todo + 3 + again ver (b + 5)
   | PopNew b _ _ ver => 2 + again ver (b + 5)
   | PopCas b _ _ ver _ => 1 + again ver (b + 5)
   end)%nat.

Definition total_rank (x : sstate) : nat := sum_list_with (λ t, rank (ss_shared x) (st_pc t)) (ss_threads x).
Definition current (x : sstate) : Prop := Forall (λ t, pc_current (ss_shared x) (st_pc t)) (ss_threads x).

Lemma set_version s t sp s' t' :
  stack_step sp s t = Some (s', t') → sh_ver s' = sh_ver s ∧ sh_head s' = sh_head s ∨ sh_ver s' = sh_ver s + 1.
Proof.
  destruct t as [pc held]. destruct pc; cbn; intros E; try (injection E as <- <-; auto); [done| |].
  - destruct ((sh_head s =? cur) && negb sp); injection E as <- <-; auto.
  - destruct (sh_head s =? cur); injection E as <- <-; auto.
Qed.

Lemma current_now s : sh_ver s ≤ sh_ver s ∧ (sh_ver s = sh_ver s → sh_head s = sh_head s).
Proof. done. Qed.

Lemma step_current sp s t s' t' :
  stack_step sp s t = Some (s', t') → pc_current s (st_pc t) → pc_current s' (st_pc t').
Proof.
  destruct t as [pc held]. destruct pc; cbn; intros E Hc; try (injection E as <- <-; done); [done| | | | |].
  - destruct ((sh_head s =? cur) && negb sp); injection E as <- <-; [done|apply current_now].
  - injection E as <- <-. by case_match.
  - injection E as <- <-. cbn. case_zb; [done|]. destruct (b - 1)%nat; apply current_now.
  - injection E as <- <-. cbn. case_zb; [done|]. by destruct (todo - 1)%nat.
  - destruct (sh_head s =? cur); injection E as <- <-; done.
Qed.

Lemma other_current s s' pc :
  sh_ver s' = sh_ver s ∧ sh_head s' = sh_head s ∨ sh_ver s' = sh_ver s + 1 → pc_current s pc → pc_current s' pc.
Proof. intros [[Hv Hh]|Hv]; destruct pc; cbn; try done; rewrite ?Hv, ?Hh; try done; intros [? ?]; (split; [lia|]; intros ?; lia). Qed.

Lemma current_step x y : current x → sstep x y → current y.
Proof.
  intros Hx [tid Hst]. unfold current in *.
  destruct Hst as [sp s ts t s' t' Ht Hst|s ts t s' t' Ht Hst]; cbn [ss_shared ss_threads] in *.
  - apply Forall_insert; [|eapply step_current; [exact Hst|by apply (proj1 (Forall_lookup _ _) Hx tid)]].
    eapply Forall_impl; [exact Hx|]. intros u. apply other_current. by eapply set_version.
  - assert (sh_ver s' = sh_ver s ∧ sh_head s' = sh_head s) as Hs by by destruct Hst.
    apply Forall_insert; [|destruct Hst; [done|apply current_now|done]].
    eapply Forall_impl; [exact Hx|]. intros u. apply other_current. by left.
Qed.

(** An access that does not swap the head brings its thread nearer to the end. *)
Lemma step_rank s t s' t' :
  stack_step false s t = Some (s', t') → pc_current s (st_pc t) → sh_ver s' = sh_ver s →
  (rank s' (st_pc t') < rank s (st_pc t))%nat.
Proof.
  destruct t as [pc held]. destruct pc; cbn; intros E Hc Hv; try (injection E as <- <-; cbn; lia); [done| | | | |].
  - destruct (Z.eqb_spec (sh_head s) cur) as [He|He]; injection E as <- <-; cbn in *; [lia|].
    rewrite Z.eqb_refl. case_zb; [by destruct He; symmetry; apply Hc|lia].
  - injection E as <- <-. cbn. case_match; cbn; lia.
  - injection E as <- <-. cbn. case_zb; [cbn; lia|]. unfold walk_on.
    destruct (b - 1)%nat eqn:Eb; cbn; rewrite Z.eqb_refl; lia.
  - injection E as <- <-. cbn. case_match; [cbn; lia|]. unfold walk_on. destruct (todo - 1)%nat eqn:Et; cbn; lia.
  - destruct (Z.eqb_spec (sh_head s) cur) as [He|He]; injection E as <- <-; cbn in *; [lia|].
    case_zb; [by destruct He; symmetry; apply Hc|lia].
Qed.

Lemma access_sstep x y : access x y → sstep x y.
Proof. intros (tid & t & s' & t' & Ht & E & ->). exists tid. destruct x as [s ts]. by apply (TAccess tid false s ts t). Qed.

Lemma access_version x y : access x y → sh_ver (ss_shared x) ≤ sh_ver (ss_shared y).
Proof. intros (tid & t & s' & t' & Ht & E & ->). destruct (set_version _ _ _ _ _ E) as [[? _]|?]; cbn; lia. Qed.

Lemma accesses_version n x y : nsteps access n x y → sh_ver (ss_shared x) ≤ sh_ver (ss_shared y).
Proof. induction 1 as [|n x y z H1 _ IH]; [lia|]. pose proof (access_version _ _ H1). lia. Qed.

Lemma rank_version s s' pc : sh_ver s' = sh_ver s → rank s' pc = rank s pc.
Proof. intros Hv. destruct pc; cbn; by rewrite ?Hv. Qed.

Lemma rank_insert s ts tid t t' :
  ts !! tid = Some t → (rank s (st_pc t') < rank s (st_pc t))%nat →
  (sum_list_with (λ t, rank s (st_pc t)) (<[tid := t']> ts) < sum_list_with (λ t, rank s (st_pc t)) ts)%nat.
Proof. intros Ht Hr. pose proof (sum_list_with_insert (λ t, rank s (st_pc t)) ts tid t t' Ht). cbn in *. lia. Qed.

Lemma access_rank x y :
  current x → access x y → sh_ver (ss_shared y) = sh_ver (ss_shared x) → (total_rank y < total_rank x)%nat.
Proof.
  intros Hc (tid & t & s' & t' & Ht & E & ->) Hv. destruct x as [s ts]. unfold total_rank. cbn [ss_shared ss_threads] in *.
  pose proof (step_rank s t s' t' E (proj1 (Forall_lookup _ _) Hc tid t Ht) Hv) as Hr.
  assert (∀ l, sum_list_with (λ t, rank s' (st_pc t)) l = sum_list_with (λ t, rank s (st_pc t)) l) as ->.
  { induction l as [|u l IH]; [done|]. cbn. rewrite IH, (rank_version s s') by done. done. }
  rewrite (rank_version s s') in Hr by done. by apply (rank_insert s ts tid t t').
Qed.

Lemma accesses_rank n x y :
  nsteps access n x y → current x → sh_ver (ss_shared y) = sh_ver (ss_shared x) → (n + total_rank y ≤ total_rank x)%nat.
Proof.
  induction 1 as [|n x y z H1 Hn IH]; intros Hc Hv; [lia|].
  pose proof (access_version _ _ H1). pose proof (accesses_version _ _ _ Hn).
  pose proof (access_rank _ _ Hc H1 ltac:(lia)). pose proof (IH (current_step _ _ Hc (access_sstep _ _ H1)) ltac:(lia)). lia.
Qed.

Lemma current_reachable next hands x : rtc sstep (stack_start next hands) x → current x.
Proof.
  intros Hr. apply (rtc_preserve _ _ current_step _ _ Hr). by apply Forall_fmap, Forall_true.
Qed.

(** C15: Lock-freedom: of any [total_rank x + 1] accesses of the threads from a reachable state
    [x], whoever makes them and in whatever order, one swaps the head, so that a push or a pop
    takes effect; the weak compare-and-swap must not fail without a reason among them. *)
Theorem stack_lock_free next hands x n y :
  rtc sstep (stack_start next hands) x → nsteps access n x y → (total_rank x < n)%nat →
  sh_ver (ss_shared x) < sh_ver (ss_shared y).
Proof.
  intros Hr Hn Hlt. pose proof (accesses_version _ _ _ Hn).
  destruct (decide (sh_ver (ss_shared y) = sh_ver (ss_shared x))) as [Hv|]; [|lia].
  pose proof (accesses_rank _ _ _ Hn (current_reachable _ _ _ Hr) Hv). lia.
Qed.

(** ** Schedules *)

(** A move of the thread [tid]: an access, or the choice that an idle thread makes. *)
Inductive move : Type :=
| MAccess (tid : nat)
| MPush (tid : nat) (ws rest : list Z)
| MPop (tid b : nat).

Definition put (x : sstate) (tid : nat) (t : sthread) : sstate := mkSS (ss_shared x) (<[tid := t]> (ss_threads x)).

Fixpoint chainedb (next : Z → Z) (l : list Z) : bool :=
  match l with
  | x :: (y :: _) as l' => (next x =? y) && chainedb next l'
  | _ => true
  end.

Definition is_idle (t : sthread) : bool := match st_pc t with SIdle => true | _ => false end.
Definition nonempty (l : list Z) : bool := match l with [] => false | _ => true end.

(** A move, unless the thread is not there to make it; with [fresh], unless its swap is stale. *)
Definition play1 (fresh : bool) (x : sstate) (m : move) : option sstate :=
  match m with
  | MAccess tid =>
      t ← ss_threads x !! tid;
      if fresh && stale_swap (ss_shared x) t then None
      else '(s', t') ← stack_step false (ss_shared x) t; Some (mkSS s' (<[tid := t']> (ss_threads x)))
  | MPush tid ws rest =>
      t ← ss_threads x !! tid;
      if is_idle t && bool_decide (st_held t ≡ₚ ws ++ rest) && nonempty ws && chainedb (sh_next (ss_shared x)) ws then
        Some (put x tid (mkSThread (PushLink ws (sh_head (ss_shared x)) (sh_ver (ss_shared x))) rest))
      else None
  | MPop tid b =>
      t ← ss_threads x !! tid;
      if is_idle t then Some (put x tid (mkSThread (PopCheck b) (st_held t))) else None
  end.

Fixpoint play (fresh : bool) (x : sstate) (ms : list move) : option sstate :=
  match ms with
  | [] => Some x
  | m :: ms => x ← play1 fresh x m; play fresh x ms
  end.

Lemma chainedb_chained next l : chainedb next l = true → chained next l.
Proof. induction l as [|x [|y l] IH]; [done..|]. intros [?%Z.eqb_eq ?]%andb_true_iff. by split; [|apply IH]. Qed.

Lemma is_idle_pc t : is_idle t = true → t = mkSThread SIdle (st_held t).
Proof. destruct t as [pc held]. by destruct pc. Qed.

Lemma idle_fresh s t : is_idle t = true → stale_swap s t = false.
Proof. destruct t as [pc held]. by destruct pc. Qed.

Lemma play1_sound fresh x m y :
  play1 fresh x m = Some y → ∃ tid t, ss_threads x !! tid = Some t ∧ tid_step tid x y ∧
    (fresh = true → stale_swap (ss_shared x) t = false).
Proof.
  destruct x as [s ts]. destruct m as [tid|tid ws rest|tid b]; cbn -[stale_swap];
    intros (t & Ht & E)%bind_Some; exists tid, t; (split; [done|]).
  - destruct (fresh && stale_swap s t) eqn:Ef; [done|]. apply bind_Some in E as ([s' t'] & E & [= <-]).
    split; [by eapply TAccess|]. by intros ->.
  - destruct (is_idle t) eqn:Ei; [|done]. cbn in E. case_bool_decide as Hh; [|done]. destruct ws as [|w ws]; [done|].
    destruct (chainedb _ _) eqn:Ec; [|done]. injection E as <-. split; [|intros _; by apply idle_fresh].
    apply (TIdle tid s ts t); [done|]. rewrite (is_idle_pc t Ei). apply IPush; [done|exact Hh|by apply chainedb_chained].
  - destruct (is_idle t) eqn:Ei; [|done]. injection E as <-. split; [|intros _; by apply idle_fresh].
    apply (TIdle tid s ts t); [done|]. rewrite (is_idle_pc t Ei). apply IPop.
Qed.

(** What a schedule reaches is reachable. *)
Lemma play_sound fresh ms x y : play fresh x ms = Some y → rtc sstep x y ∧ (fresh = true → rtc fresh_step x y).
Proof.
  revert x. induction ms as [|m ms IH]; intros x; cbn; [intros [= ->]; split; [|intros _]; apply rtc_refl|].
  intros (z & (tid & t & Ht & Hst & Hf)%play1_sound & [Hr Hr']%IH)%bind_Some. split.
  - eapply rtc_l; [by exists tid|done].
  - intros ->. eapply rtc_l; [|by apply Hr']. exists tid, t. auto.
Qed.

(** [n] accesses of a thread. *)
Definition accesses (tid n : nat) : list move := replicate n (MAccess tid).

(** *** Witnesses of the theorems about all interleavings *)

(** Thread 1 lists one block, and a second that it has not counted yet; thread 0 takes both. *)
Definition below_zero_start : sstate := stack_start (λ _, 0) [[]; [16; 32]].
Definition below_zero_schedule : list move :=
  [MPush 1 [16] [32]] ++ accesses 1 3 ++ [MPush 1 [32] []] ++ accesses 1 2 ++ [MPop 0 2] ++ accesses 0 6.

Definition below_zero (x : sstate) : bool := sh_usage (ss_shared x) =? u64_max.

Lemma schedule_reaches (check : sstate → bool) fresh x ms :
  (match play fresh x ms with Some y => check y | None => false end) = true →
  ∃ y, rtc sstep x y ∧ (fresh = true → rtc fresh_step x y) ∧ check y = true.
Proof. destruct (play fresh x ms) as [y|] eqn:E; [|done]. intros Hc. destruct (play_sound _ _ _ _ E). eauto. Qed.

Lemma demo_blocks : Forall stack_block [16; 32].
Proof. repeat constructor; done. Qed.

Lemma demo_nodup : NoDup [16; 32].
Proof. apply NoDup_cons. split; [by intros ?%list_elem_of_singleton|apply NoDup_singleton]. Qed.

Lemma demo_links y : y ∈ [16; 32] → ptr_in [16; 32] 0.
Proof. by left. Qed.

(** The blocks are where they should be, also while the counter is below zero. *)
Lemma stack_no_block_lost_witness :
  ∃ x, sh_usage (ss_shared x) = u64_max ∧
    ∃ l, stack_list (sh_next (ss_shared x)) (head_ptr (sh_head (ss_shared x))) l ∧ l ++ all_hands x ≡ₚ [16; 32] ∧
      sh_usage (ss_shared x) = wrap64 (zlen l - all_owed (ss_threads x)) ∧
      (Forall (λ t, st_pc t = SIdle) (ss_threads x) → sh_usage (ss_shared x) = wrap64 (zlen l)).
Proof.
  destruct (schedule_reaches below_zero true below_zero_start below_zero_schedule) as (x & _ & Hr & Hx); [by vm_compute|].
  exists x. split; [by apply Z.eqb_eq|].
  apply (stack_no_block_lost [16; 32] (λ _, 0) [[]; [16; 32]] x demo_blocks demo_nodup); [done|exact demo_links|by apply Hr].
Defined.

(** Thread 0 has taken both blocks, and thread 1 is still in its second push. *)
Lemma stack_refines_atomic_witness :
  ∃ x, sh_usage (ss_shared x) = u64_max ∧
    ∃ l, stack_list (sh_next (ss_shared x)) (head_ptr (sh_head (ss_shared x))) l ∧
      rtc astep (mkAStack [] [[]; [16; 32]]) (mkAStack l (thread_blocks <$> ss_threads x)).
Proof.
  destruct (schedule_reaches below_zero true below_zero_start below_zero_schedule) as (x & _ & Hr & Hx); [by vm_compute|].
  exists x. split; [by apply Z.eqb_eq|].
  apply (stack_refines_atomic [16; 32] (λ _, 0) [[]; [16; 32]] x demo_blocks demo_nodup); [done|exact demo_links|by apply Hr].
Defined.

(** Thread 1 is about to write the link of its first block. *)
Definition pushing (x : sstate) : bool :=
  match ss_threads x with [_; u] => bool_decide (touched u = Some 16) | _ => false end.

Lemma stack_accesses_blocks_witness :
  ∃ x t, ss_threads x !! 1%nat = Some t ∧ touched t = Some 16 ∧ 16 ∈ [16; 32].
Proof.
  destruct (schedule_reaches pushing false below_zero_start [MPush 1 [16] [32]]) as (x & Hr & _ & Hx); [by vm_compute|].
  unfold pushing in Hx. destruct (ss_threads x) as [|t [|u [|]]] eqn:E; try done. apply bool_decide_eq_true in Hx.
  exists x, u. rewrite E. do 2 (split; [done|]).
  apply (stack_accesses_blocks [16; 32] (λ _, 0) [[]; [16; 32]] x 1 u 16 demo_blocks); [done|exact demo_links|done|by rewrite E|done].
Defined.

Lemma play_accesses tids x y : play false x (MAccess <$> tids) = Some y → nsteps access (length tids) x y.
Proof.
  revert x. induction tids as [|tid tids IH]; intros x; cbn -[play1]; [intros [= ->]; constructor|].
  intros (z & Hz & Hr)%bind_Some. cbn in Hz. apply bind_Some in Hz as (t & Ht & Hz).
  apply bind_Some in Hz as ([s' t'] & E & [= <-]). econstructor; [|by apply IH]. by exists tid, t, s', t'.
Qed.

(** Both threads are about to push: eight accesses, taken in turns, are enough. *)
Definition two_pushers : sstate := stack_start (λ _, 0) [[16]; [32]].
Definition contended : list move := [MPush 0 [16] []; MPush 1 [32] []].
Definition turns : list nat := [0; 1; 0; 1; 1; 1; 0; 1]%nat.

Definition rank_below_turns (x : sstate) : bool :=
  (total_rank x <? length turns)%nat &&
  match play false x (MAccess <$> turns) with Some y => true | None => false end.

Lemma stack_lock_free_witness :
  ∃ x y, rtc sstep two_pushers x ∧ nsteps access (length turns) x y ∧ sh_ver (ss_shared x) < sh_ver (ss_shared y).
Proof.
  destruct (schedule_reaches rank_below_turns false two_pushers contended) as (x & Hr & _ & Hx); [by vm_compute|].
  apply andb_true_iff in Hx as [Hrank%Nat.ltb_lt Hx].
  destruct (play false x (MAccess <$> turns)) as [y|] eqn:E; [|done]. apply play_accesses in E.
  exists x, y. do 2 (split; [done|]). by apply (stack_lock_free (λ _, 0) [[16]; [32]] x (length turns) y).
Defined.

(** ** The tag comes round again *)

Definition aba_start : sstate := stack_start (λ y, if y =? 16 then 32 else 0) [[]; [16; 32; 48]].

(** Thread 1 lists the blocks 16 and 32; thread 0 begins to take the first of them, and is about
    to swap the head for 32. Thread 1 takes both, gives the first back and takes it out again,
    seven times, and gives it back: the head is the one that thread 0 has seen. Thread 0 swaps it.
    Thread 1 gives 48 back, and thread 0 takes it, and 32 that is behind it. *)
Definition aba_schedule : list move :=
  [MPush 1 [16; 32] [48]] ++ accesses 1 3 ++ [MPop 0 1] ++ accesses 0 3 ++
  [MPop 1 2] ++ accesses 1 7 ++
  concat (replicate 7 ([MPush 1 [16] [32; 48]] ++ accesses 1 3 ++ [MPop 1 1] ++ accesses 1 6)) ++
  [MPush 1 [16] [32; 48]] ++ accesses 1 3 ++ accesses 0 3 ++
  [MPush 1 [48] [32]] ++ accesses 1 3 ++ [MPop 0 2] ++ accesses 0 7.

(** Both threads are idle and hold the block 32. *)
Definition double_use (x : sstate) : bool :=
  match ss_threads x with
  | [t; u] => is_idle t && is_idle u && bool_decide (st_held t = [48; 32; 16]) && bool_decide (st_held u = [32])
  | _ => false
  end.

(** C16: [pop] compares the head's address and four bits that count its updates. There is a
    schedule of two threads, each calling only [try_push] and [pop] with blocks of its own, after
    which both hold the same block: the tag has come round again while one of them was about to
    swap. *)
Theorem stack_tag_comes_round :
  ∃ x t u, rtc sstep aba_start x ∧ ss_threads x = [t; u] ∧ st_pc t = SIdle ∧ st_pc u = SIdle ∧
    32 ∈ st_held t ∧ 32 ∈ st_held u.
Proof.
  destruct (schedule_reaches double_use false aba_start aba_schedule) as (x & Hr & _ & Hx); [by vm_compute|].
  unfold double_use in Hx. destruct (ss_threads x) as [|t [|u [|]]] eqn:E; try done.
  apply andb_true_iff in Hx as [[[Ht%is_idle_pc Hu%is_idle_pc]%andb_true_iff Ha%bool_decide_eq_true]%andb_true_iff Hb%bool_decide_eq_true].
  exists x, t, u. rewrite Ha, Hb. do 2 (split; [done|]). rewrite Ht, Hu. do 2 (split; [done|]). split; set_solver.
Qed.

(** ** A counter below zero *)

(** The counters of a class on two cpus. *)
Definition two_counters (class u v : Z) : InterConnectCache :=
  let row x := zinsert (replicate (Z.to_nat NUM_SIZE_CLASSES) 0) class x in
  mkICC (replicate (Z.to_nat (2 * NUM_SIZE_CLASSES)) 0) (row u ++ row v) 2 true.

Lemma two_counters_usage class u v :
  0 ≤ class < NUM_SIZE_CLASSES →
  vget (icc_usage (two_counters class u v)) (0 * NUM_SIZE_CLASSES + class) = Ret u ∧
  vget (icc_usage (two_counters class u v)) (1 * NUM_SIZE_CLASSES + class) = Ret v.
Proof.
  intros Hc. pose proof (zlen_zinsert (replicate (Z.to_nat NUM_SIZE_CLASSES) 0) class u) as Hl. unfold zlen in Hl.
  rewrite length_replicate in Hl.
  assert (∀ x, zlookup (zinsert (replicate (Z.to_nat NUM_SIZE_CLASSES) 0) class x) class = Some x) as Hrow.
  { intros x. apply zlookup_zinsert_eq. unfold zlen. rewrite length_replicate. lia. }
  pose proof (Hrow u) as Hu. pose proof (Hrow v) as Hv. rewrite zlookup_nonneg in Hu, Hv by lia.
  split; apply vget_ok; rewrite zlookup_nonneg by lia; cbn [two_counters icc_usage].
  - by apply lookup_app_l_Some.
  - rewrite lookup_app_r by lia. rewrite <- Hv. f_equal. lia.
Qed.

(** C17: A push is in the list before it is in the counter, so the counter can be below zero, that
    is 2^64 - 1, while no swap is stale; and then [get_size], which the trim thread calls,
    overflows as soon as another cpu's list has a block, and the process ends. *)
Theorem get_size_overflows_during_push :
  ∃ x, rtc fresh_step below_zero_start x ∧
    ∀ class v, 0 ≤ class < NUM_SIZE_CLASSES → 0 < v → word64 v →
      get_size (two_counters class (sh_usage (ss_shared x)) v) class = Abort (Panic ArithOverflow).
Proof.
  destruct (schedule_reaches below_zero true below_zero_start below_zero_schedule)
    as (x & _ & Hr & Hx%Z.eqb_eq); [by vm_compute|].
  exists x. split; [by apply Hr|]. rewrite Hx. intros class v Hc Hv Hw.
  destruct (two_counters_usage class u64_max v Hc) as [H1 H2]. unfold get_size.
  change (Z.to_nat (icc_ncpu (two_counters class u64_max v))) with 2%nat.
  set (icc := two_counters class u64_max v) in *. cbn [get_size_loop]. change (0 + 1) with 1.
  assert (∀ i, 0 ≤ i < 2 → icc_cell icc i class = Ret (i * NUM_SIZE_CLASSES + class)) as Hcell.
  { intros i Hi. unfold icc_cell. change (icc_ncpu icc) with 2. repeat case_zb; done || lia. }
  rewrite (Hcell 0), bind_ret, H1, bind_ret, uadd_ok, bind_ret, (Hcell 1), bind_ret by (done || lia).
  rewrite H2, bind_ret, uadd_overflow; [done|]. unfold usize_max, u64_max. lia.
Qed.
