(* ===== verification/StackSolo.v ===== *)
(** * One thread alone on a per-cpu list

    The interleaved model of the lists and the sequential one describe the same code: a thread
    that runs [pop] or [try_push] without interruption ends where the sequential functions of
    [Interconnect.v] end. *)

From S2P Require Import Prelude Bits Lib SizeClass Sys Mem BlockList Interconnect InterconnectSpec StackRace StackRaceSpec.

#[local] Existing Instance default_build.

(** The shared state that a memory and a cell of the lists make up. *)
Definition shared_of (m : mem) (head usage ver : Z) : shared := mkShared head usage (λ y, hget FNext m y) ver.

(** [s] and [m] agree on the links of the block [tail] and of those apart from it. *)
Definition same_links (s : shared) (m : mem) (tail : Z) : Prop :=
  ∀ y, y = tail ∨ apart tail y → sh_next s y = hget FNext m y.

Lemma same_links_hput s m tail v :
  (∀ y, y ≠ tail → sh_next s y = hget FNext m y) → sh_next s tail = v → word64 v → same_links s (hput FNext m tail v) tail.
Proof.
  intros Hn Ht Hv y [->|Ha]; [by rewrite hget_hput_eq|]. rewrite hget_hput_apart by done.
  apply Hn. intros ->. unfold apart in Ha. pose proof (HEADER_SIZE_cases default_build). lia.
Qed.

(** A thread that makes [n] accesses alone. *)
Lemma run_alone_step n s t s' t' :
  stack_step false s t = Some (s', t') → run_alone (S n) s t = run_alone n s' t'.
Proof. cbn. by intros ->. Qed.

Section Solo.
Context {K : Type} `{Kernel K} (NUMA_KEY mask_buf : Z).

(** The walk of [pop] is [take_loop]. *)
Lemma walk_alone m head usage ver v0 b held todo ws tail count :
  ws ≠ [] → take_loop NUMA_KEY todo m (tail_of ws) (zlen ws) = Ret (tail, count) →
  let s := shared_of m head usage ver in
  ∃ n ws', ws' ≠ [] ∧ first_of ws' = first_of ws ∧ tail_of ws' = tail ∧ zlen ws' = count ∧
    ∀ fuel, run_alone (n + fuel) s (mkSThread (walk_on b ws head v0 todo) held) =
            run_alone fuel s (mkSThread (PopNew b ws' head v0) held).
Proof.
  revert ws. induction todo as [|todo IH]; intros ws Hne E; cbn [take_loop] in E.
  - injection E as <- <-. by exists 0%nat, ws.
  - apply bind_Ret_inv in E as ([] & _ & E). destruct (Z.eqb_spec (hget FNext m (tail_of ws)) 0) as [Hz|Hz].
    + injection E as <- <-. exists 1%nat, ws. do 4 (split; [done|]). intros fuel. cbn. unfold shared_of. cbn. by rewrite Hz.
    + destruct (IH (ws ++ [hget FNext m (tail_of ws)])) as (n & ws' & Hne' & Hf & Ht & Hc & Hr); [by destruct ws| |].
      { rewrite tail_of_snoc, zlen_app. exact E. }
      exists (S n), ws'. split; [done|]. split; [rewrite Hf; by destruct ws|]. do 2 (split; [done|]). intros fuel.
      rewrite <- Hr. apply run_alone_step. cbn. case_zb; [done|]. by rewrite Nat.sub_0_r.
Qed.

(** The swap, the counter and the cut. *)
Lemma take_alone m head usage ver b ws held :
  run_alone 5 (shared_of m head usage ver) (mkSThread (PopNew b ws head ver) held) =
  let s := set_usage (set_head (shared_of m head usage ver)
             (head_pack (hget FNext m (tail_of ws)) (wrapping_add64 (head_tag head) 1))) (wrapping_sub64 usage (zlen ws)) in
  Some (set_next s (tail_of ws) 0, mkSThread SIdle (ws ++ held)).
Proof. cbn -[head_pack head_tag wrapping_add64 wrapping_sub64]. rewrite Z.eqb_refl. reflexivity. Qed.

Lemma with_cell_same icc i u v :
  0 ≤ i → vget (icc_usage icc) i = Ret u → vget (icc_list icc) i = Ret v → with_cell icc i v u = icc.
Proof.
  intros Hi Hu%vget_Ret_inv Hv%vget_Ret_inv. rewrite zlookup_nonneg in Hu, Hv by done. unfold with_cell, zinsert.
  rewrite !list_insert_id by done. by destruct icc.
Qed.

(** The cell of a list, as a shared state. *)
Definition at_cell (icc : InterConnectCache) (i : Z) (s : shared) : InterConnectCache :=
  with_cell icc i (sh_head s) (sh_usage s).

(** A thread that calls [pop] and is not interrupted ends, and as the sequential [pop] ends:
    the head, the counter and the links are the ones that [pop] leaves in its cell and in memory,
    and the blocks in the thread's hands are those that it had and those of the chain that [pop]
    returns. *)
Theorem pop_alone m icc class b cpu i u v (k : K) r m' icc' k' held ver :
  icc_once icc = true → icc_cell icc cpu class = Ret i →
  vget (icc_usage icc) i = Ret u → vget (icc_list icc) i = Ret v →
  pop NUMA_KEY mask_buf m icc class (Z.of_nat b) cpu k = Ret (r, m', icc', k') →
  ∃ n s t, run_alone n (shared_of m v u ver) (mkSThread (PopCheck b) held) = Some (s, t) ∧
    st_pc t = SIdle ∧ icc' = at_cell icc i s ∧ k' = k ∧
    match r with
    | None => m' = m ∧ st_held t = held ∧ s = shared_of m v u ver
    | Some h => ∃ ws, ws ≠ [] ∧ first_of ws = h ∧ st_held t = ws ++ held ∧ same_links s m' (tail_of ws)
    end.
Proof.
  intros Ho Hi Hu Hv E. unfold pop in E. unfold ensure_cache in E. rewrite Ho, bind_ret, Hi, bind_ret, Hu, bind_ret in E.
  assert (0 ≤ i) as Hi0 by (apply vget_Ret_inv, zlookup_Some_lt in Hu; lia).
  destruct (Z.eqb_spec u 0) as [Hu0|Hu0].
  { injection E as <- <- <- <-. exists 2%nat, (shared_of m v u ver), (mkSThread SIdle held). cbn. rewrite Hu0.
    do 2 (split; [done|]). split; [|done]. symmetry. rewrite <- Hu0. by apply with_cell_same. }
  rewrite Hv, bind_ret in E. destruct (Z.eqb_spec (head_ptr v) 0) as [Hv0|Hv0].
  { injection E as <- <- <- <-. exists 3%nat, (shared_of m v u ver), (mkSThread SIdle held).
    rewrite (run_alone_step _ _ _ (shared_of m v u ver) (mkSThread (PopLoad b) held)) by (cbn; by case_zb).
    rewrite (run_alone_step _ _ _ (shared_of m v u ver) (mkSThread SIdle held)) by (cbn -[head_ptr]; by rewrite Hv0).
    do 2 (split; [done|]). split; [|done]. symmetry. by apply with_cell_same. }
  apply bind_Ret_inv in E as ([tail count] & Ht & E). apply bind_Ret_inv in E as ([] & _ & E).
  cbn [hardened default_build] in E. rewrite bind_ret in E. injection E as <- <- <- <-.
  replace (Z.to_nat (Z.of_nat b - 1)) with (b - 1)%nat in Ht by lia.
  destruct (walk_alone m v u ver ver b held (b - 1) [head_ptr v] tail count) as (n & ws & Hne & Hf & <- & <- & Hr); [done|exact Ht|].
  exists (S (S (n + 5))). eexists _, _. split.
  { rewrite (run_alone_step _ _ _ (shared_of m v u ver) (mkSThread (PopLoad b) held)) by (cbn; by case_zb).
    rewrite (run_alone_step _ _ _ (shared_of m v u ver) (mkSThread (walk_on b [head_ptr v] v ver (b - 1)) held))
      by (cbn -[head_ptr walk_on]; by case_zb).
    rewrite Hr. apply take_alone. }
  do 3 (split; [done|]). exists ws. do 3 (split; [done|]). apply same_links_hput; [|apply set_next_eq|by compute].
  intros y Hy. by rewrite set_next_ne.
Qed.

(** A thread that pushes a chain of blocks and is not interrupted leaves the list as the
    sequential [try_push] of the chain's ends and length does. *)
Theorem push_alone m icc class ws cpu i u v (k : K) m' icc' k' held ver :
  icc_once icc = true → icc_cell icc (unwrap_or_0 (get_cpu_id cpu)) class = Ret i →
  vget (icc_usage icc) i = Ret u → vget (icc_list icc) i = Ret v → word64 (head_ptr v) →
  try_push NUMA_KEY mask_buf m icc class (first_of ws) (tail_of ws) (zlen ws) cpu [] k = Ret (m', icc', k') →
  ∃ s, run_alone 4 (shared_of m v u ver) (mkSThread (PushLink ws v ver) held) = Some (s, mkSThread SIdle held) ∧
    icc' = at_cell icc i s ∧ k' = k ∧ same_links s m' (tail_of ws).
Proof.
  intros Ho Hi Hu Hv Hw E. unfold try_push in E. unfold ensure_cache in E. rewrite Ho, bind_ret, Hi, bind_ret, Hv, bind_ret, Hu, bind_ret in E.
  apply bind_Ret_inv in E as ([] & _ & E). cbn [push_loop] in E. injection E as <- <- <-.
  eexists. split.
  { cbn -[head_pack head_tag head_ptr wrapping_add64 wrapping_sub64]. rewrite Z.eqb_refl. reflexivity. }
  do 2 (split; [done|]). apply same_links_hput; [|apply set_next_eq|done]. intros y Hy. cbn. by case_zb.
Qed.
End Solo.

(** ** Witnesses *)

#[local] Existing Instance refusing_kernel.

(** One cpu; the list of class 3 has the blocks 4096 and 8192. *)
Definition solo_mem : mem := hput FNext (λ _, 0) 4096 8192.
Definition solo_icc : InterConnectCache :=
  mkICC (zinsert (replicate 34 0) 3 (head_pack 4096 2)) (zinsert (replicate 34 0) 3 2) 1 true.

Lemma pop_alone_witness :
  ∃ r m' icc', pop 0 0 solo_mem solo_icc 3 8 0 () = Ret (r, m', icc', ()) ∧
  ∃ n s t, run_alone n (shared_of solo_mem (head_pack 4096 2) 2 0) (mkSThread (PopCheck 8) []) = Some (s, t) ∧
    st_pc t = SIdle ∧ icc' = at_cell solo_icc 3 s ∧ () = () ∧
    match r with
    | None => m' = solo_mem ∧ st_held t = [] ∧ s = shared_of solo_mem (head_pack 4096 2) 2 0
    | Some h => ∃ ws, ws ≠ [] ∧ first_of ws = h ∧ st_held t = ws ++ [] ∧ same_links s m' (tail_of ws)
    end.
Proof.
  destruct (pop 0 0 solo_mem solo_icc 3 8 0 ()) as [[[[r m'] icc'] []]|] eqn:E.
  - exists r, m', icc'. split; [done|].
    apply (pop_alone 0 0 solo_mem solo_icc 3 8 0 3 2 (head_pack 4096 2) () r m' icc' () [] 0); try done.
  - exfalso. revert E. by vm_compute.
Defined.

Lemma push_alone_witness :
  ∃ m' icc', try_push 0 0 solo_mem solo_icc 3 12288 16384 2 0 [] () = Ret (m', icc', ()) ∧
  ∃ s, run_alone 4 (shared_of solo_mem (head_pack 4096 2) 2 0) (mkSThread (PushLink [12288; 16384] (head_pack 4096 2) 0) []) =
      Some (s, mkSThread SIdle []) ∧
    icc' = at_cell solo_icc 3 s ∧ () = () ∧ same_links s m' 16384.
Proof.
  destruct (try_push 0 0 solo_mem solo_icc 3 12288 16384 2 0 [] ()) as [[[m' icc'] []]|] eqn:E.
  - exists m', icc'. split; [done|].
    apply (push_alone 0 0 solo_mem solo_icc 3 [12288; 16384] 0 3 2 (head_pack 4096 2) () m' icc' () [] 0); try done.
  - exfalso. revert E. by vm_compute.
Defined.
