(* ===== verification/WeakStack.v ===== *)
(** * Memory orderings of the per-cpu lists (src/src/slab/interconnect.rs)

    The accesses of [StackRace.v] in a memory of histories and views, as in [WeakMemory.v]: a
    history of the head, whose writes carry the views that a [Release] or a release sequence gives
    them, and one of each block's link. A thread may read any write that is not older than its
    view. The first load of [try_push] and of [pop] is [Relaxed], the swap of [try_push] is
    [Release], that of [pop] [Acquire]. The counter is one cell, read and written as it is.

    If every read returns the newest write, the steps are those of [StackRace.v]. If not, [pop]
    can follow a link that the block had before it was pushed. *)

From S2P Require Import Prelude Bits Lib SizeClass Sys BlockList Interconnect InterconnectSpec StackRace StackRaceSpec.

#[local] Existing Instance default_build.

(** ** State *)

(** The newest write of a block's link that a thread has to see. *)
Definition view : Type := Z → nat.
Definition view_join (v w : view) : view := λ x, (v x `max` w x)%nat.
Definition view_set (v : view) (x : Z) (i : nat) : view := λ y, if y =? x then i else v y.

(** The writes of the head with their views, the counter, and the writes of each link; oldest
    first. *)
Record wshared : Type := mkWShared {
  ws_head : list (Z * view);
  ws_usage : Z;
  ws_next : Z → list Z
}.

(** The program points of [StackRace.v], where the version is the number of the head's write. *)
Record wsthread : Type := mkWSThread { wt_pc : spc; wt_held : list Z; wt_head : nat; wt_view : view }.

Definition set_link (s : wshared) (x v : Z) : wshared :=
  mkWShared (ws_head s) (ws_usage s) (λ y, if y =? x then ws_next s x ++ [v] else ws_next s y).
Definition set_count (s : wshared) (u : Z) : wshared := mkWShared (ws_head s) u (ws_next s).

(** A [Relaxed] load of the head: its [i]-th write. *)
Definition load_head (s : wshared) (t : wsthread) (i : nat) : option Z :=
  if (wt_head t <=? i)%nat then '(v, _) ← ws_head s !! i; Some v else None.

(** A plain read of a link. *)
Definition read_link (s : wshared) (t : wsthread) (x : Z) (i : nat) : option Z :=
  if (wt_view t x <=? i)%nat then ws_next s x !! i else None.

(** ** One access

    [i] is the write that a read returns. A swap takes the place after the newest write, and
    succeeds if that write is what it compares with; it fails if it reads an [i]-th write, which
    for [pop] is another value than the compared one. *)
Definition weak_push (i : nat) (s : wshared) (t : wsthread) : option (wshared * wsthread) :=
  match wt_pc t with
  | PushLink ws cur ver =>
      Some (set_link s (tail_of ws) (head_ptr cur),
        mkWSThread (PushCas ws cur ver) (wt_held t) (wt_head t)
          (view_set (wt_view t) (tail_of ws) (length (ws_next s (tail_of ws)))))
  | PushCas ws cur ver =>
      '(v, r) ← last (ws_head s);
      if (v =? cur) && (i =? length (ws_head s))%nat then
        let new := head_pack (first_of ws) (wrapping_add64 (head_tag cur) 1) in
        Some (mkWShared (ws_head s ++ [(new, view_join (wt_view t) r)]) (ws_usage s) (ws_next s),
          mkWSThread (PushCount (zlen ws)) (wt_held t) (length (ws_head s)) (wt_view t))
      else
        v ← load_head s t i;
        Some (s, mkWSThread (PushLink ws v (Z.of_nat i)) (wt_held t) i (wt_view t))
  | PushCount n => Some (set_count s (wrapping_add64 (ws_usage s) n), mkWSThread SIdle (wt_held t) (wt_head t) (wt_view t))
  | _ => None
  end.

Definition weak_pop (i : nat) (s : wshared) (t : wsthread) : option (wshared * wsthread) :=
  let go pc := mkWSThread pc (wt_held t) (wt_head t) (wt_view t) in
  match wt_pc t with
  | PopCheck b => Some (s, go (if ws_usage s =? 0 then SIdle else PopLoad b))
  | PopLoad b =>
      cur ← load_head s t i;
      let pc := if head_ptr cur =? 0 then SIdle else walk_on b [head_ptr cur] cur (Z.of_nat i) (b - 1) in
      Some (s, mkWSThread pc (wt_held t) i (wt_view t))
  | PopWalk b ws cur ver todo =>
      next ← read_link s t (tail_of ws) i;
      let pc := if next =? 0 then PopNew b ws cur ver else walk_on b (ws ++ [next]) cur ver (todo - 1) in
      Some (s, mkWSThread pc (wt_held t) (wt_head t) (view_set (wt_view t) (tail_of ws) i))
  | PopNew b ws cur ver =>
      new ← read_link s t (tail_of ws) i;
      Some (s, mkWSThread (PopCas b ws cur ver new) (wt_held t) (wt_head t) (view_set (wt_view t) (tail_of ws) i))
  | PopCas b ws cur ver new =>
      '(v, r) ← last (ws_head s);
      if (v =? cur) && (i =? length (ws_head s))%nat then
        let enc := head_pack new (wrapping_add64 (head_tag cur) 1) in
        Some (mkWShared (ws_head s ++ [(enc, r)]) (ws_usage s) (ws_next s),
          mkWSThread (PopCount ws) (wt_held t) (length (ws_head s)) (view_join (wt_view t) r))
      else
        v ← load_head s t i;
        if v =? cur then None else Some (s, mkWSThread (PopLoad b) (wt_held t) i (wt_view t))
  | PopCount ws => Some (set_count s (wrapping_sub64 (ws_usage s) (zlen ws)), go (PopCut ws))
  | PopCut ws =>
      Some (set_link s (tail_of ws) 0,
        mkWSThread SIdle (ws ++ wt_held t) (wt_head t) (view_set (wt_view t) (tail_of ws) (length (ws_next s (tail_of ws)))))
  | _ => None
  end.

Definition weak_step (i : nat) (s : wshared) (t : wsthread) : option (wshared * wsthread) :=
  match wt_pc t with
  | SIdle => None
  | PushLink _ _ _ | PushCas _ _ _ | PushCount _ => weak_push i s t
  | _ => weak_pop i s t
  end.

(** What an idle thread does with its blocks, as in [StackRace.v]; a push begins with the [i]-th
    head. *)
Inductive weak_idle (s : wshared) : wsthread → wshared → wsthread → Prop :=
| WRelink held h v x y :
    x ∈ held → y = 0 ∨ y ∈ held →
    weak_idle s (mkWSThread SIdle held h v) (set_link s x y)
      (mkWSThread SIdle held h (view_set v x (length (ws_next s x))))
| WPush held h v ws rest i cur :
    ws ≠ [] → held ≡ₚ ws ++ rest → chained (λ x, default 0 (last (ws_next s x))) ws →
    load_head s (mkWSThread SIdle held h v) i = Some cur →
    weak_idle s (mkWSThread SIdle held h v) s (mkWSThread (PushLink ws cur (Z.of_nat i)) rest i v)
| WPop held h v b :
    weak_idle s (mkWSThread SIdle held h v) s (mkWSThread (PopCheck b) held h v).

Inductive wsstep : wshared * list wsthread → wshared * list wsthread → Prop :=
| WSAccess i s ts tid t s' t' :
    ts !! tid = Some t → weak_step i s t = Some (s', t') → wsstep (s, ts) (s', <[tid := t']> ts)
| WSIdle s ts tid t s' t' :
    ts !! tid = Some t → weak_idle s t s' t' → wsstep (s, ts) (s', <[tid := t']> ts).

(** An empty list, blocks without links, and threads that hold them. *)
Definition weak_start (hands : list (list Z)) : wshared * list wsthread :=
  (mkWShared [(0, λ _, 0%nat)] 0 (λ _, [0]), (λ held, mkWSThread SIdle held 0 (λ _, 0%nat)) <$> hands).

(** ** If every read returns the newest write *)

Definition newest_state (s : wshared) : shared :=
  mkShared (default 0 (fst <$> last (ws_head s))) (ws_usage s) (λ x, default 0 (last (ws_next s x)))
    (Z.of_nat (length (ws_head s)) - 1).
Definition newest_thread (t : wsthread) : sthread := mkSThread (wt_pc t) (wt_held t).

(** The write that an access of [t] reads is the newest; or it is a swap that succeeds. *)
Definition reads_newest (i : nat) (s : wshared) (t : wsthread) : Prop :=
  match wt_pc t with
  | PushCas _ _ _ | PopCas _ _ _ _ _ => i = length (ws_head s) ∨ S i = length (ws_head s)
  | PopLoad _ => S i = length (ws_head s)
  | PopWalk _ ws _ _ _ | PopNew _ ws _ _ => S i = length (ws_next s (tail_of ws))
  | _ => True
  end.

(** Equal up to the representation of the links. *)
Definition same_shared (s s' : shared) : Prop :=
  sh_head s = sh_head s' ∧ sh_usage s = sh_usage s' ∧ (∀ x, sh_next s x = sh_next s' x) ∧ sh_ver s = sh_ver s'.

Lemma same_shared_refl s : same_shared s s.
Proof. done. Qed.

Lemma lookup_newest {A} (l : list A) i x : l !! i = Some x → S i = length l → last l = Some x.
Proof. intros Hl Hi. rewrite last_lookup, <- Hi. exact Hl. Qed.

Lemma load_head_newest s t i v : load_head s t i = Some v → S i = length (ws_head s) →
  v = sh_head (newest_state s) ∧ Z.of_nat i = sh_ver (newest_state s).
Proof.
  unfold load_head. destruct (wt_head t <=? i)%nat; [|done]. intros ([w r] & Hl & [= ->])%bind_Some Hi.
  cbn. rewrite (lookup_newest _ _ _ Hl Hi). split; [done|lia].
Qed.

Lemma read_link_newest s t x i v : read_link s t x i = Some v → S i = length (ws_next s x) → v = sh_next (newest_state s) x.
Proof.
  unfold read_link. destruct (wt_view t x <=? i)%nat; [|done]. intros Hl Hi. cbn. by rewrite (lookup_newest _ _ _ Hl Hi).
Qed.

Lemma set_link_newest s x v : same_shared (set_next (newest_state s) x v) (newest_state (set_link s x v)).
Proof. split; [done|]. split; [done|]. split; [|done]. intros y. cbn. case_zb; [by rewrite last_snoc|done]. Qed.

Lemma add_head_newest s v r :
  same_shared (set_head (newest_state s) v) (newest_state (mkWShared (ws_head s ++ [(v, r)]) (ws_usage s) (ws_next s))).
Proof. split; [cbn; by rewrite last_snoc|]. split; [done|]. split; [done|]. cbn. rewrite length_app. cbn. lia. Qed.

Lemma load_head_bound s t i v : load_head s t i = Some v → (i < length (ws_head s))%nat.
Proof. unfold load_head. case_match; [|done]. intros (? & Hl & _)%bind_Some. by eapply lookup_lt_Some. Qed.

(** The model with views and the interleaved one agree: an access that reads the newest write is
    an access of [StackRace.v], on the newest values. A swap of [try_push] that fails on the value
    that it compares with is a spurious failure there. *)
Theorem weak_step_newest i s t s' t' :
  weak_step i s t = Some (s', t') → reads_newest i s t →
  ∃ spurious s1, stack_step spurious (newest_state s) (newest_thread t) = Some (s1, newest_thread t') ∧ same_shared s1 (newest_state s').
Proof.
  destruct t as [pc held h v]. unfold reads_newest, weak_step, newest_thread. cbn [wt_pc wt_held].
  destruct pc as [|ws cur ver|ws cur ver|n|b|b|b ws cur ver todo|b ws cur ver|b ws cur ver new|ws|ws]; intros E Hi.
  - done.
  - injection E as <- <-. exists false. eexists. split; [reflexivity|apply set_link_newest].
  - cbn [weak_push wt_pc] in E. apply bind_Some in E as ([w r] & Hl & E). cbn [stack_step st_pc push_step].
    assert (sh_head (newest_state s) = w) as Hw by (cbn; by rewrite Hl). rewrite Hw.
    destruct ((w =? cur) && (i =? length (ws_head s))%nat) eqn:Hc.
    + apply andb_true_iff in Hc as [-> _]. injection E as <- <-. exists false. eexists. split; [reflexivity|apply add_head_newest].
    + apply bind_Some in E as (v' & Hv & [= <- <-]). pose proof (load_head_bound _ _ _ _ Hv). destruct Hi as [?|Hi]; [lia|].
      destruct (load_head_newest _ _ _ _ Hv Hi) as [-> ->]. exists true. eexists. split; [|apply same_shared_refl].
      by rewrite andb_false_r, Hw.
  - injection E as <- <-. exists false. eexists. split; [reflexivity|apply same_shared_refl].
  - injection E as <- <-. exists false. eexists. split; [|apply same_shared_refl]. done.
  - cbn [weak_pop wt_pc] in E. apply bind_Some in E as (cur & Hv & [= <- <-]). destruct (load_head_newest _ _ _ _ Hv Hi) as [-> ->].
    exists false. eexists. split; [reflexivity|apply same_shared_refl].
  - cbn [weak_pop wt_pc] in E. apply bind_Some in E as (x & Hx & [= <- <-]). rewrite (read_link_newest _ _ _ _ _ Hx Hi).
    exists false. eexists. split; [reflexivity|apply same_shared_refl].
  - cbn [weak_pop wt_pc] in E. apply bind_Some in E as (x & Hx & [= <- <-]). rewrite (read_link_newest _ _ _ _ _ Hx Hi).
    exists false. eexists. split; [reflexivity|apply same_shared_refl].
  - cbn [weak_pop wt_pc] in E. apply bind_Some in E as ([w r] & Hl & E). cbn [stack_step st_pc pop_step]. exists false.
    assert (sh_head (newest_state s) = w) as Hw by (cbn; by rewrite Hl). rewrite Hw.
    destruct ((w =? cur) && (i =? length (ws_head s))%nat) eqn:Hc.
    + apply andb_true_iff in Hc as [-> _]. injection E as <- <-. eexists. split; [reflexivity|apply add_head_newest].
    + apply bind_Some in E as (v' & Hv & E). pose proof (load_head_bound _ _ _ _ Hv). destruct Hi as [?|Hi]; [lia|].
      destruct (load_head_newest _ _ _ _ Hv Hi) as [Hv' _]. rewrite Hw in Hv'. subst v'. destruct (w =? cur); [done|].
      injection E as <- <-. eexists. split; [reflexivity|apply same_shared_refl].
  - injection E as <- <-. exists false. eexists. split; [reflexivity|apply same_shared_refl].
  - injection E as <- <-. exists false. eexists. split; [reflexivity|apply set_link_newest].
Qed.

(** ** In every run, all accesses are to blocks *)

Section WeakRace.
Context (Bs : list Z) (HBs : Forall stack_block Bs).

(** All that was ever written leads to blocks. *)
Definition weak_shared_ptrs (s : wshared) : Prop :=
  Forall (λ e, head_in Bs e.1) (ws_head s) ∧ ∀ x, x ∈ Bs → Forall (ptr_in Bs) (ws_next s x).
Definition weak_thread_ptrs (t : wsthread) : Prop := pc_ptrs Bs (wt_pc t) ∧ wt_held t ⊆ Bs.
Definition weak_ptrs (x : wshared * list wsthread) : Prop := weak_shared_ptrs x.1 ∧ Forall weak_thread_ptrs x.2.

Lemma set_link_ptrs s x v : weak_shared_ptrs s → x ∈ Bs → ptr_in Bs v → weak_shared_ptrs (set_link s x v).
Proof.
  intros [Hh Hn] Hx Hv. split; [done|]. intros y Hy. cbn. case_zb; [|auto]. apply Forall_app. split; [auto|]. by apply Forall_singleton.
Qed.

Lemma add_head_ptrs s v r : weak_shared_ptrs s → head_in Bs v → weak_shared_ptrs (mkWShared (ws_head s ++ [(v, r)]) (ws_usage s) (ws_next s)).
Proof. intros [Hh Hn] Hv. split; [|done]. apply Forall_app. split; [done|]. by apply Forall_singleton. Qed.

Lemma load_head_ptrs s t i v : weak_shared_ptrs s → load_head s t i = Some v → head_in Bs v.
Proof.
  intros [Hh _]. unfold load_head. destruct (wt_head t <=? i)%nat; [|done]. intros ([w r] & Hl & [= <-])%bind_Some.
  exact (proj1 (Forall_lookup _ _) Hh i _ Hl).
Qed.

Lemma read_link_ptrs s t x i v : weak_shared_ptrs s → x ∈ Bs → read_link s t x i = Some v → ptr_in Bs v.
Proof.
  intros [_ Hn] Hx. unfold read_link. destruct (wt_view t x <=? i)%nat; [|done]. intros Hl.
  exact (proj1 (Forall_lookup _ _) (Hn x Hx) i _ Hl).
Qed.

Lemma weak_push_ptrs i s t s' t' :
  weak_shared_ptrs s → weak_thread_ptrs t → weak_push i s t = Some (s', t') → weak_shared_ptrs s' ∧ weak_thread_ptrs t'.
Proof.
  intros Hs [Hpc Hh] E. destruct t as [pc held h v]. unfold weak_thread_ptrs. cbn [wt_pc wt_held] in *.
  destruct pc as [|ws cur ver|ws cur ver|n|b|b|b ws cur ver todo|b ws cur ver|b ws cur ver new|ws|ws]; cbn [weak_push wt_pc] in E; try done.
  - destruct Hpc as (Hne & Hsub & Hcur). injection E as <- <-. split; [|done].
    apply set_link_ptrs; [done|by apply tail_in|apply Hcur].
  - destruct Hpc as (Hne & Hsub & Hcur). apply bind_Some in E as ([w r] & Hl & E). case_match.
    + injection E as <- <-. split; [|done]. apply add_head_ptrs; [done|].
      apply head_in_pack; [done|right; by apply first_in|apply Hcur].
    + apply bind_Some in E as (x & Hx & [= <- <-]). split; [done|]. split; [|done].
      split; [done|]. split; [done|]. by eapply load_head_ptrs.
  - by injection E as <- <-.
Qed.

Lemma weak_pop_ptrs i s t s' t' :
  weak_shared_ptrs s → weak_thread_ptrs t → weak_pop i s t = Some (s', t') → weak_shared_ptrs s' ∧ weak_thread_ptrs t'.
Proof.
  intros Hs [Hpc Hh] E. destruct t as [pc held h v]. unfold weak_thread_ptrs. cbn [wt_pc wt_held] in *.
  destruct pc as [|ws cur ver|ws cur ver|n|b|b|b ws cur ver todo|b ws cur ver|b ws cur ver new|ws|ws]; cbn [weak_pop wt_pc] in E; try done.
  - injection E as <- <-. split; [done|]. by case_match.
  - apply bind_Some in E as (cur & Hcur & [= <- <-]). split; [done|]. split; [|done]. pose proof (load_head_ptrs _ _ _ _ Hs Hcur) as Hin.
    cbn. case_zb; [done|]. destruct Hin as [Hw [?|Hp]]; [done|].
    apply walk_on_ptrs; [done| |by split; [|right]]. by intros y ->%list_elem_of_singleton.
  - destruct Hpc as (Hne & Hsub & Hcur). apply bind_Some in E as (x & Hx & [= <- <-]). split; [done|]. split; [|done].
    pose proof (read_link_ptrs _ _ _ _ _ Hs (tail_in Bs ws Hne Hsub) Hx) as Hin. cbn. case_zb; [done|]. destruct Hin as [?|Hp]; [done|].
    apply walk_on_ptrs; [by destruct ws| |done]. intros y [Hy| ->%list_elem_of_singleton]%elem_of_app; auto.
  - destruct Hpc as (Hne & Hsub & Hcur). apply bind_Some in E as (x & Hx & [= <- <-]). split; [done|]. split; [|done].
    do 3 (split; [done|]). exact (read_link_ptrs _ _ _ _ _ Hs (tail_in Bs ws Hne Hsub) Hx).
  - destruct Hpc as (Hne & Hsub & Hcur & Hnew). apply bind_Some in E as ([w r] & Hl & E). case_match.
    + injection E as <- <-. split; [|done]. apply add_head_ptrs; [done|]. apply head_in_pack; [done|done|apply Hcur].
    + apply bind_Some in E as (x & _ & E). case_match; [done|]. by injection E as <- <-.
  - by injection E as <- <-.
  - destruct Hpc as (Hne & Hsub). injection E as <- <-. split; [apply set_link_ptrs; [done|by apply tail_in|by left]|]. split; [done|].
    cbn. intros y [?|?]%elem_of_app; auto.
Qed.

Lemma weak_idle_ptrs s t s' t' :
  weak_shared_ptrs s → weak_thread_ptrs t → weak_idle s t s' t' → weak_shared_ptrs s' ∧ weak_thread_ptrs t'.
Proof.
  intros Hs [Hpc Hh] Hst. destruct Hst as [held h v x y Hx Hy|held h v ws rest i cur Hne Hp Hc Hl|held h v b]; cbn in *.
  - split; [|done]. apply set_link_ptrs; [done|auto|]. destruct Hy as [?|?]; [by left|right; auto].
  - split; [done|]. split; cbn; [|intros y Hy; apply Hh; rewrite Hp; by apply elem_of_app; right].
    split; [done|]. split; [|by eapply load_head_ptrs]. intros y Hy. apply Hh. rewrite Hp. by apply elem_of_app; left.
  - done.
Qed.

Lemma weak_ptrs_step x y : weak_ptrs x → wsstep x y → weak_ptrs y.
Proof.
  intros [Hs Hts] Hst. destruct Hst as [i s ts tid t s' t' Ht Hst|s ts tid t s' t' Ht Hst]; cbn in *;
    pose proof (proj1 (Forall_lookup _ _) Hts tid t Ht) as Hok.
  - assert (weak_shared_ptrs s' ∧ weak_thread_ptrs t') as [? ?]; [|by split; [|apply Forall_insert]].
    unfold weak_step in Hst. destruct (wt_pc t); [done|..]; (by eapply weak_push_ptrs) || (by eapply weak_pop_ptrs).
  - destruct (weak_idle_ptrs _ _ _ _ Hs Hok Hst). split; [done|]. by apply Forall_insert.
Qed.

Lemma weak_ptrs_start hands : concat hands ≡ₚ Bs → weak_ptrs (weak_start hands).
Proof.
  intros Hb. split.
  - split; [apply Forall_singleton; split; [by compute|by left]|]. intros x _. apply Forall_singleton. by left.
  - apply Forall_lookup. intros i t Hi. apply list_lookup_fmap_Some in Hi as (held & -> & Hi). split; [done|].
    intros x Hx. rewrite <- Hb. by apply (elem_of_concat _ i held).
Qed.
End WeakRace.

(** C29: Whatever the orderings allow a thread to read, and however stale the swaps, an access reads
    or writes the link of one of the allocator's blocks, never of null or of anything else. *)
Theorem weak_accesses_blocks Bs hands x tid t y :
  Forall stack_block Bs → concat hands ≡ₚ Bs → rtc wsstep (weak_start hands) x →
  x.2 !! tid = Some t → touched (newest_thread t) = Some y → y ∈ Bs.
Proof.
  intros HBs Hb Hr Ht Hy. pose proof (rtc_preserve _ _ (weak_ptrs_step Bs HBs) _ _ Hr (weak_ptrs_start Bs hands Hb)) as [_ Hts].
  destruct (proj1 (Forall_lookup _ _) Hts tid t Ht) as [Hpc _]. destruct t as [pc held h v]. cbn in Hpc.
  destruct pc; try done; injection Hy as <-; apply tail_in; apply Hpc.
Qed.

(** ** A stale link *)

Inductive wmove : Type :=
| WMAccess (tid i : nat)
| WMRelink (tid : nat) (x y : Z)
| WMPush (tid : nat) (ws rest : list Z) (i : nat)
| WMPop (tid b : nat).

(** A move of an idle thread, or an access. *)
Definition weak_move (s : wshared) (t : wsthread) (m : wmove) : option (wshared * wsthread) :=
  match m, t with
  | WMAccess _ i, _ => weak_step i s t
  | WMRelink _ x y, mkWSThread SIdle held h v =>
      if bool_decide (x ∈ held ∧ (y = 0 ∨ y ∈ held)) then
        Some (set_link s x y, mkWSThread SIdle held h (view_set v x (length (ws_next s x))))
      else None
  | WMPush _ [w] rest i, mkWSThread SIdle held h v =>
      if bool_decide (held ≡ₚ w :: rest) then
        cur ← load_head s t i; Some (s, mkWSThread (PushLink [w] cur (Z.of_nat i)) rest i v)
      else None
  | WMPop _ b, mkWSThread SIdle held h v => Some (s, mkWSThread (PopCheck b) held h v)
  | _, _ => None
  end.

Definition mover (m : wmove) : nat :=
  match m with WMAccess tid _ | WMRelink tid _ _ | WMPush tid _ _ _ | WMPop tid _ => tid end.

Fixpoint weak_play (x : wshared * list wsthread) (ms : list wmove) : option (wshared * list wsthread) :=
  match ms with
  | [] => Some x
  | m :: ms =>
      t ← x.2 !! mover m;
      '(s, t) ← weak_move x.1 t m;
      weak_play (s, <[mover m := t]> x.2) ms
  end.

Lemma weak_move_step s ts m t s' t' :
  ts !! mover m = Some t → weak_move s t m = Some (s', t') → wsstep (s, ts) (s', <[mover m := t']> ts).
Proof.
  intros Ht E. destruct m as [tid i|tid x y|tid ws rest i|tid b]; cbn [mover] in *.
  - by eapply WSAccess.
  - destruct t as [[] held h v]; try done. cbn [weak_move] in E. case_bool_decide as Hx; [|done]. destruct Hx as [Hx Hy].
    injection E as <- <-. eapply WSIdle; [exact Ht|]. by apply WRelink.
  - destruct ws as [|w [|]]; [done| |by destruct t as [[] ? ? ?]]. destruct t as [[] held h v]; try done. cbn [weak_move] in E.
    case_bool_decide as Hp; [|done]. apply bind_Some in E as (cur & Hcur & [= <- <-]).
    eapply WSIdle; [exact Ht|]. by apply WPush.
  - destruct t as [[] held h v]; try done. injection E as <- <-. eapply WSIdle; [exact Ht|]. apply WPop.
Qed.

Lemma weak_play_sound ms x y : weak_play x ms = Some y → rtc wsstep x y.
Proof.
  revert x. induction ms as [|m ms IH]; intros [s ts]; cbn; [by intros [= ->]|].
  intros (t & Ht & ([s' t'] & E & Hr)%bind_Some)%bind_Some. eapply rtc_l; [by eapply weak_move_step|by apply IH].
Qed.

(** Thread 0 links 16 to 32 and pushes 32 alone; thread 1 pops it. Thread 0 pushes 16, whose link
    is null now; thread 1 pops it, and reads the link that it has known since it popped 32. *)
Definition stale_link_schedule : list wmove :=
  [WMRelink 0 16 32; WMPush 0 [32] [16] 0] ++ [WMAccess 0 0; WMAccess 0 1; WMAccess 0 0] ++
  [WMPop 1 1; WMAccess 1 0; WMAccess 1 1; WMAccess 1 1; WMAccess 1 2; WMAccess 1 0; WMAccess 1 0] ++
  [WMPush 0 [16] [] 2; WMAccess 0 0; WMAccess 0 3; WMAccess 0 0] ++
  [WMPop 1 1; WMAccess 1 0; WMAccess 1 3; WMAccess 1 1; WMAccess 1 4; WMAccess 1 0; WMAccess 1 0].

Definition listed_and_held (x : wshared * list wsthread) : bool :=
  match last (ws_head x.1), x.2 !! 1%nat with
  | Some (v, _), Some t => (head_ptr v =? 32) && bool_decide (32 ∈ wt_held t)
  | _, _ => false
  end.

(** C32: [pop] loads the head with [Relaxed] and follows the link of the block it points to before
    any [Acquire]. In the memory model it need not see the link that the block was pushed with:
    two threads that do nothing but push and pop blocks of their own can reach a state in which a
    block is first in the list and in a thread's hands at the same time. *)
Theorem relaxed_load_follows_stale_link :
  ∃ s ts v r t, rtc wsstep (weak_start [[16; 32]; []]) (s, ts) ∧
    last (ws_head s) = Some (v, r) ∧ head_ptr v = 32 ∧ ts !! 1%nat = Some t ∧ 32 ∈ wt_held t.
Proof.
  destruct (weak_play (weak_start [[16; 32]; []]) stale_link_schedule) as [[s ts]|] eqn:E; [|exfalso; revert E; by vm_compute].
  assert (listed_and_held (s, ts) = true) as Hl.
  { revert E. generalize (s, ts). intros x E.
    assert ((listed_and_held <$> weak_play (weak_start [[16; 32]; []]) stale_link_schedule) = Some true) as Ht by by vm_compute.
    rewrite E in Ht. by injection Ht. }
  unfold listed_and_held in Hl. cbn [fst snd] in Hl. destruct (last (ws_head s)) as [[v r]|] eqn:Ev; [|done].
  destruct (ts !! 1%nat) as [t|] eqn:Et; [|done]. apply andb_true_iff in Hl as [Hv%Z.eqb_eq Ht%bool_decide_eq_true].
  exists s, ts, v, r, t. split; [by eapply weak_play_sound|]. do 3 (split; [done|]). exact Ht.
Qed.

(** Thread 1 is about to read the link of the first block that was pushed. *)
Definition reading_link (x : wshared * list wsthread) : bool :=
  match x.2 !! 1%nat with Some t => bool_decide (touched (newest_thread t) = Some 32) | None => false end.

Lemma weak_accesses_blocks_witness :
  ∃ x t, rtc wsstep (weak_start [[16; 32]; []]) x ∧ x.2 !! 1%nat = Some t ∧ touched (newest_thread t) = Some 32 ∧ 32 ∈ [16; 32].
Proof.
  destruct (weak_play (weak_start [[16; 32]; []]) (take 8 stale_link_schedule)) as [x|] eqn:E; [|exfalso; revert E; by vm_compute].
  assert (reading_link x = true) as Hl.
  { assert ((reading_link <$> weak_play (weak_start [[16; 32]; []]) (take 8 stale_link_schedule)) = Some true) as Ht by by vm_compute.
    rewrite E in Ht. by injection Ht. }
  unfold reading_link in Hl. destruct (x.2 !! 1%nat) as [t|] eqn:Et; [|done]. apply bool_decide_eq_true in Hl.
  pose proof (weak_play_sound _ _ _ E) as Hr. exists x, t. do 3 (split; [done|]).
  apply (weak_accesses_blocks [16; 32] [[16; 32]; []] x 1 t 32); [repeat constructor; done|done|done|done|done].
Defined.
