(* ===== verification/Bulk.v ===== *)
(** * Filling a size class (src/src/slab/bulk_allocation.rs; cleanup_thread_cache of thread_local.rs)

    [bulk_fill] reserves an arena for a class, a [MetaData] followed by blocks,
    and initialises some of its blocks: it writes their headers, chained, and
    gives the chain to the thread's cache or to the per-cpu lists.  The arena
    stays [pending] until all of its blocks are initialised.  When a thread
    ends, [cleanup_thread_cache] hands its lists and its pending arenas over.

    The state of a call is what the calling thread can reach: the memory, the
    per-cpu lists, the address map, the thread's engine and its generator, and
    the kernel. *)

From S2P Require Import Prelude Bits Lib Rng Sys SizeClass VaMap Mem BlockList ThreadLocal Interconnect.

(** [enum Err]. *)
Inductive AllocErr : Type := ErrOutOfReservation | ErrOutOfMemory.

(** The crate's statics that are set before the first call and do not change here. *)
Record Statics : Type := mkStatics {
  MAGIC : Z;
  FREED_MAGIC : Z;
  NUMA_KEY : Z;
  OX_CURRENT_STAMP : Z;
  OX_MAX_RESERVATION : Z;
  OX_FORCE_THP : bool
}.

(** What the calls out of the crate give during a call: the results of [sched_getcpu] when the
    thread pops from and pushes to the per-cpu lists (it may move in between), which
    compare-and-swaps fail spuriously, and the address of a local buffer. *)
Record Ambient : Type := mkAmbient {
  am_pop_cpu : Z;
  am_push_cpu : Z;
  am_spurious : list bool;
  am_buf : Z
}.

Record Call (K : Type) : Type := mkCall {
  c_mem : mem;
  c_icc : InterConnectCache;
  c_va : VaState;
  c_engine : ThreadLocalEngine;
  c_rng : AllocRng;
  c_kernel : K
}.
Arguments mkCall {K}. Arguments c_mem {K}. Arguments c_icc {K}. Arguments c_va {K}.
Arguments c_engine {K}. Arguments c_rng {K}. Arguments c_kernel {K}.

Definition with_mem {K} (c : Call K) (m : mem) : Call K :=
  mkCall m (c_icc c) (c_va c) (c_engine c) (c_rng c) (c_kernel c).
Definition with_engine {K} (c : Call K) (e : ThreadLocalEngine) : Call K :=
  mkCall (c_mem c) (c_icc c) (c_va c) e (c_rng c) (c_kernel c).
Definition with_kernel {K} (c : Call K) (k : K) : Call K :=
  mkCall (c_mem c) (c_icc c) (c_va c) (c_engine c) (c_rng c) k.
Definition with_global {K} (c : Call K) (m : mem) (icc : InterConnectCache) (k : K) : Call K :=
  mkCall m icc (c_va c) (c_engine c) (c_rng c) k.
Definition with_va {K} (c : Call K) (va : VaState) (rng : AllocRng) (k : K) : Call K :=
  mkCall (c_mem c) (c_icc c) va (c_engine c) rng k.

(** ** [MetaData] in memory *)

Definition md_start_at (m : mem) (p : Z) : Z := load 8 m p.
Definition md_end_at (m : mem) (p : Z) : Z := load 8 m (p + 8).
Definition md_next_at (m : mem) (p : Z) : Z := load 8 m (p + 16).
Definition md_set_next (m : mem) (p v : Z) : mem := store 8 m (p + 16) v.
Definition write_metadata (m : mem) (p : Z) (md : MetaData) : mem :=
  let m := store 8 m p (Lib.md_start md) in
  let m := store 8 m (p + 8) (Lib.md_end md) in
  store 8 m (p + 16) (Lib.md_next md).

(** The contents of anonymous pages are zero when they are mapped and after
    [madvise(DONTNEED)]; [write_bytes(p, 0, len)] stores zeros. *)
Definition zero_fill (m : mem) (p len : Z) : mem :=
  λ x, if (p <=? x) && (x <? p + len) then 0 else m x.

(** Whole pages: up to the next multiple of 4096. *)
Definition page_round (len : Z) : Z := round_up len 4096.

Section Bulk.
Context `{Config}.

Definition remaining_blocks (m : mem) (metadata block_size : Z) : M Z :=
  let remaining_bytes := saturating_sub (md_end_at m metadata) (md_next_at m metadata) in
  udiv remaining_bytes block_size.

(** [for i in (0..count).rev() { .. }]: from block [n - 1] down to block 0. *)
Fixpoint init_loop (st : Statics) (n : nat) (m : mem) (class base block_size head tail : Z)
    : M (mem * Z * Z) :=
  match n with
  | O => Ret (m, head, tail)
  | S n =>
      off ← umul (Z.of_nat n) block_size;
      current_header ← uadd base off;
      _ ← deref current_header;
      let m := write_header m current_header
                 (mkOxHeader head class (FREED_MAGIC st) (OX_CURRENT_STAMP st)) in
      let tail := if head =? 0 then current_header else tail in
      init_loop st n m class base block_size current_header tail
  end.

(** The first block, the last block and the number of blocks. *)
Definition init_blocks (st : Statics) (m : mem) (class metadata block_size max_blocks : Z)
    : M (mem * Z * Z * Z) :=
  remaining ← remaining_blocks m metadata block_size;
  if remaining =? 0 then Ret (m, 0, 0, 0)
  else
    let count := Z.min remaining max_blocks in
    let base := md_next_at m metadata in
    '(m, head, tail) ← init_loop st (Z.to_nat count) m class base block_size 0 0;
    bytes ← umul count block_size;
    next ← uadd base bytes;
    Ret (md_set_next m metadata next, head, tail, count).

(** [align_to(payload_size + HEADER_SIZE, 16)]. *)
Definition block_size_of (class : Z) : M Z :=
  payload_size ← vget SIZE_CLASSES class;
  sz ← uadd payload_size HEADER_SIZE;
  align_to sz 16.

Definition max_init_of (block_size : Z) : M Z :=
  blocks_per_4k ← udiv 4096 block_size;
  Ret (if 48 <=? blocks_per_4k then 48 else Z.max blocks_per_4k 1).

Section Fill.
Context {K : Type} `{Kernel K}.
Context (st : Statics) (am : Ambient).

Definition rw_fixed : MMapFlags :=
  mkFlags (Z.lor Prot_WRITE Prot_READ) (Z.lor Map_PRIVATE Map_FIXED).

(** [GlobalHandler.push_to_global] in a call. *)
Definition call_push_to_global (c : Call K) (class head tail count : Z) : M (Call K) :=
  '(m, icc, k) ← push_to_global (NUMA_KEY st) (am_buf am) (c_mem c) (c_icc c) class head tail count
                   (am_push_cpu am) (am_spurious am) (c_kernel c);
  Ret (with_global c m icc k).

(** [thread.push_to_thread_tailed] in a call. *)
Definition call_push_tailed (c : Call K) (class head tail count : Z) : M (Call K) :=
  '(m, e) ← push_to_thread_tailed (c_mem c) (c_engine c) class head tail count;
  Ret (with_engine (with_mem c m) e).

(** [thread.pending[class] = p]. *)
Definition call_set_pending (c : Call K) (class p : Z) : M (Call K) :=
  pend ← vset (pending (c_engine c)) class p;
  Ret (with_engine c (with_pending (c_engine c) pend)).

(** The first part of [bulk_fill]: blocks of the pending arena; [inl] if there were any. *)
Definition fill_from_pending (c : Call K) (class block_size max_init : Z) : M (Call K + Call K) :=
  pend ← vget (pending (c_engine c)) class;
  if pend =? 0 then Ret (inr c)
  else
    '(m, head, tail, count) ← init_blocks st (c_mem c) (wrap8 class) pend block_size max_init;
    let c := with_mem c m in
    if 0 <? count then
      c ← call_push_tailed c class head tail count;
      remaining ← remaining_blocks (c_mem c) pend block_size;
      c ← (if remaining =? 0 then call_set_pending c class 0 else Ret c);
      Ret (inl c)
    else
      c ← call_set_pending c class 0; Ret (inr c).

(** The end of [bulk_fill]: the first blocks of the arena at [p]. *)
Definition fill_new_arena (c : Call K) (class p block_size max_init : Z)
    : M (result unit AllocErr * Call K) :=
  '(m, head, tail, count) ← init_blocks st (c_mem c) (wrap8 class) p block_size max_init;
  let c := with_mem c m in
  if count =? 0 then Ret (Err ErrOutOfMemory, c)
  else
    bin ← vget (tls (c_engine c)) class;
    limits ← TLS_MAX_BLOCKS;
    limit ← vget limits class;
    c ← (if limit <=? bin_usage bin then call_push_to_global c class head tail count
         else call_push_tailed c class head tail count);
    remaining ← remaining_blocks (c_mem c) p block_size;
    c ← (if 0 <? remaining then call_set_pending c class p else Ret c);
    Ret (Ok (), c).

(** The second part: a new arena. *)
Definition fill_from_arena (c : Call K) (class block_size max_init : Z) : M (result unit AllocErr * Call K) :=
  payload_size ← vget SIZE_CLASSES class;
  num_blocks ← vget ITERATIONS class;
  bytes ← umul block_size num_blocks;
  total ← uadd METADATA_SIZE bytes;
  '(hint, va, rng, k) ← VaMap.alloc (am_buf am) (OX_MAX_RESERVATION st) (c_va c) total (c_rng c) (c_kernel c);
  let c := with_va c va rng k in
  match hint with
  | None => log_and_abort VaBitmapExhausted
  | Some hint =>
      '(r, k) ← mmap_memory hint total rw_fixed (c_kernel c);
      let c := with_kernel c k in
      match r with
      | Err _ =>
          va ← VaMap.free (c_va c) hint total;
          Ret (Err ErrOutOfMemory, with_va c va (c_rng c) (c_kernel c))
      | Ok p =>
          let m := zero_fill (c_mem c) p (page_round total) in
          e ← uadd p total;
          n ← uadd p METADATA_SIZE;
          let m := write_metadata m p (mkMetaData p e n) in
          k ← (if class =? NUM_SIZE_CLASSES - 1 then
                 '(_, k) ← madvise (p + HEADER_SIZE) payload_size Advice_HUGEPAGE (c_kernel c); Ret k
               else Ret (c_kernel c));
          let c := with_kernel c k in
          fill_new_arena (with_mem c m) class p block_size max_init
      end
  end.

Definition bulk_fill (c : Call K) (class : Z) : M (result unit AllocErr * Call K) :=
  block_size ← block_size_of class;
  max_init ← max_init_of block_size;
  filled ← fill_from_pending c class block_size max_init;
  match filled with
  | inl c => Ret (Ok (), c)
  | inr c => fill_from_arena c class block_size max_init
  end.

Definition drain_pending (c : Call K) (class : Z) : M (Call K) :=
  pend ← vget (pending (c_engine c)) class;
  if pend =? 0 then Ret c
  else
    block_size ← block_size_of class;
    remaining ← remaining_blocks (c_mem c) pend block_size;
    c ← (if 0 <? remaining then
           '(m, head, tail, count) ← init_blocks st (c_mem c) (wrap8 class) pend block_size remaining;
           let c := with_mem c m in
           if 0 <? count then call_push_to_global c class head tail count else Ret c
         else Ret c);
    call_set_pending c class 0.

(** [size_of::<ThreadLocalEngine>()]: 34 bins of two words, 34 pointers and, if hardened, the
    key, rounded up to the alignment of 64. *)
Definition ENGINE_SIZE : Z := round_up (34 * 16 + 34 * 8 + (if hardened then 8 else 0)) 64.

(** [init_tls]: the engine's pages, and its key. *)
Definition init_tls (k : K) : M (Z * ThreadLocalEngine * K) :=
  '(r, k) ← mmap_memory 0 ENGINE_SIZE rw k;
  match r with
  | Err _ => log_and_abort PThreadCacheFailed
  | Ok cache =>
      if hardened then
        '(res, bytes, k) ← getrandom (am_buf am) 8 1 k;
        if is_err res then log_and_abort SecurityViolation
        else Ret (cache, engine_new (from_le_bytes (take 8 bytes)), k)
      else Ret (cache, engine_new 0, k)
  end.
End Fill.

(** ** [cleanup_thread_cache] *)

Section Cleanup.
Context {K : Type} `{Kernel K}.

(** Each list and each pending arena is pushed by a call of its own. *)
Context (st : Statics) (list_am drain_am : Z → Ambient).

(** The inner [loop]: decodes the links of a list and clears the life times; the last block
    and the number of blocks. *)
Fixpoint cleanup_loop (fuel : nat) (random_key : Z) (va : VaState) (m : mem) (tail count : Z)
    : M (mem * Z * Z) :=
  match fuel with
  | O => Abort OutOfFuel
  | S fuel =>
      _ ← deref tail;
      let next := xor_ptr_general (hget FNext m tail) random_key in
      let m := hput FNext m tail next in
      let m := hput FLifeTime m tail 0 in
      if next =? 0 then Ret (m, tail, count)
      else
        ours ← va_is_ours va next;
        if negb ours then Ret (hput FNext m tail 0, tail, count)
        else
          count ← uadd count 1;
          cleanup_loop fuel random_key va m next count
  end.

(** One round of the loop over the classes; a bin of [usage] blocks bounds the inner loop. *)
Definition cleanup_class (c : Call K) (class : Z) : M (Call K) :=
  let random_key := if hardened then xor_key (c_engine c) else 0 in
  bin ← vget (tls (c_engine c)) class;
  let head := xor_ptr_general (bin_head bin) random_key in
  ours ← va_is_ours (c_va c) head;
  if negb ours then Ret c
  else
    c ← (if negb (head =? 0) then
           '(m, tail, count) ← cleanup_loop (S (Z.to_nat (bin_usage bin))) random_key (c_va c) (c_mem c) head 1;
           call_push_to_global st (list_am class) (with_mem c m) class head tail count
         else Ret c);
    drain_pending st (drain_am class) c class.

Fixpoint cleanup_classes (n : nat) (c : Call K) (class : Z) : M (Call K) :=
  match n with
  | O => Ret c
  | S n => c ← cleanup_class c class; cleanup_classes n c (class + 1)
  end.

(** [cache] is the address of the engine; [TLS] is null when this returns. *)
Definition cleanup_thread_cache (c : Call K) (cache : Z) : M (Call K) :=
  if cache =? 0 then Ret c
  else
    c ← cleanup_classes (Z.to_nat NUM_SIZE_CLASSES) c 0;
    '(_, k) ← unmap_memory cache ENGINE_SIZE (c_kernel c);
    Ret (with_kernel c k).
End Cleanup.
End Bulk.
