(* ===== verification/BulkSpec.v ===== *)
(** * What filling a class does to memory

    [init_blocks] initialises the next blocks of an arena: they are laid out one
    after the other, chained in address order, their headers carry the class and
    the magic of a free block, and nothing else changes but the arena's [next]. *)

From S2P Require Import Prelude Bits Lib Rng Sys SizeClass VaMap Mem BlockList ThreadLocal Interconnect Bulk.

Section Spec.
Context `{Config}.

(** [n] blocks of [bs] bytes from [base] on. *)
Definition blocks_at (base bs : Z) (n : nat) : list Z := (λ i, base + Z.of_nat i * bs) <$> seq 0 n.

Lemma length_blocks_at base bs n : length (blocks_at base bs n) = n.
Proof. unfold blocks_at. by rewrite length_fmap, length_seq. Qed.

Lemma blocks_at_S base bs n : blocks_at base bs (S n) = blocks_at base bs n ++ [base + Z.of_nat n * bs].
Proof. unfold blocks_at. by rewrite seq_S, fmap_app. Qed.

Lemma elem_of_blocks_at base bs n h :
  h ∈ blocks_at base bs n ↔ ∃ i, 0 ≤ i < Z.of_nat n ∧ h = base + i * bs.
Proof.
  unfold blocks_at. rewrite list_elem_of_fmap. split.
  - intros (i & -> & Hi%elem_of_seq). exists (Z.of_nat i). lia.
  - intros (i & Hi & ->). exists (Z.to_nat i). rewrite elem_of_seq, Z2Nat.id by lia. split; [done|lia].
Qed.

Lemma blocks_at_app base bs n1 n2 :
  blocks_at base bs (n1 + n2) = blocks_at base bs n1 ++ blocks_at (base + Z.of_nat n1 * bs) bs n2.
Proof.
  induction n2 as [|n2 IH].
  - by rewrite Nat.add_0_r, app_nil_r.
  - rewrite Nat.add_succ_r, !blocks_at_S, IH, <- app_assoc. do 3 f_equal. lia.
Qed.

Lemma head_blocks_at base bs n : head (blocks_at base bs (S n)) = Some base.
Proof. cbn. f_equal. lia. Qed.

Lemma last_blocks_at base bs n : last (blocks_at base bs (S n)) = Some (base + Z.of_nat n * bs).
Proof. by rewrite blocks_at_S, last_snoc. Qed.

Lemma separated_blocks_at base bs n : HEADER_SIZE ≤ bs → separated (blocks_at base bs n).
Proof.
  intros Hbs. induction n as [|n IH]; [done|]. rewrite blocks_at_S. apply separated_app.
  split; [done|]. split; [split; [constructor|done]|].
  apply Forall_forall. intros x (i & Hi & ->)%elem_of_blocks_at. apply Forall_singleton.
  left. destruct (HEADER_SIZE_cases _) as [E | E]; rewrite E in *; nia.
Qed.

(** [m'] differs from [m] in the headers of [l] only. *)
Definition only_headers (m m' : mem) (l : list Z) : Prop :=
  ∀ x, (∀ h, h ∈ l → x < h ∨ h + HEADER_SIZE ≤ x) → m' x = m x.

Lemma only_headers_hget m m' l f h :
  only_headers m m' l → Forall (apart h) l → hget f m' h = hget f m h.
Proof.
  intros Ho Ha. apply load_ext. intros x Hx. apply Ho. intros h' Hh'.
  rewrite Forall_forall in Ha. pose proof (Ha h' Hh') as Hap. pose proof (field_inside f).
  unfold apart in Hap. lia.
Qed.

Lemma linked_snoc m key l x :
  linked m key (l ++ [x]) ↔
    linked m key l ∧ ∀ t, last l = Some t → hget FNext m t = xor_ptr_general x key.
Proof.
  induction l as [|y [|z l] IH]; [by split| |].
  - cbn [app linked last]. split; [intros [? _]; split; [done|by intros t [= <-]]|intros [_ Hl]; eauto].
  - cbn [app linked last] in *. rewrite IH. tauto.
Qed.

(** ** [init_loop] *)

(** The header that [init_blocks] gives a block. *)
Definition free_header (st : Statics) (class : Z) (m : mem) (h : Z) : Prop :=
  hget FClass m h = class ∧ hget FMagic m h = FREED_MAGIC st ∧ hget FLifeTime m h = OX_CURRENT_STAMP st.

Record statics_ok (st : Statics) : Prop := {
  so_magic : fits_field FMagic (MAGIC st);
  so_freed : fits_field FMagic (FREED_MAGIC st);
  so_key : word64 (NUMA_KEY st);
  so_stamp : fits_field FLifeTime (OX_CURRENT_STAMP st);
  so_res : 0 ≤ OX_MAX_RESERVATION st ≤ 2 ^ 57
}.

Lemma free_header_frame st class m m' h l :
  only_headers m m' l → Forall (apart h) l → free_header st class m h → free_header st class m' h.
Proof. intros Ho Ha (H1 & H2 & H3). unfold free_header. by rewrite !(only_headers_hget m m' l). Qed.

Lemma init_loop_spec st n m class base bs head tail :
  statics_ok st → 0 ≤ class < 256 → word64 head → HEADER_SIZE ≤ bs → 0 < base →
  base + Z.of_nat n * bs ≤ usize_max →
  ∃ m', init_loop st n m class base bs head tail =
      Ret (m', if (n =? 0)%nat then head else base,
           if (n =? 0)%nat then tail else if head =? 0 then base + (Z.of_nat n - 1) * bs else tail) ∧
    linked m' 0 (blocks_at base bs n) ∧
    (∀ t, last (blocks_at base bs n) = Some t → hget FNext m' t = head) ∧
    Forall (free_header st class m') (blocks_at base bs n) ∧
    only_headers m m' (blocks_at base bs n).
Proof.
  intros Hst Hc Hh Hbs Hb. revert m head tail Hh.
  induction n as [|n IH]; intros m head tail Hh Hlim; cbn [init_loop].
  { exists m. split_and!; [done|done|done|constructor|by intros x _]. }
  assert (0 < bs) as Hbs0 by (destruct (HEADER_SIZE_cases _) as [E | E]; rewrite E in *; lia).
  assert (0 ≤ Z.of_nat n * bs) as Hnb by nia.
  rewrite umul_ok, bind_ret, uadd_ok, bind_ret by lia. rewrite deref_ok, bind_ret by lia.
  set (x := base + Z.of_nat n * bs).
  set (hdr := mkOxHeader head class (FREED_MAGIC st) (OX_CURRENT_STAMP st)).
  assert (word64 x) as Hx by (unfold word64, x, usize_max, u64_max in *; nia).
  destruct (IH (write_header m x hdr) x (if head =? 0 then x else tail)) as (m' & -> & Hl & Hlast & Hf & Ho);
    [done|lia|].
  assert (Forall (apart x) (blocks_at base bs n)) as Hap.
  { pose proof (separated_blocks_at base bs (S n) Hbs) as Hs. rewrite blocks_at_S in Hs.
    apply separated_apart in Hs. by apply Forall_cons in Hs as [? _]. }
  assert (∀ f, hget f m' x = hget f (write_header m x hdr) x) as Hfx.
  { intros f. by apply (only_headers_hget _ _ (blocks_at base bs n)). }
  exists m'. split_and!.
  - destruct n as [|n]; cbn [Nat.eqb].
    + replace (base + (Z.of_nat 1 - 1) * bs) with base by lia.
      by replace x with base by (unfold x; lia).
    + rewrite (proj2 (Z.eqb_neq x 0)) by (unfold x; lia).
      by replace (base + (Z.of_nat (S (S n)) - 1) * bs) with x by (unfold x; lia).
  - rewrite blocks_at_S. apply linked_snoc. split; [done|]. intros t Ht.
    rewrite xor_ptr_general_plain. by apply Hlast.
  - intros t. rewrite blocks_at_S, last_snoc. intros [= <-].
    fold x. rewrite Hfx. by apply (hget_write_header FNext).
  - rewrite blocks_at_S. apply Forall_app. split; [done|]. apply Forall_singleton. fold x.
    unfold free_header. rewrite !Hfx. split_and!; apply (hget_write_header); cbn; [done|apply Hst..].
  - intros y Hy. rewrite blocks_at_S in Hy. rewrite Ho.
    + apply write_header_outside. apply Hy. apply elem_of_app. right. by left.
    + intros h Hin. apply Hy. apply elem_of_app. by left.
Qed.

(** ** [init_blocks] *)

Lemma load8_bound m a : bytes_ok m → word64 (load 8 m a).
Proof. intros Hm. exact (load_bound 8 m a Hm). Qed.

Lemma load8_store8 m a v : word64 v → load 8 (store 8 m a v) a = v.
Proof. intros Hv. by apply load_store_eq. Qed.

(** [m'] differs from [m] in the headers of [l] and in the [next] of the metadata at [p]. *)
Definition init_frame (m m' : mem) (p : Z) (l : list Z) : Prop :=
  ∀ x, (∀ h, h ∈ l → x < h ∨ h + HEADER_SIZE ≤ x) → x < p + 16 ∨ p + 24 ≤ x → m' x = m x.

(** The blocks that are initialised: what follows [next], as far as the arena and the limit go. *)
Lemma init_blocks_spec st m class p bs limit base e :
  statics_ok st → 0 ≤ class < 256 → HEADER_SIZE ≤ bs → 0 < p → p + METADATA_SIZE ≤ base →
  md_next_at m p = base → md_end_at m p = e → base ≤ e ≤ usize_max → 1 ≤ limit →
  let n := Z.min ((e - base) / bs) limit in
  (n = 0 ∧ init_blocks st m class p bs limit = Ret (m, 0, 0, 0)) ∨
  (1 ≤ n ∧ ∃ m', init_blocks st m class p bs limit = Ret (m', base, base + (n - 1) * bs, n) ∧
    md_next_at m' p = base + n * bs ∧
    linked m' 0 (blocks_at base bs (Z.to_nat n)) ∧ hget FNext m' (base + (n - 1) * bs) = 0 ∧
    Forall (free_header st class m') (blocks_at base bs (Z.to_nat n)) ∧
    init_frame m m' p (blocks_at base bs (Z.to_nat n))).
Proof.
  intros Hst Hc Hbs Hp Hpb Hnext Hend He Hlim n.
  assert (0 < bs) as Hbs0 by (destruct (HEADER_SIZE_cases _) as [E | E]; rewrite E in *; lia).
  assert (METADATA_SIZE = 32) as Hmd by done.
  pose proof (Z.div_mod (e - base) bs ltac:(lia)) as Hdm.
  pose proof (Z.mod_pos_bound (e - base) bs Hbs0) as Hmb.
  assert (0 ≤ (e - base) / bs) as Hq by (apply Z.div_pos; lia).
  unfold init_blocks, remaining_blocks. rewrite Hnext, Hend. unfold saturating_sub.
  rewrite Z.max_r, udiv_ok, bind_ret by lia.
  destruct (Z.eqb_spec ((e - base) / bs) 0) as [Hz | Hnz].
  { left. split; [unfold n; lia|done]. }
  right. assert (1 ≤ n) as Hn by (unfold n; lia). split; [done|]. fold n.
  assert (0 ≤ n * bs ≤ e - base) as Hnb by (unfold n; nia).
  destruct (init_loop_spec st (Z.to_nat n) m class base bs 0 0) as (m1 & -> & Hl & Hlast & Hf & Ho);
    try done; [lia|rewrite Z2Nat.id; lia|].
  rewrite bind_ret, umul_ok, bind_ret, uadd_ok, bind_ret by lia.
  rewrite (proj2 (Nat.eqb_neq _ _)), Z2Nat.id by lia. cbn [Z.eqb].
  assert (∀ f h, h ∈ blocks_at base bs (Z.to_nat n) →
    hget f (md_set_next m1 p (base + n * bs)) h = hget f m1 h) as Hkeep.
  { intros f h (i & Hi & ->)%elem_of_blocks_at. apply load_store_ne. pose proof (field_inside f).
    assert (0 ≤ i * bs) by nia. left. lia. }
  exists (md_set_next m1 p (base + n * bs)). split; [done|]. split_and!.
  - apply load8_store8. unfold word64, usize_max, u64_max in *. lia.
  - revert Hl. apply linked_frame. intros h Hh. by apply Hkeep.
  - rewrite Hkeep.
    + apply Hlast. replace (Z.to_nat n) with (S (Z.to_nat (n - 1))) by lia.
      by rewrite last_blocks_at, Z2Nat.id by lia.
    + apply elem_of_blocks_at. exists (n - 1). lia.
  - revert Hf. rewrite !Forall_forall. intros Hf h Hh. specialize (Hf h Hh).
    unfold free_header in *. by rewrite !Hkeep.
  - intros x Hx Hxp. unfold md_set_next. rewrite store_outside by lia. by apply Ho.
Qed.
End Spec.
