(* ===== verification/SlabInv.v ===== *)
(** * The invariant of the slab

    Every block that an arena has initialised is in exactly one place: in the
    cache of a thread, in a per-cpu list, or outside of both (with the program,
    or in transit in a call).  Headers carry the class of their arena, arenas are
    disjoint ranges of the address map, and the metadata of an arena says how
    many of its blocks exist. *)

From S2P Require Import Prelude Bits Lib Rng Sys Radix SizeClass VaMap VaMapSpec VaLive.
From S2P Require Import Mem BlockList ThreadLocal Interconnect InterconnectSpec Bulk BulkSpec.

(** ** Sizes of a class *)

Section Sizes.
Context `{Config}.

Definition class_size (c : Z) : Z := default 0 (zlookup SIZE_CLASSES c).
Definition class_blocks (c : Z) : Z := default 0 (zlookup ITERATIONS c).
Definition bsz (c : Z) : Z := round_up (class_size c + HEADER_SIZE) 16.
Definition arena_size (c : Z) : Z := METADATA_SIZE + bsz c * class_blocks c.

Record class_ok (c : Z) : Prop := {
  co_size : vget SIZE_CLASSES c = Ret (class_size c);
  co_blocks : vget ITERATIONS c = Ret (class_blocks c);
  co_bsz : block_size_of c = Ret (bsz c);
  co_arena : umul (bsz c) (class_blocks c) = Ret (bsz c * class_blocks c) ∧
             uadd METADATA_SIZE (bsz c * class_blocks c) = Ret (arena_size c);
  co_init : ∃ n, max_init_of (bsz c) = Ret n ∧ 1 ≤ n;
  co_limit : ∃ l n, TLS_MAX_BLOCKS = Ret l ∧ vget l c = Ret n ∧ 1 ≤ n;
  co_bounds : 16 ≤ class_size c ∧ class_size c + HEADER_SIZE ≤ bsz c ∧ bsz c mod 16 = 0 ∧
              1 ≤ class_blocks c ∧ arena_size c ≤ 2 ^ 32 ∧ wrap8 c = c
}.

Definition ret_is (out : M Z) (v : Z) : bool := match out with Ret x => x =? v | Abort _ => false end.
Definition ret_pos (out : M Z) : bool := match out with Ret x => 1 <=? x | Abort _ => false end.

Definition class_okb (c : Z) : bool :=
  ret_is (vget SIZE_CLASSES c) (class_size c) && ret_is (vget ITERATIONS c) (class_blocks c) &&
  ret_is (block_size_of c) (bsz c) &&
  ret_is (umul (bsz c) (class_blocks c)) (bsz c * class_blocks c) &&
  ret_is (uadd METADATA_SIZE (bsz c * class_blocks c)) (arena_size c) &&
  ret_pos (max_init_of (bsz c)) &&
  ret_pos (l ← TLS_MAX_BLOCKS; vget l c) &&
  ((16 <=? class_size c) && (class_size c + HEADER_SIZE <=? bsz c) && (bsz c mod 16 =? 0) &&
   (1 <=? class_blocks c) && (arena_size c <=? 2 ^ 32) && (wrap8 c =? c)).

Lemma ret_is_true out v : ret_is out v = true → out = Ret v.
Proof. destruct out as [x|]; cbn; [|done]. by intros ->%Z.eqb_eq. Qed.

Lemma ret_pos_true out : ret_pos out = true → ∃ x, out = Ret x ∧ 1 ≤ x.
Proof. destruct out as [x|]; cbn; [|done]. intros ?%Z.leb_le. eauto. Qed.

Lemma class_okb_ok c : class_okb c = true → class_ok c.
Proof.
  unfold class_okb. rewrite !andb_true_iff, !Z.leb_le, !Z.eqb_eq.
  intros (((((((H1%ret_is_true & H2%ret_is_true) & H3%ret_is_true) & H4%ret_is_true) &
    H5%ret_is_true) & H6%ret_pos_true) & H7%ret_pos_true) & H8).
  split; try done; [|tauto]. destruct H7 as (n & Hn & Hpos).
  apply bind_Ret_inv in Hn as (l & ? & ?). eauto.
Qed.
End Sizes.

Lemma classes_okb (cf : Config) :
  forallb (λ c, class_okb (Z.of_nat c)) (seq 0 (Z.to_nat NUM_SIZE_CLASSES)) = true.
Proof. destruct cf as [[|]]; by vm_compute. Qed.

Lemma class_ok_all `{Config} c : 0 ≤ c < NUM_SIZE_CLASSES → class_ok c.
Proof.
  intros Hc. apply class_okb_ok.
  pose proof (forallb_lookup _ _ (Z.to_nat c) (Z.to_nat c) (classes_okb _)) as Hf.
  cbn beta in Hf. rewrite Z2Nat.id in Hf by lia. apply Hf. apply lookup_seq. split; [done|lia].
Qed.

(** ** Arenas *)

(** [ar_n] blocks of the arena at [ar_base] are initialised. *)
Record arena : Type := mkArena { ar_base : Z; ar_class : Z; ar_n : nat }.

Section Arenas.
Context `{Config}.

Definition first_block (a : arena) : Z := ar_base a + METADATA_SIZE.
Definition arena_blocks (a : arena) : list Z := blocks_at (first_block a) (bsz (ar_class a)) (ar_n a).
Definition heap_blocks (As : list arena) : list Z := concat (arena_blocks <$> As).

(** The arena's range in the address map, and how far it is initialised. *)
Record arena_in (live : gmap Z Z) (a : arena) : Prop := {
  ai_live : live !! ar_base a = Some (arena_size (ar_class a));
  ai_class : 0 ≤ ar_class a < NUM_SIZE_CLASSES;
  ai_n : Z.of_nat (ar_n a) ≤ class_blocks (ar_class a)
}.

(** Its metadata and its headers in memory. *)
Record arena_mem (m : mem) (a : arena) : Prop := {
  am_next : md_next_at m (ar_base a) = first_block a + Z.of_nat (ar_n a) * bsz (ar_class a);
  am_end : md_end_at m (ar_base a) = ar_base a + arena_size (ar_class a);
  am_classes : Forall (λ h, hget FClass m h = ar_class a) (arena_blocks a)
}.

Record arenas_ok (m : mem) (live : gmap Z Z) (As : list arena) : Prop := {
  ao_in : Forall (arena_in live) As;
  ao_nodup : NoDup (ar_base <$> As);
  ao_mem : Forall (arena_mem m) As
}.

Section Space.
Context {K : Type} `{LinuxKernel K}.
Context (k : K) (va : VaState) (live : gmap Z Z).
Context (Hlive : live_inv k va live).

(** An arena's blocks lie in its range, after its metadata. *)
Lemma arena_block_range a h :
  arena_in live a → h ∈ arena_blocks a →
  first_block a ≤ h ∧ h + bsz (ar_class a) ≤ ar_base a + arena_size (ar_class a) ∧
  h mod 16 = 0 ∧ 0 < ar_base a ∧ ar_base a + arena_size (ar_class a) ≤ 2 ^ 57.
Proof.
  intros [Hl Hc Hn] (i & Hi & ->)%elem_of_blocks_at.
  destruct (live_range k va live _ _ Hlive Hl) as (Hpos & Hmod & Hsz & Hlim).
  pose proof (co_bounds _ (class_ok_all _ Hc)) as (Q1 & Q2 & Q3 & Q4 & _).
  unfold first_block, arena_size in *. change METADATA_SIZE with 32 in *.
  assert (0 < bsz (ar_class a)) as Hb by (destruct (HEADER_SIZE_cases _) as [E|E]; rewrite E in *; lia).
  split_and!; try nia.
  assert (∃ q, bsz (ar_class a) = 16 * q) as [q Hq] by (exists (bsz (ar_class a) / 16); zdiv).
  assert (∃ r, ar_base a = 16 * r) as [r Hr] by (exists (ar_base a / 16); zdiv).
  rewrite Hq, Hr. replace (16 * r + 32 + i * (16 * q)) with ((r + 2 + i * q) * 16) by lia.
  apply Z.mod_mul. lia.
Qed.

(** Arenas with different bases do not meet. *)
Lemma arenas_apart a b :
  arena_in live a → arena_in live b → ar_base a ≠ ar_base b →
  ar_base a + arena_size (ar_class a) ≤ ar_base b ∨ ar_base b + arena_size (ar_class b) ≤ ar_base a.
Proof.
  intros [Ha _ _] [Hb _ _] Hne.
  destruct (live_range k va live _ _ Hlive Ha) as (_ & _ & Hsa & _).
  destruct (live_range k va live _ _ Hlive Hb) as (_ & _ & Hsb & _).
  destruct (lv_disjoint _ _ _ Hlive _ _ _ _ Ha Hb Hne); lia.
Qed.

Lemma arena_base_inj (As : list arena) a b :
  NoDup (ar_base <$> As) → a ∈ As → b ∈ As → ar_base a = ar_base b → a = b.
Proof.
  intros Hnd [i Hi]%list_elem_of_lookup [j Hj]%list_elem_of_lookup He.
  assert (i = j) as <-; [|congruence].
  apply (NoDup_lookup _ i j (ar_base a) Hnd); rewrite list_lookup_fmap; [by rewrite Hi|].
  rewrite Hj. cbn. by rewrite He.
Qed.

(** Two blocks of the heap: the space of one ends before the other begins. *)
Lemma blocks_apart As a b h h' :
  Forall (arena_in live) As → NoDup (ar_base <$> As) → a ∈ As → b ∈ As →
  h ∈ arena_blocks a → h' ∈ arena_blocks b → h ≠ h' →
  h + bsz (ar_class a) ≤ h' ∨ h' + bsz (ar_class b) ≤ h.
Proof.
  intros Hin Hnd Ha Hb Hh Hh' Hne. rewrite Forall_forall in Hin.
  pose proof (arena_block_range a h (Hin a Ha) Hh). pose proof (arena_block_range b h' (Hin b Hb) Hh').
  destruct (decide (ar_base a = ar_base b)) as [He|He].
  - assert (a = b) as <- by by eapply arena_base_inj.
    apply elem_of_blocks_at in Hh as (i & Hi & ->), Hh' as (j & Hj & ->).
    pose proof (co_bounds _ (class_ok_all _ (ai_class _ _ (Hin a Ha)))) as (Q1 & Q2 & _).
    assert (0 < bsz (ar_class a)) as Hbs by (destruct (HEADER_SIZE_cases _) as [E|E]; rewrite E in *; lia).
    assert (i ≠ j) by (intros ->; done). destruct (Z.lt_ge_cases i j); [left; nia|right; nia].
  - destruct (arenas_apart a b (Hin a Ha) (Hin b Hb) He); unfold first_block in *;
      change METADATA_SIZE with 32 in *; lia.
Qed.

Lemma elem_of_heap_blocks As h : h ∈ heap_blocks As ↔ ∃ a, a ∈ As ∧ h ∈ arena_blocks a.
Proof.
  unfold heap_blocks. rewrite list_elem_of_In, in_concat. split.
  - intros (l & Hl%list_elem_of_In & Hh%list_elem_of_In).
    apply list_elem_of_fmap in Hl as (a & -> & Ha). eauto.
  - intros (a & Ha & Hh). exists (arena_blocks a). split; apply list_elem_of_In; [|done].
    apply list_elem_of_fmap. eauto.
Qed.

Lemma bsz_header c : 0 ≤ c < NUM_SIZE_CLASSES → 0 < HEADER_SIZE < bsz c.
Proof.
  intros Hc. pose proof (co_bounds _ (class_ok_all _ Hc)) as (Q1 & Q2 & _).
  destruct (HEADER_SIZE_cases _) as [E|E]; rewrite E in *; lia.
Qed.

Lemma heap_separated As :
  Forall (arena_in live) As → NoDup (ar_base <$> As) → separated (heap_blocks As).
Proof.
  induction As as [|a As IH]; intros Hin Hnd; [done|].
  pose proof Hin as [Ha Hin']%Forall_cons. cbn [fmap list_fmap] in Hnd.
  pose proof Hnd as [Hna Hnd']%NoDup_cons. unfold heap_blocks. cbn [fmap list_fmap concat].
  apply separated_app. split; [|split].
  - apply separated_blocks_at. pose proof (bsz_header _ (ai_class _ _ Ha)). lia.
  - by apply IH.
  - apply Forall_forall. intros h Hh. apply Forall_forall. intros h' Hh'.
    apply elem_of_heap_blocks in Hh' as (b & Hb & Hh').
    rewrite Forall_forall in Hin'. pose proof (Hin' b Hb) as Hbin.
    assert (ar_base a ≠ ar_base b) as Hne.
    { intros He. apply Hna. rewrite He. by apply list_elem_of_fmap_2. }
    pose proof (arena_block_range a h Ha Hh) as (?&?&_). pose proof (arena_block_range b h' Hbin Hh') as (?&?&_).
    pose proof (bsz_header _ (ai_class _ _ Ha)). pose proof (bsz_header _ (ai_class _ _ Hbin)).
    unfold apart, first_block in *. change METADATA_SIZE with 32 in *.
    destruct (arenas_apart a b Ha Hbin Hne); lia.
Qed.

(** The metadata of an arena does not meet any block. *)
Lemma metadata_apart As a h :
  Forall (arena_in live) As → a ∈ As → h ∈ heap_blocks As →
  h + HEADER_SIZE ≤ ar_base a ∨ ar_base a + METADATA_SIZE ≤ h.
Proof.
  intros Hin Ha (b & Hb & Hh)%elem_of_heap_blocks. rewrite Forall_forall in Hin.
  pose proof (arena_block_range b h (Hin b Hb) Hh) as (?&?&_).
  pose proof (bsz_header _ (ai_class _ _ (Hin b Hb))).
  pose proof (bsz_header _ (ai_class _ _ (Hin a Ha))) as Hbs.
  pose proof (co_bounds _ (class_ok_all _ (ai_class _ _ (Hin a Ha)))) as (_ & _ & _ & Q4 & _).
  assert (METADATA_SIZE ≤ arena_size (ar_class a)) as Hle by (unfold arena_size; nia).
  destruct (decide (ar_base a = ar_base b)) as [He|He].
  - right. rewrite He. done.
  - unfold first_block in *. change METADATA_SIZE with 32 in *.
    destruct (arenas_apart a b (Hin a Ha) (Hin b Hb) He); lia.
Qed.

(** Changing links of blocks changes no metadata and no class. *)
Lemma heap_field As m m' ws f h :
  Forall (arena_in live) As → NoDup (ar_base <$> As) → only_links m m' ws → ws ⊆ heap_blocks As →
  f ≠ FNext → h ∈ heap_blocks As → hget f m' h = hget f m h.
Proof.
  intros Hin Hnd Ho Hws Hf Hh. apply (only_links_field _ _ ws); [done..|].
  apply Forall_forall. intros w Hw. destruct (decide (w = h)) as [->|Hne]; [by left|right].
  pose proof (heap_separated As Hin Hnd) as Hsep. apply (separated_elem _ _ _ Hsep); auto.
Qed.

Lemma arenas_ok_links m m' As ws :
  arenas_ok m live As → only_links m m' ws → ws ⊆ heap_blocks As → arenas_ok m' live As.
Proof.
  intros [Hin Hnd Hmem] Ho Hws. split; try done. apply Forall_forall. intros a Ha.
  rewrite Forall_forall in Hmem. destruct (Hmem a Ha) as [Hn He Hc].
  assert (∀ i, 0 ≤ i → i + 8 ≤ METADATA_SIZE → load 8 m' (ar_base a + i) = load 8 m (ar_base a + i)) as Hmd.
  { intros i Hi Hi'. apply load_ext. intros x Hx. apply (only_links_outside _ _ _ _ Ho).
    intros h Hh. pose proof (metadata_apart As a h Hin Ha (Hws h Hh)). lia. }
  split.
  - unfold md_next_at in *. by rewrite Hmd.
  - unfold md_end_at in *. by rewrite Hmd.
  - revert Hc. rewrite !Forall_forall. intros Hc h Hh. rewrite <- (Hc h Hh).
    apply (heap_field As _ _ ws); try done. apply elem_of_heap_blocks. eauto.
Qed.
End Space.

(** ** Frames *)

(** [m'] has the contents of [m] in the blocks of [keep], and in the ranges of the address map
    that are no arenas. *)
Record frame (m m' : mem) (live : gmap Z Z) (As : list arena) (keep : list Z) : Prop := {
  fr_blocks : ∀ a h x, a ∈ As → h ∈ arena_blocks a → h ∈ keep →
    h ≤ x < h + bsz (ar_class a) → m' x = m x;
  fr_ranges : ∀ b s x, live !! b = Some s → b ∉ (ar_base <$> As) → b ≤ x < b + blocks_bytes s → m' x = m x
}.

(** No arena is lost, and none loses blocks. *)
Definition grown (As As' : list arena) : Prop :=
  ∀ a, a ∈ As → ∃ a', a' ∈ As' ∧ ar_base a' = ar_base a ∧ ar_class a' = ar_class a ∧ (ar_n a ≤ ar_n a')%nat.

(** The arenas and ranges only become more. *)
Record extends (live live' : gmap Z Z) (As As' : list arena) : Prop := {
  ex_live : live ⊆ live';
  ex_grow : grown As As';
  ex_new : ∀ b, b ∈ (ar_base <$> As') → live !! b = None ∨ b ∈ (ar_base <$> As)
}.

Lemma frame_refl m live As keep : frame m m live As keep.
Proof. by split. Qed.

Lemma grown_refl As : grown As As.
Proof. intros a Ha. by exists a. Qed.

Lemma grown_trans A1 A2 A3 : grown A1 A2 → grown A2 A3 → grown A1 A3.
Proof.
  intros P Q a Ha. destruct (P a Ha) as (b & Hb & ? & ? & ?), (Q b Hb) as (d & Hd & ? & ? & ?).
  exists d. split_and!; try done; try congruence. lia.
Qed.

Lemma extends_refl live As : extends live live As As.
Proof. split; [done|apply grown_refl|by right]. Qed.

Lemma extends_trans l1 l2 l3 A1 A2 A3 : extends l1 l2 A1 A2 → extends l2 l3 A2 A3 → extends l1 l3 A1 A3.
Proof.
  intros [P1 P2 P3] [Q1 Q2 Q3]. split.
  - by etrans.
  - by eapply grown_trans.
  - intros b Hb. destruct (Q3 b Hb) as [Hn|Hb2]; [left|by apply P3].
    destruct (l1 !! b) as [s|] eqn:E; [|done]. by rewrite (lookup_weaken _ _ _ _ E P1) in Hn.
Qed.

Lemma arena_blocks_mono a a' h :
  ar_base a' = ar_base a → ar_class a' = ar_class a → (ar_n a ≤ ar_n a')%nat →
  h ∈ arena_blocks a → h ∈ arena_blocks a'.
Proof.
  unfold arena_blocks, first_block. intros -> -> Hn (i & Hi & ->)%elem_of_blocks_at.
  apply elem_of_blocks_at. exists i. split; [lia|done].
Qed.

Lemma frame_trans m1 m2 m3 l1 l2 A1 A2 keep :
  frame m1 m2 l1 A1 keep → extends l1 l2 A1 A2 → frame m2 m3 l2 A2 keep → frame m1 m3 l1 A1 keep.
Proof.
  intros [P1 P2] [E1 E2 E3] [Q1 Q2]. split.
  - intros a h x Ha Hh Hk Hx. destruct (E2 a Ha) as (b & Hb & Hbase & Hcl & Hn).
    rewrite (Q1 b h x), (P1 a h x); try done.
    + by eapply arena_blocks_mono.
    + by rewrite Hcl.
  - intros b s x Hb Hn Hx. rewrite (Q2 b s x), (P2 b s x); try done.
    + by eapply lookup_weaken.
    + intros Hin. destruct (E3 b Hin) as [Hno|Hin']; [congruence|done].
Qed.

Lemma frame_mono m m' live As keep keep' : keep' ⊆ keep → frame m m' live As keep → frame m m' live As keep'.
Proof. intros Hk [P1 P2]. split; [|done]. intros. eapply P1; eauto. Qed.

(** A kept block's header. *)
Lemma frame_hget m m' live As keep a f h :
  frame m m' live As keep → a ∈ As → 0 ≤ ar_class a < NUM_SIZE_CLASSES → h ∈ arena_blocks a → h ∈ keep →
  hget f m' h = hget f m h.
Proof.
  intros [P1 _] Ha Hc Hh Hk. apply load_ext. intros x Hx. apply (P1 a h); try done.
  pose proof (field_inside f). pose proof (bsz_header _ Hc). lia.
Qed.

(** Changing links. *)
Lemma frame_links {K} `{LinuxKernel K} (k : K) va live m m' As ws keep :
  live_inv k va live → arenas_ok m live As → only_links m m' ws → ws ⊆ heap_blocks As →
  (∀ h, h ∈ keep → h ∈ ws → False) → frame m m' live As keep.
Proof.
  intros Hlive [Hin Hnd Hmem] Ho Hws Hdis. split.
  - intros a h x Ha Hh Hk Hx. apply (only_links_outside _ _ _ _ Ho). intros w Hw.
    destruct (proj1 (elem_of_heap_blocks As w) (Hws w Hw)) as (b & Hb & Hwb).
    assert (h ≠ w) as Hne by (intros ->; eauto).
    pose proof (blocks_apart k va live Hlive As a b h w Hin Hnd Ha Hb Hh Hwb Hne) as Hap.
    rewrite Forall_forall in Hin. pose proof (bsz_header _ (ai_class _ _ (Hin b Hb))). lia.
  - intros b s x Hb Hn Hx. apply (only_links_outside _ _ _ _ Ho). intros w Hw.
    destruct (proj1 (elem_of_heap_blocks As w) (Hws w Hw)) as (a & Ha & Hwa).
    rewrite Forall_forall in Hin. pose proof (Hin a Ha) as Hai.
    pose proof (arena_block_range k va live Hlive a w Hai Hwa) as (Hr1 & Hr2 & _).
    pose proof (bsz_header _ (ai_class _ _ Hai)). unfold first_block in Hr1.
    change METADATA_SIZE with 32 in Hr1. destruct Hai as [Hal _ _].
    assert (b ≠ ar_base a) as Hne by (intros ->; apply Hn; by apply list_elem_of_fmap_2).
    pose proof (live_range k va live _ _ Hlive Hal) as (_ & _ & Hsz & _).
    destruct (lv_disjoint _ _ _ Hlive _ _ _ _ Hb Hal Hne); lia.
Qed.
End Arenas.
