(* ===== verification/SlabOps.v ===== *)
(** * The operations of the slab keep its invariant

    Each lemma says which blocks an operation moves: between the thread's cache,
    the per-cpu lists, the arenas and the rest. *)

From S2P Require Import Prelude Bits Lib Rng Sys Radix SizeClass VaMap VaMapSpec VaLive.
From S2P Require Import Mem BlockList ThreadLocal Interconnect InterconnectSpec Bulk BulkSpec SlabInv.

Section Inv.
Context `{Config}.
Context {K : Type} `{LinuxKernel K}.
Context (st : Statics).

(** Keys that no block's address equals: block addresses are multiples of 16 below 2^57. *)
Definition key_free (key : Z) : Prop :=
  word64 key ∧ (hardened = true → key mod 16 ≠ 0 ∨ 2 ^ 57 ≤ key ∨ key = 0).

Lemma key_free_block key h : key_free key → 0 < h < 2 ^ 57 → h mod 16 = 0 → block_ok key h.
Proof.
  intros [Hk Hf] Hh Hm. split; [lia|]. split; [unfold word64; lia|]. unfold xor_ptr_general.
  destruct hardened; [|lia]. rewrite (proj2 (Z.eqb_neq h 0)) by lia. intros Hx.
  apply Z.lxor_eq in Hx as ->. destruct (Hf eq_refl) as [?|[?|?]]; lia.
Qed.

(** The header of a block that is free, of class [class]. *)
Definition typed (m : mem) (class h : Z) : Prop :=
  hget FClass m h = class ∧ hget FMagic m h = FREED_MAGIC st.

Record slab_inv (c : Call K) (live : gmap Z Z) (As : list arena) (ls gs : list (list Z))
    (rest : list Z) : Prop := {
  si_live : live_inv (c_kernel c) (c_va c) live;
  si_rng : ar_ok (c_rng c);
  si_arenas : arenas_ok (c_mem c) live As;
  si_engine : engine_rep (c_mem c) (c_engine c) ls;
  si_icc : icc_rep (NUMA_KEY st) (c_mem c) (c_icc c) gs;
  si_blocks : heap_blocks As ≡ₚ concat ls ++ concat gs ++ rest;
  si_ls : ∀ class l, zlookup ls class = Some l → Forall (typed (c_mem c) class) l;
  si_gs : ∀ i l, zlookup gs i = Some l → Forall (typed (c_mem c) (i mod NUM_SIZE_CLASSES)) l;
  si_pending : zlen (pending (c_engine c)) = NUM_SIZE_CLASSES ∧
    ∀ class p, zlookup (pending (c_engine c)) class = Some p →
      p = 0 ∨ ∃ a, a ∈ As ∧ ar_base a = p ∧ ar_class a = class;
  si_key : key_free (xor_key (c_engine c));
  si_numa : key_free (NUMA_KEY st)
}.

Lemma slab_block c live As ls gs rest h :
  slab_inv c live As ls gs rest → h ∈ heap_blocks As →
  0 < h < 2 ^ 57 ∧ h mod 16 = 0 ∧
  block_ok (xor_key (c_engine c)) h ∧ block_ok (NUMA_KEY st) h.
Proof.
  intros Hinv (a & Ha & Hh)%elem_of_heap_blocks.
  pose proof (ao_in _ _ _ (si_arenas _ _ _ _ _ _ Hinv)) as Hin. rewrite Forall_forall in Hin.
  pose proof (arena_block_range _ _ _ (si_live _ _ _ _ _ _ Hinv) a h (Hin a Ha) Hh)
    as (Hr1 & Hr2 & Hm & Hpos & Hlim).
  pose proof (bsz_header _ (ai_class _ _ (Hin a Ha))). unfold first_block in Hr1.
  change METADATA_SIZE with 32 in Hr1. assert (0 < h < 2 ^ 57) as Hb by lia.
  split; [done|]. split; [done|]. split; apply key_free_block; try done; apply Hinv.
Qed.

Lemma slab_blocks_ok c live As ls gs rest ws :
  slab_inv c live As ls gs rest → ws ⊆ heap_blocks As →
  Forall (block_ok (xor_key (c_engine c))) ws ∧ blocks_ok (NUMA_KEY st) ws.
Proof.
  intros Hinv Hws. split; [|split]; apply Forall_forall; intros h Hh;
    destruct (slab_block _ _ _ _ _ _ h Hinv (Hws h Hh)) as (_ & ? & ? & ?); done.
Qed.

Lemma slab_separated c live As ls gs rest :
  slab_inv c live As ls gs rest → separated (concat ls ++ concat gs ++ rest).
Proof.
  intros Hinv. rewrite <- (si_blocks _ _ _ _ _ _ Hinv).
  apply (heap_separated _ _ _ (si_live _ _ _ _ _ _ Hinv)); apply (si_arenas _ _ _ _ _ _ Hinv).
Qed.

Lemma slab_rest c live As ls gs rest h :
  slab_inv c live As ls gs rest → h ∈ rest → h ∈ heap_blocks As.
Proof.
  intros Hinv Hh. rewrite (si_blocks _ _ _ _ _ _ Hinv). rewrite !elem_of_app. auto.
Qed.

Lemma slab_lists c live As ls gs rest h :
  slab_inv c live As ls gs rest → h ∈ concat ls ++ concat gs → h ∈ heap_blocks As.
Proof.
  intros Hinv Hh. rewrite (si_blocks _ _ _ _ _ _ Hinv), app_assoc. apply elem_of_app. by left.
Qed.

(** Typing depends on no link. *)
Lemma typed_links c live As ls gs rest m' ws class h :
  slab_inv c live As ls gs rest → only_links (c_mem c) m' ws → ws ⊆ heap_blocks As →
  h ∈ heap_blocks As → typed (c_mem c) class h → typed m' class h.
Proof.
  intros Hinv Ho Hws Hh [H1' H2']. unfold typed.
  destruct (si_arenas _ _ _ _ _ _ Hinv) as [Hin Hnd _].
  rewrite !(heap_field _ _ _ (si_live _ _ _ _ _ _ Hinv) As (c_mem c) m' ws); auto.
Qed.

Lemma typed_links_all c live As ls gs rest m' ws class l :
  slab_inv c live As ls gs rest → only_links (c_mem c) m' ws → ws ⊆ heap_blocks As →
  l ⊆ heap_blocks As → Forall (typed (c_mem c) class) l → Forall (typed m' class) l.
Proof.
  intros Hinv Ho Hws Hl. rewrite !Forall_forall. intros Ht h Hh.
  eapply typed_links; [done..| |]; auto.
Qed.

Lemma zlookup_heap c live As ls gs rest i l :
  slab_inv c live As ls gs rest →
  zlookup ls i = Some l ∨ zlookup gs i = Some l → l ⊆ heap_blocks As.
Proof.
  intros Hinv Hl h Hh. rewrite (si_blocks _ _ _ _ _ _ Hinv). rewrite !elem_of_app.
  destruct Hl as [Hl|Hl]; [left|right; left]; by eapply elem_of_concat_z.
Qed.

(** ** Moving chains *)

(** A call in which only links of blocks outside the lists changed. *)
Lemma slab_links c live As ls gs rest m' ws :
  slab_inv c live As ls gs rest → only_links (c_mem c) m' ws → ws ⊆ rest →
  slab_inv (with_mem c m') live As ls gs rest.
Proof.
  intros Hinv Ho Hws. pose proof Hinv as [Q1 Q2 Q3 Q4 Q5 Q6 Q7 Q8 Q9 Q10 Q11].
  assert (ws ⊆ heap_blocks As) as Hwh by (intros h Hh; eapply slab_rest; eauto).
  pose proof (slab_separated _ _ _ _ _ _ Hinv) as Hsep.
  assert (Forall (λ h, Forall (apart h) ws) (concat ls ++ concat gs)) as Hap.
  { rewrite app_assoc in Hsep. apply Forall_forall. intros h Hh. apply Forall_forall. intros w Hw.
    apply separated_app in Hsep as (_ & _ & Hap). rewrite Forall_forall in Hap.
    specialize (Hap h Hh). rewrite Forall_forall in Hap. auto. }
  apply Forall_app in Hap as [Hap1 Hap2].
  split; cbn; try done.
  - by eapply arenas_ok_links.
  - by eapply engine_rep_frame_apart.
  - by eapply icc_rep_frame_apart.
  - intros class l Hl. eapply typed_links_all; eauto using zlookup_heap.
  - intros i l Hl. eapply typed_links_all; eauto using zlookup_heap.
Qed.

Lemma perm_push (ls : list (list Z)) gs ws rest l i :
  zlookup ls i = Some l →
  concat ls ++ gs ++ ws ++ rest ≡ₚ concat (zinsert ls i (ws ++ l)) ++ gs ++ rest.
Proof.
  intros (r & Hp & Hi)%concat_zinsert_perm. rewrite Hp, Hi. solve_Permutation.
Qed.

Lemma perm_push_g ls (gs : list (list Z)) ws rest l i :
  zlookup gs i = Some l →
  ls ++ concat gs ++ ws ++ rest ≡ₚ ls ++ concat (zinsert gs i (ws ++ l)) ++ rest.
Proof.
  intros (r & Hp & Hi)%concat_zinsert_perm. rewrite Hp, Hi. solve_Permutation.
Qed.

Lemma Forall_zinsert {A} (P : Z → A → Prop) (ls : list A) i x :
  0 ≤ i → P i x → (∀ j y, zlookup ls j = Some y → P j y) →
  ∀ j y, zlookup (zinsert ls i x) j = Some y → P j y.
Proof.
  intros Hi Hx Hls j y Hj. destruct (decide (j = i)) as [->|Hne].
  - pose proof (zlookup_Some_lt _ _ _ Hj) as Hlt. rewrite zlen_zinsert in Hlt.
    rewrite zlookup_zinsert_eq in Hj by done. by injection Hj as <-.
  - rewrite zlookup_zinsert_ne in Hj by (done || congruence). by apply Hls.
Qed.

(** A chain [ws] of free blocks of the class moves from the rest to the cache. *)
Lemma slab_cache_grows c live As ls gs ws rest class m' e' l :
  slab_inv c live As ls gs (ws ++ rest) → 0 ≤ class < NUM_SIZE_CLASSES →
  only_links (c_mem c) m' ws → zlookup ls class = Some l →
  engine_rep m' e' (zinsert ls class (ws ++ l)) → pending e' = pending (c_engine c) →
  xor_key e' = xor_key (c_engine c) → Forall (typed (c_mem c) class) ws →
  slab_inv (with_engine (with_mem c m') e') live As (zinsert ls class (ws ++ l)) gs rest.
Proof.
  intros Hinv Hc Ho Hl He Hpe Hke Ht.
  assert (ws ⊆ ws ++ rest) as Hsub by (intros x Hx; apply elem_of_app; by left).
  pose proof (slab_links _ _ _ _ _ _ _ ws Hinv Ho Hsub) as [Q1 Q2 Q3 Q4 Q5 Q6 Q7 Q8 Q9 Q10 Q11].
  cbn in *. split; cbn; try done.
  - rewrite Q6. by apply perm_push.
  - apply (Forall_zinsert (λ class l, Forall (typed m' class) l)); [lia| |done].
    apply Forall_app. split; [|by apply Q7].
    eapply typed_links_all; try done; intros x Hx; eapply slab_rest; eauto.
  - by rewrite Hpe.
  - by rewrite Hke.
Qed.

Lemma slab_push_tailed c live As ls gs ws rest class h t :
  slab_inv c live As ls gs (ws ++ rest) → 0 ≤ class < NUM_SIZE_CLASSES →
  head ws = Some h → last ws = Some t → linked (c_mem c) 0 ws → Forall (typed (c_mem c) class) ws →
  ∃ m' e' l, call_push_tailed c class h t (zlen ws) = Ret (with_engine (with_mem c m') e') ∧
    zlookup ls class = Some l ∧
    slab_inv (with_engine (with_mem c m') e') live As (zinsert ls class (ws ++ l)) gs rest ∧
    only_links (c_mem c) m' ws ∧ pending e' = pending (c_engine c).
Proof.
  intros Hinv Hc Hh Ht Hl Hty.
  assert (ws ⊆ heap_blocks As) as Hws.
  { intros x Hx. eapply slab_rest; [done|]. apply elem_of_app. by left. }
  destruct (slab_blocks_ok _ _ _ _ _ _ _ Hinv Hws) as [Hok _].
  pose proof (slab_separated _ _ _ _ _ _ Hinv) as Hsep.
  assert (separated (ws ++ concat ls)) as Hsep'.
  { assert (concat ls ++ concat gs ++ ws ++ rest ≡ₚ (ws ++ concat ls) ++ (concat gs ++ rest)) as Hp
      by solve_Permutation. rewrite Hp in Hsep. by apply separated_app in Hsep as [? _]. }
  destruct (push_to_thread_tailed_ok (c_mem c) (c_engine c) ls class ws h t)
    as (m' & e' & l & Hpush & Hlk & He & Ho & Hpe & Hke); try done.
  { apply Hinv. }
  { split; [done|]. split; [done|]. split; [done|]. split; [done|]. cbn. by destruct ws. }
  exists m', e', l. unfold call_push_tailed. rewrite Hpush, bind_ret.
  split; [done|]. split; [done|]. split; [|done]. by eapply slab_cache_grows.
Qed.

Lemma slab_push c live As ls gs rest class h :
  slab_inv c live As ls gs (h :: rest) → 0 ≤ class < NUM_SIZE_CLASSES → typed (c_mem c) class h →
  ∃ m' e' l, push_to_thread (c_mem c) (c_engine c) class h = Ret (m', e') ∧
    zlookup ls class = Some l ∧
    slab_inv (with_engine (with_mem c m') e') live As (zinsert ls class (h :: l)) gs rest ∧
    only_links (c_mem c) m' [h].
Proof.
  intros Hinv Hc Hty.
  assert ([h] ⊆ heap_blocks As) as Hws.
  { intros x ->%list_elem_of_singleton. eapply slab_rest; [done|]. by left. }
  destruct (slab_blocks_ok _ _ _ _ _ _ _ Hinv Hws) as [Hok _].
  pose proof (slab_separated _ _ _ _ _ _ Hinv) as Hsep.
  assert (separated ([h] ++ concat ls)) as Hsep'.
  { assert (concat ls ++ concat gs ++ h :: rest ≡ₚ ([h] ++ concat ls) ++ (concat gs ++ rest)) as Hp
      by solve_Permutation. rewrite Hp in Hsep. by apply separated_app in Hsep as [? _]. }
  destruct (push_to_thread_ok (c_mem c) (c_engine c) ls class h)
    as (m' & e' & l & Hpush & Hlk & He & Ho & Hpe & Hke).
  { apply Hinv. }
  { done. }
  exists m', e', l. split; [done|]. split; [done|]. split; [|done].
  eapply (slab_cache_grows _ _ _ _ _ [h]); try done. by apply Forall_singleton.
Qed.

(** A block moves from the cache to the rest. *)
Lemma slab_pop c live As ls gs rest class :
  slab_inv c live As ls gs rest → 0 ≤ class < NUM_SIZE_CLASSES →
  ∃ e' l, zlookup ls class = Some l ∧
    match l with
    | [] => pop_from_thread (c_mem c) (c_engine c) class = Ret (0, c_engine c)
    | h :: l' => pop_from_thread (c_mem c) (c_engine c) class = Ret (h, e') ∧
        typed (c_mem c) class h ∧
        slab_inv (with_engine c e') live As (zinsert ls class l') gs (h :: rest)
    end.
Proof.
  intros Hinv Hc. pose proof Hinv as [Q1 Q2 Q3 Q4 Q5 Q6 Q7 Q8 Q9 Q10 Q11].
  destruct (pop_from_thread_ok _ _ _ class Q4 Hc) as (e' & l & Hl & Hpop & Hrep & Hpe & Hke).
  exists e', l. split; [done|]. destruct l as [|h l]; cbn [list_op fst snd] in *.
  - destruct (engine_rep_bin _ _ _ class Q4 Hc) as (b & l' & Hb & Hl' & [He _]). simplify_eq.
    unfold pop_from_thread. rewrite (vget_ok _ _ _ Hb), bind_ret. cbn in He. by rewrite He.
  - split; [done|]. pose proof (Q7 _ _ Hl) as [Hth Htl]%Forall_cons. split; [done|].
    split; cbn; try done.
    + rewrite Q6. destruct (concat_zinsert_perm _ _ _ Hl) as (r & Hp & Hi). rewrite Hp, Hi.
      solve_Permutation.
    + apply (Forall_zinsert (λ class l, Forall (typed (c_mem c) class) l)); [lia|done|done].
    + by rewrite Hpe.
    + by rewrite Hke.
Qed.

(** ** The per-cpu lists *)

Lemma cell_index_mod cpu class : 0 ≤ class < NUM_SIZE_CLASSES → cell_index cpu class mod NUM_SIZE_CLASSES = class.
Proof.
  intros Hc. unfold cell_index. rewrite Z.add_comm, Z.mod_add by done. by apply Z.mod_small.
Qed.

(** A chain moves from the rest to the list of a cpu. *)
Lemma slab_push_global am c live As ls gs ws rest class h t :
  slab_inv c live As ls gs (ws ++ rest) →
  valid_cell (c_icc c) (unwrap_or_0 (get_cpu_id (am_push_cpu am))) class →
  head ws = Some h → last ws = Some t → linked (c_mem c) 0 ws → Forall (typed (c_mem c) class) ws →
  ∃ m' icc' gs', call_push_to_global st am c class h t (zlen ws) =
      Ret (with_global c m' icc' (c_kernel c)) ∧
    slab_inv (with_global c m' icc' (c_kernel c)) live As ls gs' rest ∧
    only_links (c_mem c) m' ws ∧ icc_ncpu icc' = icc_ncpu (c_icc c).
Proof.
  intros Hinv Hv Hh Ht Hl Hty. pose proof (proj2 Hv) as Hc.
  assert (ws ⊆ ws ++ rest) as Hsub by (intros x Hx; apply elem_of_app; by left).
  assert (ws ⊆ heap_blocks As) as Hws by (intros x Hx; eapply slab_rest; eauto).
  destruct (slab_blocks_ok _ _ _ _ _ _ _ Hinv Hws) as [_ Hok].
  pose proof (slab_separated _ _ _ _ _ _ Hinv) as Hsep.
  assert (separated (ws ++ concat gs)) as Hsep'.
  { assert (concat ls ++ concat gs ++ ws ++ rest ≡ₚ (ws ++ concat gs) ++ (concat ls ++ rest)) as Hp
      by solve_Permutation. rewrite Hp in Hsep. by apply separated_app in Hsep as [? _]. }
  destruct (push_to_global_ok (NUMA_KEY st) (am_buf am) (c_mem c) (c_icc c) gs class ws h t
    (am_push_cpu am) (am_spurious am) (c_kernel c)) as (m' & icc' & l & Hpush & Hlk & Hrep & Ho & Hn);
    try done; [apply (si_numa _ _ _ _ _ _ Hinv)|apply Hinv|].
  unfold call_push_to_global. rewrite Hpush, bind_ret. eexists m', icc', _. split; [done|].
  split; [|done].
  pose proof (slab_links _ _ _ _ _ _ _ ws Hinv Ho Hsub) as [Q1 Q2 Q3 Q4 Q5 Q6 Q7 Q8 Q9 Q10 Q11].
  cbn in *. split; cbn; try done.
  - rewrite Q6. by apply perm_push_g.
  - apply (Forall_zinsert (λ i l, Forall (typed m' (i mod NUM_SIZE_CLASSES)) l)); [|  |done].
    + pose proof (zlookup_Some_lt _ _ _ Hlk). lia.
    + rewrite cell_index_mod by done. apply Forall_app. split.
      * eapply typed_links_all; done.
      * pose proof (Q8 _ _ Hlk) as Hty'. by rewrite cell_index_mod in Hty'.
Qed.

(** A batch moves from the list of a cpu to the rest, as a plain chain. *)
Lemma slab_pop_global am c live As ls gs rest class batch :
  slab_inv c live As ls gs rest → 1 ≤ batch →
  valid_cell (c_icc c) (unwrap_or_0 (get_cpu_id (am_pop_cpu am))) class →
  pop_from_global (NUMA_KEY st) (am_buf am) (c_mem c) (c_icc c) class batch (am_pop_cpu am) (c_kernel c) =
    Ret (0, c_mem c, c_icc c, c_kernel c) ∨
  ∃ h ws m' icc' gs',
    pop_from_global (NUMA_KEY st) (am_buf am) (c_mem c) (c_icc c) class batch (am_pop_cpu am) (c_kernel c) =
      Ret (h, m', icc', c_kernel c) ∧
    0 < h ∧ head ws = Some h ∧ zlen ws ≤ batch ∧ enc_list m' 0 h ws ∧ Forall (typed m' class) ws ∧
    slab_inv (with_global c m' icc' (c_kernel c)) live As ls gs' (ws ++ rest) ∧
    only_links (c_mem c) m' ws ∧ icc_ncpu icc' = icc_ncpu (c_icc c).
Proof.
  intros Hinv Hb Hv. pose proof Hinv as [Q1 Q2 Q3 Q4 Q5 Q6 Q7 Q8 Q9 Q10 Q11].
  pose proof (try_pop_ok (NUMA_KEY st) (am_buf am) (c_mem c) (c_icc c) gs class batch (am_pop_cpu am)
    (c_kernel c) (proj1 Q11) Q5 Hv Hb) as Hp.
  unfold pop_result in Hp. unfold pop_from_global. destruct (List.find _ _) as [cpu|]; [right|by left].
  destruct Hp as (l & h & m' & icc' & Hl & Hh & -> & Hch & Hrep & Ho & Hn).
  set (ws := take (Z.to_nat batch) l) in *.
  assert (ws ⊆ l) as Hwl by (intros x Hx; eapply subseteq_take; eauto).
  assert (l ⊆ heap_blocks As) as Hlh by eauto using zlookup_heap.
  assert (ws ⊆ heap_blocks As) as Hwh by (intros x Hx; auto).
  destruct (concat_zinsert_perm _ _ _ Hl) as (r & Hr & Hi).
  assert (head ws = Some h) as Hhw.
  { unfold ws. destruct l as [|x l']; [done|]. replace (Z.to_nat batch) with (S (Z.to_nat (batch - 1))) by lia. done. }
  pose proof (proj2 Hv) as Hc.
  assert (Forall (typed m' class) l) as Hty.
  { pose proof (Q8 _ _ Hl) as Hty. rewrite cell_index_mod in Hty by done. eapply typed_links_all; done. }
  exists h, ws, m', icc', (zinsert gs (cell_index cpu class) (drop (Z.to_nat batch) l)).
  split; [done|]. split; [|split; [done|]].
  { destruct (slab_block _ _ _ _ _ _ h Hinv) as [? _]; [|lia]. apply Hwh. by apply head_Some_elem_of. }
  split; [unfold ws, zlen; rewrite length_take; lia|]. split; [done|].
  split; [rewrite Forall_forall in Hty |- *; auto|]. split; [|done].
  pose proof (slab_separated _ _ _ _ _ _ Hinv) as Hsep.
  assert (Forall (λ x, Forall (apart x) ws) (concat ls)) as Hap.
  { apply separated_apart. rewrite Hr in Hsep.
    assert (concat ls ++ (l ++ r) ++ rest ≡ₚ (ws ++ concat ls) ++ (drop (Z.to_nat batch) l ++ r ++ rest)) as Hpm.
    { rewrite <- (take_drop (Z.to_nat batch) l) at 1. fold ws. solve_Permutation. }
    rewrite Hpm in Hsep. by apply separated_app in Hsep as [? _]. }
  split; cbn; try done.
  - by eapply arenas_ok_links.
  - by eapply engine_rep_frame_apart.
  - rewrite Q6, Hr, Hi. rewrite <- (take_drop (Z.to_nat batch) l) at 1. fold ws. solve_Permutation.
  - intros cl l' Hl'. eapply typed_links_all; eauto using zlookup_heap.
  - apply (Forall_zinsert (λ i l, Forall (typed m' (i mod NUM_SIZE_CLASSES)) l)).
    + pose proof (zlookup_Some_lt _ _ _ Hl). lia.
    + rewrite cell_index_mod by done. by apply Forall_drop.
    + intros i l' Hl'. eapply typed_links_all; eauto using zlookup_heap.
Qed.
End Inv.
