(* ===== verification/SlabFill.v ===== *)
(** * Filling a class keeps the invariant of the slab

    [bulk_fill] and [drain_pending] add blocks to the heap, in an arena that is
    pending or in a fresh one, and leave every block that is in use alone. *)

From S2P Require Import Prelude Bits Lib Rng Segment Sys Radix SizeClass VaMap VaMapSpec VaLive.
From S2P Require Import Mem BlockList ThreadLocal Interconnect InterconnectSpec Bulk BulkSpec SlabInv SlabOps.

Section Fill.
Context `{Config}.
Context {K : Type} `{LinuxKernel K}.
Context (st : Statics) (Hst : statics_ok st).

(** The invariant when only arenas and the address map changed. *)
Lemma slab_remap c c' live live' As As' ls gs rest rest' :
  slab_inv st c live As ls gs rest →
  live_inv (c_kernel c') (c_va c') live' → ar_ok (c_rng c') → arenas_ok (c_mem c') live' As' →
  c_engine c' = c_engine c → c_icc c' = c_icc c →
  (∀ f h, h ∈ concat ls ++ concat gs → hget f (c_mem c') h = hget f (c_mem c) h) →
  heap_blocks As' ≡ₚ concat ls ++ concat gs ++ rest' → grown As As' →
  slab_inv st c' live' As' ls gs rest'.
Proof.
  intros Hinv Hl Hr Ha He Hi Hf Hb Hex. pose proof Hinv as [Q1 Q2 Q3 Q4 Q5 Q6 Q7 Q8 Q9 Q10 Q11].
  assert (∀ class l, l ⊆ concat ls ++ concat gs → Forall (typed st (c_mem c) class) l →
    Forall (typed st (c_mem c') class) l) as Hty.
  { intros class l Hlh. rewrite !Forall_forall. intros Ht h Hh. destruct (Ht h Hh) as [T1 T2].
    unfold typed. by rewrite !Hf by auto. }
  split; try rewrite He; try rewrite Hi; try done.
  - eapply engine_rep_frame_next; [done|]. intros h Hh. apply Hf, elem_of_app. by left.
  - eapply icc_rep_frame_next; [done|]. intros h Hh. apply Hf, elem_of_app. by right.
  - intros class l Hlk. apply Hty; [|by apply Q7]. intros x Hx. apply elem_of_app. left.
    by eapply elem_of_concat_z.
  - intros i l Hlk. apply Hty; [|by apply Q8]. intros x Hx. apply elem_of_app. right.
    by eapply elem_of_concat_z.
  - destruct Q9 as [Hlen Hp]. split; [done|]. intros class p Hlk.
    destruct (Hp class p Hlk) as [?|(a & Hin & Hbase & Hcl)]; [by left|right].
    destruct (Hex a Hin) as (a' & Hin' & Hb' & Hc' & _).
    exists a'. split_and!; [done|congruence|congruence].
Qed.

(** Metadata and headers depend on the arena's range only. *)
Lemma arena_mem_range (k : K) va live m m' b :
  live_inv k va live → arena_in live b →
  (∀ x, ar_base b ≤ x < ar_base b + arena_size (ar_class b) → m' x = m x) → arena_mem m b → arena_mem m' b.
Proof.
  intros Hl Hb Ho [Hn He Hc].
  pose proof (co_bounds _ (class_ok_all _ (ai_class _ _ Hb))) as (_ & _ & _ & Hcb & _).
  pose proof (bsz_header _ (ai_class _ _ Hb)) as Hbs.
  assert (METADATA_SIZE ≤ arena_size (ar_class b)) as Hle by (unfold arena_size; nia).
  change METADATA_SIZE with 32 in Hle.
  assert (∀ i, 0 ≤ i → i + 8 ≤ 32 → load 8 m' (ar_base b + i) = load 8 m (ar_base b + i)) as Hmd.
  { intros i Hi Hi'. apply load_ext. intros x Hx. apply Ho. lia. }
  split.
  - unfold md_next_at in *. by rewrite Hmd.
  - unfold md_end_at in *. by rewrite Hmd.
  - revert Hc. rewrite !Forall_forall. intros Hc h Hh. rewrite <- (Hc h Hh).
    apply load_ext. intros x Hx. apply Ho. pose proof (field_inside FClass).
    pose proof (arena_block_range k va live Hl b h Hb Hh) as (Hr1 & Hr2 & _).
    unfold first_block in Hr1. change METADATA_SIZE with 32 in Hr1. pose proof (bsz_header _ (ai_class _ _ Hb)). lia.
Qed.

(** Writes inside the range of one arena do not concern the others. *)
Lemma arena_mem_frame (k : K) va live m m' a b :
  live_inv k va live → arena_in live a → arena_in live b → ar_base a ≠ ar_base b →
  (∀ x, x < ar_base a ∨ ar_base a + arena_size (ar_class a) ≤ x → m' x = m x) →
  arena_mem m b → arena_mem m' b.
Proof.
  intros Hl Ha Hb Hne Ho. apply (arena_mem_range k va live); [done..|]. intros x Hx. apply Ho.
  pose proof (arenas_apart k va live Hl a b Ha Hb Hne). lia.
Qed.

Definition grow_arena (a : arena) (n : Z) : arena := mkArena (ar_base a) (ar_class a) (ar_n a + Z.to_nat n).

Lemma heap_blocks_grow As i a n :
  As !! i = Some a →
  heap_blocks (<[i := grow_arena a n]> As) ≡ₚ heap_blocks As ++
    blocks_at (first_block a + Z.of_nat (ar_n a) * bsz (ar_class a)) (bsz (ar_class a)) (Z.to_nat n).
Proof.
  intros Hi. unfold heap_blocks. rewrite list_fmap_insert.
  destruct (concat_insert_perm (arena_blocks <$> As) i (arena_blocks a)) as (r & Hp & Hins).
  { by rewrite list_lookup_fmap, Hi. }
  rewrite Hins, Hp. unfold arena_blocks at 1. unfold grow_arena. cbn [ar_n ar_base ar_class].
  unfold first_block at 1. cbn [ar_base]. rewrite blocks_at_app.
  fold (first_block a). fold (arena_blocks a). solve_Permutation.
Qed.

Lemma bases_grow (As : list arena) (i : nat) a n :
  As !! i = Some a → ar_base <$> <[i := grow_arena a n]> As = ar_base <$> As.
Proof.
  intros Hi. rewrite list_fmap_insert. apply list_insert_id. by rewrite list_lookup_fmap, Hi.
Qed.

Lemma extends_grow live As i a n :
  As !! i = Some a → extends live live As (<[i := grow_arena a n]> As).
Proof.
  intros Hi. pose proof (bases_grow As i a n Hi) as Hb. split; [done| |].
  - intros b Hb'. apply list_elem_of_lookup in Hb' as [j Hj]. destruct (decide (i = j)) as [<-|Hne].
    + rewrite Hi in Hj. injection Hj as <-. exists (grow_arena a n). split; [|cbn; split_and!; [done..|lia]].
      apply list_elem_of_lookup. exists i. apply list_lookup_insert_eq. by eapply lookup_lt_Some.
    + exists b. split; [|done]. apply list_elem_of_lookup. exists j. by rewrite list_lookup_insert_ne.
  - rewrite Hb. by right.
Qed.

(** Where [init_blocks] writes: in the range of its arena, but in no block that exists. *)
Lemma init_frame_arena (k : K) va live (As : list arena) m m' a n :
  live_inv k va live → Forall (arena_in live) As → a ∈ As →
  NoDup (ar_base <$> As) → 0 ≤ n → Z.of_nat (ar_n a) + n ≤ class_blocks (ar_class a) →
  init_frame m m' (ar_base a)
    (blocks_at (first_block a + Z.of_nat (ar_n a) * bsz (ar_class a)) (bsz (ar_class a)) (Z.to_nat n)) →
  (∀ x, x < ar_base a ∨ ar_base a + arena_size (ar_class a) ≤ x → m' x = m x) ∧
  (∀ b h x, b ∈ As → h ∈ arena_blocks b → h ≤ x < h + bsz (ar_class b) → m' x = m x).
Proof.
  intros Hl Hin Ha Hnd Hn0 Hn Hfr. rewrite Forall_forall in Hin. pose proof (Hin a Ha) as Hai.
  pose proof (bsz_header _ (ai_class _ _ Hai)) as Hbs. assert (METADATA_SIZE = 32) as Hmd by done.
  assert (∀ h, h ∈ blocks_at (first_block a + Z.of_nat (ar_n a) * bsz (ar_class a)) (bsz (ar_class a)) (Z.to_nat n) →
    first_block a + Z.of_nat (ar_n a) * bsz (ar_class a) ≤ h ∧
    h + bsz (ar_class a) ≤ ar_base a + arena_size (ar_class a)) as Hnew.
  { intros h (i & Hi & ->)%elem_of_blocks_at. unfold first_block, arena_size. nia. }
  assert (0 ≤ Z.of_nat (ar_n a) * bsz (ar_class a)) as Hz by nia.
  assert (24 ≤ arena_size (ar_class a)) as Hsz.
  { unfold arena_size. pose proof (co_bounds _ (class_ok_all _ (ai_class _ _ Hai))) as (_ & _ & _ & Q4 & _). nia. }
  assert (∀ x, x < ar_base a ∨ ar_base a + arena_size (ar_class a) ≤ x → m' x = m x) as Hout.
  { intros x Hx. apply Hfr; [|lia]. intros h Hh. destruct (Hnew h Hh). unfold first_block in *. lia. }
  split; [done|]. intros b h x Hb Hh Hx. pose proof (Hin b Hb) as Hbi.
  pose proof (arena_block_range k va live Hl b h Hbi Hh) as (Hr1 & Hr2 & _). unfold first_block in Hr1.
  destruct (decide (ar_base a = ar_base b)) as [He|He].
  - assert (a = b) as <- by (by eapply arena_base_inj).
    apply elem_of_blocks_at in Hh as (i & Hi & ->). apply Hfr.
    + intros h' Hh'. destruct (Hnew h' Hh'). left. unfold first_block in *. nia.
    + unfold first_block in *. nia.
  - apply Hout. destruct (arenas_apart k va live Hl a b Hai Hbi He); lia.
Qed.

Lemma grow_arenas_ok (k : K) va live (As : list arena) m m' i a n :
  let base := first_block a + Z.of_nat (ar_n a) * bsz (ar_class a) in
  live_inv k va live → arenas_ok m live As → As !! i = Some a → 0 ≤ n →
  Z.of_nat (ar_n a) + n ≤ class_blocks (ar_class a) →
  md_next_at m' (ar_base a) = base + n * bsz (ar_class a) →
  Forall (λ h, hget FClass m' h = ar_class a) (blocks_at base (bsz (ar_class a)) (Z.to_nat n)) →
  init_frame m m' (ar_base a) (blocks_at base (bsz (ar_class a)) (Z.to_nat n)) →
  arenas_ok m' live (<[i := grow_arena a n]> As).
Proof.
  intros base Hl [Hin Hnd Hmem] Hi Hn0 Hn Hnx Hcls Hfr.
  assert (a ∈ As) as Ha by (apply list_elem_of_lookup; eauto).
  destruct (init_frame_arena k va live As m m' a n Hl Hin Ha Hnd Hn0 Hn Hfr) as [Hout Hkeep].
  rewrite Forall_forall in Hin, Hmem. pose proof (Hin a Ha) as Hai. destruct (Hmem a Ha) as [_ Hend Hold].
  assert (METADATA_SIZE = 32) as Hmd by done. pose proof (bsz_header _ (ai_class _ _ Hai)) as Hbs.
  split.
  - apply Forall_insert; [by apply Forall_forall|]. destruct Hai as [A1 A2 A3].
    split; cbn; [done|done|lia].
  - by rewrite bases_grow.
  - apply Forall_forall. intros b Hb. apply list_elem_of_lookup in Hb as [j Hj].
    destruct (decide (i = j)) as [<-|Hne].
    + rewrite list_lookup_insert_eq in Hj by (by eapply lookup_lt_Some). injection Hj as <-.
      split; unfold grow_arena; cbn [ar_base ar_class ar_n].
      * rewrite Hnx, Nat2Z.inj_add, Z2Nat.id by lia. unfold base, first_block. cbn [ar_base]. lia.
      * unfold md_end_at in *. rewrite <- Hend. apply load_ext. intros x Hx. apply Hfr; [|lia].
        intros h (j & Hj & ->)%elem_of_blocks_at. left. unfold base, first_block. nia.
      * unfold arena_blocks. unfold first_block at 1. cbn [ar_base ar_class ar_n]. rewrite blocks_at_app. fold (first_block a).
        fold base. apply Forall_app. split; [|done]. revert Hold. unfold arena_blocks.
        rewrite !Forall_forall. intros Hold h Hh. rewrite <- (Hold h Hh). apply load_ext. intros x Hx.
        apply (Hkeep a h); [done|done|]. pose proof (field_inside FClass). lia.
    + rewrite list_lookup_insert_ne in Hj by done.
      assert (b ∈ As) as Hb by (apply list_elem_of_lookup; eauto).
      apply (arena_mem_frame k va live m m' a b); try done; [by apply Hin| |by apply Hmem].
      intros He. apply Hne. apply (NoDup_lookup _ i j (ar_base a) Hnd); rewrite list_lookup_fmap.
      * by rewrite Hi.
      * rewrite Hj. cbn. by rewrite He.
Qed.

Lemma blocks_at_ends base bs n :
  1 ≤ n → let ws := blocks_at base bs (Z.to_nat n) in
  head ws = Some base ∧ last ws = Some (base + (n - 1) * bs) ∧ zlen ws = n.
Proof.
  intros Hn ws. unfold ws, zlen. rewrite length_blocks_at. assert (Z.to_nat n = S (Z.to_nat (n - 1))) as Hsn by lia.
  rewrite Hsn. split; [apply head_blocks_at|]. split; [by rewrite last_blocks_at, Z2Nat.id by lia|lia].
Qed.

(** The blocks that the arena has room for. *)
Lemma arena_left live a :
  arena_in live a → let base := first_block a + Z.of_nat (ar_n a) * bsz (ar_class a) in
  (ar_base a + arena_size (ar_class a) - base) / bsz (ar_class a) = class_blocks (ar_class a) - Z.of_nat (ar_n a).
Proof.
  intros Hai base. pose proof (bsz_header _ (ai_class _ _ Hai)) as Hbs.
  replace (ar_base a + arena_size (ar_class a) - base) with ((class_blocks (ar_class a) - Z.of_nat (ar_n a)) * bsz (ar_class a)).
  - apply Z.div_mul. lia.
  - unfold base, first_block, arena_size. lia.
Qed.

(** [init_blocks] on an arena of the heap: its next blocks join the rest, as a plain chain. *)
Lemma slab_init_blocks c live As ls gs rest i a limit :
  slab_inv st c live As ls gs rest → As !! i = Some a → 1 ≤ limit →
  let class := ar_class a in
  let n := Z.min (class_blocks class - Z.of_nat (ar_n a)) limit in
  let base := first_block a + Z.of_nat (ar_n a) * bsz class in
  (n = 0 ∧ init_blocks st (c_mem c) class (ar_base a) (bsz class) limit = Ret (c_mem c, 0, 0, 0)) ∨
  (1 ≤ n ∧ ∃ m' t ws, init_blocks st (c_mem c) class (ar_base a) (bsz class) limit = Ret (m', base, t, n) ∧
    head ws = Some base ∧ last ws = Some t ∧ zlen ws = n ∧ linked m' 0 ws ∧ hget FNext m' t = 0 ∧
    Forall (typed st m' class) ws ∧
    slab_inv st (with_mem c m') live (<[i := grow_arena a n]> As) ls gs (ws ++ rest) ∧
    frame (c_mem c) m' live As (heap_blocks As)).
Proof.
  intros Hinv Hi Hlim class n base. subst class.
  pose proof (si_live _ _ _ _ _ _ _ Hinv) as Hl. destruct (si_arenas _ _ _ _ _ _ _ Hinv) as [Hin Hnd Hmem].
  assert (a ∈ As) as Ha by (apply list_elem_of_lookup; eauto).
  rewrite Forall_forall in Hin, Hmem. pose proof (Hin a Ha) as Hai. pose proof (Hmem a Ha) as [Hnext Hend Hcls].
  pose proof (class_ok_all _ (ai_class _ _ Hai)) as Hco.
  destruct (co_bounds _ Hco) as (B1 & B2 & B3 & B4 & B5 & B6).
  destruct (live_range _ _ _ _ _ Hl (ai_live _ _ Hai)) as (R1 & R2 & R3 & R4).
  pose proof (bsz_header _ (ai_class _ _ Hai)) as Hbs. pose proof (ai_n _ _ Hai) as Hn.
  assert (METADATA_SIZE = 32) as Hmd by done. unfold first_block in *.
  pose proof (arena_left live a Hai : (ar_base a + arena_size (ar_class a) - base) / _ = _) as Hdiv.
  destruct (init_blocks_spec st (c_mem c) (ar_class a) (ar_base a) (bsz (ar_class a)) limit base (ar_base a + arena_size (ar_class a)))
    as [[Hz ->]|(Hpos & m' & -> & Hnx & Hlk & Hlast & Hfree & Hfr)]; try done.
  { pose proof (ai_class _ _ Hai). change NUM_SIZE_CLASSES with 34 in *. lia. }
  { lia. }
  { unfold base. clear Hdiv. nia. }
  { unfold usize_max, u64_max, base, arena_size in *. clear Hdiv. nia. }
  { left. rewrite Hdiv in Hz. done. }
  rewrite Hdiv in Hpos, Hnx, Hlk, Hlast, Hfree, Hfr |- *.
  fold n in Hpos, Hnx, Hlk, Hlast, Hfree, Hfr |- *. right. split; [done|].
  set (ws := blocks_at base (bsz (ar_class a)) (Z.to_nat n)) in Hlk, Hfree, Hfr |- *.
  destruct (init_frame_arena _ _ _ As (c_mem c) m' a n Hl) as [Hout Hkeep]; try done.
  { by apply Forall_forall. }
  { lia. }
  { unfold n. lia. }
  assert (∀ f h, h ∈ heap_blocks As → hget f m' h = hget f (c_mem c) h) as Hheap.
  { intros f h (b & Hb & Hh)%elem_of_heap_blocks. apply load_ext. intros x Hx.
    apply (Hkeep b h); [done|done|]. pose proof (field_inside f).
    pose proof (bsz_header _ (ai_class _ _ (Hin b Hb))). lia. }
  exists m', (base + (n - 1) * bsz (ar_class a)), ws. split; [done|].
  destruct (blocks_at_ends base (bsz (ar_class a)) n Hpos) as (Hhd & Htl & Hzl). fold ws in Hhd, Htl, Hzl.
  do 5 (split; [done|]). split.
  { eapply Forall_impl; [done|]. intros h (T1 & T2 & _). by split. }
  assert (arenas_ok m' live (<[i := grow_arena a n]> As)) as Hok'.
  { apply (grow_arenas_ok (c_kernel c) (c_va c) live As (c_mem c) m' i a n); try done;
      [apply Hinv|lia|unfold n; lia|].
    eapply Forall_impl; [done|]. by intros h (T1 & _). }
  split.
  - apply (slab_remap c (with_mem c m') live live As _ ls gs rest); try done.
    + apply Hinv.
    + intros f h Hh. apply Hheap. by eapply slab_lists.
    + rewrite (heap_blocks_grow As i a n Hi), (si_blocks _ _ _ _ _ _ _ Hinv). fold base ws. solve_Permutation.
    + eapply ex_grow, (extends_grow live As); done.
  - split; [intros b h x Hb Hh _ Hx; by apply (Hkeep b h)|].
    intros b s x Hb Hnb Hx. apply Hout.
    assert (b ≠ ar_base a) as Hne by (intros ->; apply Hnb; by apply list_elem_of_fmap_2).
    destruct (lv_disjoint _ _ _ Hl _ _ _ _ Hb (ai_live _ _ Hai) Hne); lia.
Qed.

(** ** A new arena *)

Lemma write_metadata_outside m p md x : x < p ∨ p + 24 ≤ x → write_metadata m p md x = m x.
Proof. intros Hx. unfold write_metadata. rewrite !store_outside by (cbn; lia). done. Qed.

Lemma write_metadata_end m p md : word64 (Lib.md_end md) → md_end_at (write_metadata m p md) p = Lib.md_end md.
Proof.
  intros Hw. unfold md_end_at, write_metadata. rewrite load_store_ne by lia. by apply load8_store8.
Qed.

Lemma write_metadata_next m p md : word64 (Lib.md_next md) → md_next_at (write_metadata m p md) p = Lib.md_next md.
Proof. intros Hw. unfold md_next_at, write_metadata. by apply load8_store8. Qed.

(** The memory after [bulk_fill] mapped an arena and wrote its metadata. *)
Definition arena_memory (m : mem) (p class : Z) : mem :=
  write_metadata (zero_fill m p (page_round (arena_size class))) p
    (mkMetaData p (p + arena_size class) (p + METADATA_SIZE)).

Lemma arena_memory_outside m p class x :
  0 ≤ class < NUM_SIZE_CLASSES →
  x < p ∨ p + blocks_bytes (arena_size class) ≤ x → arena_memory m p class x = m x.
Proof.
  intros Hc Hx. change (blocks_bytes (arena_size class)) with (page_round (arena_size class)) in Hx.
  pose proof (co_bounds _ (class_ok_all _ Hc)) as (_ & _ & _ & Q4 & _). pose proof (bsz_header _ Hc).
  assert (32 ≤ arena_size class) as Hsz by (unfold arena_size; change METADATA_SIZE with 32; nia).
  pose proof (round_up_spec (arena_size class) 4096 ltac:(lia)) as [Hr _]. unfold page_round in *.
  unfold arena_memory. rewrite write_metadata_outside by lia. unfold zero_fill, page_round.
  destruct (Z.leb_spec p x), (Z.ltb_spec x (p + round_up (arena_size class) 4096)); cbn; try done; lia.
Qed.

(** The arenas that there are, and a new one whose metadata are in memory. *)
Lemma new_arenas_ok (k : K) va live As m m' p class :
  live_inv k va live → arenas_ok m live As → 0 ≤ class < NUM_SIZE_CLASSES → live !! p = None →
  (∀ b x, b ∈ As → ar_base b ≤ x < ar_base b + arena_size (ar_class b) → m' x = m x) →
  md_next_at m' p = p + METADATA_SIZE → md_end_at m' p = p + arena_size class →
  arenas_ok m' (<[p := arena_size class]> live) (As ++ [mkArena p class 0]).
Proof.
  intros Hl [Hin Hnd Hmem] Hc Hp Hoa Hnx He. rewrite Forall_forall in Hin, Hmem. assert (METADATA_SIZE = 32) as Hmd by done.
  pose proof (co_bounds _ (class_ok_all _ Hc)) as (_ & _ & _ & Q4 & _). pose proof (bsz_header _ Hc) as Hbs. split.
  - apply Forall_app. split; [|apply Forall_singleton; split; cbn; [apply lookup_insert_eq|done|lia]].
    apply Forall_forall. intros b Hb. destruct (Hin b Hb) as [B1 B2 B3]. split; [|done|done].
    rewrite lookup_insert_ne; [done|]. intros ->. congruence.
  - rewrite fmap_app. apply NoDup_app. split; [done|]. split; [|apply NoDup_singleton].
    intros b Hb ->%list_elem_of_singleton. apply list_elem_of_fmap in Hb as (d & Hd & Hda).
    pose proof (ai_live _ _ (Hin d Hda)). cbn in Hd. congruence.
  - apply Forall_app. split; [|apply Forall_singleton; split; unfold first_block; cbn [ar_base ar_class ar_n]; [lia|done|constructor]].
    apply Forall_forall. intros b Hb. apply (arena_mem_range k va live m m' b Hl (Hin b Hb)); [|by apply Hmem].
    intros x Hx. by apply (Hoa b).
Qed.

(** The live ranges keep their bytes when an arena is put in a new range. *)
Lemma arena_memory_keeps (k : K) va live m p class b s x :
  live_inv k va (<[p := arena_size class]> live) → 0 ≤ class < NUM_SIZE_CLASSES → live !! p = None →
  live !! b = Some s → b ≤ x < b + blocks_bytes s → arena_memory m p class x = m x.
Proof.
  intros Hl Hc Hp Hb Hx. assert (b ≠ p) as Hne by (intros ->; congruence).
  apply arena_memory_outside; [done|].
  assert (<[p := arena_size class]> live !! b = Some s) as Hb' by (by rewrite lookup_insert_ne by congruence).
  destruct (lv_disjoint _ _ _ Hl _ _ _ _ Hb' (lookup_insert_eq _ _ _) Hne); lia.
Qed.

Lemma slab_new_arena c live As ls gs rest p class va' rng' (k' : K) :
  slab_inv st c live As ls gs rest → 0 ≤ class < NUM_SIZE_CLASSES → live !! p = None →
  live_inv k' va' (<[p := arena_size class]> live) → ar_ok rng' →
  let live' := <[p := arena_size class]> live in
  let As' := As ++ [mkArena p class 0] in
  let m' := arena_memory (c_mem c) p class in
  slab_inv st (mkCall m' (c_icc c) va' (c_engine c) rng' k') live' As' ls gs rest ∧
  extends live live' As As' ∧ frame (c_mem c) m' live As (heap_blocks As).
Proof.
  intros Hinv Hc Hp Hl' Hr live' As' m'.
  pose proof (si_live _ _ _ _ _ _ _ Hinv) as Hl. pose proof (si_arenas _ _ _ _ _ _ _ Hinv) as Har. pose proof (ao_in _ _ _ Har) as Hin.
  rewrite Forall_forall in Hin.
  assert (live' !! p = Some (arena_size class)) as Hlp by apply lookup_insert_eq.
  destruct (live_range _ _ _ _ _ Hl' Hlp) as (R1 & R2 & R3 & R4).
  assert (∀ b s x, live !! b = Some s → b ≤ x < b + blocks_bytes s → m' x = (c_mem c) x) as Hold.
  { intros b s x Hb Hx. by eapply arena_memory_keeps. }
  assert (∀ b x, b ∈ As → ar_base b ≤ x < ar_base b + arena_size (ar_class b) → m' x = (c_mem c) x) as Hoa.
  { intros b x Hb Hx. pose proof (ai_live _ _ (Hin b Hb)) as Hbl.
    apply (Hold _ _ x Hbl). destruct (live_range _ _ _ _ _ Hl Hbl) as (_ & _ & ? & _). lia. }
  assert (∀ b h x, b ∈ As → h ∈ arena_blocks b → h ≤ x < h + bsz (ar_class b) → m' x = (c_mem c) x) as Hkeep.
  { intros b h x Hb Hh Hx. apply (Hoa b x Hb).
    pose proof (arena_block_range _ _ _ Hl b h (Hin b Hb) Hh) as (B1 & B2 & _). unfold first_block in B1.
    change METADATA_SIZE with 32 in B1. lia. }
  assert (extends live live' As As') as Hex.
  { split; [by apply insert_subseteq| |].
    - intros b Hb. exists b. split; [apply elem_of_app; by left|done].
    - intros b. unfold As'. rewrite fmap_app, elem_of_app. cbn. rewrite list_elem_of_singleton.
      intros [?| ->]; auto. }
  assert (arenas_ok m' live' As') as Hok'.
  { apply (new_arenas_ok (c_kernel c) (c_va c) live As (c_mem c)); try done; unfold m', arena_memory.
    - rewrite write_metadata_next; cbn [Lib.md_next]; [done|unfold word64; change METADATA_SIZE with 32; lia].
    - rewrite write_metadata_end; cbn [Lib.md_end]; [done|unfold word64; lia]. }
  split; [|split; [done|]].
  - apply (slab_remap c _ live live' As As' ls gs rest); try done.
    + intros f h (b & Hb & Hh)%(slab_lists _ _ _ _ _ _ _ _ Hinv)%elem_of_heap_blocks. apply load_ext.
      intros x Hx. apply (Hkeep b h); [done|done|]. pose proof (field_inside f). pose proof (bsz_header _ (ai_class _ _ (Hin b Hb))). lia.
    + rewrite <- (si_blocks _ _ _ _ _ _ _ Hinv). unfold heap_blocks, As'. rewrite fmap_app, concat_app. cbn.
      by rewrite app_nil_r.
    + by eapply ex_grow.
  - split; [intros; by eapply Hkeep|intros; by eapply Hold].
Qed.

(** ** [bulk_fill] *)

(** The outcome of a step of a call: the invariant again, with the same rest, which the step
    left alone. *)
Definition call_ok (c : Call K) (live : gmap Z Z) (As : list arena) (rest : list Z) (c' : Call K)
    (ls' gs' : list (list Z)) : Prop :=
  ∃ live' As', slab_inv st c' live' As' ls' gs' rest ∧ extends live live' As As' ∧
    frame (c_mem c) (c_mem c') live As rest ∧ icc_ncpu (c_icc c') = icc_ncpu (c_icc c).

Lemma call_ok_refl c live As ls gs rest : slab_inv st c live As ls gs rest → call_ok c live As rest c ls gs.
Proof. intros Hinv. exists live, As. split_and!; [done|apply extends_refl|apply frame_refl|done]. Qed.

(** Steps compose. *)
Lemma call_ok_step c c1 c2 live live1 As As1 rest ls gs :
  extends live live1 As As1 → frame (c_mem c) (c_mem c1) live As rest →
  icc_ncpu (c_icc c1) = icc_ncpu (c_icc c) → call_ok c1 live1 As1 rest c2 ls gs →
  call_ok c live As rest c2 ls gs.
Proof.
  intros He Hf Hn (live2 & As2 & Hinv & He2 & Hf2 & Hn2). exists live2, As2.
  split_and!; [done|by eapply extends_trans|by eapply frame_trans|congruence].
Qed.

Lemma slab_disjoint c live As ls gs ws rest h :
  slab_inv st c live As ls gs (ws ++ rest) → h ∈ rest → h ∈ ws → False.
Proof.
  intros Hinv Hr Hw. pose proof (slab_separated st _ _ _ _ _ _ Hinv) as Hsep%separated_NoDup.
  rewrite !NoDup_app in Hsep. naive_solver.
Qed.

Lemma rest_heap c live As ls gs rest : slab_inv st c live As ls gs rest → rest ⊆ heap_blocks As.
Proof. intros Hinv h Hh. by eapply slab_rest. Qed.

Lemma remaining_blocks_total m p bs : bs ≠ 0 → ∃ r, remaining_blocks m p bs = Ret r.
Proof. intros Hbs. unfold remaining_blocks. rewrite udiv_ok by done. eauto. Qed.

Lemma slab_set_pending c live As ls gs rest class p :
  slab_inv st c live As ls gs rest → 0 ≤ class < NUM_SIZE_CLASSES →
  p = 0 ∨ (∃ a, a ∈ As ∧ ar_base a = p ∧ ar_class a = class) →
  ∃ c', call_set_pending c class p = Ret c' ∧ slab_inv st c' live As ls gs rest ∧
    c_mem c' = c_mem c ∧ c_icc c' = c_icc c.
Proof.
  intros [Q1 Q2 Q3 Q4 Q5 Q6 Q7 Q8 [Q9 Q9'] Q10 Q11] Hc Hp. unfold call_set_pending.
  rewrite vset_ok, bind_ret by lia. eexists. split; [done|]. split; [|done].
  split; cbn; try done.
  - destruct Q4. by split.
  - split; [by rewrite zlen_zinsert|].
    apply (Forall_zinsert (λ class p, p = 0 ∨ ∃ a, a ∈ As ∧ ar_base a = p ∧ ar_class a = class)); [lia|done|done].
Qed.

Lemma call_set_pending_ok c live As ls gs rest class p :
  slab_inv st c live As ls gs rest → 0 ≤ class < NUM_SIZE_CLASSES →
  p = 0 ∨ (∃ a, a ∈ As ∧ ar_base a = p ∧ ar_class a = class) →
  ∃ c', call_set_pending c class p = Ret c' ∧ call_ok c live As rest c' ls gs.
Proof.
  intros Hinv Hc Hp. destruct (slab_set_pending _ _ _ _ _ _ _ _ Hinv Hc Hp) as (c' & -> & Hinv' & Hm & Hi).
  exists c'. split; [done|]. exists live, As. rewrite Hm, Hi.
  split_and!; [done|apply extends_refl|apply frame_refl|done].
Qed.

(** A chain of the rest is pushed to the cache. *)
Lemma call_push_tailed_ok c live As ls gs ws rest class h t :
  slab_inv st c live As ls gs (ws ++ rest) → 0 ≤ class < NUM_SIZE_CLASSES →
  head ws = Some h → last ws = Some t → linked (c_mem c) 0 ws → Forall (typed st (c_mem c) class) ws →
  ∃ c' l, call_push_tailed c class h t (zlen ws) = Ret c' ∧ zlookup ls class = Some l ∧
    slab_inv st c' live As (zinsert ls class (ws ++ l)) gs rest ∧ frame (c_mem c) (c_mem c') live As rest ∧
    c_icc c' = c_icc c ∧ c_kernel c' = c_kernel c ∧ pending (c_engine c') = pending (c_engine c).
Proof.
  intros Hinv Hc Hh Ht Hl Hty.
  destruct (slab_push_tailed st _ _ _ _ _ _ _ _ _ _ Hinv Hc Hh Ht Hl Hty)
    as (m' & e' & l & -> & Hlk & Hinv' & Ho & Hpe).
  eexists _, l. split; [done|]. split; [done|]. split; [done|]. split; [|done].
  eapply (frame_links (c_kernel c) (c_va c)); [apply Hinv|apply Hinv|done| |].
  - intros x Hx. apply (slab_rest st _ _ _ _ _ _ x Hinv). apply elem_of_app. by left.
  - intros x Hr Hw. by apply (slab_disjoint _ _ _ _ _ _ _ x Hinv).
Qed.

(** [init_blocks] in a call. *)
Lemma call_init_ok c live As ls gs rest a limit :
  slab_inv st c live As ls gs rest → a ∈ As → 1 ≤ limit →
  init_blocks st (c_mem c) (ar_class a) (ar_base a) (bsz (ar_class a)) limit = Ret (c_mem c, 0, 0, 0) ∨
  ∃ m' h t ws As', init_blocks st (c_mem c) (ar_class a) (ar_base a) (bsz (ar_class a)) limit =
      Ret (m', h, t, zlen ws) ∧ 1 ≤ zlen ws ∧
    head ws = Some h ∧ last ws = Some t ∧ linked m' 0 ws ∧ Forall (typed st m' (ar_class a)) ws ∧
    slab_inv st (with_mem c m') live As' ls gs (ws ++ rest) ∧ extends live live As As' ∧
    frame (c_mem c) m' live As rest.
Proof.
  intros Hinv [i Hi]%list_elem_of_lookup Hlim.
  destruct (slab_init_blocks _ _ _ _ _ _ _ _ _ Hinv Hi Hlim)
    as [[_ ->]|(Hn & m' & t & ws & Hinit & Hh & Ht & Hz & Hl & _ & Hty & Hinv' & Hf)]; [by left|right].
  eexists m', _, t, ws, _. split; [rewrite Hinit, Hz; done|]. split; [lia|]. split; [done|].
  split; [done|]. split; [done|]. split; [done|]. split; [done|].
  split; [by apply extends_grow|]. eapply frame_mono; [|done]. by eapply rest_heap.
Qed.

Lemma fill_from_pending_ok c live As ls gs rest class limit :
  slab_inv st c live As ls gs rest → 0 ≤ class < NUM_SIZE_CLASSES → 1 ≤ limit →
  ∃ r c' ls', fill_from_pending st c class (bsz class) limit = Ret r ∧
    (r = inl c' ∧ (∃ h l, zlookup ls' class = Some (h :: l)) ∨ r = inr c' ∧ ls' = ls) ∧
    call_ok c live As rest c' ls' gs.
Proof.
  intros Hinv Hc Hlim. unfold fill_from_pending.
  destruct (si_pending _ _ _ _ _ _ _ Hinv) as [Hlen Hpend].
  destruct (zlookup_lt (pending (c_engine c)) class) as [p Hp]; [lia|].
  rewrite (vget_ok _ _ _ Hp), bind_ret. destruct (Z.eqb_spec p 0) as [->|Hp0].
  { exists (inr c), c, ls. split; [done|]. split; [by right|]. by apply (call_ok_refl c live As ls gs). }
  destruct (Hpend class p Hp) as [?|(a & Ha & <- & <-)]; [done|].
  pose proof (co_bounds _ (class_ok_all _ Hc)) as (_ & _ & _ & _ & _ & ->). pose proof (bsz_header _ Hc) as Hbs.
  destruct (call_init_ok _ _ _ _ _ _ a limit Hinv Ha Hlim)
    as [->|(m' & h & t & ws & As' & -> & Hz & Hh & Ht & Hl & Hty & Hinv1 & He1 & Hf1)].
  - rewrite bind_ret. change (0 <? 0) with false. cbn iota.
    destruct (call_set_pending_ok (with_mem c (c_mem c)) live As ls gs rest (ar_class a) 0) as (c' & -> & Hok);
      [by destruct c|done|by left|].
    rewrite bind_ret. exists (inr c'), c', ls. split; [done|]. split; [by right|]. by destruct c.
  - rewrite bind_ret. rewrite (proj2 (Z.ltb_lt 0 (zlen ws))) by lia.
    destruct (call_push_tailed_ok (with_mem c m') live As' ls gs ws rest (ar_class a) h t)
      as (c2 & l & -> & Hlk & Hinv2 & Hf2 & Hi2 & _ & _); try done.
    rewrite bind_ret. destruct (remaining_blocks_total (c_mem c2) (ar_base a) (bsz (ar_class a))) as [r ->]; [lia|].
    rewrite bind_ret.
    assert (∃ c3, (if r =? 0 then call_set_pending c2 (ar_class a) 0 else Ret c2) = Ret c3 ∧
      call_ok c2 live As' rest c3 (zinsert ls (ar_class a) (ws ++ l)) gs) as (c3 & -> & Hok3).
    { destruct (r =? 0); [apply call_set_pending_ok; try done; by left|].
      exists c2. split; [done|]. by apply call_ok_refl. }
    rewrite bind_ret. exists (inl c3), c3, (zinsert ls (ar_class a) (ws ++ l)). split; [done|]. split.
    { left. split; [done|]. destruct ws as [|x ws]; [done|].
      exists x, (ws ++ l). apply zlookup_zinsert_eq. by eapply zlookup_Some_lt. }
    apply (call_ok_step c (with_mem c m') c3 live live As As'); try done.
    apply (call_ok_step (with_mem c m') c2 c3 live live As' As'); try done; [apply extends_refl|].
    by rewrite Hi2.
Qed.

(** The cpu that a push goes to exists. *)
Definition push_cpu_ok (am : Ambient) (c : Call K) : Prop :=
  0 ≤ unwrap_or_0 (get_cpu_id (am_push_cpu am)) < icc_ncpu (c_icc c).

(** The bin of a class counts its list. *)
Lemma slab_usage c live As ls gs rest class :
  slab_inv st c live As ls gs rest → 0 ≤ class < NUM_SIZE_CLASSES →
  ∃ b l, vget (tls (c_engine c)) class = Ret b ∧ zlookup ls class = Some l ∧ bin_usage b = zlen l.
Proof.
  intros Hinv Hc. destruct (engine_rep_bin _ _ _ class (si_engine _ _ _ _ _ _ _ Hinv) Hc)
    as (b & l & Hb & Hl & _ & Hu).
  exists b, l. split; [by apply vget_ok|done].
Qed.

Lemma fill_new_arena_ok am c live As ls gs rest a limit :
  slab_inv st c live As ls gs rest → a ∈ As → 1 ≤ limit → push_cpu_ok am c →
  ∃ r c' ls' gs', fill_new_arena st am c (ar_class a) (ar_base a) (bsz (ar_class a)) limit = Ret (r, c') ∧
    call_ok c live As rest c' ls' gs' ∧
    (r = Ok () → zlookup ls (ar_class a) = Some [] → ∃ h l, zlookup ls' (ar_class a) = Some (h :: l)).
Proof.
  intros Hinv Ha Hlim Hcpu. destruct (si_arenas _ _ _ _ _ _ _ Hinv) as [Hin _ _].
  rewrite Forall_forall in Hin. pose proof (ai_class _ _ (Hin a Ha)) as Hc.
  pose proof (class_ok_all _ Hc) as Hco. pose proof (co_bounds _ Hco) as (_ & _ & _ & _ & _ & Hw).
  pose proof (bsz_header _ Hc) as Hbs. unfold fill_new_arena. rewrite Hw.
  destruct (call_init_ok _ _ _ _ _ _ a limit Hinv Ha Hlim)
    as [->|(m' & h & t & ws & As' & -> & Hz & Hh & Ht & Hl & Hty & Hinv1 & He1 & Hf1)].
  { rewrite bind_ret. cbn [Z.eqb]. eexists _, _, ls, gs. split; [done|]. split; [|done].
    destruct c. by apply (call_ok_refl _ live As ls gs). }
  rewrite bind_ret, (proj2 (Z.eqb_neq (zlen ws) 0)) by lia.
  destruct (slab_usage _ _ _ _ _ _ (ar_class a) Hinv1 Hc) as (b & l & -> & Hlk & Hu).
  rewrite bind_ret. destruct (co_limit _ Hco) as (lims & n & -> & Hn & Hn1). rewrite bind_ret, Hn, bind_ret, Hu.
  assert (ar_base a ≠ 0) as Hne0.
  { destruct (live_range _ _ _ _ _ (si_live _ _ _ _ _ _ _ Hinv) (ai_live _ _ (Hin a Ha))). lia. }
  assert (∃ c2 ls' gs', (if n <=? zlen l then call_push_to_global st am (with_mem c m') (ar_class a) h t (zlen ws)
      else call_push_tailed (with_mem c m') (ar_class a) h t (zlen ws)) = Ret c2 ∧
    slab_inv st c2 live As' ls' gs' rest ∧ frame m' (c_mem c2) live As' rest ∧
    icc_ncpu (c_icc c2) = icc_ncpu (c_icc c) ∧
    (l = [] → ∃ h l, zlookup ls' (ar_class a) = Some (h :: l))) as (c2 & ls' & gs' & -> & Hinv2 & Hf2 & Hn2 & Hls).
  { case_zb.
    - destruct (slab_push_global st am (with_mem c m') live As' ls gs ws rest (ar_class a) h t)
        as (m2 & icc2 & gs2 & -> & Hinv2 & Ho2 & Hn2); try done.
      eexists _, ls, gs2. split; [done|]. split; [done|]. split; [|split; [done|]].
      + eapply (frame_links (c_kernel c) (c_va c)); [apply Hinv|apply Hinv1|done| |].
        * intros x Hx. apply (slab_rest st _ _ _ _ _ _ x Hinv1). apply elem_of_app. by left.
        * intros x Hr Hx. by apply (slab_disjoint _ _ _ _ _ _ _ x Hinv1).
      + intros ->. change (zlen []) with 0 in *. lia.
    - destruct (call_push_tailed_ok (with_mem c m') live As' ls gs ws rest (ar_class a) h t)
        as (c2 & l2 & -> & Hlk2 & Hinv2 & Hf2 & Hi2 & _ & _); try done.
      eexists _, _, gs. split; [done|]. split; [done|]. split; [done|]. split; [by rewrite Hi2|].
      intros _. destruct ws as [|x ws]; [done|]. exists x, (ws ++ l2).
      apply zlookup_zinsert_eq. by eapply zlookup_Some_lt. }
  rewrite bind_ret. destruct (remaining_blocks_total (c_mem c2) (ar_base a) (bsz (ar_class a))) as [r ->]; [lia|].
  rewrite bind_ret.
  assert (∃ c3, (if 0 <? r then call_set_pending c2 (ar_class a) (ar_base a) else Ret c2) = Ret c3 ∧
    call_ok c2 live As' rest c3 ls' gs') as (c3 & -> & Hok3).
  { destruct (0 <? r).
    - apply call_set_pending_ok; try done. right.
      destruct (ex_grow _ _ _ _ He1 a Ha) as (a' & Ha' & Hb' & Hc' & _). by exists a'.
    - exists c2. split; [done|]. by apply call_ok_refl. }
  rewrite bind_ret. exists (Ok ()), c3, ls', gs'. split; [done|]. split.
  - apply (call_ok_step c (with_mem c m') c3 live live As As'); try done.
    apply (call_ok_step (with_mem c m') c2 c3 live live As' As'); try done. apply extends_refl.
  - intros _ Hl0. apply Hls. congruence.
Qed.

(** What a filling step can be: a result, or one of the documented ends of the process. *)
Definition fill_post (c : Call K) (live : gmap Z Z) (As : list arena) (ls : list (list Z)) (rest : list Z)
    (class : Z) (out : M (result unit AllocErr * Call K)) : Prop :=
  (∃ r c' ls' gs', out = Ret (r, c') ∧ call_ok c live As rest c' ls' gs' ∧
     (r = Ok () → zlookup ls class = Some [] → ∃ h l, zlookup ls' class = Some (h :: l))) ∨
  va_aborts out ∨ out = Abort (Fatal VaBitmapExhausted).

Lemma slab_kernel c live As ls gs rest (k : K) :
  slab_inv st c live As ls gs rest → keeps (c_kernel c) k → slab_inv st (with_kernel c k) live As ls gs rest.
Proof. intros [Q1 Q2 Q3 Q4 Q5 Q6 Q7 Q8 Q9 Q10 Q11] Hk. split; try done. by eapply live_keeps. Qed.

Lemma fill_from_arena_ok am c live As ls gs rest class limit :
  slab_inv st c live As ls gs rest → 0 ≤ class < NUM_SIZE_CLASSES → 1 ≤ limit → push_cpu_ok am c →
  fill_post c live As ls rest class (fill_from_arena st am c class (bsz class) limit).
Proof.
  intros Hinv Hc Hlim Hcpu. pose proof (class_ok_all _ Hc) as Hco.
  destruct (co_bounds _ Hco) as (B1 & B2 & B3 & B4 & B5 & _). pose proof (bsz_header _ Hc) as Hbs.
  assert (1 ≤ arena_size class) as Hsz by (unfold arena_size; change METADATA_SIZE with 32; nia).
  unfold fill_from_arena. rewrite (co_size _ Hco), bind_ret, (co_blocks _ Hco), bind_ret.
  destruct (co_arena _ Hco) as [-> Ha]. rewrite bind_ret, Ha, bind_ret.
  destruct (live_alloc (am_buf am) (OX_MAX_RESERVATION st) (so_res _ Hst) (c_kernel c) (c_va c) live
    (arena_size class) (c_rng c)) as [(res & va' & ar' & k' & -> & Har & Hk & Hres)|Hab].
  { apply Hinv. } { apply Hinv. } { done. } { unfold usize_max, u64_max, BLOCK_SIZE. lia. }
  2: { right; left. unfold va_aborts in *. destruct Hab as [-> | ->]; cbn; auto. }
  rewrite bind_ret. destruct res as [p|]; [|by right; right].
  destruct Hres as [Hp Hl'].
  destruct (live_range _ _ _ _ _ Hl' (lookup_insert_eq live p (arena_size class))) as (R1 & R2 & R3 & R4).
  destruct (mmap_fixed_spec p (arena_size class) rw_fixed k') as (r & k2 & Hm & Hk2 & Hfix); [by vm_compute|].
  cbn [c_kernel with_va]. rewrite Hm, bind_ret. left. destruct r as [out|e].
  - rewrite (Hfix out eq_refl). change METADATA_SIZE with 32. checked.
    assert (∃ k3, (if class =? NUM_SIZE_CLASSES - 1 then
        '(_, k) ← madvise (p + HEADER_SIZE) (class_size class) Advice_HUGEPAGE k2; Ret k else Ret k2) = Ret k3 ∧
      keeps k2 k3) as (k3 & Hk3 & Hkk3).
    { destruct (class =? NUM_SIZE_CLASSES - 1); [|by exists k2].
      destruct (madvise_spec (p + HEADER_SIZE) (class_size class) Advice_HUGEPAGE k2) as (r & k3 & -> & Hk3).
      by exists k3. }
    cbn [c_kernel with_kernel with_va c_mem c_va c_icc c_engine c_rng]. rewrite Hk3, bind_ret.
    destruct (slab_new_arena c live As ls gs rest p class va' ar' k3 Hinv Hc Hp) as (Hinv' & Hex & Hf);
      [|done|].
    { eapply live_keeps; [|exact Hl']. by etrans. }
    set (c1 := mkCall _ _ _ _ _ _) in Hinv'.
    destruct (fill_new_arena_ok am c1 _ _ ls gs rest (mkArena p class 0) limit Hinv')
      as (r & c' & ls' & gs' & Hfill & Hok & Hne); [|done|done|].
    { apply elem_of_app. right. by left. }
    cbn [ar_class ar_base] in *. unfold with_mem, with_kernel, with_va. cbn.
    change (mkCall _ _ _ _ _ _) with c1. rewrite Hfill.
    exists r, c', ls', gs'. split; [done|]. split; [|done].
    eapply (call_ok_step c c1); [exact Hex| |done|exact Hok].
    eapply frame_mono; [|exact Hf]. by eapply rest_heap.
  - destruct (live_free k2 va' (<[p := arena_size class]> live) p (arena_size class)) as (va2 & Hfree & Hl2);
      [by eapply live_keeps|apply lookup_insert_eq|].
    cbn [c_va with_va with_kernel]. rewrite Hfree, bind_ret.
    rewrite delete_insert_id in Hl2 by done.
    eexists _, _, ls, gs. split; [done|]. split; [|done]. exists live, As. split; [|].
    + destruct Hinv as [Q1 Q2 Q3 Q4 Q5 Q6 Q7 Q8 Q9 Q10 Q11]. by split.
    + split; [apply extends_refl|]. split; [apply frame_refl|done].
Qed.

Lemma bulk_fill_ok am c live As ls gs rest class :
  slab_inv st c live As ls gs rest → 0 ≤ class < NUM_SIZE_CLASSES → push_cpu_ok am c →
  fill_post c live As ls rest class (bulk_fill st am c class).
Proof.
  intros Hinv Hc Hcpu. pose proof (class_ok_all _ Hc) as Hco. unfold bulk_fill.
  rewrite (co_bsz _ Hco), bind_ret. destruct (co_init _ Hco) as (n & -> & Hn). rewrite bind_ret.
  destruct (fill_from_pending_ok c live As ls gs rest class n Hinv Hc Hn) as (r & c' & ls' & -> & Hr & Hok).
  rewrite bind_ret. destruct Hr as [[-> Hne]|[-> ->]].
  - left. exists (Ok ()), c', ls', gs. split; [done|]. split; [done|]. by intros _ _.
  - destruct Hok as (live' & As' & Hinv' & He & Hf & Hn').
    assert (push_cpu_ok am c') as Hcpu' by (unfold push_cpu_ok; by rewrite Hn').
    destruct (fill_from_arena_ok am c' live' As' ls gs rest class n Hinv' Hc Hn Hcpu')
      as [(r & c2 & ls2 & gs2 & -> & Hok2 & Hne)|Hab]; [left|by right].
    exists r, c2, ls2, gs2. split; [done|]. split; [|done].
    by eapply call_ok_step.
Qed.
End Fill.
