(* ===== verification/Heap.v ===== *)
(** * The heap: big allocations and the C interface
      (src/src/big_allocation.rs, src/src/abi/malloc.rs, free.rs)

    A [Heap] is all that a call of the C interface can reach: the state of
    [Call], the table of big allocations, and the statics that change at run
    time.  Protection and advice have no effect on it but the zeroes of
    [madvise(DONTNEED)] and of fresh mappings; the start of the trim thread only
    sets its flags; [boot_strap] has run.  Functions of the C library that the
    code forwards to are the result [Libc]. *)

From S2P Require Import Prelude Bits Lib Rng HashMap Sys SizeClass VaMap Mem BlockList ThreadLocal.
From S2P Require Import Interconnect Bulk.

Record Heap (K B : Type) : Type := mkHeap {
  hp_call : Call K;
  hp_big : B;
  BATCH_HINTS : list Z;
  HOT_READY : bool;
  TOTAL_MALLOC_FREE : Z;
  THREAD_SPAWNED : bool;
  hp_errno : Z
}.
Arguments mkHeap {K B}. Arguments hp_call {K B}. Arguments hp_big {K B}. Arguments BATCH_HINTS {K B}.
Arguments HOT_READY {K B}. Arguments TOTAL_MALLOC_FREE {K B}. Arguments THREAD_SPAWNED {K B}.
Arguments hp_errno {K B}.

Definition with_call {K B} (h : Heap K B) (c : Call K) : Heap K B :=
  mkHeap c (hp_big h) (BATCH_HINTS h) (HOT_READY h) (TOTAL_MALLOC_FREE h) (THREAD_SPAWNED h) (hp_errno h).
Definition with_big {K B} (h : Heap K B) (b : B) : Heap K B :=
  mkHeap (hp_call h) b (BATCH_HINTS h) (HOT_READY h) (TOTAL_MALLOC_FREE h) (THREAD_SPAWNED h) (hp_errno h).
Definition with_hints {K B} (h : Heap K B) (l : list Z) : Heap K B :=
  mkHeap (hp_call h) (hp_big h) l (HOT_READY h) (TOTAL_MALLOC_FREE h) (THREAD_SPAWNED h) (hp_errno h).
Definition with_flags {K B} (h : Heap K B) (hot : bool) (total : Z) (spawned : bool) : Heap K B :=
  mkHeap (hp_call h) (hp_big h) (BATCH_HINTS h) hot total spawned (hp_errno h).
Definition with_errno {K B} (h : Heap K B) (e : Z) : Heap K B :=
  mkHeap (hp_call h) (hp_big h) (BATCH_HINTS h) (HOT_READY h) (TOTAL_MALLOC_FREE h) (THREAD_SPAWNED h) e.
Definition heap_mem {K B} (h : Heap K B) : mem := c_mem (hp_call h).
Definition with_heap_mem {K B} (h : Heap K B) (m : mem) : Heap K B := with_call h (with_mem (hp_call h) m).
Definition with_heap_kernel {K B} (h : Heap K B) (k : K) : Heap K B := with_call h (with_kernel (hp_call h) k).

Definition BATCH_MIN : Z := 8.
Definition BATCH_MAX : Z := 32.
Definition initial_hints : list Z := replicate (Z.to_nat NUM_SIZE_CLASSES) 32.

Definition OFFSET_SIZE : Z := 8.
Definition TAG_SIZE : Z := OFFSET_SIZE * 2.

(** The class of big allocations. *)
Definition BIG_CLASS : Z := 100.

Section Heap.
Context `{Config}.
Context {K : Type} `{Kernel K}.
Context {B : Type} `{BigMap B}.
Context (st : Statics) (am : Ambient).

Abbreviation heap := (Heap K B).

(** [VA_MAP.is_ours] behind [va::is_ours], in a call. *)
Definition heap_is_ours (h : heap) (p : Z) : M bool := va_is_ours (c_va (hp_call h)) p.

(** ** Big allocations *)

(** The size of the range for a payload: whole pages, or whole huge pages. *)
Definition big_total (size : Z) : M Z :=
  sz ← uadd size HEADER_SIZE;
  if OX_FORCE_THP st then align_to sz (1024 * 1024 * 2) else align_to sz 4096.

(** [if total % 2MiB == 0 { let _ = madvise(..) }]. *)
Definition advise_huge (p total advice : Z) (k : K) : M K :=
  if total mod (1024 * 1024 * 2) =? 0 then '(_, k) ← madvise p total advice k; Ret k else Ret k.

(** The pages of a new range become accessible: by [protect_memory], or else by a new mapping.
    [None] if neither works. *)
Definition big_pages (h : heap) (hint total : Z) : M (option Z * heap) :=
  '(r, k) ← protect_memory hint total (Z.lor Prot_WRITE Prot_READ) (c_kernel (hp_call h));
  let h := with_heap_kernel h k in
  if is_err r then
    '(r, k) ← mmap_memory hint total rw_fixed (c_kernel (hp_call h));
    let h := with_heap_kernel h k in
    match r with
    | Ok p => Ret (Some p, with_heap_mem h (zero_fill (heap_mem h) p (page_round total)))
    | Err _ => Ret (None, h)
    end
  else Ret (Some hint, h).

Definition big_malloc (h : heap) (size : Z) : M (Z * heap) :=
  aligned_total ← big_total size;
  let c := hp_call h in
  '(hint, va, rng, k) ← VaMap.alloc (am_buf am) (OX_MAX_RESERVATION st) (c_va c) aligned_total (c_rng c) (c_kernel c);
  let h := with_call h (with_va c va rng k) in
  match hint with
  | None => Ret (0, h)
  | Some hint =>
      '(actual_ptr, h) ← big_pages h hint aligned_total;
      match actual_ptr with
      | None =>
          let c := hp_call h in
          va ← VaMap.free (c_va c) hint aligned_total;
          Ret (0, with_call h (with_va c va (c_rng c) (c_kernel c)))
      | Some actual_ptr =>
          k ← advise_huge actual_ptr aligned_total Advice_HUGEPAGE (c_kernel (hp_call h));
          let h := with_heap_kernel h k in
          let h := with_heap_mem h (write_header (heap_mem h) actual_ptr (mkOxHeader 0 BIG_CLASS (MAGIC st) 0)) in
          big ← bmap_insert (hp_big h) actual_ptr (mkMeta size BIG_CLASS 0 0);
          p ← uadd actual_ptr HEADER_SIZE;
          Ret (p, with_big h big)
      end
  end.

Definition big_free (h : heap) (ptr : Z) : M heap :=
  let header := wrapping_sub64 ptr HEADER_SIZE in
  '(meta, big) ← bmap_remove (hp_big h) header;
  let h := with_big h big in
  match meta with
  | None => log_and_abort AttackOrCorruption
  | Some meta =>
      total_size ← big_total (meta_size meta);
      k ← advise_huge header total_size Advice_NORMAL (c_kernel (hp_call h));
      let m := hput FMagic (heap_mem h) header (FREED_MAGIC st) in
      '(_, k) ← madvise header total_size Advice_DONTNEED k;
      (* zeroes, by the kernel or by [write_bytes] *)
      let h := with_heap_mem (with_heap_kernel h k) (zero_fill m header total_size) in
      '(_, k) ← protect_memory header total_size Prot_NONE (c_kernel (hp_call h));
      let c := with_kernel (hp_call h) k in
      va ← VaMap.free (c_va c) header total_size;
      Ret (with_call h (with_va c va (c_rng c) (c_kernel c)))
  end.

(** ** Small allocations *)

Definition clamp (x lo hi : Z) : Z := Z.min hi (Z.max lo x).

(** [bump_batch_hint]. *)
Definition next_hint (val : Z) (up : bool) : Z :=
  let cur := clamp val BATCH_MIN BATCH_MAX in
  if up then Z.min (cur + 1) BATCH_MAX else Z.max (saturating_sub cur 2) BATCH_MIN.

Definition bump_batch_hint (h : heap) (class : Z) (up : bool) : M heap :=
  val ← vget (BATCH_HINTS h) class;
  hints ← vset (BATCH_HINTS h) class (next_hint val up);
  Ret (with_hints h hints).

(** [while real < batch && .. { .. }]: the last block of the popped chain and its length. *)
Fixpoint chain_loop (fuel : nat) (h : heap) (batch tail real : Z) : M (Z * Z) :=
  if real <? batch then
    _ ← deref tail;
    let next := hget FNext (heap_mem h) tail in
    if next =? 0 then Ret (tail, real)
    else
      ours ← heap_is_ours h next;
      if negb ours then Ret (tail, real)
      else
        match fuel with
        | O => Abort OutOfFuel
        | S fuel => chain_loop fuel h batch next (real + 1)
        end
  else Ret (tail, real).

(** [for i in 0..3 { .. }] of [try_fill]. *)
Fixpoint fill_tries (n : nat) (h : heap) (class : Z) : M (Z * heap) :=
  match n with
  | O => Ret (0, h)
  | S n =>
      '(r, c) ← bulk_fill st am (hp_call h) class;
      let h := with_call h c in
      match r with
      | Ok _ =>
          '(output, e) ← pop_from_thread (heap_mem h) (c_engine (hp_call h)) class;
          let h := with_call h (with_engine (hp_call h) e) in
          h ← bump_batch_hint h class true;
          Ret (output, h)
      | Err _ => fill_tries n h class
      end
  end.

Definition try_fill (h : heap) (class : Z) : M (Z * heap) :=
  hint ← vget (BATCH_HINTS h) class;
  let batch := clamp hint BATCH_MIN BATCH_MAX in
  let c := hp_call h in
  '(global_cache, m, icc, k) ←
    pop_from_global (NUMA_KEY st) (am_buf am) (c_mem c) (c_icc c) class batch (am_pop_cpu am) (c_kernel c);
  let h := with_call h (with_global c m icc k) in
  if negb (global_cache =? 0) then
    '(tail, real) ← chain_loop (Z.to_nat batch) h batch global_cache 1;
    _ ← deref tail;
    let h := with_heap_mem h (hput FNext (heap_mem h) tail 0) in
    c ← call_push_tailed (hp_call h) class global_cache tail real;
    let h := with_call h c in
    h ← bump_batch_hint h class (real =? batch);
    '(p, e) ← pop_from_thread (heap_mem h) (c_engine (hp_call h)) class;
    Ret (p, with_call h (with_engine (hp_call h) e))
  else
    h ← bump_batch_hint h class false;
    fill_tries 3 h class.

(** [validate_ptr] of the hardened build. *)
Definition validate_ptr (m : mem) (header : Z) : M Z :=
  _ ← deref header;
  let magic := hget FMagic m header in
  if negb (magic =? MAGIC st) && negb (magic =? FREED_MAGIC st) then log_and_abort AttackOrCorruption
  else Ret magic.

(** [allocate_hot]; the end of [allocate_boot_segment] is the same code. *)
Definition allocate_hot (h : heap) (class : Z) : M (Z * heap) :=
  '(cache, e) ← pop_from_thread (heap_mem h) (c_engine (hp_call h)) class;
  let h := with_call h (with_engine (hp_call h) e) in
  '(cache, h) ← (if cache =? 0 then try_fill h class else Ret (cache, h));
  if cache =? 0 then Ret (0, h)
  else
    h ← (if hardened then
           ours ← heap_is_ours h cache;
           if negb ours then log_and_abort AttackOrCorruption
           else
             _ ← validate_ptr (heap_mem h) cache;
             Ret (with_heap_mem h (hput FNext (heap_mem h) cache 0))
         else Ret h);
    let h := with_heap_mem h (hput FMagic (heap_mem h) cache (MAGIC st)) in
    p ← uadd cache HEADER_SIZE;
    Ret (p, h).

(** The accounting of [allocate_boot_segment] that leads to the hot path. *)
Definition boot_accounting (h : heap) : heap :=
  if TOTAL_MALLOC_FREE h <? 1024 then
    with_flags h (HOT_READY h) (wrapping_add64 (TOTAL_MALLOC_FREE h) 1) (THREAD_SPAWNED h)
  else if negb (THREAD_SPAWNED h) then with_flags h true (TOTAL_MALLOC_FREE h) true
  else h.

Definition allocate_boot_segment (h : heap) (class : Z) : M (Z * heap) :=
  allocate_hot (boot_accounting h) class.

Definition allocate_cold (h : heap) (size : Z) : M (Z * heap) := big_malloc h size.

Definition allocate_class (h : heap) (class : Z) : M (Z * heap) :=
  if HOT_READY h then allocate_hot h class else allocate_boot_segment h class.

Definition malloc (h : heap) (size : Z) : M (Z * heap) :=
  if (size <=? 4096) && (0 <? size) then
    match zlookup SIZE_LUT (shr64 (size - 1) 4) with
    | Some class => allocate_class h class
    | None => Abort WildAccess
    end
  else if 1024 * 1024 * 1024 * 3 <? size then Ret (0, with_errno h NOMEM)
  else
    class ← match_size_class size;
    match class with
    | Some class => allocate_class h class
    | None => allocate_cold h size
    end.

(** ** [free] *)

(** Whether the call was served here or is forwarded to the C library. *)
Inductive served : Type := Here | Libc.

Definition validate_ptr_for_abi (m : mem) (header : Z) : M unit :=
  _ ← deref header;
  let magic := hget FMagic m header in
  if magic =? MAGIC st then Ret ()
  else if magic =? FREED_MAGIC st then log_and_abort DoubleFree
  else log_and_abort AttackOrCorruption.

Definition free_internal (h : heap) (ptr : Z) : M heap :=
  let header := wrapping_sub64 ptr HEADER_SIZE in
  _ ← validate_ptr_for_abi (heap_mem h) header;
  let class := hget FClass (heap_mem h) header in
  if class =? BIG_CLASS then big_free h ptr
  else
    let m := hput FMagic (heap_mem h) header (FREED_MAGIC st) in
    let m := hput FLifeTime m header (OX_CURRENT_STAMP st) in
    let h := with_heap_mem h m in
    bin ← vget (tls (c_engine (hp_call h))) class;
    limits ← TLS_MAX_BLOCKS;
    limit ← vget limits class;
    if limit <=? bin_usage bin then
      c ← call_push_to_global st am (hp_call h) class header header 1;
      Ret (with_call h c)
    else
      '(m, e) ← push_to_thread (heap_mem h) (c_engine (hp_call h)) class header;
      Ret (with_call h (with_engine (with_mem (hp_call h) m) e)).

(** The pointer that [malloc] gave for [ptr]: itself, or the one recorded before an aligned
    block. *)
Definition original_ptr (h : heap) (ptr : Z) : M Z :=
  let tag_loc := wrapping_sub64 ptr TAG_SIZE in
  if load 8 (heap_mem h) tag_loc =? OX_ALIGN_TAG then
    let raw_loc := wrapping_sub64 ptr OFFSET_SIZE in
    let presumed_original_ptr := load 8 (heap_mem h) raw_loc in
    ours ← heap_is_ours h presumed_original_ptr;
    Ret (if ours : bool then presumed_original_ptr else ptr)
  else Ret ptr.

(** The macro [free_main!]. *)
Definition free_main (h : heap) (ptr : Z) : M (served * heap) :=
  if ptr =? 0 then Ret (Here, h)
  else
    ours ← heap_is_ours h ptr;
    if negb ours then Ret (Libc, h)
    else
      header_search_ptr ← original_ptr h ptr;
      h ← free_internal h header_search_ptr;
      Ret (Here, h).

Definition free_fast (h : heap) (ptr : Z) : M (served * heap) := free_main h ptr.

Definition free_boot_segment (h : heap) (ptr : Z) : M (served * heap) :=
  free_main (with_flags h (HOT_READY h) (wrapping_add64 (TOTAL_MALLOC_FREE h) 1) (THREAD_SPAWNED h)) ptr.

Definition free (h : heap) (ptr : Z) : M (served * heap) :=
  if HOT_READY h then free_fast h ptr else free_boot_segment h ptr.

Definition free_sized (h : heap) (ptr size : Z) : M (served * heap) := free h ptr.
Definition free_aligned_sized (h : heap) (ptr align size : Z) : M (served * heap) := free h ptr.

(** ** [malloc_usable_size] *)

(** The size recorded for the block with this header. *)
Definition payload_capacity (h : heap) (header : Z) : M Z :=
  let class := hget FClass (heap_mem h) header in
  if class =? BIG_CLASS then
    meta ← bmap_get (hp_big h) header;
    match meta with
    | Some meta => Ret (meta_size meta)
    | None => log_and_abort AttackOrCorruption
    end
  else vget SIZE_CLASSES class.

Definition malloc_usable_size (h : heap) (ptr : Z) : M (served * Z) :=
  if ptr =? 0 then Ret (Here, 0)
  else
    ours ← heap_is_ours h ptr;
    if negb ours then Ret (Libc, 0)
    else
      raw_ptr ← original_ptr h ptr;
      let offset := if raw_ptr =? ptr then 0 else wrapping_sub64 ptr raw_ptr in
      let header := wrapping_sub64 raw_ptr HEADER_SIZE in
      raw_usable ← payload_capacity h header;
      Ret (Here, saturating_sub raw_usable offset).

(** [reset_fork_thread_state], in the child of a fork. *)
Definition reset_fork_thread_state (h : heap) : heap := with_flags h false 1024 false.
End Heap.
