(* ===== verification/HeapInv.v ===== *)
(** * The invariant of the heap, and the client's view of it

    The client holds blocks, each known by the address of its header: blocks of a
    size class, which are outside of every list of the slab, and big blocks, each
    a range of the address map of its own.  A block's extent is the part of
    memory that belongs to it; the heap's invariant says that the extents of
    the blocks that the client holds lie in the address map, do not overlap, and meet
    nothing that the allocator uses but their own headers. *)

From S2P Require Import Prelude Bits Lib Rng Segment HashMap Sys Radix SizeClass VaMap VaMapSpec VaLive.
From S2P Require Import Mem BlockList ThreadLocal Interconnect Bulk BulkSpec SlabInv SlabOps SlabFill Heap.

(** ** Blocks of the client *)

Inductive bkind : Type := Slab (class : Z) | Big (size : Z).

(** A block and the pointer that the client has for it: the start of the payload, or an aligned
    address inside of it. *)
Record ublock : Type := mkU { ub_kind : bkind; ub_ptr : Z }.

(** The blocks that the client holds, by the addresses of their headers. *)
Abbreviation users := (gmap Z ublock).

Definition slab_class (u : ublock) : option Z := match ub_kind u with Slab c => Some c | Big _ => None end.
Definition big_meta (u : ublock) : option BigAllocMeta :=
  match ub_kind u with Slab _ => None | Big n => Some (mkMeta n BIG_CLASS 0 0) end.

Definition slab_headers (U : users) : list Z := (map_to_list (omap slab_class U)).*1.
Definition bigs (U : users) : gmap Z BigAllocMeta := omap big_meta U.

Lemma slab_headers_insert U h c p :
  U !! h = None → slab_headers (<[h := mkU (Slab c) p]> U) ≡ₚ h :: slab_headers U.
Proof.
  intros Hh. unfold slab_headers. rewrite (omap_insert_Some _ _ _ _ c) by done.
  rewrite map_to_list_insert by (by rewrite lookup_omap, Hh). done.
Qed.

Lemma slab_headers_insert_big U h n p : U !! h = None → slab_headers (<[h := mkU (Big n) p]> U) = slab_headers U.
Proof.
  intros Hh. unfold slab_headers. rewrite omap_insert_None by done.
  by rewrite delete_id by (by rewrite lookup_omap, Hh).
Qed.

Lemma slab_headers_delete U h c p :
  U !! h = Some (mkU (Slab c) p) → slab_headers U ≡ₚ h :: slab_headers (delete h U).
Proof.
  intros Hh. rewrite <- (insert_delete_id U h _ Hh) at 1. apply slab_headers_insert, lookup_delete_eq.
Qed.

Lemma slab_headers_delete_big U h n p :
  U !! h = Some (mkU (Big n) p) → slab_headers (delete h U) = slab_headers U.
Proof.
  intros Hh. rewrite <- (insert_delete_id U h _ Hh) at 2.
  symmetry. apply slab_headers_insert_big, lookup_delete_eq.
Qed.

Lemma elem_of_slab_headers U h : h ∈ slab_headers U ↔ ∃ c p, U !! h = Some (mkU (Slab c) p).
Proof.
  unfold slab_headers. rewrite list_elem_of_fmap. split.
  - intros ([h' c] & -> & Hin%elem_of_map_to_list). rewrite lookup_omap in Hin.
    destruct (U !! h') as [[[c'|n] p]|] eqn:E; cbn in Hin; [|done..]. eauto.
  - intros (c & p & Hh). exists (h, c). split; [done|]. apply elem_of_map_to_list.
    by rewrite lookup_omap, Hh.
Qed.

Lemma bigs_insert U h n p : bigs (<[h := mkU (Big n) p]> U) = <[h := mkMeta n BIG_CLASS 0 0]> (bigs U).
Proof. unfold bigs. by rewrite (omap_insert_Some _ _ _ _ (mkMeta n BIG_CLASS 0 0)). Qed.

Lemma bigs_insert_slab U h c p : U !! h = None → bigs (<[h := mkU (Slab c) p]> U) = bigs U.
Proof.
  intros Hh. unfold bigs. rewrite omap_insert_None by done. apply delete_id. by rewrite lookup_omap, Hh.
Qed.

Lemma bigs_delete U h : bigs (delete h U) = delete h (bigs U).
Proof. apply omap_delete. Qed.

Lemma bigs_delete_slab U h c p : U !! h = Some (mkU (Slab c) p) → bigs (delete h U) = bigs U.
Proof. intros Hh. rewrite bigs_delete. apply delete_id. unfold bigs. by rewrite lookup_omap, Hh. Qed.

(** Same contents in [a .. a+n). *)
Definition same_on (m m' : mem) (a n : Z) : Prop := ∀ x, a ≤ x < a + n → m' x = m x.

(** Changes in [a .. a+n) only. *)
Definition only_range (m m' : mem) (a n : Z) : Prop := ∀ x, x < a ∨ a + n ≤ x → m' x = m x.

Lemma same_on_trans m1 m2 m3 a n : same_on m1 m2 a n → same_on m2 m3 a n → same_on m1 m3 a n.
Proof. intros H1 H2 x Hx. by rewrite (H2 x Hx), (H1 x Hx). Qed.

Lemma same_on_mono m m' a n b k : a ≤ b → b + k ≤ a + n → same_on m m' a n → same_on m m' b k.
Proof. intros ? ? Hs x Hx. apply Hs. lia. Qed.

Lemma only_range_same m m' a n b k : only_range m m' a n → b + k ≤ a ∨ a + n ≤ b → same_on m m' b k.
Proof. intros Ho Hd x Hx. apply Ho. lia. Qed.

Lemma only_range_trans m1 m2 m3 a n : only_range m1 m2 a n → only_range m2 m3 a n → only_range m1 m3 a n.
Proof. intros H1 H2 x Hx. by rewrite (H2 x Hx), (H1 x Hx). Qed.

Lemma only_range_mono m m' a n b k : a ≤ b → b + k ≤ a + n → only_range m m' b k → only_range m m' a n.
Proof. intros ? ? Ho x Hx. apply Ho. lia. Qed.

Lemma same_on_load m m' a n k b : same_on m m' a n → a ≤ b → b + Z.of_nat k ≤ a + n → load k m' b = load k m b.
Proof. intros Hs ? ?. apply load_ext. intros x Hx. apply Hs. lia. Qed.

Section HeapInv.
Context `{Config}.
Context {K : Type} `{LinuxKernel K}.
Context {B : Type} `{BigMap B}.
Context (st : Statics) (Hst : statics_ok st).

(** The size of a big block's range. *)
Definition big_bytes (n : Z) : Z := round_up (n + HEADER_SIZE) (if OX_FORCE_THP st then 2097152 else 4096).

Definition cap (u : ublock) : Z := match ub_kind u with Slab c => class_size c | Big n => n end.
Definition kind_class (u : ublock) : Z := match ub_kind u with Slab c => c | Big _ => BIG_CLASS end.
Definition extent (u : ublock) : Z :=
  match ub_kind u with Slab c => bsz c | Big n => blocks_bytes (big_bytes n) end.

(** The bytes that the client may use: from its pointer to the end of the payload. *)
Definition usable (h : Z) (u : ublock) : Z := h + HEADER_SIZE + cap u - ub_ptr u.

(** What identifies the client's pointer: no tag before the start of the payload, or the tag and the
    start of the payload before an aligned address. *)
Definition ptr_ok (m : mem) (h : Z) (u : ublock) : Prop :=
  let raw := h + HEADER_SIZE in
  let p := ub_ptr u in
  (p = raw ∧ load 8 m (p - 16) ≠ OX_ALIGN_TAG) ∨
  (raw + 16 ≤ p < raw + cap u ∧ p mod 8 = 0 ∧ load 8 m (p - 16) = OX_ALIGN_TAG ∧ load 8 m (p - 8) = raw).

(** Where the block is. *)
Definition place_ok (live : gmap Z Z) (As : list arena) (h : Z) (u : ublock) : Prop :=
  match ub_kind u with
  | Slab c => ∃ a, a ∈ As ∧ h ∈ arena_blocks a ∧ ar_class a = c
  | Big n => live !! h = Some (big_bytes n) ∧ (h ∉ (ar_base <$> As)) ∧ 0 ≤ n ≤ 2 ^ 32
  end.

Record user_ok (m : mem) (live : gmap Z Z) (As : list arena) (h : Z) (u : ublock) : Prop := {
  uo_place : place_ok live As h u;
  uo_magic : hget FMagic m h = MAGIC st;
  uo_class : hget FClass m h = kind_class u;
  uo_ptr : ptr_ok m h u
}.

(** ** Slots

    A slot is a block of an arena, or a whole range of the address map that is no arena. *)

Definition slot (live : gmap Z Z) (As : list arena) (h n : Z) : Prop :=
  (∃ a, a ∈ As ∧ h ∈ arena_blocks a ∧ n = bsz (ar_class a)) ∨
  (∃ s, live !! h = Some s ∧ (h ∉ (ar_base <$> As)) ∧ n = blocks_bytes s).

Section Slots.
Context (k : K) (va : VaState) (live : gmap Z Z) (As : list arena).
Context (Hlive : live_inv k va live) (Hin : Forall (arena_in live) As) (Hnd : NoDup (ar_base <$> As)).

(** A block lies in the range of its arena, after the metadata. *)
Lemma block_range a h :
  a ∈ As → h ∈ arena_blocks a →
  live !! ar_base a = Some (arena_size (ar_class a)) ∧ ar_base a + METADATA_SIZE ≤ h ∧
  h + bsz (ar_class a) ≤ ar_base a + blocks_bytes (arena_size (ar_class a)) ∧
  0 < h ∧ h mod 16 = 0 ∧ HEADER_SIZE < bsz (ar_class a) ∧ h + bsz (ar_class a) ≤ 2 ^ 57.
Proof.
  intros Ha Hh. rewrite Forall_forall in Hin. pose proof (Hin a Ha) as Hai.
  pose proof (arena_block_range k va live Hlive a h Hai Hh) as (R1 & R2 & R3 & R4 & R5).
  pose proof (bsz_header _ (ai_class _ _ Hai)).
  pose proof (live_range _ _ _ _ _ Hlive (ai_live _ _ Hai)) as (_ & _ & R6 & _).
  unfold first_block in R1. change METADATA_SIZE with 32 in *. split; [apply Hai|lia].
Qed.

(** A slot lies in a range of the address map. *)
Lemma slot_range h n :
  slot live As h n → (∃ b s, live !! b = Some s ∧ b ≤ h ∧ h + n ≤ b + blocks_bytes s) ∧
    0 < h ∧ h mod 16 = 0 ∧ HEADER_SIZE < n ∧ h + n ≤ 2 ^ 57.
Proof.
  intros [(a & Ha & Hh & ->)|(s & Hs & Hna & ->)].
  - destruct (block_range a h Ha Hh) as (Hl & R1 & R2 & R). change METADATA_SIZE with 32 in *.
    split; [|done]. exists (ar_base a), (arena_size (ar_class a)). split; [done|lia].
  - pose proof (live_range _ _ _ _ _ Hlive Hs) as (R1 & R2 & R3 & R4).
    split; [exists h, s; split; [done|lia]|]. pose proof (blocks_bytes_bounds s ltac:(lia)) as Hbb.
    assert (4096 ≤ blocks_bytes s) by (unfold blocks_bytes in *; change BLOCK_SIZE with 4096 in *; zdiv).
    destruct (HEADER_SIZE_cases _) as [-> | ->]; split_and!; try lia; zdiv.
Qed.

(** Different slots do not meet. *)
Lemma block_range_disjoint a h b s :
  a ∈ As → h ∈ arena_blocks a → live !! b = Some s → (b ∉ (ar_base <$> As)) →
  h + bsz (ar_class a) ≤ b ∨ b + blocks_bytes s ≤ h.
Proof.
  intros Ha Hh Hb Hna. destruct (block_range a h Ha Hh) as (Hl & R1 & R2 & _).
  change METADATA_SIZE with 32 in *. assert (ar_base a ≠ b) as Hne.
  { intros <-. apply Hna. by apply list_elem_of_fmap_2. }
  destruct (lv_disjoint _ _ _ Hlive _ _ _ _ Hl Hb Hne); lia.
Qed.

Lemma slot_disjoint h n h' n' :
  slot live As h n → slot live As h' n' → h ≠ h' → h + n ≤ h' ∨ h' + n' ≤ h.
Proof.
  intros [(a & Ha & Hh & ->)|(s & Hs & Hna & ->)] [(a' & Ha' & Hh' & ->)|(s' & Hs' & Hna' & ->)] Hne.
  - by apply (blocks_apart k va live Hlive As a a').
  - by apply block_range_disjoint.
  - destruct (block_range_disjoint a' h' h s); auto.
  - by apply (lv_disjoint _ _ _ Hlive).
Qed.

(** A slot does not meet the metadata of an arena. *)
Lemma slot_metadata h n a :
  slot live As h n → a ∈ As → h + n ≤ ar_base a ∨ ar_base a + METADATA_SIZE ≤ h.
Proof.
  intros [(b & Hb & Hh & ->)|(s & Hs & Hna & ->)] Ha.
  - destruct (block_range b h Hb Hh) as (Hl & R1 & R2 & _).
    destruct (decide (ar_base a = ar_base b)) as [->|Hne]; [by right|].
    rewrite Forall_forall in Hin. pose proof (ai_live _ _ (Hin a Ha)) as Hla.
    pose proof (live_range _ _ _ _ _ Hlive Hla) as (_ & Hm & R3 & _).
    pose proof (live_range _ _ _ _ _ Hlive Hl) as (_ & Hm' & R3' & _). change METADATA_SIZE with 32 in *.
    destruct (lv_disjoint _ _ _ Hlive _ _ _ _ Hla Hl Hne); [right|left]; unfold blocks_bytes in *;
      change BLOCK_SIZE with 4096 in *; zdiv.
  - rewrite Forall_forall in Hin. pose proof (ai_live _ _ (Hin a Ha)) as Hla.
    pose proof (live_range _ _ _ _ _ Hlive Hla) as (_ & Hm & R3 & _).
    pose proof (live_range _ _ _ _ _ Hlive Hs) as (_ & Hm' & R3' & _). change METADATA_SIZE with 32 in *.
    assert (h ≠ ar_base a) as Hne by (intros ->; apply Hna; by apply list_elem_of_fmap_2).
    destruct (lv_disjoint _ _ _ Hlive _ _ _ _ Hla Hs); [done|right|left]; unfold blocks_bytes in *;
      change BLOCK_SIZE with 4096 in *; zdiv.
Qed.
End Slots.

(** [others]: the blocks in the caches of the other threads. *)
Record heap_inv (h : Heap K B) (live : gmap Z Z) (As : list arena) (ls gs : list (list Z))
    (others : list Z) (U : users) : Prop := {
  hi_slab : slab_inv st (hp_call h) live As ls gs (others ++ slab_headers U);
  hi_big : bmap_rep (hp_big h) (bigs U);
  hi_user : map_Forall (user_ok (heap_mem h) live As) U;
  hi_hints : zlen (BATCH_HINTS h) = NUM_SIZE_CLASSES ∧
    Forall (λ x, BATCH_MIN ≤ x ≤ BATCH_MAX) (BATCH_HINTS h)
}.

(** ** Writing to slots *)

Lemma slab_slots c live As ls gs rest :
  slab_inv st c live As ls gs rest →
  live_inv (c_kernel c) (c_va c) live ∧ Forall (arena_in live) As ∧ NoDup (ar_base <$> As).
Proof. intros Hinv. destruct (si_arenas _ _ _ _ _ _ _ Hinv). by destruct Hinv. Qed.

Lemma block_slot live As h : h ∈ heap_blocks As → ∃ n, slot live As h n.
Proof. intros (a & Ha & Hh)%elem_of_heap_blocks. exists (bsz (ar_class a)). left. eauto. Qed.

(** The header of a range is no block. *)
Lemma range_no_block c live As ls gs rest h s :
  slab_inv st c live As ls gs rest → live !! h = Some s → (h ∉ (ar_base <$> As)) → h ∉ heap_blocks As.
Proof.
  intros Hinv Hs Hna (a & Ha & Hh)%elem_of_heap_blocks.
  destruct (slab_slots _ _ _ _ _ _ Hinv) as (Q1 & Q2 & Q3).
  pose proof (live_range _ _ _ _ _ Q1 Hs) as (_ & _ & R3 & _).
  destruct (block_range _ _ _ _ Q1 Q2 _ _ Ha Hh) as (_ & _ & _ & _ & _ & R & _).
  destruct (HEADER_SIZE_cases _) as [E|E]; rewrite E in R;
    destruct (block_range_disjoint _ _ _ _ Q1 Q2 _ _ _ _ Ha Hh Hs Hna); lia.
Qed.

Lemma slab_write c live As ls gs rest m' h n :
  slab_inv st c live As ls gs rest → slot live As h n → (h ∉ concat ls ++ concat gs) →
  only_range (c_mem c) m' h n → (h ∈ heap_blocks As → hget FClass m' h = hget FClass (c_mem c) h) →
  slab_inv st (with_mem c m') live As ls gs rest.
Proof.
  intros Hinv Hs Hout Ho Hcl. destruct (slab_slots _ _ _ _ _ _ Hinv) as (Q1 & Q2 & Q3).
  assert (∀ f b, b ∈ heap_blocks As → b ≠ h → hget f m' b = hget f (c_mem c) b) as Hb.
  { intros f b Hb Hne. destruct (block_slot live _ _ Hb) as [n' Hs'].
    pose proof (slot_disjoint _ _ _ _ Q1 Q2 Q3 _ _ _ _ Hs Hs' ltac:(done)) as Hd.
    destruct (slot_range _ _ _ _ Q1 Q2 _ _ Hs') as (_ & _ & _ & Hn & _).
    pose proof (field_inside f). eapply (same_on_load _ _ b n'); [eapply only_range_same; [done|lia]|lia..]. }
  eapply slab_remap; try done; [apply Hinv| | |by rewrite (si_blocks _ _ _ _ _ _ _ Hinv)|apply grown_refl].
  - destruct (si_arenas _ _ _ _ _ _ _ Hinv) as [_ _ Hmem]. split; [done..|].
    rewrite Forall_forall in Hmem. apply Forall_forall. intros a Ha. destruct (Hmem a Ha) as [M1 M2 M3].
    assert (same_on (c_mem c) m' (ar_base a) METADATA_SIZE) as Hmd.
    { destruct (slot_metadata _ _ _ _ Q1 Q2 _ _ _ Hs Ha); eapply only_range_same; try done; lia. }
    change METADATA_SIZE with 32 in Hmd. split.
    + rewrite <- M1. eapply same_on_load; [done|lia..].
    + rewrite <- M2. eapply same_on_load; [done|lia..].
    + revert M3. rewrite !Forall_forall. intros M3 b Hbb. rewrite <- (M3 b Hbb).
      assert (b ∈ heap_blocks As) as Hbh by (apply elem_of_heap_blocks; eauto).
      destruct (decide (b = h)) as [->|Hne]; [by apply Hcl|by apply Hb].
  - intros f b Hbl. apply Hb; [by eapply slab_lists|]. by intros ->.
Qed.

Lemma slab_write_rest c live As ls gs rest m' h n :
  slab_inv st c live As ls gs rest → slot live As h n → h ∈ rest →
  only_range (c_mem c) m' h n → hget FClass m' h = hget FClass (c_mem c) h →
  slab_inv st (with_mem c m') live As ls gs rest.
Proof.
  intros Hinv Hs Hr Ho Hcl. eapply slab_write; try done. intros Hin.
  pose proof (slab_separated st _ _ _ _ _ _ Hinv) as Hsep%separated_NoDup.
  rewrite app_assoc, NoDup_app in Hsep. destruct Hsep as (_ & Hd & _). by eapply Hd.
Qed.

(** Writing to one block outside of the lists, keeping its class: the other headers and slots
    are as before. *)
Lemma slab_write_block c live As ls gs rest a b m' :
  slab_inv st c live As ls gs rest → a ∈ As → b ∈ arena_blocks a → b ∈ rest →
  only_range (c_mem c) m' b (bsz (ar_class a)) → hget FClass m' b = hget FClass (c_mem c) b →
  slab_inv st (with_mem c m') live As ls gs rest ∧
  (∀ f y, y ∈ heap_blocks As → y ≠ b → hget f m' y = hget f (c_mem c) y) ∧
  ∀ keep, (b ∉ keep) → frame (c_mem c) m' live As keep.
Proof.
  intros Hinv Haa Hb Hk Ho Hcl. destruct (slab_slots _ _ _ _ _ _ Hinv) as (Q1 & Q2 & Q3).
  pose proof Q2 as Q2'. rewrite Forall_forall in Q2'.
  assert (slot live As b (bsz (ar_class a))) as Hsl by (left; eauto).
  assert (∀ y n, slot live As y n → b ≠ y → same_on (c_mem c) m' y n) as Hother.
  { intros y n Hy Hne. pose proof (slot_disjoint _ _ _ _ Q1 Q2 Q3 _ _ _ _ Hsl Hy Hne).
    eapply only_range_same; [exact Ho|lia]. }
  split; [by eapply slab_write_rest|]. split.
  - intros f y Hy Hne. pose proof (field_inside f). apply elem_of_heap_blocks in Hy as (a' & Ha' & Hy).
    pose proof (bsz_header _ (ai_class _ _ (Q2' a' Ha'))).
    apply (same_on_load _ _ y (bsz (ar_class a'))); [|lia|lia]. apply Hother; [left; eauto|congruence].
  - intros keep Hnk. split.
    + intros a' h x Ha' Hh Hhk Hx. apply (Hother h (bsz (ar_class a'))); [left; eauto|by intros ->|done].
    + intros q s x Hq Hna Hx. apply (Hother q (blocks_bytes s)); [right; eauto| |done]. intros ->.
      eapply (range_no_block c); [exact Hinv|exact Hq|exact Hna|]. apply elem_of_heap_blocks. eauto.
Qed.

(** ** Blocks of the client *)

Lemma place_slot live As h u : place_ok live As h u → slot live As h (extent u).
Proof.
  unfold place_ok, extent. destruct (ub_kind u).
  - intros (a & Ha & Hh & <-). left. eauto.
  - intros (Hl & Hna & _). right. eauto.
Qed.

Lemma big_bytes_bounds n : 0 ≤ n → n + HEADER_SIZE ≤ big_bytes n ≤ n + HEADER_SIZE + 2097152.
Proof.
  intros Hn. unfold big_bytes. destruct (HEADER_SIZE_cases _) as [-> | ->];
    destruct (OX_FORCE_THP st);
    match goal with |- context [round_up ?a ?b] => pose proof (round_up_spec a b ltac:(lia)) end; lia.
Qed.

(** The header and the payload are in the extent. *)
Lemma place_cap live As h u :
  Forall (arena_in live) As → place_ok live As h u → 0 ≤ cap u ∧ HEADER_SIZE + cap u ≤ extent u.
Proof.
  unfold place_ok, cap, extent. intros Hin. destruct (ub_kind u) as [c|n].
  - intros (a & Ha & Hh & <-). rewrite Forall_forall in Hin.
    pose proof (co_bounds _ (class_ok_all _ (ai_class _ _ (Hin a Ha)))) as (Q1 & Q2 & _). lia.
  - intros (Hl & Hna & Hn & _). pose proof (big_bytes_bounds n Hn).
    destruct (HEADER_SIZE_cases _) as [E|E]; rewrite E in *;
      pose proof (blocks_bytes_bounds (big_bytes n) ltac:(lia)); lia.
Qed.

(** A client's pointer is inside of its block. *)
Lemma ptr_ok_range m h u : ptr_ok m h u → 0 ≤ cap u → h + HEADER_SIZE ≤ ub_ptr u ≤ h + HEADER_SIZE + cap u.
Proof. unfold ptr_ok. destruct (HEADER_SIZE_cases _) as [-> | ->]; lia. Qed.

Lemma ptr_ok_same m m' h u n :
  0 ≤ cap u → HEADER_SIZE + cap u ≤ n → same_on m m' h n → ptr_ok m h u → ptr_ok m' h u.
Proof.
  intros Hc Hn Hs. unfold ptr_ok. destruct (HEADER_SIZE_cases _) as [E|E]; rewrite E in *;
    (intros [(Hp & Ht)|(Hp & Hm & Ht & Hr)]; [left|right]);
    rewrite ?(same_on_load m m' h n 8 (ub_ptr u - 16) Hs) by lia;
    rewrite ?(same_on_load m m' h n 8 (ub_ptr u - 8) Hs) by lia; auto.
Qed.

(** A block that keeps its place and its contents. *)
Lemma user_ok_same m m' live live' As As' h u :
  Forall (arena_in live) As → user_ok m live As h u → place_ok live' As' h u →
  same_on m m' h (extent u) → user_ok m' live' As' h u.
Proof.
  intros Hin [Q1 Q2 Q3 Q4] Hp Hs. destruct (place_cap _ _ _ _ Hin Q1) as [Hc He].
  assert (∀ f, hget f m' h = hget f m h) as Hg.
  { intros f. pose proof (field_inside f). eapply same_on_load; [done|lia..]. }
  split; [done|by rewrite Hg..|]. by eapply ptr_ok_same.
Qed.

Lemma place_grown live live' As As' h u :
  grown As As' → (∀ n, ub_kind u = Big n → live' !! h = live !! h ∧ ((h ∉ (ar_base <$> As)) → h ∉ (ar_base <$> As'))) →
  place_ok live As h u → place_ok live' As' h u.
Proof.
  unfold place_ok. intros Hg Hb. destruct (ub_kind u) as [c|n].
  - intros (a & Ha & Hh & <-). destruct (Hg a Ha) as (a' & Ha' & Hb1 & Hc1 & Hn1).
    exists a'. split; [done|]. split; [by eapply arena_blocks_mono|done].
  - destruct (Hb n eq_refl) as [-> Hn]. naive_solver.
Qed.

(** ** Steps of the heap *)

(** [m'] has the contents of [m] in the blocks of [others] and in the client's blocks [keep]. *)
Record heap_frame (m m' : mem) (As : list arena) (others : list Z) (keep : users) : Prop := {
  hf_others : ∀ a o, a ∈ As → o ∈ arena_blocks a → o ∈ others → same_on m m' o (bsz (ar_class a));
  hf_users : ∀ h u, keep !! h = Some u → same_on m m' h (extent u)
}.

(** From [h] to a heap with the invariant, leaving [others] and [keep] alone. *)
Record heap_to (h : Heap K B) (As : list arena) (others : list Z) (keep : users)
    (h' : Heap K B) (live' : gmap Z Z) (As' : list arena) (ls' gs' : list (list Z)) (others' : list Z)
    (U' : users) : Prop := {
  ht_inv : heap_inv h' live' As' ls' gs' others' U';
  ht_grown : grown As As';
  ht_frame : heap_frame (heap_mem h) (heap_mem h') As others keep;
  ht_ncpu : icc_ncpu (c_icc (hp_call h')) = icc_ncpu (c_icc (hp_call h))
}.

Definition heap_step (h : Heap K B) (As : list arena) (others : list Z) (keep : users)
    (h' : Heap K B) (others' : list Z) (U' : users) : Prop :=
  ∃ live' As' ls' gs', heap_to h As others keep h' live' As' ls' gs' others' U'.

Lemma heap_frame_refl m As others keep : heap_frame m m As others keep.
Proof. by split. Qed.

Lemma heap_frame_trans m1 m2 m3 A1 A2 o1 o2 k1 k2 :
  heap_frame m1 m2 A1 o1 k1 → grown A1 A2 → heap_frame m2 m3 A2 o2 k2 → o1 ⊆ o2 → k1 ⊆ k2 →
  heap_frame m1 m3 A1 o1 k1.
Proof.
  intros [P1 P2] Hg [Q1 Q2] Ho Hk. split.
  - intros a o Ha Hoa Hoo. destruct (Hg a Ha) as (a' & Ha' & Hb & Hc & Hn).
    eapply same_on_trans; [by apply P1|]. rewrite <- Hc. apply Q1; [done| |auto].
    by eapply arena_blocks_mono.
  - intros h u Hu. eapply same_on_trans; [by apply P2|]. apply Q2. by eapply lookup_weaken.
Qed.

Lemma heap_to_refl h live As ls gs others U keep :
  heap_inv h live As ls gs others U → heap_to h As others keep h live As ls gs others U.
Proof. intros Hinv. split; [done|apply grown_refl|apply heap_frame_refl|done]. Qed.

Lemma heap_to_trans h As others keep h1 l1 A1 s1 g1 o1 U1 o1' k1 h2 l2 A2 s2 g2 o2 U2 :
  heap_to h As others keep h1 l1 A1 s1 g1 o1 U1 → heap_to h1 A1 o1' k1 h2 l2 A2 s2 g2 o2 U2 →
  others ⊆ o1' → keep ⊆ k1 → heap_to h As others keep h2 l2 A2 s2 g2 o2 U2.
Proof.
  intros [P1 P2 P3 P4] [Q1 Q2 Q3 Q4] Ho Hk. split; [done|by eapply grown_trans| |congruence].
  by eapply heap_frame_trans.
Qed.

Lemma heap_to_step h As others keep h1 l1 A1 s1 g1 o1 U1 o1' k1 h2 o2 U2 :
  heap_to h As others keep h1 l1 A1 s1 g1 o1 U1 → heap_step h1 A1 o1' k1 h2 o2 U2 →
  others ⊆ o1' → keep ⊆ k1 → heap_step h As others keep h2 o2 U2.
Proof.
  intros H1' (l2 & A2 & s2 & g2 & H2') Ho Hk. exists l2, A2, s2, g2. by eapply heap_to_trans.
Qed.

(** The flags, the hints and [errno] do not matter to the memory. *)
Lemma heap_to_aux h As others keep h1 l1 A1 s1 g1 o1 U1 h2 :
  heap_to h As others keep h1 l1 A1 s1 g1 o1 U1 → heap_inv h2 l1 A1 s1 g1 o1 U1 →
  hp_call h2 = hp_call h1 → heap_to h As others keep h2 l1 A1 s1 g1 o1 U1.
Proof. intros [P1 P2 P3 P4] Hinv Hc. split; [done|done| |by rewrite Hc]. unfold heap_mem in *. by rewrite Hc. Qed.

(** A step of the slab; it may have taken blocks of [others0] in. *)
Lemma heap_of_slab h live As ls gs others0 others U c' ls' gs' :
  heap_inv h live As ls gs others0 U → call_ok st (hp_call h) live As (others ++ slab_headers U) c' ls' gs' →
  ∃ live' As', heap_to h As others U (with_call h c') live' As' ls' gs' others U.
Proof.
  intros [Hs Hb Hu Hh] (live' & As' & Hs' & [E1 E2 E3] & [F1 F2] & Hn).
  destruct (slab_slots _ _ _ _ _ _ Hs) as (Q1 & Q2 & Q3). exists live', As'.
  assert (∀ p u, U !! p = Some u → same_on (heap_mem h) (c_mem c') p (extent u)) as Hsame.
  { intros p u Hp x Hx. pose proof (uo_place _ _ _ _ _ (Hu p u Hp)) as Hpl.
    unfold place_ok, extent in *. destruct u as [[c|n] q]; cbn [ub_kind] in *.
    - destruct Hpl as (a & Ha & Hpa & <-). apply (F1 a p); try done.
      apply elem_of_app. right. apply elem_of_slab_headers. eauto.
    - destruct Hpl as (Hl & Hna & _). by apply (F2 p (big_bytes n)). }
  split; [|done| |done].
  - split; [done|done| |done]. intros p u Hp. apply (user_ok_same (heap_mem h) _ live live' As); auto.
    apply (place_grown live live' As As'); [done| |by apply (Hu p u Hp)].
    intros n Hk. pose proof (uo_place _ _ _ _ _ (Hu p u Hp)) as Hpl. unfold place_ok in Hpl. rewrite Hk in Hpl.
    destruct Hpl as (Hl & Hna & _). split; [by rewrite Hl, (lookup_weaken _ _ _ _ Hl E1)|].
    intros _ Hin. destruct (E3 p Hin) as [Hno|?]; [congruence|done].
  - split; [|done]. intros a o Ha Hoa Ho x Hx. apply (F1 a o); try done. apply elem_of_app. by left.
Qed.

(** ** Writing to a block, taking one from the slab and giving it back *)

(** Writing to one slot leaves the others alone. *)
Lemma slot_frame c live As ls gs rest m m' others (keep : users) p n :
  slab_inv st c live As ls gs rest → slot live As p n → only_range m m' p n → (p ∉ others) →
  keep !! p = None → map_Forall (place_ok live As) keep → heap_frame m m' As others keep.
Proof.
  intros Hinv Hs Ho Hp Hk Hpl. destruct (slab_slots _ _ _ _ _ _ Hinv) as (Q1 & Q2 & Q3).
  assert (∀ q k, slot live As q k → p ≠ q → same_on m m' q k) as Hsame.
  { intros q k Hq Hne. pose proof (slot_disjoint _ _ _ _ Q1 Q2 Q3 _ _ _ _ Hs Hq Hne).
    eapply only_range_same; [done|lia]. }
  split.
  - intros a o Ha Hoa Hin. apply Hsame; [left; eauto|]. by intros ->.
  - intros q u Hq. apply Hsame; [by apply place_slot, Hpl|]. intros ->. congruence.
Qed.

Lemma users_places m live As (U : users) : map_Forall (user_ok m live As) U → map_Forall (place_ok live As) U.
Proof. intros Hu p u Hp. by apply (Hu p u). Qed.

Lemma users_frame m m' live As others (U keep : users) :
  Forall (arena_in live) As → map_Forall (user_ok m live As) U → keep ⊆ U → heap_frame m m' As others keep →
  map_Forall (user_ok m' live As) keep.
Proof.
  intros Hin Hu Hk [_ Hf] p u Hp. pose proof (Hu p u (lookup_weaken _ _ _ _ Hp Hk)) as Hok.
  eapply user_ok_same; [done|done|apply Hok|by apply Hf].
Qed.

Lemma heap_inv_places h live As ls gs others U :
  heap_inv h live As ls gs others U → map_Forall (place_ok live As) U.
Proof. intros Hinv. eapply users_places, Hinv. Qed.

Lemma others_fresh h live As ls gs others U p u :
  heap_inv h live As ls gs others U → U !! p = Some u → p ∉ others.
Proof.
  intros Hinv Hp Ho. pose proof (hi_slab _ _ _ _ _ _ _ Hinv) as Hs.
  pose proof (heap_inv_places _ _ _ _ _ _ _ Hinv p u Hp) as Hpl. unfold place_ok in Hpl.
  destruct u as [[c|n] q]; cbn in Hpl.
  - pose proof (slab_separated st _ _ _ _ _ _ Hs) as Hsep%separated_NoDup.
    rewrite !NoDup_app in Hsep. destruct Hsep as (_ & _ & _ & _ & _ & Hd & _). apply (Hd p Ho).
    apply elem_of_slab_headers. eauto.
  - destruct Hpl as (Hl & Hna & _). eapply range_no_block; [done..|]. eapply slab_rest; [done|].
    apply elem_of_app. by left.
Qed.

Lemma users_lists h live As ls gs others U p u :
  heap_inv h live As ls gs others U → U !! p = Some u → p ∉ concat ls ++ concat gs.
Proof.
  intros Hinv Hp Hin. pose proof (hi_slab _ _ _ _ _ _ _ Hinv) as Hs.
  pose proof (heap_inv_places _ _ _ _ _ _ _ Hinv p u Hp) as Hpl. unfold place_ok in Hpl.
  destruct u as [[c|n] q]; cbn in Hpl.
  - pose proof (slab_separated st _ _ _ _ _ _ Hs) as Hsep%separated_NoDup.
    rewrite app_assoc, NoDup_app in Hsep. destruct Hsep as (_ & Hd & _). apply (Hd p Hin).
    apply elem_of_app. right. apply elem_of_slab_headers. eauto.
  - destruct Hpl as (Hl & Hna & _). eapply range_no_block; [done..|]. by eapply slab_lists.
Qed.

Lemma delete_sub (U : users) p : delete p U ⊆ U.
Proof. apply delete_subseteq. Qed.

(** The client's block [p] is written; its description may change to another pointer into it. *)
Lemma heap_write h live As ls gs others U p u u' m' :
  heap_inv h live As ls gs others U → U !! p = Some u → ub_kind u' = ub_kind u →
  only_range (heap_mem h) m' p (extent u) → user_ok m' live As p u' →
  heap_to h As others (delete p U) (with_heap_mem h m') live As ls gs others (<[p := u']> U).
Proof.
  intros Hinv Hp Hk Ho Hok. pose proof Hinv as [Hs Hb Hu Hh].
  pose proof (Hu p u Hp) as Hup. pose proof (place_slot _ _ _ _ (uo_place _ _ _ _ _ Hup)) as Hsl.
  destruct (slab_slots _ _ _ _ _ _ Hs) as (Q1 & Q2 & Q3).
  assert (heap_frame (heap_mem h) m' As others (delete p U)) as Hf.
  { eapply slot_frame; try done; [by eapply others_fresh|apply lookup_delete_eq|].
    eapply map_Forall_delete, users_places, Hu. }
  assert (omap slab_class (<[p := u']> U) = omap slab_class U) as Hsc.
  { apply map_eq. intros q. rewrite !lookup_omap. destruct (decide (p = q)) as [<-|Hne].
    - rewrite lookup_insert_eq, Hp. cbn. unfold slab_class. by rewrite Hk.
    - by rewrite lookup_insert_ne. }
  split; [|apply grown_refl|done|done]. split; [| | |done].
  - unfold slab_headers. rewrite Hsc. eapply slab_write; try done; [by eapply users_lists|].
    intros _. change (c_mem (hp_call h)) with (heap_mem h).
    by rewrite (uo_class _ _ _ _ _ Hok), (uo_class _ _ _ _ _ Hup); unfold kind_class; rewrite Hk.
  - replace (bigs (<[p := u']> U)) with (bigs U); [done|]. apply map_eq. intros q. unfold bigs.
    rewrite !lookup_omap. destruct (decide (p = q)) as [<-|Hne].
    + rewrite lookup_insert_eq, Hp. cbn. unfold big_meta. by rewrite Hk.
    + by rewrite lookup_insert_ne.
  - rewrite <- insert_delete_eq. apply map_Forall_insert_2; [done|].
    eapply users_frame; [done|exact Hu|apply delete_sub|exact Hf].
Qed.

(** A block that was outside of the lists becomes the client's. *)
Lemma heap_take h live As ls gs others U p a q m' :
  heap_inv h live As ls gs (p :: others) U → a ∈ As → p ∈ arena_blocks a →
  only_range (heap_mem h) m' p (bsz (ar_class a)) → user_ok m' live As p (mkU (Slab (ar_class a)) q) →
  U !! p = None ∧
  heap_to h As others U (with_heap_mem h m') live As ls gs others (<[p := mkU (Slab (ar_class a)) q]> U).
Proof.
  intros Hinv Ha Hp Ho Hok. pose proof Hinv as [Hs Hb Hu Hh].
  destruct (slab_slots _ _ _ _ _ _ Hs) as (Q1 & Q2 & Q3).
  assert (slot live As p (bsz (ar_class a))) as Hsl by (left; eauto).
  assert (U !! p = None) as Hn.
  { destruct (U !! p) as [u|] eqn:E; [|done]. exfalso. eapply others_fresh; [done..|]. by left. }
  assert (p ∉ others) as Hpo.
  { pose proof (slab_separated st _ _ _ _ _ _ Hs) as Hsep%separated_NoDup.
    rewrite !NoDup_app in Hsep. cbn in Hsep. destruct Hsep as (_ & _ & _ & _ & Hnd & _).
    by apply NoDup_cons in Hnd as [? _]. }
  assert (heap_frame (heap_mem h) m' As others U) as Hf.
  { eapply slot_frame; try done. by eapply users_places. }
  split; [done|]. split; [|apply grown_refl|done|done]. split; [| | |done].
  - assert (others ++ slab_headers (<[p := mkU (Slab (ar_class a)) q]> U) ≡ₚ (p :: others) ++ slab_headers U) as Hperm.
    { rewrite slab_headers_insert by done. cbn. solve_Permutation. }
    assert (slab_inv st (with_mem (hp_call h) m') live As ls gs ((p :: others) ++ slab_headers U)) as Hs'.
    { eapply slab_write_rest; try done; [by left|]. cbn. rewrite (uo_class _ _ _ _ _ Hok).
      destruct (si_arenas _ _ _ _ _ _ _ Hs) as [_ _ Hm]. rewrite Forall_forall in Hm.
      pose proof (am_classes _ _ (Hm a Ha)) as Hcl. rewrite Forall_forall in Hcl. by rewrite (Hcl p Hp). }
    destruct Hs' as [T1 T2 T3 T4 T5 T6 T7 T8 T9 T10 T11]. split; try done. by rewrite Hperm.
  - by rewrite bigs_insert_slab.
  - apply map_Forall_insert_2; [done|]. eapply users_frame; [done|exact Hu|done|exact Hf].
Qed.

(** The client's block of a class leaves its hands. *)
Lemma heap_give h live As ls gs others U p c q m' :
  heap_inv h live As ls gs others U → U !! p = Some (mkU (Slab c) q) →
  only_range (heap_mem h) m' p (bsz c) → hget FClass m' p = hget FClass (heap_mem h) p →
  heap_to h As others (delete p U) (with_heap_mem h m') live As ls gs (p :: others) (delete p U).
Proof.
  intros Hinv Hp Ho Hcl. pose proof Hinv as [Hs Hb Hu Hh].
  pose proof (place_slot _ _ _ _ (uo_place _ _ _ _ _ (Hu p _ Hp))) as Hsl.
  destruct (slab_slots _ _ _ _ _ _ Hs) as (Q1 & Q2 & Q3).
  assert (heap_frame (heap_mem h) m' As others (delete p U)) as Hf.
  { eapply slot_frame; try done; [by eapply others_fresh|apply lookup_delete_eq|].
    eapply map_Forall_delete, users_places, Hu. }
  split; [|apply grown_refl|done|done]. split; [| | |done].
  - assert (slab_inv st (with_mem (hp_call h) m') live As ls gs (others ++ slab_headers U)) as Hs'.
    { eapply slab_write; try done. by eapply users_lists. }
    assert ((p :: others) ++ slab_headers (delete p U) ≡ₚ others ++ slab_headers U) as Hperm.
    { rewrite (slab_headers_delete U p c q Hp). cbn. solve_Permutation. }
    destruct Hs' as [T1 T2 T3 T4 T5 T6 T7 T8 T9 T10 T11]. split; try done. by rewrite Hperm.
  - by rewrite (bigs_delete_slab U p c q).
  - eapply users_frame; [done|exact Hu|apply delete_sub|exact Hf].
Qed.
End HeapInv.

#[global] Arguments ht_inv {_ _ _ _ _ _ _ _ _ _ _ _ _ _ _ _ _ _} _.
#[global] Arguments ht_grown {_ _ _ _ _ _ _ _ _ _ _ _ _ _ _ _ _ _} _.
#[global] Arguments ht_frame {_ _ _ _ _ _ _ _ _ _ _ _ _ _ _ _ _ _} _.
#[global] Arguments ht_ncpu {_ _ _ _ _ _ _ _ _ _ _ _ _ _ _ _ _ _} _.
#[global] Arguments hi_slab {_ _ _ _ _ _ _ _ _ _ _ _ _ _} _.
#[global] Arguments hi_big {_ _ _ _ _ _ _ _ _ _ _ _ _ _} _.
#[global] Arguments hi_user {_ _ _ _ _ _ _ _ _ _ _ _ _ _} _.
#[global] Arguments hi_hints {_ _ _ _ _ _ _ _ _ _ _ _ _ _} _.
#[global] Arguments heap_to_trans {_ _ _ _ _ _ _ _ _ _ _ _ _ _ _ _ _ _ _ _ _ _ _ _ _ _ _} _ _ _ _.
#[global] Arguments heap_to_aux {_ _ _ _ _ _ _ _ _ _ _ _ _ _ _ _ _ _ _} _ _ _.
