(* ===== verification/HeapFill.v ===== *)
(** * Refilling a thread's cache keeps the invariant of the heap

    [try_fill] takes a batch from the per-cpu lists or initialises new blocks, and
    [allocate_hot] hands one block out.  A result is a null pointer, which changes
    nothing that the client sees, or a block that was in no list. *)

From S2P Require Import Prelude Bits Lib Rng Segment HashMap Sys Radix SizeClass VaMap VaMapSpec VaLive.
From S2P Require Import Mem BlockList ThreadLocal Interconnect InterconnectSpec Bulk BulkSpec.
From S2P Require Import SlabInv SlabOps SlabFill Heap HeapInv.

(** The faults that an allocation can end with: no memory for the address map, no random
    bytes, or a reservation that is used up. *)
Definition alloc_fault (e : fault) : Prop :=
  e = Fatal VAIinitFailed ∨ e = Fatal SecurityViolation ∨ e = Fatal VaBitmapExhausted.

(** Also those of an insertion into the table of big allocations: the kernel refuses to map a
    larger table. *)
Definition alloc_end {B} `{BigMap B} (b : B) (e : fault) : Prop :=
  alloc_fault e ∨ e = Fatal OutOfMemory ∧ ¬ bmap_ready b.

Section HeapFill.
Context `{Config}.
Context {K : Type} `{LinuxKernel K}.
Context {B : Type} `{BigMap B}.
Context (st : Statics) (Hst : statics_ok st).

Abbreviation heap_inv := (heap_inv st).
Abbreviation heap_step := (heap_step st).
Abbreviation heap_to := (heap_to st).
Abbreviation heap_frame := (heap_frame st).

(** The cpus that the thread runs on exist. *)
Definition cpus_ok (am : Ambient) (h : Heap K B) : Prop :=
  0 ≤ unwrap_or_0 (get_cpu_id (am_pop_cpu am)) < icc_ncpu (c_icc (hp_call h)) ∧
  0 ≤ unwrap_or_0 (get_cpu_id (am_push_cpu am)) < icc_ncpu (c_icc (hp_call h)).

(** ** The hints *)

Lemma next_hint_bounds val up : BATCH_MIN ≤ next_hint val up ≤ BATCH_MAX.
Proof. unfold next_hint, clamp, saturating_sub, BATCH_MIN, BATCH_MAX. destruct up; lia. Qed.

Lemma bump_batch_hint_ok h live As ls gs others U class up :
  heap_inv h live As ls gs others U → 0 ≤ class < NUM_SIZE_CLASSES →
  ∃ hints, bump_batch_hint h class up = Ret (with_hints h hints) ∧
    heap_inv (with_hints h hints) live As ls gs others U.
Proof.
  intros [Hs Hb Hu [Hl Hh]] Hc. unfold bump_batch_hint.
  destruct (vget_in_bounds (BATCH_HINTS h) class) as (v & -> & Hv); [lia|]. rewrite bind_ret, vset_ok by lia.
  eexists. split; [done|]. split; try done. cbn. split; [by rewrite zlen_zinsert|].
  apply Forall_insert; [done|apply next_hint_bounds].
Qed.

(** ** Blocks in no list *)

(** [h'] is a heap with the invariant in which [p] is a free block of the class, in no list. *)
Definition got_block (h : Heap K B) (As : list arena) (others : list Z) (U : users) (class p : Z)
    (h' : Heap K B) : Prop :=
  ∃ live' As' ls' gs' a, heap_inv h' live' As' ls' gs' (p :: others) U ∧
    a ∈ As' ∧ p ∈ arena_blocks a ∧ ar_class a = class ∧ hget FMagic (heap_mem h') p = FREED_MAGIC st ∧
    (hardened = false → hget FNext (heap_mem h') p < 2 ^ 57) ∧
    grown As As' ∧ heap_frame (heap_mem h) (heap_mem h') As others U ∧
    icc_ncpu (c_icc (hp_call h')) = icc_ncpu (c_icc (hp_call h)).

(** Nothing that the client sees changed, nor the table of big blocks. *)
Definition null_step (h : Heap K B) (As : list arena) (others : list Z) (U : users) (h' : Heap K B) : Prop :=
  heap_step h As others U h' others U ∧ hp_big h' = hp_big h.

Lemma null_step_refl h live As ls gs others U : heap_inv h live As ls gs others U → null_step h As others U h.
Proof. intros Hinv. split; [|done]. exists live, As, ls, gs. by apply heap_to_refl. Qed.

Lemma null_step_trans h As others U h1 l1 A1 s1 g1 h2 :
  heap_to h As others U h1 l1 A1 s1 g1 others U → hp_big h1 = hp_big h → null_step h1 A1 others U h2 →
  null_step h As others U h2.
Proof. intros Hto Hb [Hs Hb2]. split; [by eapply heap_to_step|congruence]. Qed.

(** A null pointer, or a block. *)
Definition fill_result (h : Heap K B) (As : list arena) (others : list Z) (U : users) (class : Z)
    (r : Z * Heap K B) : Prop :=
  (r.1 = 0 ∧ null_step h As others U r.2) ∨
  (r.1 ≠ 0 ∧ got_block h As others U class r.1 r.2).

Lemma fill_result_trans h As others U class h1 l1 A1 s1 g1 r :
  heap_to h As others U h1 l1 A1 s1 g1 others U → hp_big h1 = hp_big h → fill_result h1 A1 others U class r →
  fill_result h As others U class r.
Proof.
  intros Hto Hb [[Hz Hs]|[Hz Hg]]; [left|right]; (split; [done|]).
  - by eapply null_step_trans.
  - destruct Hg as (l2 & A2 & s2 & g2 & a & Hinv & Ha & Hp & Hc & Hm & Hn & G1 & F1 & N1).
    exists l2, A2, s2, g2, a. destruct Hto as [P1 P2 P3 P4].
    do 6 (split; [done|]). split; [by eapply grown_trans|]. split; [by eapply heap_frame_trans|congruence].
Qed.

(** What an allocation gives: a null pointer, or a new block of at least [size] bytes. *)
Definition alloc_result (h : Heap K B) (As : list arena) (others : list Z) (U : users) (size : Z)
    (r : Z * Heap K B) : Prop :=
  (r.1 = 0 ∧ null_step h As others U r.2) ∨
  (0 < r.1 ∧ ∃ u, ub_ptr u = r.1 ∧ U !! (r.1 - HEADER_SIZE) = None ∧ size ≤ cap u ∧
     heap_step h As others U r.2 others (<[r.1 - HEADER_SIZE := u]> U)).

Lemma alloc_result_trans h As others U size h1 l1 A1 s1 g1 r :
  heap_to h As others U h1 l1 A1 s1 g1 others U → hp_big h1 = hp_big h → alloc_result h1 A1 others U size r →
  alloc_result h As others U size r.
Proof.
  intros Hto Hb [[Hz Hs]|(Hz & u & Hp & Hn & Hc & Hs)]; [left|right]; (split; [done|]).
  - by eapply null_step_trans.
  - exists u. do 3 (split; [done|]). by eapply heap_to_step.
Qed.

(** ** Popping *)

(** In the default build the link of the first block of a cache is an address or null. *)
Lemma slab_head_next c live As ls gs rest class x l :
  slab_inv st c live As ls gs rest → 0 ≤ class < NUM_SIZE_CLASSES → zlookup ls class = Some (x :: l) →
  hardened = false → hget FNext (c_mem c) x < 2 ^ 57.
Proof.
  intros Hinv Hc Hl Hh.
  destruct (engine_rep_bin _ _ _ class (si_engine _ _ _ _ _ _ _ Hinv) Hc) as (b & l' & _ & Hl' & He & _).
  simplify_eq. destruct He as (_ & _ & He). destruct l as [|y l]; [by rewrite He|].
  destruct He as (_ & -> & _). unfold xor_ptr_general. rewrite Hh.
  destruct (slab_block st _ _ _ _ _ _ y Hinv); [|lia].
  eapply (zlookup_heap st); [done|left; exact Hl|]. right. left.
Qed.

Lemma slab_typed_arena c live As ls gs rest class x :
  slab_inv st c live As ls gs rest → x ∈ heap_blocks As → hget FClass (c_mem c) x = class →
  ∃ a, a ∈ As ∧ x ∈ arena_blocks a ∧ ar_class a = class.
Proof.
  intros Hinv (a & Ha & Hx)%elem_of_heap_blocks Hcl. exists a. split; [done|]. split; [done|].
  destruct (si_arenas _ _ _ _ _ _ _ Hinv) as [_ _ Hm]. rewrite Forall_forall in Hm.
  pose proof (am_classes _ _ (Hm a Ha)) as Hf. rewrite Forall_forall in Hf. by rewrite <- (Hf x Hx).
Qed.

Lemma heap_pop h live As ls gs others U class :
  heap_inv h live As ls gs others U → 0 ≤ class < NUM_SIZE_CLASSES →
  ∃ p e', pop_from_thread (heap_mem h) (c_engine (hp_call h)) class = Ret (p, e') ∧
    fill_result h As others U class (p, with_call h (with_engine (hp_call h) e')) ∧
    (∀ x l, zlookup ls class = Some (x :: l) → p ≠ 0).
Proof.
  intros Hinv Hc. pose proof Hinv as [Hs Hb Hu Hh].
  destruct (slab_pop st _ _ _ _ _ _ class Hs Hc) as (e' & l & Hl & Hpop). destruct l as [|x l].
  - exists 0, (c_engine (hp_call h)). split; [done|]. split; [|intros x l; congruence].
    left. split; [done|]. replace (with_call h _) with h by (by destruct h as [[] ? ? ? ? ? ?]).
    by eapply null_step_refl.
  - destruct Hpop as (Hpop & [Ht1 Ht2] & Hs'). exists x, e'. split; [done|].
    assert (x ∈ heap_blocks As) as Hx.
    { apply (zlookup_heap st _ _ _ _ _ _ class (x :: l) Hs); [by left|by left]. }
    assert (x ≠ 0) as Hx0 by (destruct (slab_block st _ _ _ _ _ _ x Hs Hx); lia).
    split; [|done]. right. split; [done|].
    destruct (slab_typed_arena _ _ _ _ _ _ class x Hs Hx Ht1) as (a & Ha & Hxa & Hca).
    exists live, As, (zinsert ls class l), gs, a. split; [by split|]. do 4 (split; [done|]).
    split; [intros Hh0; by eapply (slab_head_next (hp_call h))|]. split; [apply grown_refl|]. split; [apply heap_frame_refl|done].
Qed.

(** ** A batch from the per-cpu lists *)

Lemma slab_ours c live As ls gs rest x :
  slab_inv st c live As ls gs rest → x ∈ heap_blocks As → va_is_ours (c_va c) x = Ret true.
Proof.
  intros Hinv (a & Ha & Hx)%elem_of_heap_blocks.
  destruct (slab_slots st _ _ _ _ _ _ Hinv) as (Q1 & Q2 & Q3).
  destruct (block_range _ _ _ _ Q1 Q2 _ _ Ha Hx) as (Hl & R1 & R2 & R3 & R4 & R5 & R6).
  change METADATA_SIZE with 32 in *.
  eapply (live_va_ours _ _ _ _ _ x Q1 Hl); [|zdiv]. destruct (HEADER_SIZE_cases _) as [E|E]; rewrite E in *; lia.
Qed.

(** The loop finds the last block of a plain chain. *)
Lemma chain_loop_spec (h : Heap K B) ws batch x t real fuel :
  enc_list (heap_mem h) 0 x ws → last ws = Some t →
  (∀ y, y ∈ ws → va_is_ours (c_va (hp_call h)) y = Ret true) →
  real + zlen ws - 1 ≤ batch → (length ws ≤ fuel)%nat →
  chain_loop fuel h batch x real = Ret (t, real + zlen ws - 1).
Proof.
  revert x real fuel. induction ws as [|y ws IH]; intros x real fuel He Ht Ho Hb Hf; [done|].
  destruct He as (Hok & -> & He). rewrite xor_ptr_general_plain. destruct Hok as (Hy & _).
  destruct ws as [|z ws].
  - injection Ht as <-. cbn in He. assert (zlen [y] = 1) as Hz by done. rewrite Hz in *.
    replace (real + 1 - 1) with real by lia.
    destruct fuel; cbn [chain_loop]; (destruct (real <? batch); [|done]);
      rewrite deref_ok, bind_ret by lia; by rewrite He.
  - assert (zlen (y :: z :: ws) = zlen (z :: ws) + 1) as Hz by (unfold zlen; cbn; lia). rewrite Hz in *.
    assert (1 ≤ zlen (z :: ws)) by (unfold zlen; cbn; lia).
    destruct fuel as [|fuel]; [cbn in Hf; lia|]. cbn [chain_loop].
    rewrite (proj2 (Z.ltb_lt real batch)) by lia. rewrite deref_ok, bind_ret by lia.
    pose proof He as ((Hz0 & _) & Hn & _). rewrite xor_ptr_general_plain in Hn. rewrite Hn.
    rewrite (proj2 (Z.eqb_neq z 0)) by lia. unfold heap_is_ours. rewrite Ho by (right; left). rewrite bind_ret.
    cbn [negb]. rewrite (IH z (real + 1) fuel).
    + f_equal. f_equal. lia.
    + by rewrite Hn in He.
    + done.
    + intros w Hw. apply Ho. by right.
    + lia.
    + cbn in Hf |- *. lia.
Qed.

(** The links of a plain chain, when its last one is cut. *)
Lemma chain_cut m ws x t :
  separated ws → enc_list m 0 x ws → last ws = Some t → linked (hput FNext m t 0) 0 ws.
Proof.
  intros Hs He Ht. rewrite <- (app_nil_r ws) in He. apply (enc_list_app _ _ _ _ _ t Ht) in He as (_ & _ & Hl & _).
  eapply linked_only_last; [done..|apply only_links_hput_one|done].
Qed.

(** A popped batch goes to the cache. *)
Lemma batch_to_cache c live As ls gs rest ws x t class :
  slab_inv st c live As ls gs (ws ++ rest) → 0 ≤ class < NUM_SIZE_CLASSES →
  head ws = Some x → last ws = Some t → enc_list (c_mem c) 0 x ws → Forall (typed st (c_mem c) class) ws →
  ∃ c' ls' y l, call_push_tailed (with_mem c (hput FNext (c_mem c) t 0)) class x t (zlen ws) = Ret c' ∧
    zlookup ls' class = Some (y :: l) ∧ call_ok st c live As rest c' ls' gs.
Proof.
  intros Hinv Hc Hx Ht He Hty.
  assert (ws ⊆ ws ++ rest) as Hsub by (intros z Hz; apply elem_of_app; by left).
  assert (ws ⊆ heap_blocks As) as Hwh by (intros z Hz; eapply slab_rest; eauto).
  assert (separated ws) as Hsw.
  { pose proof (slab_separated st _ _ _ _ _ _ Hinv) as Hsep. rewrite !separated_app in Hsep. tauto. }
  assert (t ∈ ws) as Htw by by apply last_Some_elem_of.
  assert (only_links (c_mem c) (hput FNext (c_mem c) t 0) ws) as Ho by by apply only_links_hput.
  pose proof (slab_links st _ _ _ _ _ _ _ ws Hinv Ho Hsub) as Hinv1.
  destruct (call_push_tailed_ok st (with_mem c (hput FNext (c_mem c) t 0)) live As ls gs ws rest class x t)
    as (c' & l & Hpush & Hlk & Hinv2 & Hf2 & Hi2 & Hk2 & Hp2); try done.
  { by eapply chain_cut. }
  { eapply (typed_links_all st c); [exact Hinv|exact Ho|done|done|done]. }
  destruct ws as [|y ws]; [done|].
  exists c', (zinsert ls class ((y :: ws) ++ l)), y, (ws ++ l). split; [done|]. split.
  { apply zlookup_zinsert_eq. by eapply zlookup_Some_lt. }
  exists live, As. split; [done|]. split; [apply extends_refl|]. split; [|by rewrite Hi2].
  eapply frame_trans; [|apply extends_refl|exact Hf2].
  eapply (frame_links (c_kernel c) (c_va c)); [apply Hinv|apply Hinv|exact Ho|done|].
  intros z Hr Hz. by apply (slab_disjoint st _ _ _ _ _ _ _ z Hinv).
Qed.

(** ** [try_fill] *)

(** The end of both branches: the hint moves and the cache is popped. *)
Lemma bump_pop h As others U class up h1 live1 As1 ls1 gs1 :
  heap_to h As others U h1 live1 As1 ls1 gs1 others U → hp_big h1 = hp_big h → 0 ≤ class < NUM_SIZE_CLASSES →
  ∃ r, (h ← bump_batch_hint h1 class up;
        '(p, e) ← pop_from_thread (heap_mem h) (c_engine (hp_call h)) class;
        Ret (p, with_call h (with_engine (hp_call h) e))) = Ret r ∧
    fill_result h As others U class r ∧ (∀ y l, zlookup ls1 class = Some (y :: l) → r.1 ≠ 0).
Proof.
  intros Hto Hbg Hc. destruct (bump_batch_hint_ok _ _ _ _ _ _ _ class up (ht_inv Hto) Hc)
    as (hints & -> & Hinv). rewrite bind_ret.
  destruct (heap_pop _ _ _ _ _ _ _ class Hinv Hc) as (p & e' & -> & Hr & Hne). rewrite bind_ret.
  eexists. split; [done|]. split; [|exact Hne].
  eapply fill_result_trans; [by eapply heap_to_aux|exact Hbg|exact Hr].
Qed.

Lemma fill_result_null h live As ls gs others U class :
  heap_inv h live As ls gs others U → fill_result h As others U class (0, h).
Proof. intros Hinv. left. split; [done|]. by eapply null_step_refl. Qed.

Lemma fill_tries_ok am n h live As ls gs others U class :
  heap_inv h live As ls gs others U → 0 ≤ class < NUM_SIZE_CLASSES → cpus_ok am h →
  post (fill_tries st am n h class) (fill_result h As others U class) alloc_fault.
Proof.
  revert h live As ls gs. induction n as [|n IH]; intros h live As ls gs Hinv Hc Ha; cbn [fill_tries].
  { by eapply fill_result_null. }
  destruct (bulk_fill_ok st Hst am _ _ _ _ _ _ class (hi_slab Hinv) Hc (proj2 Ha))
    as [(r & c' & ls' & gs' & -> & Hok & _)|[[-> | ->] | ->]]; [|cbn; unfold alloc_fault; auto..].
  rewrite bind_ret. destruct (heap_of_slab st _ _ _ _ _ _ _ _ _ _ _ Hinv Hok) as (live1 & As1 & Hto).
  destruct r as [[]|e].
  - destruct (heap_pop _ _ _ _ _ _ _ class (ht_inv Hto) Hc) as (p & e' & -> & Hr & _).
    rewrite bind_ret.
    destruct Hr as [[Hz [(l2 & A2 & s2 & g2 & Hto2) Hb2]]|[Hz Hgot]]; cbn [fst snd] in *.
    + destruct (bump_batch_hint_ok _ _ _ _ _ _ _ class true (ht_inv Hto2) Hc)
        as (hints & -> & Hinv3).
      left. split; [done|]. split; [exists l2, A2, s2, g2|exact Hb2].
      pose proof (heap_to_trans Hto Hto2 ltac:(done) ltac:(done)) as Ht.
      exact (heap_to_aux Ht Hinv3 eq_refl).
    + destruct Hgot as (l2 & A2 & s2 & g2 & a & Hinv2 & G1 & G2 & G3 & G4 & G5 & G6 & G7 & G8).
      destruct (bump_batch_hint_ok _ _ _ _ _ _ _ class true Hinv2 Hc) as (hints & -> & Hinv3).
      eapply fill_result_trans; [exact Hto|done|]. right. split; [done|]. by exists l2, A2, s2, g2, a.
  - eapply post_mono; [eapply IH; [apply Hto|done|]| |done].
    + unfold cpus_ok. by rewrite (ht_ncpu Hto).
    + intros r Hr. by eapply (fill_result_trans h).
Qed.

Lemma try_fill_ok am h live As ls gs others U class :
  heap_inv h live As ls gs others U → 0 ≤ class < NUM_SIZE_CLASSES → cpus_ok am h →
  post (try_fill st am h class) (fill_result h As others U class) alloc_fault.
Proof.
  intros Hinv Hc Ha. unfold try_fill. destruct (hi_hints Hinv) as [Hlen _].
  destruct (vget_in_bounds (BATCH_HINTS h) class) as (hint & -> & _); [lia|]. rewrite bind_ret.
  set (batch := clamp hint BATCH_MIN BATCH_MAX).
  assert (1 ≤ batch) as Hb by (unfold batch, clamp, BATCH_MIN, BATCH_MAX; lia).
  pose proof (hi_slab Hinv) as Hs.
  destruct (slab_pop_global st am _ _ _ _ _ _ class batch Hs Hb (conj (proj1 Ha) Hc))
    as [->|(x & ws & m' & icc' & gs' & -> & Hx0 & Hx & Hzw & He & Hty & Hs1 & Ho & Hn)]; rewrite bind_ret.
  - cbn [Z.eqb negb]. replace (with_call h _) with h by (by destruct h as [[] ? ? ? ? ? ?]).
    destruct (bump_batch_hint_ok _ _ _ _ _ _ _ class false Hinv Hc) as (hints & -> & Hinv1). rewrite bind_ret.
    eapply post_mono; [exact (fill_tries_ok am 3 (with_hints h hints) live As ls gs others U class Hinv1 Hc Ha)| |done].
    intros r Hr. eapply (fill_result_trans _ _ _ _ _ (with_hints h hints)); [|done|exact Hr].
    exact (heap_to_aux (heap_to_refl _ _ _ _ _ _ _ _ _ Hinv) Hinv1 eq_refl).
  - rewrite (proj2 (Z.eqb_neq x 0)) by lia. cbn [negb].
    set (c1 := with_global (hp_call h) m' icc' _) in *.
    destruct (last ws) as [t|] eqn:Ht; [|by apply last_None in Ht as ->].
    assert (ws ⊆ heap_blocks As) as Hwh.
    { intros z Hz. eapply (slab_rest st); [exact Hs1|]. apply elem_of_app. by left. }
    rewrite (chain_loop_spec (with_call h c1) ws batch x t 1); [|done|done| |lia|unfold zlen in Hzw; lia].
    2: { intros y Hy. cbn [hp_call with_call]. eapply slab_ours; [exact Hs1|auto]. }
    rewrite bind_ret. replace (1 + zlen ws - 1) with (zlen ws) by lia.
    assert (t ≠ 0) as Ht0.
    { destruct (slab_block st _ _ _ _ _ _ t Hs1); [|lia]. by apply Hwh, last_Some_elem_of. }
    rewrite deref_ok, bind_ret by done.
    destruct (batch_to_cache c1 live As ls gs' (others ++ slab_headers U) ws x t class)
      as (c2 & ls2 & y & l & Hpush & Hl & Hok2); try done.
    match goal with |- context [call_push_tailed ?c _ _ _ _] =>
      change c with (with_mem c1 (hput FNext (c_mem c1) t 0)) end.
    rewrite Hpush, bind_ret.
    assert (call_ok st (hp_call h) live As (others ++ slab_headers U) c2 ls2 gs') as Hok.
    { eapply (call_ok_step st (hp_call h) c1); [apply extends_refl| |done|exact Hok2].
      eapply (frame_links (c_kernel c1) (c_va c1)); [apply Hs1|apply Hs|exact Ho|done|].
      intros z Hr Hz. by apply (slab_disjoint st _ _ _ _ _ _ _ z Hs1). }
    destruct (heap_of_slab st _ _ _ _ _ _ _ _ _ _ _ Hinv Hok) as (live1 & As1 & Hto).
    destruct (bump_pop _ _ _ _ class (zlen ws =? batch) _ _ _ _ _ Hto eq_refl Hc) as (r & Hr & Hfr & _).
    match goal with |- post ?out _ _ => assert (out = Ret r) as -> by exact Hr end. exact Hfr.
Qed.
End HeapFill.
