(* ===== verification/HeapBig.v ===== *)
(** * Big allocations keep the invariant of the heap

    [big_malloc] gives the client a range of the address map of its own, entered in
    the table of big allocations; [big_free] takes both back. *)

From S2P Require Import Prelude Bits Lib Rng Segment HashMap Sys Radix SizeClass VaMap VaMapSpec VaLive.
From S2P Require Import Mem BlockList ThreadLocal Interconnect Bulk BulkSpec SlabInv SlabOps SlabFill.
From S2P Require Import Heap HeapInv HeapFill.

Section HeapBig.
Context `{Config}.
Context {K : Type} `{LinuxKernel K}.
Context {B : Type} `{BigMap B}.
Context (st : Statics) (Hst : statics_ok st).

Abbreviation heap_inv := (heap_inv st).
Abbreviation heap_step := (heap_step st).
Abbreviation heap_to := (heap_to st).

(** ** Ranges enter and leave the address map *)

(** The address map and the kernel change; the arenas and the client's blocks stay. *)
Lemma heap_remap h live live' As ls gs others U va' rng' (k' : K) :
  heap_inv h live As ls gs others U → live_inv k' va' live' → ar_ok rng' →
  (∀ a, a ∈ As → live' !! ar_base a = live !! ar_base a) → map_Forall (place_ok st live' As) U →
  heap_inv (with_call h (with_va (hp_call h) va' rng' k')) live' As ls gs others U.
Proof.
  intros [[Q1 Q2 Q3 Q4 Q5 Q6 Q7 Q8 Q9 Q10 Q11] Hb Hu Hh] Hl Hr Ha Hp.
  pose proof Q3 as [Hin Hnd Hm]. split; [|done| |done].
  - split; try done. split; [|done..]. rewrite Forall_forall in Hin. apply Forall_forall. intros a Haa.
    destruct (Hin a Haa). split; [by rewrite Ha|done..].
  - intros p u Hpu. apply (user_ok_same st (heap_mem h) _ live _ As); [done|by apply Hu|by apply Hp|done].
Qed.

(** Contents of a slot that is nobody's. *)
Lemma heap_write_free h live As ls gs others U p n m' :
  heap_inv h live As ls gs others U → slot live As p n → U !! p = None → (p ∉ heap_blocks As) →
  only_range (heap_mem h) m' p n →
  heap_to h As others U (with_heap_mem h m') live As ls gs others U.
Proof.
  intros Hinv Hs Hp Hb Ho. pose proof Hinv as [Hsl Hbg Hu Hh].
  destruct (slab_slots st _ _ _ _ _ _ Hsl) as (Q1 & Q2 & Q3).
  assert (heap_frame st (heap_mem h) m' As others U) as Hf.
  { eapply slot_frame; try done; [|by eapply users_places].
    intros Hin. apply Hb. eapply (slab_rest st); [done|]. apply elem_of_app. by left. }
  split; [|apply grown_refl|done|done]. split; [|done| |done].
  - eapply slab_write; try done. intros Hin. apply Hb. by eapply (slab_lists st).
  - by eapply users_frame.
Qed.

(** A range becomes a block of the client. *)
Lemma heap_add_big h live As ls gs others U p n q b :
  heap_inv h live As ls gs others U → U !! p = None →
  user_ok st (heap_mem h) live As p (mkU (Big n) q) → bmap_rep b (<[p := mkMeta n BIG_CLASS 0 0]> (bigs U)) →
  heap_inv (with_big h b) live As ls gs others (<[p := mkU (Big n) q]> U).
Proof.
  intros [Hs Hb Hu Hh] Hp Hok Hb'. split; [|by rewrite bigs_insert| |done].
  - by rewrite slab_headers_insert_big.
  - by apply map_Forall_insert_2.
Qed.

Lemma heap_drop_big h live As ls gs others U p n q b :
  heap_inv h live As ls gs others U → U !! p = Some (mkU (Big n) q) →
  bmap_rep b (delete p (bigs U)) → heap_inv (with_big h b) live As ls gs others (delete p U).
Proof.
  intros [Hs Hb Hu Hh] Hp Hb'. split; [|by rewrite bigs_delete|by apply map_Forall_delete|done].
  by rewrite (slab_headers_delete_big U p n q).
Qed.

(** A fresh range is no block. *)
Lemma heap_fresh h live As ls gs others U va' (k' : K) p s :
  heap_inv h live As ls gs others U → live !! p = None → live_inv k' va' (<[p := s]> live) →
  U !! p = None ∧ (p ∉ (ar_base <$> As)) ∧ (p ∉ heap_blocks As) ∧
  (∀ a, a ∈ As → <[p := s]> live !! ar_base a = live !! ar_base a) ∧
  map_Forall (place_ok st (<[p := s]> live) As) U.
Proof.
  intros Hinv Hp Hl. pose proof (hi_slab Hinv) as Hs.
  destruct (slab_slots st _ _ _ _ _ _ Hs) as (Q1 & Q2 & Q3). pose proof Q2 as Hin. rewrite Forall_forall in Hin.
  assert (∀ a, a ∈ As → p ≠ ar_base a) as Hne.
  { intros a Ha ->. pose proof (ai_live _ _ (Hin a Ha)). congruence. }
  assert (∀ a, a ∈ As → <[p := s]> live !! ar_base a = live !! ar_base a) as Hsame.
  { intros a Ha. apply lookup_insert_ne. by apply Hne. }
  assert (p ∉ (ar_base <$> As)) as Hnb.
  { intros (a & -> & Ha)%list_elem_of_fmap. by apply (Hne a). }
  assert (Forall (arena_in (<[p := s]> live)) As) as Hin'.
  { apply Forall_forall. intros a Ha. destruct (Hin a Ha). split; [by rewrite Hsame|done..]. }
  assert (p ∉ heap_blocks As) as Hnh.
  { intros (a & Ha & Hh)%elem_of_heap_blocks.
    destruct (block_range _ _ _ _ Hl Hin' _ _ Ha Hh) as (_ & _ & _ & _ & _ & R & _).
    pose proof (live_range _ _ _ _ _ Hl (lookup_insert_eq live p s)) as (_ & _ & R3 & _).
    destruct (HEADER_SIZE_cases _) as [E|E]; rewrite E in R;
      destruct (block_range_disjoint _ _ _ _ Hl Hin' a p p s Ha Hh); try done; try lia;
      apply lookup_insert_eq. }
  assert (map_Forall (place_ok st (<[p := s]> live) As) U) as Hpl.
  { intros q u Hq. pose proof (heap_inv_places st _ _ _ _ _ _ _ Hinv q u Hq) as Hpq.
    eapply place_grown; [apply grown_refl| |exact Hpq]. intros n Hk. split; [|done].
    unfold place_ok in Hpq. rewrite Hk in Hpq. destruct Hpq as (Hlq & _). apply lookup_insert_ne. congruence. }
  split; [|done]. destruct (U !! p) as [u|] eqn:E; [|done]. exfalso.
  pose proof (heap_inv_places st _ _ _ _ _ _ _ Hinv p u E) as Hpq. unfold place_ok in Hpq.
  destruct (ub_kind u) as [c|n].
  - destruct Hpq as (a & Ha & Hh & _). apply Hnh, elem_of_heap_blocks. eauto.
  - destruct Hpq as (Hlq & _). congruence.
Qed.

(** ** [big_malloc] *)

Lemma big_total_ok n : 0 ≤ n ≤ 2 ^ 32 → big_total st n = Ret (big_bytes st n).
Proof.
  intros Hn. unfold big_total, big_bytes. destruct (HEADER_SIZE_cases _) as [-> | ->]; checked;
    (destruct (OX_FORCE_THP st); [apply align_to_2M|apply align_to_4096]); unfold usize_max, u64_max; lia.
Qed.

Lemma hget_byte m h : hget FClass m h = m (h + off_class).
Proof. unfold hget. cbn. lia. Qed.

(** No header looks like the tag of an aligned block: its bytes there are a link, which is too
    small, or start with the class. *)
Lemma header_untagged m h c :
  hget FClass m h = c → 0 ≤ c < NUM_SIZE_CLASSES ∨ c = BIG_CLASS →
  (hardened = false → hget FNext m h < 2 ^ 57) → load 8 m (h + HEADER_SIZE - 16) ≠ OX_ALIGN_TAG.
Proof.
  rewrite hget_byte, OX_ALIGN_TAG_val. unfold HEADER_SIZE, off_class. intros Hc Hr Hn Ht.
  change NUM_SIZE_CLASSES with 34 in Hr. unfold BIG_CLASS in Hr. destruct hardened eqn:Hh.
  - replace (h + 32 - 16) with (h + 16) in Ht by lia. cbn [load] in Ht. rewrite Hc in Ht.
    rewrite Z.mul_comm in Ht. pose proof (f_equal (λ z, z mod 256) Ht) as Hm. cbn beta in Hm.
    rewrite Z.mod_add, Z.mod_small in Hm by lia. vm_compute in Hm. lia.
  - specialize (Hn eq_refl). unfold hget, field_off, field_width, off_next in Hn. rewrite Hh in Hn.
    replace (h + 16 - 16) with (h + 0) in Ht by lia. rewrite Ht in Hn. lia.
Qed.

(** What [big_pages] does to the memory. *)
Lemma big_pages_ok (h : Heap K B) hint total :
  0 < total → ∃ r k' m', big_pages h hint total = Ret (r, with_heap_mem (with_heap_kernel h k') m') ∧
    keeps (c_kernel (hp_call h)) k' ∧ (r = Some hint ∨ r = None) ∧
    only_range (heap_mem h) m' hint (blocks_bytes total).
Proof.
  intros Ht. unfold big_pages.
  destruct (protect_memory_spec hint total (Z.lor Prot_WRITE Prot_READ) (c_kernel (hp_call h)))
    as (r & k1 & -> & Hk1). rewrite bind_ret.
  destruct (is_err r).
  - destruct (mmap_fixed_spec hint total rw_fixed k1) as (r2 & k2 & Hm & Hk2 & Hfix); [by vm_compute|].
    cbn [c_kernel hp_call with_heap_kernel with_call with_kernel]. rewrite Hm, bind_ret.
    destruct r2 as [p|e].
    + rewrite (Hfix p eq_refl). exists (Some hint), k2, (zero_fill (heap_mem h) hint (page_round total)).
      split; [done|]. split; [by etrans|]. split; [by left|]. intros x Hx. unfold zero_fill.
      change (page_round total) with (blocks_bytes total).
      destruct (Z.leb_spec hint x), (Z.ltb_spec x (hint + blocks_bytes total)); cbn; try done; lia.
    + exists None, k2, (heap_mem h). split; [by destruct h as [[] ? ? ? ? ? ?]|].
      split; [by etrans|]. split; [by right|done].
  - exists (Some hint), k1, (heap_mem h). split; [by destruct h as [[] ? ? ? ? ? ?]|].
    split; [done|]. split; [by left|done].
Qed.

Lemma heap_kernel h live As ls gs others U (k : K) :
  heap_inv h live As ls gs others U → keeps (c_kernel (hp_call h)) k →
  heap_inv (with_heap_kernel h k) live As ls gs others U.
Proof. intros [Hs Hb Hu Hh] Hk. split; [by apply slab_kernel|done..]. Qed.

Lemma advise_huge_ok p total advice (k : K) : ∃ k', advise_huge p total advice k = Ret k' ∧ keeps k k'.
Proof.
  unfold advise_huge. destruct (total mod _ =? 0); [|by exists k].
  destruct (madvise_spec p total advice k) as (r & k' & -> & Hk). by exists k'.
Qed.

Lemma write_header_range m p hdr n : HEADER_SIZE ≤ n → only_range m (write_header m p hdr) p n.
Proof. intros Hn x Hx. apply write_header_outside. lia. Qed.

(** The header of a big block is written into its range. *)
Lemma big_user live As p n m :
  live !! p = Some (big_bytes st n) → (p ∉ (ar_base <$> As)) → 0 ≤ n ≤ 2 ^ 32 →
  user_ok st (write_header m p (mkOxHeader 0 BIG_CLASS (MAGIC st) 0)) live As p
    (mkU (Big n) (p + HEADER_SIZE)).
Proof.
  intros Hl Hna Hn. set (hdr := mkOxHeader 0 BIG_CLASS (MAGIC st) 0).
  assert (∀ f, fits_field f (hdr_field f hdr) → hget f (write_header m p hdr) p = hdr_field f hdr) as Hget.
  { intros f. apply hget_write_header. }
  assert (hget FClass (write_header m p hdr) p = BIG_CLASS) as Hcl by (by rewrite Hget).
  split; [done| |done|].
  - rewrite Hget; [done|apply Hst].
  - left. cbn [ub_ptr]. split; [done|].
    eapply header_untagged; [exact Hcl|by right|]. intros _. by rewrite Hget.
Qed.

Lemma big_malloc_ok am h live As ls gs others U size :
  heap_inv h live As ls gs others U → 0 ≤ size ≤ 2 ^ 32 →
  post (big_malloc st am h size) (alloc_result st h As others U size) (alloc_end (hp_big h)).
Proof.
  intros Hinv Hsz. unfold big_malloc. rewrite big_total_ok, bind_ret by done.
  pose proof (big_bytes_bounds st size (proj1 Hsz)) as Hbb.
  assert (1 ≤ big_bytes st size) as Hb1 by (destruct (HEADER_SIZE_cases _) as [E|E]; rewrite E in *; lia).
  pose proof (hi_slab Hinv) as Hs.
  destruct (live_alloc (am_buf am) (OX_MAX_RESERVATION st) (so_res _ Hst) (c_kernel (hp_call h))
    (c_va (hp_call h)) live (big_bytes st size) (c_rng (hp_call h)))
    as [(res & va' & ar' & k1 & -> & Har & Hk & Hres)|[-> | ->]];
    [apply Hs|apply Hs|done| | |cbn; unfold alloc_end, alloc_fault; auto..].
  { destruct (HEADER_SIZE_cases _) as [E|E]; rewrite E in *; unfold usize_max, u64_max, BLOCK_SIZE; lia. }
  rewrite bind_ret. destruct res as [p|].
  2: { left. split; [done|]. split; [|done]. exists live, As, ls, gs. split; [|apply grown_refl|apply heap_frame_refl|done].
       apply (heap_remap _ live live); try done. by eapply heap_inv_places. }
  destruct Hres as [Hp Hl']. pose proof (heap_fresh _ _ _ _ _ _ _ _ _ _ _ Hinv Hp Hl') as (HU & Hna & Hnh & Hsame & Hpl).
  pose proof (heap_remap _ _ _ _ _ _ _ _ va' ar' k1 Hinv Hl' Har Hsame Hpl) as Hinv1.
  set (h1 := with_call h (with_va (hp_call h) va' ar' k1)) in *.
  destruct (big_pages_ok h1 p (big_bytes st size)) as (r & k2 & m2 & -> & Hk2 & Hr & Hm2); [lia|].
  rewrite bind_ret. assert (slot (<[p := big_bytes st size]> live) As p (blocks_bytes (big_bytes st size))) as Hsl.
  { right. exists (big_bytes st size). split; [apply lookup_insert_eq|done]. }
  destruct Hr as [-> | ->].
  - destruct (advise_huge_ok p (big_bytes st size) Advice_HUGEPAGE k2) as (k3 & Hk3 & Hkk3).
    cbn [hp_call with_heap_mem with_heap_kernel with_call with_mem with_kernel c_kernel].
    rewrite Hk3, bind_ret.
    eapply post_bind.
    { eapply post_mono; [exact (bmap_insert_rep (hp_big h) (bigs U) p (mkMeta size BIG_CLASS 0 0) (hi_big Hinv))|
        intros b Hb; exact Hb|by right]. }
    intros b Hb.
    destruct (live_range _ _ _ _ _ Hl' (lookup_insert_eq live p (big_bytes st size))) as (R1 & R2 & R3 & R4).
    rewrite uadd_ok by (destruct (HEADER_SIZE_cases _) as [-> | ->]; unfold usize_max, u64_max; lia).
    rewrite bind_ret. right. cbn [fst snd]. split; [destruct (HEADER_SIZE_cases _) as [-> | ->]; lia|].
    exists (mkU (Big size) (p + HEADER_SIZE)). replace (p + HEADER_SIZE - HEADER_SIZE) with p by lia.
    split; [done|]. split; [done|]. split; [done|].
    assert (heap_inv (with_heap_kernel h1 k3) (<[p := big_bytes st size]> live) As ls gs others U) as Hinv2.
    { apply heap_kernel; [done|]. by etrans. }
    set (m3 := write_header m2 p (mkOxHeader 0 BIG_CLASS (MAGIC st) 0)).
    pose proof (heap_write_free _ _ _ _ _ _ _ p _ m3 Hinv2 Hsl HU Hnh) as Hto.
    destruct Hto as [T1 T2 T3 T4].
    { eapply only_range_trans; [exact Hm2|]. apply write_header_range. pose proof (blocks_bytes_bounds (big_bytes st size)). lia. }
    exists (<[p := big_bytes st size]> live), As, ls, gs. split; [|exact T2|exact T3|exact T4].
    refine (heap_add_big _ _ _ _ _ _ _ p size _ b T1 HU _ Hb). apply big_user; [apply lookup_insert_eq|done|done].
  - cbn [hp_call with_heap_mem with_heap_kernel with_call with_mem with_kernel c_va].
    destruct (live_free k2 va' (<[p := big_bytes st size]> live) p (big_bytes st size)) as (va2 & Hfree & Hl2);
      [by eapply live_keeps|apply lookup_insert_eq|].
    change (c_va (hp_call h1)) with va'. rewrite Hfree, bind_ret. rewrite delete_insert_id in Hl2 by done.
    left. split; [done|]. split; [|done].
    assert (heap_inv (with_heap_kernel h1 k2) (<[p := big_bytes st size]> live) As ls gs others U) as Hinv2 by by apply heap_kernel.
    destruct (heap_write_free _ _ _ _ _ _ _ p _ m2 Hinv2 Hsl HU Hnh Hm2) as [T1 T2 T3 T4].
    exists live, As, ls, gs. split; [|exact T2|exact T3|exact T4].
    refine (heap_remap _ _ live As ls gs others U va2 ar' k2 T1 Hl2 Har _ _).
    + intros a Ha. by rewrite Hsame.
    + by eapply heap_inv_places.
Qed.

(** ** [big_free] *)

Lemma wrapping_sub_header p : 0 ≤ p → p + HEADER_SIZE < 2 ^ 64 → wrapping_sub64 (p + HEADER_SIZE) HEADER_SIZE = p.
Proof. intros Hp Hl. unfold wrapping_sub64. replace (p + HEADER_SIZE - HEADER_SIZE) with p by lia.
  apply wrap64_small. unfold word64. destruct (HEADER_SIZE_cases _) as [E|E]; rewrite E in *; lia. Qed.

Lemma zero_fill_range m p len n : len ≤ n → only_range m (zero_fill m p len) p n.
Proof.
  intros Hl x Hx. unfold zero_fill. destruct (Z.leb_spec p x), (Z.ltb_spec x (p + len)); cbn; try done; lia.
Qed.

Lemma hput_range f m p v n : HEADER_SIZE ≤ n → only_range m (hput f m p v) p n.
Proof. intros Hn x Hx. apply hput_outside. lia. Qed.

(** A range leaves the address map. *)
Lemma heap_release h live As ls gs others U p s va' :
  heap_inv h live As ls gs others U → live !! p = Some s → (p ∉ (ar_base <$> As)) → U !! p = None →
  live_inv (c_kernel (hp_call h)) va' (delete p live) →
  heap_inv (with_call h (with_va (hp_call h) va' (c_rng (hp_call h)) (c_kernel (hp_call h)))) (delete p live) As ls gs others U.
Proof.
  intros Hinv Hp Hna HU Hl. eapply heap_remap; [done|done|apply (hi_slab Hinv)| |].
  - intros a Ha. apply lookup_delete_ne. intros ->. apply Hna. by apply list_elem_of_fmap_2.
  - intros q u Hq. eapply place_grown; [apply grown_refl| |by eapply heap_inv_places].
    intros n Hk. split; [|done]. apply lookup_delete_ne. congruence.
Qed.

Lemma big_free_ok h live As ls gs others U p n q :
  heap_inv h live As ls gs others U → U !! p = Some (mkU (Big n) q) →
  ∃ h', big_free st h (p + HEADER_SIZE) = Ret h' ∧ heap_step h As others (delete p U) h' others (delete p U).
Proof.
  intros Hinv Hp. pose proof (hi_slab Hinv) as Hs. destruct (slab_slots st _ _ _ _ _ _ Hs) as (Q1 & Q2 & Q3).
  pose proof (heap_inv_places st _ _ _ _ _ _ _ Hinv p _ Hp) as Hpl.
  pose proof (place_slot st _ _ _ _ Hpl) as Hsl.
  pose proof (place_cap st _ _ _ _ Q2 Hpl) as [_ Hcap]. destruct Hpl as (Hl & Hna & Hn). cbn in Hsl, Hcap.
  destruct (live_range _ _ _ _ _ Q1 Hl) as (R1 & R2 & R3 & R4).
  unfold big_free. rewrite wrapping_sub_header by (destruct (HEADER_SIZE_cases _) as [E|E]; rewrite ?E; lia).
  destruct (bmap_remove_rep (hp_big h) (bigs U) p (hi_big Hinv)) as (b & Hrem & Hb).
  assert (bigs U !! p = Some (mkMeta n BIG_CLASS 0 0)) as Hbp by (unfold bigs; by rewrite lookup_omap, Hp).
  rewrite Hrem, bind_ret, Hbp. cbn [meta_size]. rewrite big_total_ok, bind_ret by done.
  pose proof (heap_drop_big _ _ _ _ _ _ _ _ _ _ b Hinv Hp Hb) as Hinv1.
  cbn [hp_call with_big c_kernel].
  destruct (advise_huge_ok p (big_bytes st n) Advice_NORMAL (c_kernel (hp_call h))) as (k1 & -> & Hk1). rewrite bind_ret.
  destruct (madvise_spec p (big_bytes st n) Advice_DONTNEED k1) as (r2 & k2 & -> & Hk2). rewrite bind_ret.
  cbn [hp_call with_heap_mem with_heap_kernel with_call with_big with_mem with_kernel c_kernel c_mem].
  destruct (protect_memory_spec p (big_bytes st n) Prot_NONE k2) as (r3 & k3 & -> & Hk3). rewrite bind_ret.
  destruct (live_free k3 (c_va (hp_call h)) live p (big_bytes st n)) as (va2 & Hfree & Hl2); [|done|].
  { eapply live_keeps; [|apply Hs]. etrans; [exact Hk1|]. by etrans. }
  cbn [hp_call with_heap_mem with_heap_kernel with_call with_big with_mem with_kernel c_kernel c_mem c_va].
  rewrite Hfree, bind_ret.
  set (m' := zero_fill _ p _). eexists. split; [done|].
  assert (heap_inv (with_heap_kernel (with_big h b) k3) live As ls gs others (delete p U)) as Hinv2.
  { apply heap_kernel; [done|]. etrans; [exact Hk1|]. by etrans. }
  destruct (heap_write_free _ _ _ _ _ _ _ p _ m' Hinv2 Hsl) as [T1 T2 T3 T4].
  { apply lookup_delete_eq. }
  { by eapply (range_no_block st). }
  { eapply only_range_trans; [|apply zero_fill_range; lia].
    apply hput_range. destruct (HEADER_SIZE_cases _) as [E|E]; rewrite E in *; lia. }
  exists (delete p live), As, ls, gs. split; [|exact T2|exact T3|exact T4].
  refine (heap_release _ live As ls gs others (delete p U) p _ va2 T1 Hl Hna (lookup_delete_eq _ _) Hl2).
Qed.
End HeapBig.
