(* ===== verification/HeapSpec.v ===== *)
(** * What [malloc], [free] and [malloc_usable_size] do

    Each is one step of the heap: an allocation adds a block, at an address that
    the client does not hold, and changes no byte of the others; a release removes
    the block that the pointer belongs to, for the pointer of [malloc] and for an
    aligned pointer into the block alike. *)

From S2P Require Import Prelude Bits Lib Rng Segment HashMap Sys Radix SizeClass VaMap VaMapSpec VaLive.
From S2P Require Import Mem BlockList ThreadLocal Interconnect InterconnectSpec Bulk BulkSpec.
From S2P Require Import SlabInv SlabOps SlabFill Heap HeapInv HeapFill HeapBig.

Section HeapSpec.
Context `{Config}.
Context {K : Type} `{LinuxKernel K}.
Context {B : Type} `{BigMap B}.
Context (st : Statics) (Hst : statics_ok st).

Abbreviation heap_inv := (heap_inv st).
Abbreviation heap_step := (heap_step st).
Abbreviation heap_to := (heap_to st).

(** ** [malloc] *)

(** A free block is handed out: its magic is set, and in the hardened build its link cleared. *)
Definition hand_out (m : mem) (p : Z) : mem :=
  hput FMagic (if hardened then hput FNext m p 0 else m) p (MAGIC st).

Lemma hand_out_user live As a p m :
  a ∈ As → p ∈ arena_blocks a → 0 ≤ ar_class a < NUM_SIZE_CLASSES → hget FClass m p = ar_class a →
  (hardened = false → hget FNext m p < 2 ^ 57) →
  user_ok st (hand_out m p) live As p (mkU (Slab (ar_class a)) (p + HEADER_SIZE)).
Proof.
  intros Ha Hp Hc Hcl Hn. unfold hand_out.
  assert (hget FClass (hput FMagic (if hardened then hput FNext m p 0 else m) p (MAGIC st)) p = ar_class a) as Hcl'.
  { rewrite hget_hput_field by done. destruct hardened; [by rewrite hget_hput_field|done]. }
  split; [exists a; done|apply hget_hput_eq, Hst|done|].
  left. split; [done|]. cbn [ub_ptr]. eapply header_untagged; [exact Hcl'|by left|].
  intros Hh. rewrite hget_hput_field by done. rewrite Hh. by apply Hn.
Qed.

Lemma hand_out_range m p n : HEADER_SIZE ≤ n → only_range m (hand_out m p) p n.
Proof.
  intros Hn. unfold hand_out. eapply only_range_trans; [|by apply hput_range].
  destruct hardened; [by apply hput_range|done].
Qed.

(** A block of a class becomes the client's. *)
Lemma got_block_take h As others U class p h1 :
  0 < p → got_block st h As others U class p h1 →
  va_is_ours (c_va (hp_call h1)) p = Ret true ∧ hget FMagic (heap_mem h1) p = FREED_MAGIC st ∧
  p + HEADER_SIZE ≤ usize_max ∧
  alloc_result st h As others U (class_size class) (p + HEADER_SIZE, with_heap_mem h1 (hand_out (heap_mem h1) p)).
Proof.
  intros Hp0 (l1 & A1 & s1 & g1 & a & Hinv & Ha & Hp & Hc & Hm & Hn & G & F & N).
  pose proof (hi_slab Hinv) as Hs. destruct (slab_slots st _ _ _ _ _ _ Hs) as (Q1 & Q2 & Q3).
  pose proof Q2 as Hin. rewrite Forall_forall in Hin. pose proof (ai_class _ _ (Hin a Ha)) as Hac.
  destruct (block_range _ _ _ _ Q1 Q2 _ _ Ha Hp) as (_ & _ & _ & _ & _ & R5 & R6).
  assert (hget FClass (heap_mem h1) p = ar_class a) as Hcl.
  { destruct (si_arenas _ _ _ _ _ _ _ Hs) as [_ _ Hmm]. rewrite Forall_forall in Hmm.
    pose proof (am_classes _ _ (Hmm a Ha)) as Hf. rewrite Forall_forall in Hf. by apply Hf. }
  split; [eapply (slab_ours st); [exact Hs|]; apply elem_of_heap_blocks; eauto|]. split; [done|].
  split; [unfold usize_max, u64_max; lia|]. right. cbn [fst snd].
  split; [destruct (HEADER_SIZE_cases _) as [-> | ->]; lia|].
  destruct (heap_take st h1 _ _ _ _ _ _ p a (p + HEADER_SIZE) _ Hinv Ha Hp
    (hand_out_range _ _ _ (Z.lt_le_incl _ _ R5)) (hand_out_user _ _ _ _ _ Ha Hp Hac Hcl Hn)) as (HU & Hto).
  exists (mkU (Slab (ar_class a)) (p + HEADER_SIZE)). replace (p + HEADER_SIZE - HEADER_SIZE) with p by lia.
  split; [done|]. split; [done|]. split; [by rewrite <- Hc|].
  destruct Hto as [T1 T2 T3 T4]. exists l1, A1, s1, g1.
  split; [done|by eapply grown_trans| |congruence]. eapply heap_frame_trans; [exact F|done|exact T3|done|done].
Qed.

Lemma heap_flags h live As ls gs others U hot total spawned :
  heap_inv h live As ls gs others U → heap_inv (with_flags h hot total spawned) live As ls gs others U.
Proof. intros [Hs Hb Hu Hh]. by split. Qed.

Lemma alloc_null h live As ls gs others U size :
  heap_inv h live As ls gs others U → alloc_result st h As others U size (0, h).
Proof. intros Hinv. left. split; [done|]. by eapply null_step_refl. Qed.

Lemma allocate_hot_ok am h live As ls gs others U class :
  heap_inv h live As ls gs others U → 0 ≤ class < NUM_SIZE_CLASSES → cpus_ok am h →
  post (allocate_hot st am h class) (alloc_result st h As others U (class_size class)) alloc_fault.
Proof.
  intros Hinv Hc Ha. unfold allocate_hot.
  destruct (heap_pop st _ _ _ _ _ _ _ class Hinv Hc) as (p & e' & -> & Hr & _). rewrite bind_ret.
  apply (post_bind _ _ (fill_result st h As others U class)).
  { destruct (Z.eqb_spec p 0) as [->|Hp]; [|done].
    destruct Hr as [[_ [(l1 & A1 & s1 & g1 & Hto) Hb]]|[? _]]; [|done]. cbn [fst snd] in Hto, Hb.
    eapply post_mono; [eapply (try_fill_ok st Hst am); [apply Hto|done|]| |done].
    - unfold cpus_ok. by rewrite (ht_ncpu Hto).
    - intros r Hr. by eapply (fill_result_trans st h). }
  intros [q h1] Hq. destruct Hq as [[Hz Hstep]|[Hz Hgot]]; cbn [fst snd] in *.
  { subst q. cbn. by left. }
  rewrite (proj2 (Z.eqb_neq q 0)) by done.
  assert (0 < q) as Hq0.
  { destruct Hgot as (l1 & A1 & s1 & g1 & a & Hinv1 & Ga & Gp & _).
    destruct (slab_block st _ _ _ _ _ _ q (hi_slab Hinv1)); [|lia]. apply elem_of_heap_blocks. eauto. }
  destruct (got_block_take _ _ _ _ _ _ _ Hq0 Hgot) as (Hours & Hm & Hle & Hres).
  unfold hand_out in Hres. destruct hardened.
  - unfold heap_is_ours. rewrite Hours, bind_ret. cbn [negb]. unfold validate_ptr. rewrite deref_ok, bind_ret by lia.
    rewrite Hm. rewrite (Z.eqb_refl (FREED_MAGIC st)). cbn [negb]. rewrite andb_false_r, bind_ret, bind_ret.
    rewrite uadd_ok, bind_ret by lia. exact Hres.
  - rewrite bind_ret, uadd_ok, bind_ret by lia. exact Hres.
Qed.

Lemma allocate_class_ok am h live As ls gs others U class :
  heap_inv h live As ls gs others U → 0 ≤ class < NUM_SIZE_CLASSES → cpus_ok am h →
  post (allocate_class st am h class) (alloc_result st h As others U (class_size class)) alloc_fault.
Proof.
  intros Hinv Hc Ha. unfold allocate_class. destruct (HOT_READY h); [by eapply allocate_hot_ok|].
  unfold allocate_boot_segment.
  assert (∃ a b c, boot_accounting h = with_flags h a b c) as (b1 & b2 & b3 & ->).
  { unfold boot_accounting. destruct h as [c b hints hot total sp e]. cbn.
    destruct (total <? 1024); [by eexists _, _, _|]. destruct sp; by eexists _, _, _. }
  eapply post_mono; [eapply (allocate_hot_ok am); [by apply heap_flags|done|exact Ha]| |done].
  intros r Hr. eapply (alloc_result_trans st _ _ _ _ _ (with_flags h b1 b2 b3)); [|done|exact Hr].
  exact (heap_to_aux (heap_to_refl st _ _ _ _ _ _ _ _ Hinv) (heap_flags _ _ _ _ _ _ _ _ _ _ Hinv) eq_refl).
Qed.

Lemma alloc_result_mono h As others U n n' r :
  n' ≤ n → alloc_result st h As others U n r → alloc_result st h As others U n' r.
Proof.
  intros Hn [Hz|(Hz & u & Hp & HU & Hc & Hs)]; [by left|right]. split; [done|].
  exists u. split; [done|]. split; [done|]. split; [lia|done].
Qed.

(** A size that has a class, and a size that has none. *)
Lemma malloc_class_ok am h live As ls gs others U size :
  heap_inv h live As ls gs others U → 0 < size ≤ 2097152 → cpus_ok am h →
  post (malloc st am h size) (alloc_result st h As others U size) alloc_fault.
Proof.
  intros Hinv Hsz Ha. unfold malloc.
  assert (∀ class, fits size class → post (allocate_class st am h class) (alloc_result st h As others U size) alloc_fault) as Hclass.
  { intros class Hf. pose proof (fits_range _ _ Hf) as Hc. destruct Hf as (payload & Hp & Hle & _). eapply post_mono; [by eapply allocate_class_ok| |done].
    intros r. apply alloc_result_mono. unfold class_size. by rewrite Hp. }
  destruct ((size <=? 4096) && (0 <? size)) eqn:E.
  { apply andb_true_iff in E as [E1%Z.leb_le E2%Z.ltb_lt].
    destruct (match_small size ltac:(lia)) as (c & Hm & Hf). unfold match_size_class in Hm.
    rewrite (proj2 (Z.eqb_neq size 0)), (proj2 (Z.ltb_ge 2097152 size)) in Hm by lia. cbn [orb] in Hm.
    rewrite (proj2 (Z.leb_le size 4096)), (proj2 (Z.ltb_lt 0 size)) in Hm by lia. cbn [andb] in Hm.
    rewrite usub_ok, bind_ret in Hm by lia.
    destruct (zlookup SIZE_LUT (shr64 (size - 1) 4)) as [c'|]; [|done]. injection Hm as ->. by apply Hclass. }
  rewrite (proj2 (Z.ltb_ge _ size)) by lia. pose proof (match_size_class_spec size ltac:(lia)) as Hm.
  rewrite (proj2 (Z.eqb_neq size 0)), (proj2 (Z.ltb_ge 2097152 size)) in Hm by lia. cbn [orb] in Hm.
  destruct Hm as (c & -> & Hf). rewrite bind_ret. by apply Hclass.
Qed.

Lemma malloc_ok am h live As ls gs others U size :
  heap_inv h live As ls gs others U → 0 ≤ size → cpus_ok am h →
  post (malloc st am h size) (alloc_result st h As others U size) (alloc_end (hp_big h)).
Proof.
  intros Hinv Hsz Ha. destruct (decide (0 < size ≤ 2097152)) as [Hc|Hc].
  { eapply post_mono; [by eapply malloc_class_ok|done|by left]. }
  unfold malloc. assert ((size <=? 4096) && (0 <? size) = false) as ->.
  { apply andb_false_iff. rewrite Z.leb_gt, Z.ltb_ge. lia. }
  destruct (Z.ltb_spec (1024 * 1024 * 1024 * 3) size) as [Hbig|Hsmall].
  { assert (heap_inv (with_errno h NOMEM) live As ls gs others U) as Hinv' by (destruct Hinv; by split).
    left. split; [done|]. split; [|done]. exists live, As, ls, gs.
    exact (heap_to_aux (heap_to_refl st _ _ _ _ _ _ _ _ Hinv) Hinv' eq_refl). }
  pose proof (match_size_class_spec size Hsz) as Hm.
  assert ((size =? 0) || (2097152 <? size) = true) as E by (apply orb_true_iff; rewrite Z.eqb_eq, Z.ltb_lt; lia).
  rewrite E in Hm. rewrite Hm, bind_ret. unfold allocate_cold. eapply big_malloc_ok; try done. lia.
Qed.

(** ** The pointers of the client *)

(** Facts about a block that the client holds. *)
Lemma user_facts h live As ls gs others U p u :
  heap_inv h live As ls gs others U → U !! p = Some u →
  user_ok st (heap_mem h) live As p u ∧ 0 < p ∧ p mod 16 = 0 ∧ 0 ≤ cap u ∧ HEADER_SIZE + cap u ≤ extent st u ∧
  HEADER_SIZE < extent st u ∧ p + extent st u ≤ 2 ^ 57 ∧
  (∃ b s, live !! b = Some s ∧ b ≤ p ∧ p + extent st u ≤ b + blocks_bytes s).
Proof.
  intros Hinv Hp. pose proof (hi_user Hinv p u Hp) as Hu.
  destruct (slab_slots st _ _ _ _ _ _ (hi_slab Hinv)) as (Q1 & Q2 & Q3).
  pose proof (uo_place _ _ _ _ _ _ Hu) as Hpl. destruct (place_cap st _ _ _ _ Q2 Hpl) as [Hc0 Hc1].
  destruct (slot_range _ _ _ _ Q1 Q2 _ _ (place_slot st _ _ _ _ Hpl)) as (Hr & R1 & R2 & R3 & R4). done.
Qed.

Lemma user_ours h live As ls gs others U p u x :
  heap_inv h live As ls gs others U → U !! p = Some u → p ≤ x < p + extent st u → x mod 8 = 0 →
  heap_is_ours h x = Ret true.
Proof.
  intros Hinv Hp Hx Hm.
  destruct (user_facts _ _ _ _ _ _ _ _ _ Hinv Hp) as (_ & _ & _ & _ & _ & _ & _ & b & s & Hb & B1 & B2).
  destruct (slab_slots st _ _ _ _ _ _ (hi_slab Hinv)) as (Q1 & _ & _).
  eapply live_va_ours; [exact Q1|exact Hb|lia|done].
Qed.

Lemma wrapping_sub_small x n : 0 ≤ n ≤ x → x < 2 ^ 64 → wrapping_sub64 x n = x - n.
Proof. intros. unfold wrapping_sub64. apply wrap64_small. unfold word64. lia. Qed.

(** Every pointer that the client holds is recognised, and leads to its block. *)
Lemma user_ptr h live As ls gs others U p u :
  heap_inv h live As ls gs others U → U !! p = Some u →
  heap_is_ours h (ub_ptr u) = Ret true ∧ ub_ptr u ≠ 0 ∧ original_ptr h (ub_ptr u) = Ret (p + HEADER_SIZE).
Proof.
  intros Hinv Hp.
  destruct (user_facts _ _ _ _ _ _ _ _ _ Hinv Hp) as (Hu & F1 & F2 & F3 & F4 & F5 & F6 & _).
  assert (16 ≤ HEADER_SIZE ∧ HEADER_SIZE mod 16 = 0) as [Hhs Hhm] by (by destruct (HEADER_SIZE_cases _) as [-> | ->]).
  assert ((p + HEADER_SIZE) mod 8 = 0) as Hm8 by (destruct (HEADER_SIZE_cases _) as [E|E]; rewrite E in *; zdiv).
  assert (heap_is_ours h (p + HEADER_SIZE) = Ret true) as Hraw.
  { eapply user_ours; [done|done|lia|done]. }
  unfold original_ptr, TAG_SIZE, OFFSET_SIZE. change (8 * 2) with 16.
  destruct (uo_ptr _ _ _ _ _ _ Hu) as [(E & Ht)|(Hr & Hm & Ht & Hl)].
  - rewrite E in *. rewrite wrapping_sub_small by lia. rewrite (proj2 (Z.eqb_neq _ _) Ht).
    split; [done|]. split; [lia|done].
  - rewrite !wrapping_sub_small by lia. rewrite Ht, Z.eqb_refl, Hl, Hraw, bind_ret.
    split; [eapply user_ours; [done|done|lia|done]|]. split; [lia|done].
Qed.

(** Writing to the part of a block that the client may use. *)
Lemma heap_payload_write h live As ls gs others U p u m' :
  heap_inv h live As ls gs others U → U !! p = Some u → only_range (heap_mem h) m' (ub_ptr u) (usable p u) →
  heap_to h As others (delete p U) (with_heap_mem h m') live As ls gs others U.
Proof.
  intros Hinv Hp Ho. destruct (user_facts _ _ _ _ _ _ _ _ _ Hinv Hp) as (Hu & F1 & F2 & F3 & F4 & F5 & F6 & _).
  pose proof (ptr_ok_range _ _ _ (uo_ptr _ _ _ _ _ _ Hu) F3) as Hr. unfold usable in Ho.
  assert (∀ b k, p ≤ b → b + Z.of_nat k ≤ ub_ptr u → load k m' b = load k (heap_mem h) b) as Hl.
  { intros b k Hb Hk. eapply (same_on_load _ _ p (ub_ptr u - p)); [|lia..]. intros x Hx. apply Ho. lia. }
  assert (∀ f, hget f m' p = hget f (heap_mem h) p) as Hg.
  { intros f. pose proof (field_inside f). apply Hl; lia. }
  pose proof (HEADER_SIZE_cases _) as Hhs.
  rewrite <- (insert_id U p u Hp) at 2. apply (heap_write st h live As ls gs others U p u u m' Hinv Hp eq_refl).
  - eapply only_range_mono; [| |exact Ho]; lia.
  - destruct Hu as [U1 U2 U3 U4]. split; [done|by rewrite Hg..|].
    unfold ptr_ok in *. destruct U4 as [(E & Ht)|(E & Hm & Ht & Hw)]; [left|right]; rewrite ?Hl by lia; done.
Qed.

(** ** [free] *)

(** What the block's header holds when it is put into a list. *)
Definition retire (m : mem) (p : Z) : mem :=
  hput FLifeTime (hput FMagic m p (FREED_MAGIC st)) p (Bulk.OX_CURRENT_STAMP st).

Lemma retire_typed m p c : hget FClass m p = c → typed st (retire m p) c p.
Proof.
  intros Hc. unfold typed, retire. rewrite !hget_hput_field by done. split; [done|].
  rewrite hget_hput_eq; [done|apply Hst].
Qed.

(** A block that leaves the rest is in a list. *)
Lemma put_in_list c c' live live' As As' ls ls' gs gs' p rest :
  slab_inv st c live As ls gs (p :: rest) → slab_inv st c' live' As' ls' gs' rest → grown As As' →
  p ∈ concat ls' ++ concat gs'.
Proof.
  intros Hinv Hinv' Hg. assert (p ∈ heap_blocks As) as Hp by (eapply (slab_rest st); [done|left]).
  apply elem_of_heap_blocks in Hp as (a & Ha & Hpa). destruct (Hg a Ha) as (a' & Ha' & Hb & Hc & Hn).
  assert (p ∈ heap_blocks As') as Hp' by (apply elem_of_heap_blocks; exists a'; split; [done|by eapply arena_blocks_mono]).
  rewrite (si_blocks _ _ _ _ _ _ _ Hinv'), app_assoc, elem_of_app in Hp'. destruct Hp' as [?|Hr]; [done|exfalso].
  by apply (slab_disjoint st c live As ls gs [p] rest p Hinv Hr); left.
Qed.

(** A block in no list goes to the thread's cache or to a per-cpu list. *)
Lemma put_block am h live As ls gs others U p class :
  heap_inv h live As ls gs (p :: others) U → 0 ≤ class < NUM_SIZE_CLASSES → typed st (heap_mem h) class p →
  cpus_ok am h →
  ∃ h', (bin ← vget (tls (c_engine (hp_call h))) class;
         limits ← TLS_MAX_BLOCKS;
         limit ← vget limits class;
         if limit <=? bin_usage bin then
           c ← call_push_to_global st am (hp_call h) class p p 1;
           Ret (with_call h c)
         else
           '(m, e) ← push_to_thread (heap_mem h) (c_engine (hp_call h)) class p;
           Ret (with_call h (with_engine (with_mem (hp_call h) m) e))) = Ret h' ∧
    ∃ live' As' ls' gs', heap_to h As others U h' live' As' ls' gs' others U ∧ p ∈ concat ls' ++ concat gs'.
Proof.
  intros Hinv Hc Hty Ha. pose proof (hi_slab Hinv) as Hs.
  destruct (slab_usage st _ _ _ _ _ _ class Hs Hc) as (b & l & -> & Hl & Hu). rewrite bind_ret.
  destruct (co_limit _ (class_ok_all _ Hc)) as (lims & n & -> & Hn & _). rewrite bind_ret, Hn, bind_ret.
  assert (∀ m', only_links (heap_mem h) m' [p] → frame (heap_mem h) m' live As (others ++ slab_headers U)) as Hf.
  { intros m' Ho. eapply (frame_links (c_kernel (hp_call h)) (c_va (hp_call h))); [apply Hs|apply Hs|exact Ho| |].
    - intros x ->%list_elem_of_singleton. eapply (slab_rest st); [exact Hs|]. by left.
    - intros x Hx Hp. by apply (slab_disjoint st _ _ _ _ _ [p] _ x Hs). }
  destruct (n <=? bin_usage b).
  - destruct (slab_push_global st am (hp_call h) live As ls gs [p] (others ++ slab_headers U) class p p Hs)
      as (m' & icc' & gs' & Hpush & Hs' & Ho & Hi); [split; [apply Ha|done]|done..|by apply Forall_singleton|].
    change (zlen [p]) with 1 in Hpush. rewrite Hpush, bind_ret. eexists. split; [done|].
    destruct (heap_of_slab st _ _ _ _ _ _ others _ (with_global (hp_call h) m' icc' (c_kernel (hp_call h))) ls gs' Hinv)
      as (l1 & A1 & Hto).
    { exists live, As. split; [done|]. split; [apply extends_refl|]. split; [by apply Hf|done]. }
    exists l1, A1, ls, gs'. split; [done|].
    eapply put_in_list; [exact Hs|exact (hi_slab (ht_inv Hto))|apply (ht_grown Hto)].
  - change (push_to_thread (heap_mem h)) with (push_to_thread (c_mem (hp_call h))).
    destruct (slab_push st _ _ _ _ _ _ class p Hs Hc Hty) as (m' & e' & l' & -> & Hl' & Hs' & Ho).
    rewrite bind_ret. eexists. split; [done|].
    destruct (heap_of_slab st _ _ _ _ _ _ others _ (with_engine (with_mem (hp_call h) m') e') _ _ Hinv
      ltac:(exists live, As; split; [exact Hs'|]; split; [apply extends_refl|]; split; [by apply Hf|done]))
      as (l1 & A1 & Hto).
    exists l1, A1, (zinsert ls class (p :: l')), gs. split; [done|].
    eapply put_in_list; [exact Hs|exact (hi_slab (ht_inv Hto))|apply (ht_grown Hto)].
Qed.

(** The block [p] is gone; one of a size class is in a list. *)
Definition freed (h : Heap K B) (As : list arena) (others : list Z) (U : users) (p : Z) (u : ublock)
    (h' : Heap K B) : Prop :=
  ∃ live' As' ls' gs', heap_to h As others (delete p U) h' live' As' ls' gs' others (delete p U) ∧
    match ub_kind u with Slab _ => p ∈ concat ls' ++ concat gs' | Big _ => True end.

Lemma freed_step h As others U p u h' : freed h As others U p u h' → heap_step h As others (delete p U) h' others (delete p U).
Proof. intros (l1 & A1 & s1 & g1 & Hto & _). by exists l1, A1, s1, g1. Qed.

Lemma free_internal_ok am h live As ls gs others U p u :
  heap_inv h live As ls gs others U → U !! p = Some u → cpus_ok am h →
  ∃ h', free_internal st am h (p + HEADER_SIZE) = Ret h' ∧ freed h As others U p u h'.
Proof.
  intros Hinv Hp Ha.
  destruct (user_facts _ _ _ _ _ _ _ _ _ Hinv Hp) as (Hu & F1 & F2 & F3 & F4 & F5 & F6 & _).
  unfold free_internal, validate_ptr_for_abi. rewrite wrapping_sub_header by lia.
  rewrite deref_ok, bind_ret by lia. rewrite (uo_magic _ _ _ _ _ _ Hu), Z.eqb_refl, bind_ret.
  rewrite (uo_class _ _ _ _ _ _ Hu). destruct u as [[c|n] q]; unfold kind_class; cbn [ub_kind].
  - destruct (slab_slots st _ _ _ _ _ _ (hi_slab Hinv)) as (Q1 & Q2 & Q3). rewrite Forall_forall in Q2.
    assert (0 ≤ c < NUM_SIZE_CLASSES) as Hc.
    { destruct (uo_place _ _ _ _ _ _ Hu) as (a & Haa & _ & <-). apply (ai_class _ _ (Q2 a Haa)). }
    rewrite (proj2 (Z.eqb_neq c BIG_CLASS)) by (unfold BIG_CLASS; change NUM_SIZE_CLASSES with 34 in Hc; lia).
    assert (typed st (retire (heap_mem h) p) c p) as Hty by apply retire_typed, Hu.
    cbn in F4, F5. pose proof (heap_give st h live As ls gs others U p c q (retire (heap_mem h) p) Hinv Hp) as Hgive.
    destruct Hgive as [T1 T2 T3 T4].
    { eapply only_range_trans; apply hput_range; cbn in *; lia. }
    { unfold retire. by rewrite !hget_hput_field. }
    destruct (put_block am _ _ _ _ _ _ _ _ c T1 Hc Hty) as (h' & Hput & l1 & A1 & s1 & g1 & Hto & Hin).
    { unfold cpus_ok. by rewrite T4. }
    exists h'. split; [exact Hput|]. exists l1, A1, s1, g1. split; [|exact Hin].
    assert (heap_to h As others (delete p U) (with_heap_mem h (retire (heap_mem h) p)) live As ls gs (p :: others)
      (delete p U)) as Hto0 by by split.
    exact (heap_to_trans Hto0 Hto ltac:(done) ltac:(done)).
  - rewrite Z.eqb_refl. destruct (big_free_ok st _ _ _ _ _ _ _ _ _ _ Hinv Hp) as (h' & -> & l1 & A1 & s1 & g1 & Hto).
    exists h'. split; [done|]. by exists l1, A1, s1, g1.
Qed.

Lemma free_ok am h live As ls gs others U p u :
  heap_inv h live As ls gs others U → U !! p = Some u → cpus_ok am h →
  ∃ h', free st am h (ub_ptr u) = Ret (Here, h') ∧ freed h As others U p u h'.
Proof.
  intros Hinv Hp Ha.
  assert (∀ h0, hp_call h0 = hp_call h → heap_inv h0 live As ls gs others U →
    ∃ h', free_main st am h0 (ub_ptr u) = Ret (Here, h') ∧ freed h As others U p u h') as Hmain.
  { intros h0 Hc Hinv0. unfold free_main. destruct (user_ptr _ _ _ _ _ _ _ _ _ Hinv0 Hp) as (Ho & Hne & Hor).
    rewrite (proj2 (Z.eqb_neq _ _) Hne), Ho, bind_ret, Hor, bind_ret. cbn [negb].
    destruct (free_internal_ok am _ _ _ _ _ _ _ _ _ Hinv0 Hp) as (h' & -> & Hstep).
    { unfold cpus_ok. by rewrite Hc. }
    rewrite bind_ret. exists h'. split; [done|]. destruct Hstep as (l1 & A1 & s1 & g1 & [T1 T2 T3 T4] & Hin).
    exists l1, A1, s1, g1. split; [|done]. split; [done|done| |by rewrite <- Hc]. unfold heap_mem in *. by rewrite <- Hc. }
  unfold free, free_fast, free_boot_segment. destruct (HOT_READY h); apply Hmain; try done. by apply heap_flags.
Qed.

(** Null is ignored, and an address that is not ours goes to the C library. *)
Lemma free_foreign am h ptr :
  ptr = 0 ∨ heap_is_ours h ptr = Ret false →
  ∃ s h', free st am h ptr = Ret (s, h') ∧ hp_call h' = hp_call h ∧ hp_big h' = hp_big h ∧
    (s = Libc ↔ ptr ≠ 0).
Proof.
  intros Hp. assert (∀ h0, hp_call h0 = hp_call h → free_main st am h0 ptr = Ret (if ptr =? 0 then Here else Libc, h0)) as Hm.
  { intros h0 Hc. unfold free_main. destruct (Z.eqb_spec ptr 0) as [|Hne]; [done|].
    destruct Hp as [?|Ho]; [done|]. unfold heap_is_ours in *. by rewrite Hc, Ho. }
  unfold free, free_fast, free_boot_segment.
  destruct (HOT_READY h); rewrite Hm by done; eexists _, _; (split; [done|]); (split; [done|]); (split; [done|]);
    destruct (Z.eqb_spec ptr 0); split; intros; congruence.
Qed.

(** ** [malloc_usable_size] *)

Lemma payload_capacity_ok h live As ls gs others U p u :
  heap_inv h live As ls gs others U → U !! p = Some u → payload_capacity h p = Ret (cap u).
Proof.
  intros Hinv Hp. destruct (user_facts _ _ _ _ _ _ _ _ _ Hinv Hp) as (Hu & _).
  unfold payload_capacity. rewrite (uo_class _ _ _ _ _ _ Hu). destruct u as [[c|n] q]; unfold kind_class, cap; cbn [ub_kind].
  - destruct (slab_slots st _ _ _ _ _ _ (hi_slab Hinv)) as (Q1 & Q2 & Q3). rewrite Forall_forall in Q2.
    destruct (uo_place _ _ _ _ _ _ Hu) as (a & Haa & _ & Hca). cbn in Hca.
    pose proof (ai_class _ _ (Q2 a Haa)) as Hc. rewrite Hca in Hc.
    rewrite (proj2 (Z.eqb_neq c BIG_CLASS)) by (unfold BIG_CLASS; change NUM_SIZE_CLASSES with 34 in Hc; lia).
    apply (co_size _ (class_ok_all _ Hc)).
  - rewrite Z.eqb_refl, (bmap_get_rep _ _ _ (hi_big Hinv)), bind_ret. unfold bigs. by rewrite lookup_omap, Hp.
Qed.

Lemma malloc_usable_size_ok h live As ls gs others U p u :
  heap_inv h live As ls gs others U → U !! p = Some u →
  malloc_usable_size h (ub_ptr u) = Ret (Here, usable p u).
Proof.
  intros Hinv Hp. destruct (user_facts _ _ _ _ _ _ _ _ _ Hinv Hp) as (Hu & F1 & F2 & F3 & F4 & F5 & F6 & _).
  destruct (user_ptr _ _ _ _ _ _ _ _ _ Hinv Hp) as (Ho & Hne & Hor).
  pose proof (ptr_ok_range _ _ _ (uo_ptr _ _ _ _ _ _ Hu) F3) as Hr.
  unfold malloc_usable_size. rewrite (proj2 (Z.eqb_neq _ _) Hne), Ho, bind_ret, Hor, bind_ret. cbn [negb].
  rewrite wrapping_sub_header by lia. rewrite (payload_capacity_ok _ _ _ _ _ _ _ _ _ Hinv Hp), bind_ret.
  unfold usable, saturating_sub. destruct (Z.eqb_spec (p + HEADER_SIZE) (ub_ptr u)).
  - do 2 f_equal. lia.
  - pose proof (HEADER_SIZE_cases _) as Hh. rewrite wrapping_sub_small by lia. do 2 f_equal. lia.
Qed.

(** ** Double frees *)

(** The link of a free block is small in the default build, in every list. *)
Lemma free_block_next c live As ls gs rest x :
  slab_inv st c live As ls gs rest → x ∈ concat ls ++ concat gs → hardened = false → hget FNext (c_mem c) x < 2 ^ 57.
Proof.
  intros Hinv Hx Hh.
  assert (∀ key p l, l ⊆ concat ls ++ concat gs → enc_list (c_mem c) key p l → x ∈ l → hget FNext (c_mem c) x < 2 ^ 57) as Hl.
  { intros key p l Hsub He Hxl. destruct (enc_list_next _ _ _ _ _ He Hxl) as [->|(y & Hy & ->)]; [lia|].
    unfold xor_ptr_general. rewrite Hh. destruct (slab_block st _ _ _ _ _ _ y Hinv); [|lia].
    eapply (slab_lists st); [exact Hinv|by apply Hsub]. }
  apply elem_of_app in Hx as [Hx|Hx]; apply list_elem_of_In, in_concat in Hx as (l & Hin%list_elem_of_In & Hxl%list_elem_of_In);
    apply list_elem_of_lookup in Hin as [i Hi].
  - pose proof (lookup_lt_Some _ _ _ Hi) as Hlt.
    pose proof (er_classes _ _ _ (si_engine _ _ _ _ _ _ _ Hinv)) as Hlen.
    destruct (engine_rep_bin _ _ _ (Z.of_nat i) (si_engine _ _ _ _ _ _ _ Hinv)) as (b & l' & _ & Hl' & He & _).
    { unfold zlen in Hlen. lia. }
    rewrite zlookup_nonneg, Nat2Z.id in Hl' by lia. simplify_eq. eapply Hl; [|exact He|exact Hxl].
    intros z Hz. apply elem_of_app. left. by eapply elem_of_concat.
  - destruct (ir_cells _ _ _ _ (si_icc _ _ _ _ _ _ _ Hinv) (Z.of_nat i) l) as (v & u & _ & _ & _ & He & _).
    { rewrite zlookup_nonneg, Nat2Z.id by lia. done. }
    eapply Hl; [|exact He|exact Hxl]. intros z Hz. apply elem_of_app. right. by eapply elem_of_concat.
Qed.

Lemma free_block_typed c live As ls gs rest x :
  slab_inv st c live As ls gs rest → x ∈ concat ls ++ concat gs →
  ∃ class, 0 ≤ class < NUM_SIZE_CLASSES ∧ typed st (c_mem c) class x.
Proof.
  intros Hinv Hx.
  apply elem_of_app in Hx as [Hx|Hx]; apply list_elem_of_In, in_concat in Hx as (l & Hin%list_elem_of_In & Hxl%list_elem_of_In);
    apply list_elem_of_lookup in Hin as [i Hi]; pose proof (lookup_lt_Some _ _ _ Hi) as Hlt.
  - pose proof (er_classes _ _ _ (si_engine _ _ _ _ _ _ _ Hinv)) as Hlen. exists (Z.of_nat i).
    split; [unfold zlen in Hlen; lia|].
    pose proof (si_ls _ _ _ _ _ _ _ Hinv (Z.of_nat i) l) as Hty. rewrite Forall_forall in Hty. apply Hty; [|done].
    rewrite zlookup_nonneg, Nat2Z.id by lia. done.
  - exists (Z.of_nat i mod NUM_SIZE_CLASSES). split; [by apply Z.mod_pos_bound|].
    pose proof (si_gs _ _ _ _ _ _ _ Hinv (Z.of_nat i) l) as Hty. rewrite Forall_forall in Hty. apply Hty; [|done].
    rewrite zlookup_nonneg, Nat2Z.id by lia. done.
Qed.

Lemma double_free_ok am h live As ls gs others U x :
  heap_inv h live As ls gs others U → MAGIC st ≠ FREED_MAGIC st → x ∈ concat ls ++ concat gs →
  free st am h (x + HEADER_SIZE) = Abort (Fatal DoubleFree).
Proof.
  intros Hinv Hm Hx. pose proof (hi_slab Hinv) as Hs.
  pose proof (slab_lists st _ _ _ _ _ _ x Hs Hx) as Hxh.
  destruct (free_block_typed _ _ _ _ _ _ _ Hs Hx) as (class & Hc & Ht1 & Ht2).
  pose proof (header_untagged _ _ _ Ht1 (or_introl Hc) (free_block_next _ _ _ _ _ _ _ Hs Hx)) as Htag.
  destruct (slab_block st _ _ _ _ _ _ x Hs Hxh) as (Hb & Hmod & _).
  assert (va_is_ours (c_va (hp_call h)) (x + HEADER_SIZE) = Ret true) as Hours.
  { apply elem_of_heap_blocks in Hxh as (a & Ha & Hxa).
    destruct (slab_slots st _ _ _ _ _ _ Hs) as (Q1 & Q2 & Q3).
    destruct (block_range _ _ _ _ Q1 Q2 _ _ Ha Hxa) as (Hl & R1 & R2 & R3 & R4 & R5 & R6).
    change METADATA_SIZE with 32 in *.
    eapply (live_va_ours _ _ _ _ _ _ Q1 Hl); destruct (HEADER_SIZE_cases _) as [E|E]; rewrite E in *; [lia|lia|zdiv|zdiv]. }
  assert (∀ h0, hp_call h0 = hp_call h → free_main st am h0 (x + HEADER_SIZE) = Abort (Fatal DoubleFree)) as Hmain.
  { intros h0 Hc0. unfold free_main. pose proof (HEADER_SIZE_cases _) as Hhs.
    rewrite (proj2 (Z.eqb_neq _ 0)) by lia. unfold heap_is_ours. rewrite Hc0, Hours, bind_ret. cbn [negb].
    unfold original_ptr, heap_mem. rewrite Hc0. unfold TAG_SIZE, OFFSET_SIZE. rewrite wrapping_sub_small by lia.
    change (8 * 2) with 16. rewrite (proj2 (Z.eqb_neq _ _) Htag), bind_ret.
    unfold free_internal, validate_ptr_for_abi, heap_mem. rewrite Hc0, wrapping_sub_header by lia.
    rewrite deref_ok, bind_ret, Ht2 by lia. rewrite (proj2 (Z.eqb_neq _ (MAGIC st))) by congruence.
    by rewrite Z.eqb_refl. }
  unfold free, free_fast, free_boot_segment. destruct (HOT_READY h); by apply Hmain.
Qed.
End HeapSpec.
