(* ===== verification/Align.v ===== *)
(** * The other allocation functions of the C interface
      (src/src/abi/calloc.rs, align.rs)

    [calloc] is [malloc] and a fill with zeros; the aligned functions ask [malloc]
    for more, and record before the aligned address where the block starts.
    The pointer that [posix_memalign] stores through [memptr] is a result. *)

From S2P Require Import Prelude Bits Lib Rng HashMap Sys SizeClass VaMap Mem BlockList ThreadLocal.
From S2P Require Import Interconnect Bulk Heap.

(** [Layout::array::<u8>(n)]: an error when the size exceeds [isize::MAX]. *)
Definition layout_array_u8 (n : Z) : option Z := if n <=? isize_max then Some n else None.

Section Align.
Context `{Config}.
Context {K : Type} `{Kernel K}.
Context {B : Type} `{BigMap B}.
Context (st : Statics) (am : Ambient).

Abbreviation heap := (Heap K B).

(** ** [calloc] *)

Definition calc_and_get (h : heap) (size nmem : Z) : M (option (Z * Z) * heap) :=
  match checked_mul64 nmem size with
  | None => Ret (None, with_errno h NOMEM)
  | Some total_size =>
      let effective_size := if total_size =? 0 then 1 else total_size in
      '(ptr, h) ← malloc st am h effective_size;
      Ret (if ptr =? 0 then None else Some (ptr, effective_size), h)
  end.

Definition calloc (h : heap) (nmemb size : Z) : M (Z * heap) :=
  match layout_array_u8 size with
  | None => Ret (0, with_errno h NOMEM)
  | Some layout =>
      '(r, h) ← calc_and_get h layout nmemb;
      match r with
      | None => Ret (0, h)
      | Some (ptr, effective_size) =>
          if negb (ptr =? 0) then
            let header := wrapping_sub64 ptr HEADER_SIZE in
            actual_size ← payload_capacity h header;
            Ret (ptr, with_heap_mem h (zero_fill (heap_mem h) ptr (Z.min actual_size effective_size)))
          else Ret (ptr, h)
      end
  end.

(** ** Aligned allocation *)

(** [(start_search + alignment - 1) & !(alignment - 1)]. *)
Definition align_up (start_search alignment : Z) : M Z :=
  s ← uadd start_search alignment;
  s ← usub s 1;
  a ← usub alignment 1;
  Ret (Z.land s (lnot64 a)).

(** The code, and the pointer stored through [memptr] if any. *)
Definition posix_memalign (h : heap) (memptr alignment size : Z) : M (Z * option Z * heap) :=
  if memptr =? 0 then Ret (EINVAL, None, h)
  else if (alignment <? 8) || negb (is_power_of_two alignment) then Ret (EINVAL, None, h)
  else
    match v ← checked_add64 size alignment; checked_add64 v TAG_SIZE with
    | None => Ret (NOMEM, None, h)
    | Some total_requested =>
        '(raw, h) ← malloc st am h total_requested;
        '(raw, h) ← (if raw =? 0 then malloc st am h total_requested else Ret (raw, h));
        if raw =? 0 then Ret (NOMEM, None, h)
        else
          let start_search := saturating_add64 raw TAG_SIZE in
          aligned ← align_up start_search alignment;
          let tag_location := saturating_sub aligned TAG_SIZE in
          let original_ptr_location := saturating_sub aligned OFFSET_SIZE in
          let m := store 8 (heap_mem h) tag_location OX_ALIGN_TAG in
          let m := store 8 m original_ptr_location raw in
          Ret (0, Some aligned, with_heap_mem h m)
    end.

(** [&mut ptr] is not null. *)
Definition memalign (h : heap) (stack_ptr alignment size : Z) : M (Z * heap) :=
  let adjusted_alignment := if alignment <? 8 then 8 else alignment in
  if negb (is_power_of_two adjusted_alignment) then Ret (0, h)
  else
    '(code, ptr, h) ← posix_memalign h stack_ptr adjusted_alignment size;
    Ret (if code =? 0 then default 0 ptr else 0, h).

Definition aligned_alloc (h : heap) (stack_ptr alignment size : Z) : M (Z * heap) :=
  if (alignment =? 0) || negb (is_power_of_two alignment) then Ret (0, h)
  else memalign h stack_ptr alignment size.

Definition valloc (h : heap) (stack_ptr size : Z) : M (Z * heap) := memalign h stack_ptr 4096 size.
End Align.
