(* ===== verification/Realloc.v ===== *)
(** * Resizing a block (src/src/abi/realloc.rs)

    [realloc] keeps the block where it is when its class still fits, resizes a big
    range, or a block that is alone in its slab, in place, and otherwise moves the
    contents to a new block.  A call may allocate and then free, so it takes two sets
    of ambient values. *)

From S2P Require Import Prelude Bits Lib Rng HashMap Sys SizeClass VaMap Mem BlockList ThreadLocal.
From S2P Require Import Interconnect Bulk Heap.

(** [copy_nonoverlapping(src, dst, n)]. *)
Definition copy_bytes (m : mem) (src dst n : Z) : mem :=
  λ x, if (dst <=? x) && (x <? dst + n) then m (src + (x - dst)) else m x.

Section Realloc.
Context `{Config}.
Context {K : Type} `{Kernel K}.
Context {B : Type} `{BigMap B}.
Context (st : Statics) (am am_free : Ambient).

Abbreviation heap := (Heap K B).

(** The end of [realloc], and its path for aligned blocks. *)
Definition move_block (h : heap) (ptr new_size raw_capacity offset : Z) : M (Z * heap) :=
  '(new_ptr, h) ← malloc st am h new_size;
  if new_ptr =? 0 then Ret (0, h)
  else
    let old_capacity := saturating_sub raw_capacity offset in
    let h := with_heap_mem h (copy_bytes (heap_mem h) ptr new_ptr (Z.min old_capacity new_size)) in
    '(_, h) ← free st am_free h ptr;
    Ret (new_ptr, h).

(** [size] and [new_total]. *)
Definition new_size_total (new_size : Z) : M (Z * Z) :=
  class ← match_size_class new_size;
  if default BIG_CLASS class =? BIG_CLASS then
    s ← uadd new_size HEADER_SIZE;
    total ← align_to s 4096;
    Ret (new_size, total)
  else
    class ← match_size_class new_size;
    match class with
    | Some class =>
        size ← vget SIZE_CLASSES class;
        s ← uadd size HEADER_SIZE;
        total ← align_to s 16;
        Ret (size, total)
    | None =>
        s ← uadd new_size HEADER_SIZE;
        total ← align_to s 4096;
        Ret (new_size, total)
    end.

Definition old_size_total (old_class raw_capacity : Z) : M Z :=
  s ← uadd raw_capacity HEADER_SIZE;
  align_to s (if old_class =? BIG_CLASS then 4096 else 16).

(** The class in the header and the table of big allocations. *)
Definition set_class (h : heap) (header old_class new_class size : Z) : M heap :=
  let h := with_heap_mem h (hput FClass (heap_mem h) header new_class) in
  if (old_class =? BIG_CLASS) && negb (new_class =? BIG_CLASS) then
    '(_, big) ← bmap_remove (hp_big h) header;
    Ret (with_big h big)
  else if new_class =? BIG_CLASS then
    big ← bmap_insert (hp_big h) header (mkMeta size BIG_CLASS 0 0);
    Ret (with_big h big)
  else Ret h.

(** [VA_MAP.free] in a call. *)
Definition heap_va_free (h : heap) (addr size : Z) : M heap :=
  let c := hp_call h in
  va ← VaMap.free (c_va c) addr size;
  Ret (with_call h (with_va c va (c_rng c) (c_kernel c))).

(** [if new_total < old_total { .. }]. *)
Definition shrink_block (h : heap) (header old_class new_class size old_total new_total : Z) : M heap :=
  e ← uadd header new_total;
  freed_start ← align_to e 4096;
  freed_len ← usub old_total new_total;
  if (Z.land freed_start 4095 =? 0) && (Z.land freed_len 4095 =? 0) then
    '(r, k) ← madvise freed_start freed_len Advice_DONTNEED (c_kernel (hp_call h));
    let h := with_heap_kernel h k in
    if is_err r then Ret h
    else
      let h := with_heap_mem h (zero_fill (heap_mem h) freed_start freed_len) in
      '(_, k) ← protect_memory freed_start freed_len Prot_NONE (c_kernel (hp_call h));
      h ← heap_va_free (with_heap_kernel h k) freed_start freed_len;
      set_class h header old_class new_class size
  else Ret h.

(** [if let Some(actual_new_va_size) = VA_MAP.realloc_inplace(..) { .. }]: whether the block
    has grown. *)
Definition grow_block (h : heap) (header old_class new_class raw_capacity size old_total : Z) : M (bool * heap) :=
  s ← uadd raw_capacity HEADER_SIZE;
  old_size ← align_to s 4096;
  s ← uadd size HEADER_SIZE;
  new_size ← align_to s 4096;
  let c := hp_call h in
  '(r, va) ← VaMap.realloc_inplace (c_va c) header old_size new_size;
  let h := with_call h (with_va c va (c_rng c) (c_kernel c)) in
  match r with
  | None => Ret (false, h)
  | Some actual_new_va_size =>
      e ← uadd header old_total;
      grow_start ← align_to e 4096;
      grow_len ← usub actual_new_va_size old_total;
      '(r, k) ← protect_memory grow_start grow_len (Z.lor Prot_READ Prot_WRITE) (c_kernel (hp_call h));
      let h := with_heap_kernel h k in
      if is_err r then
        rollback_start ← uadd header old_total;
        rollback_len ← usub actual_new_va_size old_total;
        h ← (if (Z.land rollback_start 4095 =? 0) && (Z.land rollback_len 4095 =? 0)
             then heap_va_free h rollback_start rollback_len else Ret h);
        Ret (false, h)
      else
        h ← set_class h header old_class new_class size;
        Ret (true, h)
  end.

(** [if old_class == 100 || it == 1 { .. }]: whether the call returns [ptr]. *)
Definition resize_block (h : heap) (header old_class raw_capacity new_size : Z) : M (bool * heap) :=
  old_total ← old_size_total old_class raw_capacity;
  '(size, new_total) ← new_size_total new_size;
  class ← match_size_class size;
  let new_class := wrap8 (default BIG_CLASS class) in
  if new_total =? old_total then
    h ← set_class h header old_class new_class size;
    Ret (true, h)
  else if new_total <? old_total then
    h ← shrink_block h header old_class new_class size old_total new_total;
    Ret (true, h)
  else grow_block h header old_class new_class raw_capacity size old_total.

(** The part of [realloc] after the pointer has been recognised. *)
Definition realloc_ours (h : heap) (ptr new_size : Z) : M (Z * heap) :=
  raw_ptr ← original_ptr h ptr;
  let offset := wrapping_sub64 ptr raw_ptr in
  let header := wrapping_sub64 raw_ptr HEADER_SIZE in
  _ ← validate_ptr_for_abi st (heap_mem h) header;
  let old_class := hget FClass (heap_mem h) header in
  raw_capacity ← payload_capacity h header;
  new_class ← match_size_class new_size;
  it ← (if old_class =? BIG_CLASS then Ret 1000 else vget ITERATIONS old_class);
  if negb (offset =? 0) then move_block h ptr new_size raw_capacity offset
  else if match new_class with
          | Some new => (old_class =? new) && (new_size <=? saturating_sub raw_capacity offset)
          | None => false
          end
  then Ret (ptr, h)
  else
    '(done, h) ← (if (old_class =? BIG_CLASS) || (it =? 1)
                  then resize_block h header old_class raw_capacity new_size else Ret (false, h));
    if done : bool then Ret (ptr, h) else move_block h ptr new_size raw_capacity offset.

Definition realloc (h : heap) (ptr new_size : Z) : M (served * Z * heap) :=
  if ptr =? 0 then '(p, h) ← malloc st am h new_size; Ret (Here, p, h)
  else if 1024 * 1024 * 1024 * 3 <? new_size then Ret (Here, 0, with_errno h NOMEM)
  else
    ours ← heap_is_ours h ptr;
    if negb ours then Ret (Libc, 0, h)
    else if new_size =? 0 then
      '(_, h) ← free st am_free h ptr;
      '(p, h) ← malloc st am h 1;
      Ret (Here, p, h)
    else '(p, h) ← realloc_ours h ptr new_size; Ret (Here, p, h).

(** [__errno_location()] is not null. *)
Definition reallocarray (h : heap) (ptr nmemb size : Z) : M (served * Z * heap) :=
  match checked_mul64 nmemb size with
  | Some total_size => realloc h ptr total_size
  | None => Ret (Here, 0, with_errno h NOMEM)
  end.
End Realloc.
