(* ===== verification/ReallocSpec.v ===== *)
(** * What [realloc] does

    For a block that the client holds, [realloc] gives a null pointer and leaves the
    block as it was, or gives a block with room for the new size whose contents
    start with those of the old one: the same block, resized or not, or a new one,
    in which case the old one is gone. *)

From S2P Require Import Prelude Bits Lib Rng Segment HashMap Sys Radix SizeClass VaMap VaMapSpec VaLive.
From S2P Require Import Mem BlockList ThreadLocal Interconnect InterconnectSpec Bulk BulkSpec.
From S2P Require Import SlabInv SlabOps SlabFill Heap HeapInv HeapFill HeapBig HeapSpec Realloc.

Lemma copy_range m src dst n : only_range m (copy_bytes m src dst n) dst n.
Proof.
  intros x Hx. unfold copy_bytes. destruct (Z.leb_spec dst x), (Z.ltb_spec x (dst + n)); cbn; try done; lia.
Qed.

Lemma copy_bytes_at m src dst n i : 0 ≤ i < n → copy_bytes m src dst n (dst + i) = m (src + i).
Proof.
  intros Hi. unfold copy_bytes. rewrite (proj2 (Z.leb_le _ _)), (proj2 (Z.ltb_lt _ _)) by lia. cbn. f_equal. lia.
Qed.

Lemma land_4095 x : 0 ≤ x → (Z.land x 4095 =? 0) = (x mod 4096 =? 0).
Proof. intros Hx. change 4095 with (Z.ones 12). by rewrite Z.land_ones. Qed.

(** No class ends at the end of a page. *)
Lemma class_unaligned `{Config} c :
  0 ≤ c < NUM_SIZE_CLASSES → (round_up (class_size c + HEADER_SIZE) 16) mod 4096 ≠ 0 ∧
    round_up (class_size c + HEADER_SIZE) 16 ≤ 2097152 + HEADER_SIZE ∧ 0 < class_size c ≤ 2097152.
Proof.
  intros Hc. assert (Hall : forallb (λ i, let s := class_size (Z.of_nat i) in
      negb (round_up (s + HEADER_SIZE) 16 mod 4096 =? 0) &&
      (round_up (s + HEADER_SIZE) 16 <=? 2097152 + HEADER_SIZE) && (0 <? s) && (s <=? 2097152))
      (seq 0 (Z.to_nat NUM_SIZE_CLASSES)) = true).
  { unfold HEADER_SIZE. destruct hardened; vm_compute; reflexivity. }
  pose proof (forallb_lookup _ _ (Z.to_nat c) (Z.to_nat c) Hall) as Hx. rewrite lookup_seq in Hx.
  specialize (Hx ltac:(lia)). cbn beta zeta in Hx. rewrite Z2Nat.id in Hx by lia.
  rewrite !andb_true_iff, negb_true_iff, Z.eqb_neq, !Z.leb_le, Z.ltb_lt in Hx. tauto.
Qed.

Section ReallocSpec.
Context `{Config}.
Context {K : Type} `{LinuxKernel K}.
Context {B : Type} `{BigMap B}.
Context (st : Statics) (Hst : statics_ok st).

Abbreviation heap_inv := (heap_inv st).
Abbreviation heap_step := (heap_step st).
Abbreviation heap_to := (heap_to st).

(** ** Big blocks of another size *)

(** The header of a big block is left alone: the block is the client's also with a new size. *)
Lemma big_user_same live live' As p n n' q m m' :
  user_ok st m live As p (mkU (Big n) q) → q = p + HEADER_SIZE → same_on m m' p HEADER_SIZE →
  live' !! p = Some (big_bytes st n') → 0 ≤ n' ≤ 2 ^ 32 → user_ok st m' live' As p (mkU (Big n') q).
Proof.
  intros [(_ & Hna & _) Q2 Q3 Q4] -> Hs Hl Hn.
  assert (∀ f, hget f m' p = hget f m p) as Hg.
  { intros f. pose proof (field_inside f). eapply same_on_load; [done|lia..]. }
  split; [done|by rewrite Hg|by rewrite Hg|]. left. split; [done|]. cbn [ub_ptr].
  destruct Q4 as [[_ Ht]|(Hp & _)]; [|cbn [ub_ptr] in Hp; lia]. cbn [ub_ptr] in Ht.
  pose proof (HEADER_SIZE_cases _). rewrite (same_on_load m m' p HEADER_SIZE 8 _ Hs) by lia. done.
Qed.

(** A big block gets another size: its range, its entry and its contents change. *)
Lemma heap_resize h live As ls gs others U p n q n' m' va' (k' : K) b :
  heap_inv h live As ls gs others U → U !! p = Some (mkU (Big n) q) → q = p + HEADER_SIZE →
  only_range (heap_mem h) m' p (extent st (mkU (Big n) q)) → same_on (heap_mem h) m' p HEADER_SIZE →
  0 ≤ n' ≤ 2 ^ 32 → live_inv k' va' (<[p := big_bytes st n']> live) →
  bmap_rep b (<[p := mkMeta n' BIG_CLASS 0 0]> (bigs U)) →
  heap_to h As others (delete p U)
    (with_big (with_call h (with_va (with_mem (hp_call h) m') va' (c_rng (hp_call h)) k')) b)
    (<[p := big_bytes st n']> live) As ls gs others (<[p := mkU (Big n') q]> (delete p U)).
Proof.
  intros Hinv Hp Hq Ho Hs Hn Hl Hb. pose proof (hi_slab Hinv) as Hsl.
  destruct (slab_slots st _ _ _ _ _ _ Hsl) as (Q1 & Q2 & Q3).
  pose proof (heap_inv_places st _ _ _ _ _ _ _ Hinv p _ Hp) as Hpl.
  pose proof (place_slot st _ _ _ _ Hpl) as Hslot. destruct Hpl as (Hlp & Hna & Hn0).
  destruct (bmap_remove_rep (hp_big h) (bigs U) p (hi_big Hinv)) as (b0 & _ & Hb0).
  pose proof (heap_drop_big st _ _ _ _ _ _ _ _ _ _ b0 Hinv Hp Hb0) as Hinv1.
  destruct (heap_write_free st _ _ _ _ _ _ _ p _ m' Hinv1 Hslot) as [T1 T2 T3 T4];
    [apply lookup_delete_eq|by eapply (range_no_block st)|exact Ho|].
  assert (heap_inv (with_call (with_heap_mem (with_big h b0) m')
      (with_va (with_mem (hp_call h) m') va' (c_rng (hp_call h)) k'))
      (<[p := big_bytes st n']> live) As ls gs others (delete p U)) as Hinv2.
  { refine (heap_remap st _ live _ As ls gs others _ va' (c_rng (hp_call h)) k' T1 Hl _ _ _).
    - apply Hsl.
    - intros a Ha. apply lookup_insert_ne. intros ->. apply Hna. by apply list_elem_of_fmap_2.
    - intros r u Hr. pose proof (heap_inv_places st _ _ _ _ _ _ _ T1 r u Hr) as Hrl.
      eapply place_grown; [apply grown_refl| |exact Hrl]. intros k Hk. split; [|done].
      apply lookup_insert_ne. intros <-. by rewrite lookup_delete_eq in Hr. }
  split; [|exact T2|exact T3|exact T4].
  refine (heap_add_big st _ _ As ls gs others (delete p U) p n' q b Hinv2 (lookup_delete_eq _ _) _ _).
  - eapply big_user_same; [exact (hi_user Hinv p _ Hp)|done|exact Hs|apply lookup_insert_eq|done].
  - by rewrite bigs_delete, insert_delete_eq.
Qed.
(** The header of a big block already has its class. *)
Lemma set_class_big (h : Heap K B) p size bs :
  hget FClass (heap_mem h) p = BIG_CLASS → bmap_rep (hp_big h) bs →
  post (set_class h p BIG_CLASS BIG_CLASS size)
    (λ h', ∃ m' b, h' = with_big (with_heap_mem h m') b ∧
      (∀ x, m' x = heap_mem h x) ∧ bmap_rep b (<[p := mkMeta size BIG_CLASS 0 0]> bs))
    (alloc_end (hp_big h)).
Proof.
  intros Hc Hb. unfold set_class. rewrite Z.eqb_refl. cbn [andb negb].
  eapply post_bind; [eapply post_mono; [exact (bmap_insert_rep (hp_big h) bs p (mkMeta size BIG_CLASS 0 0) Hb)|
    intros b Hb'; exact Hb'|by right]|].
  intros b Hb'. eexists _, b. split; [done|]. split; [|done]. intros x. rewrite hget_byte in Hc.
  unfold hput. cbn [field_width store field_off]. case_zb; [|done]. by subst x; rewrite Hc.
Qed.

(** ** The result of a call *)

(** A null pointer and the block as it was, or a block with room for [n] bytes that starts with the
    contents of [p]. *)
Definition realloc_result (h : Heap K B) (As : list arena) (others : list Z) (U : users) (p : Z) (u : ublock)
    (n : Z) (r : Z * Heap K B) : Prop :=
  (r.1 = 0 ∧ heap_step h As others U r.2 others U) ∨
  (0 < r.1 ∧ ∃ p' u', ub_ptr u' = r.1 ∧ (p' = p ∨ U !! p' = None) ∧ n ≤ usable p' u' ∧
     heap_step h As others (delete p U) r.2 others (<[p' := u']> (delete p U)) ∧
     ∀ i, 0 ≤ i < Z.min (usable p u) n → heap_mem r.2 (r.1 + i) = heap_mem h (ub_ptr u + i)).

(** The bytes that the client may use are in the block. *)
Lemma usable_extent h live As ls gs others U p u i :
  heap_inv h live As ls gs others U → U !! p = Some u → 0 ≤ i < usable p u →
  p + HEADER_SIZE ≤ ub_ptr u + i < p + extent st u.
Proof.
  intros Hinv Hp. destruct (user_facts st _ _ _ _ _ _ _ _ _ Hinv Hp) as (Hu & F1 & F2 & F3 & F4 & _).
  pose proof (ptr_ok_range _ _ _ (uo_ptr _ _ _ _ _ _ Hu) F3). unfold usable. lia.
Qed.

Lemma realloc_same h live As ls gs others U p u n :
  heap_inv h live As ls gs others U → U !! p = Some u → n ≤ usable p u →
  realloc_result h As others U p u n (ub_ptr u, h).
Proof.
  intros Hinv Hp Hn. destruct (user_facts st _ _ _ _ _ _ _ _ _ Hinv Hp) as (Hu & F1 & F2 & F3 & F4 & _).
  pose proof (ptr_ok_range _ _ _ (uo_ptr _ _ _ _ _ _ Hu) F3). pose proof (HEADER_SIZE_cases _) as Hhs.
  right. split; [cbn; lia|]. exists p, u. split; [done|]. split; [by left|]. split; [done|].
  split; [|done]. rewrite insert_delete_id by done. exists live, As, ls, gs. by apply heap_to_refl.
Qed.

(** After a step that leaves the client's blocks alone. *)
Lemma realloc_result_trans h live As ls gs others U h1 l1 A1 s1 g1 p u n r :
  heap_inv h live As ls gs others U → U !! p = Some u →
  heap_to h As others U h1 l1 A1 s1 g1 others U → realloc_result h1 A1 others U p u n r →
  realloc_result h As others U p u n r.
Proof.
  intros Hinv Hp Hto [[Hz Hs]|(Hz & p' & u' & Hu & Hp' & Hn & Hs & Hb)]; [left|right]; (split; [done|]).
  - by eapply heap_to_step.
  - exists p', u'. do 3 (split; [done|]). split.
    + pose proof (heap_to_trans (heap_to_refl st _ _ _ _ _ _ _ (delete p U) Hinv) Hto ltac:(done) (delete_sub _ _)) as T.
      by eapply heap_to_step.
    + intros i Hi. rewrite Hb by done. apply (hf_users _ _ _ _ _ _ (ht_frame Hto) p u Hp).
      pose proof (usable_extent _ _ _ _ _ _ _ _ _ i Hinv Hp ltac:(lia)). pose proof (HEADER_SIZE_cases _). lia.
Qed.

Lemma heap_to_kernel h live As ls gs others U keep (k : K) :
  heap_inv h live As ls gs others U → keeps (c_kernel (hp_call h)) k →
  heap_to h As others keep (with_heap_kernel h k) live As ls gs others U.
Proof. intros Hinv Hk. split; [by apply heap_kernel|apply grown_refl|apply heap_frame_refl|done]. Qed.

(** ** Moving the contents to a new block *)

Lemma move_block_ok am am_free h live As ls gs others U p u n offset :
  heap_inv h live As ls gs others U → U !! p = Some u → 0 ≤ n → cpus_ok am h → cpus_ok am_free h →
  saturating_sub (cap u) offset = usable p u →
  post (move_block st am am_free h (ub_ptr u) n (cap u) offset) (realloc_result h As others U p u n) (alloc_end (hp_big h)).
Proof.
  intros Hinv Hp Hn Ha Hf Hoff. unfold move_block.
  eapply post_bind; [by eapply (malloc_ok st Hst am)|]. intros [q h1] [[Hz [Hs _]]|(Hz & v & Hv & HU & Hc & Hs)];
    cbn [fst snd] in *.
  { subst q. left. done. }
  rewrite (proj2 (Z.eqb_neq q 0)) by lia. rewrite Hoff. destruct Hs as (l1 & A1 & s1 & g1 & Hto1).
  set (b := q - HEADER_SIZE) in *. assert (b ≠ p) as Hbp by congruence.
  assert (<[b := v]> U !! b = Some v) as Hbv by apply lookup_insert_eq.
  assert (<[b := v]> U !! p = Some u) as Hpu by by rewrite lookup_insert_ne.
  assert (usable b v = cap v) as Hus by (unfold usable, b; rewrite Hv; lia).
  set (m2 := copy_bytes _ _ _ _).
  assert (only_range (heap_mem h1) m2 (ub_ptr v) (usable b v)) as Hcopy.
  { rewrite Hv. eapply only_range_mono; [| |apply copy_range]; lia. }
  pose proof (heap_payload_write st _ _ _ _ _ _ _ _ _ _ (ht_inv Hto1) Hbv Hcopy) as Hto2.
  set (h2 := with_heap_mem h1 m2) in *.
  destruct (free_ok st Hst am_free h2 _ _ _ _ _ _ _ _ (ht_inv Hto2) Hpu) as (h3 & -> & l3 & A3 & s3 & g3 & Hto3 & _).
  { unfold cpus_ok. by rewrite (ht_ncpu Hto2), (ht_ncpu Hto1). }
  rewrite bind_ret. right. cbn [fst snd]. split; [done|]. exists b, v. split; [done|]. split; [by right|].
  split; [lia|]. rewrite delete_insert_ne in Hto3 by done. split.
  - exists l3, A3, s3, g3.
    pose proof (heap_to_trans (heap_to_refl st _ _ _ _ _ _ _ (delete p U) Hinv) Hto1 ltac:(done) ltac:(apply delete_sub)) as T1.
    pose proof (heap_to_trans T1 Hto2 ltac:(done)) as T2.
    rewrite delete_insert_id in T2 by done. specialize (T2 (delete_sub _ _)).
    apply (heap_to_trans T2 Hto3); [done|]. apply insert_subseteq. by rewrite lookup_delete_ne.
  - intros i Hi. pose proof (usable_extent _ _ _ _ _ _ _ _ _ i Hinv Hp ltac:(lia)) as E1.
    pose proof (usable_extent _ _ _ _ _ _ _ _ _ i (ht_inv Hto1) Hbv ltac:(lia)) as E2. rewrite Hv in E2.
    pose proof (HEADER_SIZE_cases _) as Hhs.
    transitivity (heap_mem h2 (q + i)).
    { apply (hf_users _ _ _ _ _ _ (ht_frame Hto3) b v); [by rewrite lookup_insert_eq|lia]. }
    transitivity (heap_mem h1 (ub_ptr u + i)); [apply copy_bytes_at; lia|].
    apply (hf_users _ _ _ _ _ _ (ht_frame Hto1) p u Hp). lia.
Qed.
(** ** Resizing a big block in place *)

Lemma old_size_total_big n :
  OX_FORCE_THP st = false → 0 ≤ n ≤ 2 ^ 32 → old_size_total BIG_CLASS n = Ret (big_bytes st n).
Proof.
  intros Ht Hn. unfold old_size_total, big_bytes. rewrite Ht, Z.eqb_refl.
  destruct (HEADER_SIZE_cases _) as [-> | ->]; checked; apply align_to_4096; unfold usize_max, u64_max; lia.
Qed.

Lemma new_size_total_big n :
  OX_FORCE_THP st = false → 2097152 < n ≤ 2 ^ 32 → new_size_total n = Ret (n, big_bytes st n).
Proof.
  intros Ht Hn. unfold new_size_total, big_bytes. pose proof (match_size_class_spec n ltac:(lia)) as Hm.
  rewrite (proj2 (Z.ltb_lt 2097152 n)), orb_true_r in Hm by lia. rewrite Hm, bind_ret, Ht. cbn [default].
  rewrite Z.eqb_refl. destruct (HEADER_SIZE_cases _) as [-> | ->]; checked;
    rewrite align_to_4096 by (unfold usize_max, u64_max; lia); done.
Qed.

Lemma new_size_total_class n :
  0 < n ≤ 2097152 → ∃ c, fits n c ∧ 0 ≤ c < NUM_SIZE_CLASSES ∧ match_size_class n = Ret (Some c) ∧
    n ≤ class_size c ∧
    new_size_total n = Ret (class_size c, round_up (class_size c + HEADER_SIZE) 16).
Proof.
  intros Hn. unfold new_size_total. pose proof (match_size_class_spec n ltac:(lia)) as Hm.
  rewrite (proj2 (Z.ltb_ge 2097152 n)), (proj2 (Z.eqb_neq n 0)) in Hm by lia. cbn [orb] in Hm.
  destruct Hm as (c & Hm & Hf). pose proof (fits_range _ _ Hf) as Hc. exists c. split; [done|]. split; [done|].
  split; [done|]. destruct (class_unaligned c Hc) as (_ & _ & Hcs). split.
  { destruct Hf as (pl & Hpl & Hle & _). unfold class_size. by rewrite Hpl. }
  rewrite Hm, !bind_ret. change (default BIG_CLASS (Some c)) with c. change NUM_SIZE_CLASSES with 34 in Hc.
  rewrite (proj2 (Z.eqb_neq c BIG_CLASS)) by (unfold BIG_CLASS; lia).
  rewrite (co_size _ (class_ok_all _ Hc)), bind_ret.
  destruct (HEADER_SIZE_cases _) as [-> | ->]; checked;
    rewrite align_to_16 by (unfold usize_max, u64_max; lia); done.
Qed.

(** The range of a big block consists of pages. *)
Lemma big_bytes_pages n :
  OX_FORCE_THP st = false → 0 ≤ n ≤ 2 ^ 32 → big_bytes st n mod 4096 = 0 ∧ n + HEADER_SIZE ≤ big_bytes st n ∧
    big_bytes st n ≤ n + HEADER_SIZE + 4095 ∧ blocks_bytes (big_bytes st n) = big_bytes st n.
Proof.
  intros Ht Hn. unfold big_bytes. rewrite Ht. pose proof (HEADER_SIZE_cases _) as Hh.
  assert (0 ≤ n + HEADER_SIZE) as Hpos by lia. unfold round_up, blocks_bytes, BLOCK_SIZE. zdiv.
Qed.

(** The block is the client's with its new size. *)
Lemma resized_result (h h' : Heap K B) live' As ls gs others U p n q n' :
  q = p + HEADER_SIZE → 0 < p → U !! p = Some (mkU (Big n) q) →
  heap_to h As others (delete p U) h' live' As ls gs others (<[p := mkU (Big n') q]> (delete p U)) →
  same_on (heap_mem h) (heap_mem h') q (Z.min n n') →
  realloc_result h As others U p (mkU (Big n) q) n' (q, h').
Proof.
  intros -> Hpos Hp Hto Hs. pose proof (HEADER_SIZE_cases _). right. cbn [fst snd]. split; [lia|].
  exists p, (mkU (Big n') (p + HEADER_SIZE)). split; [done|]. split; [by left|]. unfold usable. cbn [cap ub_kind ub_ptr].
  split; [lia|]. split; [by exists live', As, ls, gs|]. intros i Hi. apply Hs. lia.
Qed.

Section Resize.
Context (h : Heap K B) (live : gmap Z Z) (As : list arena) (ls gs : list (list Z)) (others : list Z) (U : users).
Context (p n q n' : Z).
Context (Hinv : heap_inv h live As ls gs others U) (Hp : U !! p = Some (mkU (Big n) q)) (Hq : q = p + HEADER_SIZE).
Context (Hthp : OX_FORCE_THP st = false) (Hn' : 2097152 < n' ≤ 2 ^ 32).

Lemma resize_facts :
  live !! p = Some (big_bytes st n) ∧ 0 ≤ n ≤ 2 ^ 32 ∧ hget FClass (heap_mem h) p = BIG_CLASS ∧
  live_inv (c_kernel (hp_call h)) (c_va (hp_call h)) live ∧ 0 < p ∧ p mod 4096 = 0 ∧ p + big_bytes st n ≤ 2 ^ 57.
Proof.
  pose proof (hi_user Hinv p _ Hp) as [Hpl _ Hc _]. destruct Hpl as (Hl & _ & Hn).
  destruct (slab_slots st _ _ _ _ _ _ (hi_slab Hinv)) as (Q1 & _ & _).
  destruct (live_range _ _ _ _ _ Q1 Hl) as (R1 & R2 & R3 & R4). split_and!; try done; lia.
Qed.

(** The size changes within the same pages. *)
Lemma same_pages_ok :
  big_bytes st n' = big_bytes st n →
  post (set_class h p BIG_CLASS BIG_CLASS n') (λ h', realloc_result h As others U p (mkU (Big n) q) n' (q, h'))
    (alloc_end (hp_big h)).
Proof.
  intros Heq. destruct resize_facts as (F1 & F2 & F3 & F4 & F5 & F6 & F7).
  eapply post_mono; [exact (set_class_big h p n' _ F3 (hi_big Hinv))| |done]. intros h' (m' & b & -> & Hm & Hb).
  eapply resized_result; [done|done|done| |intros x _; apply Hm].
  apply (heap_resize h live As ls gs others U p n q n' m' (c_va (hp_call h)) (c_kernel (hp_call h)) b); try done.
  - intros x _. apply Hm.
  - intros x _. apply Hm.
  - lia.
  - rewrite Heq, insert_id by done. exact F4.
Qed.

Lemma shrink_big_ok :
  big_bytes st n' < big_bytes st n →
  post (shrink_block h p BIG_CLASS BIG_CLASS n' (big_bytes st n) (big_bytes st n'))
    (λ h', realloc_result h As others U p (mkU (Big n) q) n' (q, h')) (alloc_end (hp_big h)).
Proof.
  intros Hlt. destruct resize_facts as (F1 & F2 & F3 & F4 & F5 & F6 & F7).
  destruct (big_bytes_pages n Hthp F2) as (B1 & B2 & B3 & B4).
  destruct (big_bytes_pages n' Hthp ltac:(lia)) as (C1 & C2 & C3 & C4). pose proof (HEADER_SIZE_cases _) as Hhs.
  unfold shrink_block. rewrite uadd_ok, bind_ret by (unfold usize_max, u64_max; lia).
  assert (round_up (p + big_bytes st n') 4096 = p + big_bytes st n') as Hru by (unfold round_up; zdiv).
  rewrite align_to_4096, bind_ret, Hru by (unfold usize_max, u64_max; lia). rewrite usub_ok, bind_ret by lia.
  rewrite !land_4095 by lia.
  assert ((p + big_bytes st n') mod 4096 = 0 ∧ (big_bytes st n - big_bytes st n') mod 4096 = 0) as [-> ->] by (split; zdiv).
  cbn [Z.eqb andb].
  destruct (madvise_spec (p + big_bytes st n') (big_bytes st n - big_bytes st n') Advice_DONTNEED (c_kernel (hp_call h)))
    as (r & k1 & -> & Hk1). rewrite bind_ret. destruct (is_err r).
  { pose proof (heap_to_kernel _ _ _ _ _ _ _ U _ Hinv Hk1) as Hto.
    eapply realloc_result_trans; [exact Hinv|exact Hp|exact Hto|].
    apply (realloc_same _ live As ls gs others U p (mkU (Big n) q)); [apply (ht_inv Hto)|done|].
    unfold usable. cbn [cap ub_kind ub_ptr]. assert (n' < n) by zdiv. lia. }
  cbn [hp_call with_heap_mem with_heap_kernel with_call with_mem with_kernel c_kernel].
  destruct (protect_memory_spec (p + big_bytes st n') (big_bytes st n - big_bytes st n') Prot_NONE k1)
    as (r2 & k2 & -> & Hk2). rewrite bind_ret. unfold heap_va_free.
  destruct (live_shrink k2 (c_va (hp_call h)) live p (big_bytes st n) (big_bytes st n')) as (va' & Hfree & Hl2);
    [eapply live_keeps; [|exact F4]; by etrans|done|lia|done|done|].
  cbn [hp_call with_heap_mem with_heap_kernel with_call with_mem with_kernel c_kernel c_va c_rng].
  rewrite Hfree, !bind_ret.
  set (m1 := zero_fill (heap_mem h) (p + big_bytes st n') (big_bytes st n - big_bytes st n')).
  assert (only_range (heap_mem h) m1 (p + big_bytes st n') (big_bytes st n - big_bytes st n')) as Hm1.
  { by apply zero_fill_range. }
  eapply post_mono; [apply (set_class_big _ p n' (bigs U)); [|apply (hi_big Hinv)]| |done].
  { change (hget FClass m1 p = BIG_CLASS). rewrite <- F3. pose proof (field_inside FClass).
    eapply (same_on_load _ _ p HEADER_SIZE); [|lia|lia]. eapply only_range_same; [exact Hm1|lia]. }
  intros h' (m' & b & -> & Hm & Hb).
  assert (only_range (heap_mem h) m' (p + big_bytes st n') (big_bytes st n - big_bytes st n')) as Hm'.
  { intros x Hx. rewrite Hm. by apply Hm1. }
  eapply resized_result; [done|done|done| |eapply only_range_same; [exact Hm'|lia]].
  apply (heap_resize h live As ls gs others U p n q n' m' va' k2 b); try done; [| |lia].
  - eapply only_range_mono; [| |exact Hm']; [lia|]. cbn. lia.
  - eapply only_range_same; [exact Hm'|lia].
Qed.

(** The address map or the kernel change, and no range does. *)
Lemma remap_to va' (k' : K) h' keep :
  live_inv k' va' live → h' = with_call h (with_va (hp_call h) va' (c_rng (hp_call h)) k') →
  heap_to h As others keep h' live As ls gs others U.
Proof.
  intros Hl ->. split; [|apply grown_refl|apply heap_frame_refl|done].
  apply (heap_remap st h live live); try done; [apply (hi_slab Hinv)|by eapply heap_inv_places].
Qed.

(** Resized, or as it was. *)
Definition resized (r : bool * Heap K B) : Prop :=
  if r.1 then realloc_result h As others U p (mkU (Big n) q) n' (q, r.2)
  else hp_big r.2 = hp_big h ∧ heap_to h As others U r.2 live As ls gs others U.

Lemma grow_big_ok :
  big_bytes st n < big_bytes st n' →
  post (grow_block h p BIG_CLASS BIG_CLASS n n' (big_bytes st n)) resized (alloc_end (hp_big h)).
Proof.
  intros Hlt. destruct resize_facts as (F1 & F2 & F3 & F4 & F5 & F6 & F7).
  destruct (big_bytes_pages n Hthp F2) as (B1 & B2 & B3 & B4).
  destruct (big_bytes_pages n' Hthp ltac:(lia)) as (C1 & C2 & C3 & C4). pose proof (HEADER_SIZE_cases _) as Hhs.
  assert (∀ k, 0 ≤ k ≤ 2 ^ 32 → (s ← uadd k HEADER_SIZE; align_to s 4096) = Ret (big_bytes st k)) as Hbig.
  { intros k Hk. pose proof (big_total_ok st k Hk) as Hb. unfold big_total in Hb. by rewrite Hthp in Hb. }
  assert (∀ k, 0 ≤ k ≤ 2 ^ 32 → uadd k HEADER_SIZE = Ret (k + HEADER_SIZE)) as Hadd.
  { intros k Hk. apply uadd_ok. unfold usize_max, u64_max. lia. }
  assert (∀ k, 0 ≤ k ≤ 2 ^ 32 → align_to (k + HEADER_SIZE) 4096 = Ret (big_bytes st k)) as Hal.
  { intros k Hk. pose proof (Hbig k Hk) as E. by rewrite (Hadd k Hk), bind_ret in E. }
  unfold grow_block. rewrite (Hadd n F2), bind_ret, (Hal n F2), bind_ret.
  rewrite (Hadd n'), bind_ret, (Hal n'), bind_ret by lia.
  destruct (live_resize (c_kernel (hp_call h)) (c_va (hp_call h)) live p (big_bytes st n) (big_bytes st n') F4 F1)
    as (res & va1 & -> & Hres); [lia|unfold usize_max, u64_max, BLOCK_SIZE; lia|]. rewrite bind_ret.
  destruct Hres as [[-> Hl1]|[-> Hl1]].
  { split; [done|]. by eapply remap_to. }
  rewrite C4. rewrite uadd_ok, bind_ret by (unfold usize_max, u64_max; lia).
  rewrite align_to_4096, bind_ret by (unfold usize_max, u64_max; lia). rewrite usub_ok, bind_ret by lia.
  set (gs0 := round_up _ _). cbn [hp_call with_call c_kernel with_va].
  destruct (protect_memory_spec gs0 (big_bytes st n' - big_bytes st n) (Z.lor Prot_READ Prot_WRITE) (c_kernel (hp_call h)))
    as (r & k1 & -> & Hk1). rewrite bind_ret. destruct (is_err r).
  - rewrite !bind_ret.
    rewrite !land_4095 by lia.
    assert ((p + big_bytes st n) mod 4096 = 0 ∧ (big_bytes st n' - big_bytes st n) mod 4096 = 0) as [-> ->] by (split; zdiv).
    cbn [Z.eqb andb]. unfold heap_va_free.
    destruct (live_shrink k1 va1 (<[p := big_bytes st n']> live) p (big_bytes st n') (big_bytes st n)) as (va2 & Hfree & Hl2);
      [by eapply live_keeps|apply lookup_insert_eq|lia|done|done|].
    rewrite insert_insert_eq, insert_id in Hl2 by done.
    cbn [hp_call with_heap_kernel with_call with_kernel c_kernel c_va c_rng with_va]. rewrite Hfree, !bind_ret.
    split; [done|]. by eapply remap_to.
  - eapply post_bind; [eapply post_mono; [apply (set_class_big _ p n' (bigs U)); [exact F3|exact (hi_big Hinv)]|
      intros h' Hh'; exact Hh'|done]|]. intros h' (m' & b & -> & Hm & Hb).
    eapply resized_result; [done|done|done| |intros x _; apply Hm].
    apply (heap_resize h live As ls gs others U p n q n' m' va1 k1 b); try done.
    + intros x _. apply Hm.
    + intros x _. apply Hm.
    + lia.
    + by eapply live_keeps.
Qed.

Lemma resize_big_ok : post (resize_block h p BIG_CLASS n n') resized (alloc_end (hp_big h)).
Proof.
  destruct resize_facts as (_ & F2 & _). unfold resize_block.
  rewrite old_size_total_big, bind_ret, new_size_total_big, bind_ret by (try done; lia).
  pose proof (match_size_class_spec n' ltac:(lia)) as Hm.
  rewrite (proj2 (Z.ltb_lt 2097152 n')), orb_true_r in Hm by lia. rewrite Hm, bind_ret.
  change (wrap8 (default BIG_CLASS None)) with BIG_CLASS.
  destruct (Z.eqb_spec (big_bytes st n') (big_bytes st n)) as [He|Hne].
  { eapply post_bind; [exact (same_pages_ok He)|]. by intros h'. }
  destruct (Z.ltb_spec (big_bytes st n') (big_bytes st n)) as [Hlt|Hge].
  { eapply post_bind; [exact (shrink_big_ok Hlt)|]. by intros h'. }
  apply grow_big_ok. lia.
Qed.
End Resize.

(** A big block stays where it is when a smaller class is asked for: the end of no class is the
    end of a page. *)
Lemma resize_big_class h live As ls gs others U p n q n' c :
  heap_inv h live As ls gs others U → U !! p = Some (mkU (Big n) q) →
  OX_FORCE_THP st = false → 0 < n' ≤ 2097152 → fits n' c →
  round_up (class_size c + HEADER_SIZE) 16 < big_bytes st n →
  resize_block h p BIG_CLASS n n' = Ret (true, h).
Proof.
  intros Hinv Hp Hthp Hn' Hf Hlt. destruct (resize_facts _ _ _ _ _ _ _ _ _ _ Hinv Hp) as (_ & F2 & _ & _ & F5 & F6 & F7).
  destruct (big_bytes_pages n Hthp F2) as (B1 & B2 & B3 & B4). pose proof (HEADER_SIZE_cases _) as Hhs.
  destruct (new_size_total_class n' Hn') as (c0 & Hf0 & Hc & _ & Hle & Hst').
  assert (c0 = c) as -> by (pose proof (fits_range _ _ Hf); apply (fits_unique n'); (done || lia)).
  destruct (class_unaligned c Hc) as (Hun & Hmax & Hpos & Hcmax).
  unfold resize_block. rewrite old_size_total_big, bind_ret, Hst', bind_ret by done.
  destruct (new_size_total_class (class_size c) ltac:(lia)) as (c' & _ & Hc' & -> & _ & _). rewrite bind_ret.
  set (T := round_up (class_size c + HEADER_SIZE) 16) in *.
  assert (0 ≤ T) as HT by (unfold T, round_up; zdiv).
  rewrite (proj2 (Z.eqb_neq T _)), (proj2 (Z.ltb_lt T _)) by lia.
  unfold shrink_block. checked. rewrite align_to_4096, bind_ret by (unfold usize_max, u64_max; lia).
  checked. rewrite !land_4095 by (unfold round_up; zdiv || lia).
  rewrite (proj2 (Z.eqb_neq ((big_bytes st n - T) mod 4096) 0)), andb_false_r by zdiv. done.
Qed.

(** ** [realloc] of a block that the client holds *)

(** Aligned blocks move.  A block of a class stays, or moves unless it is alone in its slab; a big
    block is resized, unless huge pages are forced. *)
Definition resizable (p : Z) (u : ublock) (n : Z) : Prop :=
  ub_ptr u ≠ p + HEADER_SIZE ∨
  match ub_kind u with
  | Slab c => zlookup ITERATIONS c ≠ Some 1 ∨ fits n c
  | Big m => 2097152 < m ∧ OX_FORCE_THP st = false
  end.

Lemma class_iterations c :
  0 ≤ c < NUM_SIZE_CLASSES → ∃ it, vget ITERATIONS c = Ret it ∧ zlookup ITERATIONS c = Some it.
Proof. intros Hc. apply vget_in_bounds. change (zlen ITERATIONS) with NUM_SIZE_CLASSES. lia. Qed.

Lemma realloc_big_ok am am_free h live As ls gs others U p m n :
  let u := mkU (Big m) (p + HEADER_SIZE) in
  heap_inv h live As ls gs others U → U !! p = Some u → 0 < n ≤ 1024 * 1024 * 1024 * 3 → cpus_ok am h →
  cpus_ok am_free h → 2097152 < m → OX_FORCE_THP st = false →
  post ('(done, h) ← resize_block h p BIG_CLASS m n;
        if done : bool then Ret (p + HEADER_SIZE, h) else move_block st am am_free h (p + HEADER_SIZE) n m 0)
    (realloc_result h As others U p u n) (alloc_end (hp_big h)).
Proof.
  intros u Hinv Hp Hn Ha Hf Hm Hthp. destruct (Z.le_gt_cases n 2097152) as [Hle|Hgt].
  - destruct (new_size_total_class n ltac:(lia)) as (c & Hfit & Hc & _).
    destruct (class_unaligned c Hc) as (_ & Hmax & _). pose proof (hi_user Hinv p _ Hp) as [(_ & _ & Hm0) _ _ _].
    destruct (big_bytes_pages m Hthp Hm0) as (_ & B2 & _).
    rewrite (resize_big_class _ _ _ _ _ _ _ _ _ _ n c Hinv Hp), bind_ret by (done || lia).
    apply (realloc_same h live As ls gs others U p u n Hinv Hp). unfold usable, u. cbn. lia.
  - eapply post_bind; [exact (resize_big_ok h live As ls gs others U p m _ n Hinv Hp eq_refl Hthp ltac:(lia))|].
    intros [[] h'] Hd; [exact Hd|]. destruct Hd as [Hb Hto]. cbn [fst snd] in Hb, Hto.
    eapply post_mono; [|intros r; exact (realloc_result_trans _ _ _ _ _ _ _ _ _ _ _ _ _ _ _ _ Hinv Hp Hto)|by rewrite <- Hb].
    apply (move_block_ok am am_free h' live As ls gs others U p u n 0 (ht_inv Hto) Hp); [lia| | |].
    + unfold cpus_ok. by rewrite (ht_ncpu Hto).
    + unfold cpus_ok. by rewrite (ht_ncpu Hto).
    + unfold saturating_sub, usable, u. cbn. lia.
Qed.

(** [realloc_ours] finds the block. *)
Lemma realloc_ours_unfold am am_free h live As ls gs others U p u n :
  heap_inv h live As ls gs others U → U !! p = Some u →
  realloc_ours st am am_free h (ub_ptr u) n =
    (new_class ← match_size_class n;
     it ← (if kind_class u =? BIG_CLASS then Ret 1000 else vget ITERATIONS (kind_class u));
     let offset := ub_ptr u - (p + HEADER_SIZE) in
     if negb (offset =? 0) then move_block st am am_free h (ub_ptr u) n (cap u) offset
     else if match new_class with
             | Some new => (kind_class u =? new) && (n <=? usable p u)
             | None => false
             end
     then Ret (ub_ptr u, h)
     else
       '(done, h) ← (if (kind_class u =? BIG_CLASS) || (it =? 1)
                     then resize_block h p (kind_class u) (cap u) n else Ret (false, h));
       if done : bool then Ret (ub_ptr u, h) else move_block st am am_free h (ub_ptr u) n (cap u) offset).
Proof.
  intros Hinv Hp. destruct (user_facts st _ _ _ _ _ _ _ _ _ Hinv Hp) as (Hu & F1 & F2 & F3 & F4 & F5 & F6 & _).
  destruct (user_ptr st _ _ _ _ _ _ _ _ _ Hinv Hp) as (_ & _ & Hor).
  pose proof (ptr_ok_range _ _ _ (uo_ptr _ _ _ _ _ _ Hu) F3) as Hrg. pose proof (HEADER_SIZE_cases _) as Hhs.
  unfold realloc_ours, validate_ptr_for_abi. rewrite Hor, bind_ret, wrapping_sub_header by lia.
  rewrite deref_ok, bind_ret, (uo_magic _ _ _ _ _ _ Hu), Z.eqb_refl, bind_ret by lia.
  rewrite (payload_capacity_ok st _ _ _ _ _ _ _ _ _ Hinv Hp), bind_ret, (uo_class _ _ _ _ _ _ Hu).
  rewrite wrapping_sub_small by lia.
  replace (saturating_sub (cap u) (ub_ptr u - (p + HEADER_SIZE))) with (usable p u)
    by (unfold saturating_sub, usable; lia). done.
Qed.

Lemma match_size_class_fits n :
  0 < n → ∃ mc, match_size_class n = Ret mc ∧
    match mc with Some c => fits n c ∧ 0 ≤ c < NUM_SIZE_CLASSES ∧ n ≤ class_size c | None => 2097152 < n end.
Proof.
  intros Hn. destruct (Z.le_gt_cases n 2097152) as [Hle|Hgt].
  - destruct (new_size_total_class n ltac:(lia)) as (c & Hf & Hc & Hm & Hl & _). by exists (Some c).
  - exists None. split; [|done]. pose proof (match_size_class_spec n ltac:(lia)) as Hm.
    by rewrite (proj2 (Z.ltb_lt 2097152 n)), orb_true_r in Hm by lia.
Qed.

Lemma realloc_slab_ok am am_free h live As ls gs others U p c n :
  let u := mkU (Slab c) (p + HEADER_SIZE) in
  heap_inv h live As ls gs others U → U !! p = Some u → 0 < n ≤ 1024 * 1024 * 1024 * 3 → cpus_ok am h →
  cpus_ok am_free h → zlookup ITERATIONS c ≠ Some 1 ∨ fits n c →
  post (realloc_ours st am am_free h (ub_ptr u) n) (realloc_result h As others U p u n) (alloc_end (hp_big h)).
Proof.
  intros u Hinv Hp Hn Ha Hf Hres.
  destruct (user_facts st _ _ _ _ _ _ _ _ _ Hinv Hp) as (Hu & _).
  assert (0 ≤ c < NUM_SIZE_CLASSES) as Hc.
  { destruct (slab_slots st _ _ _ _ _ _ (hi_slab Hinv)) as (_ & Q2 & _). rewrite Forall_forall in Q2.
    destruct (uo_place _ _ _ _ _ _ Hu) as (a & Haa & _ & <-). apply (ai_class _ _ (Q2 a Haa)). }
  destruct (class_iterations c Hc) as (it & Hg & Hl). change NUM_SIZE_CLASSES with 34 in Hc.
  destruct (match_size_class_fits n ltac:(lia)) as (mc & Hmc & Hfit).
  rewrite (realloc_ours_unfold _ _ _ _ _ _ _ _ _ _ _ n Hinv Hp), Hmc, bind_ret.
  unfold u, kind_class, usable. cbn [ub_kind ub_ptr cap].
  rewrite (proj2 (Z.eqb_neq c BIG_CLASS)), Hg, bind_ret by (unfold BIG_CLASS; lia).
  rewrite (Z.sub_diag (p + HEADER_SIZE)). cbn [Z.eqb negb orb].
  replace (p + HEADER_SIZE + class_size c - (p + HEADER_SIZE)) with (class_size c) by lia.
  destruct (match mc with Some new => (c =? new) && (n <=? class_size c) | None => false end) eqn:E.
  { destruct mc as [c'|]; [|done]. apply andb_true_iff in E as [_ Hle%Z.leb_le].
    apply (realloc_same h live As ls gs others U p u n Hinv Hp). unfold usable, u. cbn. lia. }
  destruct (Z.eqb_spec it 1) as [->|_].
  { exfalso. destruct Hres as [?|Hres]; [congruence|]. destruct (class_unaligned c Hc) as (_ & _ & _ & Hmax).
    assert (n ≤ class_size c) as Hle by (destruct Hres as (pl & Hpl & Hle & _); unfold class_size; by rewrite Hpl).
    destruct mc as [c'|]; [|lia]. destruct Hfit as (Hfit & ? & _).
    rewrite <- (fits_unique n c c'), Z.eqb_refl, (proj2 (Z.leb_le _ _) Hle) in E by (done || lia). done. }
  rewrite bind_ret. apply (move_block_ok am am_free h live As ls gs others U p u n 0); try done; [lia|].
  destruct (class_unaligned c Hc) as (_ & _ & Hpos & _). unfold saturating_sub, usable, u. cbn. lia.
Qed.

Lemma realloc_ours_big am am_free h live As ls gs others U p m n :
  heap_inv h live As ls gs others U → U !! p = Some (mkU (Big m) (p + HEADER_SIZE)) → 0 < n →
  realloc_ours st am am_free h (p + HEADER_SIZE) n =
    ('(done, h) ← resize_block h p BIG_CLASS m n;
     if done : bool then Ret (p + HEADER_SIZE, h) else move_block st am am_free h (p + HEADER_SIZE) n m 0).
Proof.
  intros Hinv Hp Hn. destruct (match_size_class_fits n Hn) as (mc & Hmc & Hfit).
  change (p + HEADER_SIZE) with (ub_ptr (mkU (Big m) (p + HEADER_SIZE))) at 1.
  rewrite (realloc_ours_unfold _ _ _ _ _ _ _ _ _ _ _ n Hinv Hp), Hmc, bind_ret.
  unfold kind_class. cbn [ub_kind ub_ptr cap]. rewrite (Z.eqb_refl BIG_CLASS), bind_ret, Z.sub_diag. cbn [Z.eqb negb orb].
  destruct mc as [c|]; [|done]. destruct Hfit as (_ & Hc & _). change NUM_SIZE_CLASSES with 34 in Hc.
  by rewrite (proj2 (Z.eqb_neq BIG_CLASS c)) by (unfold BIG_CLASS; lia).
Qed.

Lemma realloc_ours_ok am am_free h live As ls gs others U p u n :
  heap_inv h live As ls gs others U → U !! p = Some u → 0 < n ≤ 1024 * 1024 * 1024 * 3 → cpus_ok am h →
  cpus_ok am_free h → resizable p u n →
  post (realloc_ours st am am_free h (ub_ptr u) n) (realloc_result h As others U p u n) (alloc_end (hp_big h)).
Proof.
  intros Hinv Hp Hn Ha Hf Hres. destruct (decide (ub_ptr u = p + HEADER_SIZE)) as [Hq|Hq].
  - destruct Hres as [?|Hres]; [done|]. destruct u as [[c|m] q]; cbn [ub_ptr ub_kind] in *; subst q.
    + exact (realloc_slab_ok am am_free _ _ _ _ _ _ _ _ _ n Hinv Hp Hn Ha Hf Hres).
    + destruct Hres. rewrite (realloc_ours_big am am_free _ _ _ _ _ _ _ _ _ n Hinv Hp) by lia.
      by eapply realloc_big_ok.
  - destruct (user_facts st _ _ _ _ _ _ _ _ _ Hinv Hp) as (Hu & F1 & F2 & F3 & _).
    pose proof (ptr_ok_range _ _ _ (uo_ptr _ _ _ _ _ _ Hu) F3) as Hrg.
    destruct (match_size_class_fits n ltac:(lia)) as (mc & Hmc & _).
    rewrite (realloc_ours_unfold _ _ _ _ _ _ _ _ _ _ _ n Hinv Hp), Hmc, bind_ret.
    apply (post_bind _ _ (λ _, True)).
    { unfold kind_class. destruct (ub_kind u) as [c|m] eqn:Hk; [|by rewrite Z.eqb_refl].
      destruct (slab_slots st _ _ _ _ _ _ (hi_slab Hinv)) as (_ & Q2 & _). rewrite Forall_forall in Q2.
      pose proof (uo_place _ _ _ _ _ _ Hu) as Hpl. unfold place_ok in Hpl. rewrite Hk in Hpl.
      destruct Hpl as (a & Haa & _ & <-). destruct (class_iterations _ (ai_class _ _ (Q2 a Haa))) as (it & -> & _).
      by destruct (_ =? BIG_CLASS). }
    intros it _. cbv zeta. rewrite (proj2 (Z.eqb_neq (ub_ptr u - (p + HEADER_SIZE)) 0)) by lia. cbn [negb].
    apply (move_block_ok am am_free h live As ls gs others U p u n); try done; [lia|].
    unfold saturating_sub, usable. lia.
Qed.

(** A block that [malloc] gave for no bytes keeps its recorded size of 0. *)
Lemma realloc_empty_ok am am_free h live As ls gs others U p n :
  heap_inv h live As ls gs others U → U !! p = Some (mkU (Big 0) (p + HEADER_SIZE)) →
  OX_FORCE_THP st = false → 0 < n ≤ 3840 →
  realloc st am am_free h (p + HEADER_SIZE) n = Ret (Here, p + HEADER_SIZE, h).
Proof.
  intros Hinv Hp Hthp Hn. destruct (user_ptr st _ _ _ _ _ _ _ _ _ Hinv Hp) as (Ho & Hne & _). cbn [ub_ptr] in *.
  unfold realloc. rewrite (proj2 (Z.eqb_neq _ _) Hne), (proj2 (Z.ltb_ge _ n)), Ho, bind_ret by lia. cbn [negb].
  rewrite (proj2 (Z.eqb_neq n 0)) by lia.
  rewrite (realloc_ours_big am am_free _ _ _ _ _ _ _ _ _ n Hinv Hp) by lia.
  destruct (new_size_total_class n ltac:(lia)) as (c & Hf & Hc & _).
  assert (class_size c ≤ 3840) as Hcs.
  { destruct (Z.le_gt_cases c 21) as [Hle|Hgt].
    - assert (Hall : forallb (λ i, class_size (Z.of_nat i) <=? 3840) (seq 0 22) = true) by (vm_compute; reflexivity).
      pose proof (forallb_lookup _ _ (Z.to_nat c) (Z.to_nat c) Hall) as Hx. rewrite lookup_seq in Hx.
      specialize (Hx ltac:(lia)). cbn beta in Hx. rewrite Z2Nat.id in Hx by lia. by apply Z.leb_le in Hx.
    - exfalso. destruct Hf as (_ & _ & _ & Hmin). pose proof (Hmin 21 3840 ltac:(lia) eq_refl). lia. }
  pose proof (HEADER_SIZE_cases _) as Hhs. destruct (big_bytes_pages 0 Hthp ltac:(lia)) as (B1 & B2 & B3 & _).
  rewrite (resize_big_class _ _ _ _ _ _ _ _ _ _ n c Hinv Hp), bind_ret; [done|done|lia|done|].
  assert (big_bytes st 0 = 4096) as -> by zdiv. unfold round_up. zdiv.
Qed.

Lemma realloc_ok am am_free h live As ls gs others U p u n :
  heap_inv h live As ls gs others U → U !! p = Some u → 0 < n ≤ 1024 * 1024 * 1024 * 3 → cpus_ok am h →
  cpus_ok am_free h → resizable p u n →
  post (realloc st am am_free h (ub_ptr u) n)
    (λ r, r.1.1 = Here ∧ realloc_result h As others U p u n (r.1.2, r.2)) (alloc_end (hp_big h)).
Proof.
  intros Hinv Hp Hn Ha Hf Hres. destruct (user_ptr st _ _ _ _ _ _ _ _ _ Hinv Hp) as (Ho & Hne & _).
  unfold realloc. rewrite (proj2 (Z.eqb_neq _ _) Hne), (proj2 (Z.ltb_ge _ n)), Ho, bind_ret by lia. cbn [negb].
  rewrite (proj2 (Z.eqb_neq n 0)) by lia.
  eapply post_bind; [by eapply realloc_ours_ok|]. by intros [q h'] Hr'.
Qed.
End ReallocSpec.
