(* ===== verification/Trim.v ===== *)
(** * The trim thread (src/src/trim/mod.rs, thread.rs, gtrim.rs)

    A thread of its own looks at the free blocks of the classes from 4096 bytes up
    that are in the per-cpu lists, and gives the pages of those that have been
    there for long back to the kernel.  [gtrim_round] is one round of its endless
    loop; what it reads from the system (the clock, [sysinfo], the cpu that it runs
    on at each access) is an argument. *)

From S2P Require Import Prelude Bits Lib Rng Sys SizeClass VaMap Mem BlockList ThreadLocal Interconnect Bulk.

(** ** Decay *)

Inductive TimeDecay : Type := Normal | Medium | High | Aggressive.

#[export] Instance TimeDecay_eq_dec : EqDecision TimeDecay.
Proof. solve_decision. Defined.

Definition decide_on (avg_time : Z) : TimeDecay :=
  if (0 <=? avg_time) && (avg_time <=? 1) then Normal
  else if (4 <=? avg_time) && (avg_time <=? 5) then Medium
  else if (6 <=? avg_time) && (avg_time <=? 10) then High
  else Aggressive.

Definition get_trim_time (d : TimeDecay) : Z :=
  match d with Normal => 150 | Medium => 120 | High => 100 | Aggressive => 20 end.

Definition get_trim_time_for_global (d : TimeDecay) : Z :=
  match d with Normal => 2 | Medium => 1 | High => 1 | Aggressive => 1 end.

Definition get_threshold (d : TimeDecay) : Z :=
  match d with
  | Normal => 32 * 1024 * 1024
  | Medium => 64 * 1024 * 1024
  | High => 128 * 1024 * 1024
  | Aggressive => 512 * 1024 * 1024
  end.

Definition from_u8 (value : Z) : TimeDecay :=
  if value =? 0 then Normal
  else if value =? 1 then Medium
  else if value =? 2 then High
  else if value =? 3 then Aggressive
  else Aggressive.

(** The [repr(u8)] discriminants. *)
Definition decay_as_u8 (d : TimeDecay) : Z :=
  match d with Normal => 0 | Medium => 1 | High => 2 | Aggressive => 3 end.

(** ** The thread's statics *)

Record TrimState : Type := mkTrim {
  TOTAL_TIME_GLOBAL : Z;
  LAST_TRIM_GLOBAL : Z;
  LAST_PRESSURE_CHECK : Z;
  GLOBAL_DECAY : Z;
  AVERAGE_TIMES : Z;
  TRIM_THRESHOLD : Z
}.

(** [libc::sysinfo]: the fields that the code reads; [None] if the call fails. *)
Record SysInfo : Type := mkSysInfo {
  mem_unit : Z;
  totalram : Z;
  freeram : Z;
  totalswap : Z;
  freeswap : Z
}.

Definition check_memory_pressure (info : option SysInfo) : M Z :=
  match info with
  | None => Ret 50
  | Some info =>
      let unit := mem_unit info in
      let total_ram := saturating_mul64 (totalram info) unit in
      let free_ram := saturating_mul64 (freeram info) unit in
      let total_swap := saturating_mul64 (totalswap info) unit in
      let free_swap := saturating_mul64 (freeswap info) unit in
      total_available ← uadd free_ram free_swap;
      total_memory ← uadd total_ram total_swap;
      if total_memory =? 0 then Ret 50
      else
        let used := saturating_sub total_memory total_available in
        u ← umul used 100;
        udiv u total_memory
  end.

Definition decide_global (g : TrimState) (decay : TimeDecay) (info : option SysInfo) : M (bool * TrimState) :=
  let thr := if (TRIM_THRESHOLD g <? get_threshold decay) && negb (TRIM_THRESHOLD g =? 0)
             then get_threshold decay else TRIM_THRESHOLD g in
  let total := TOTAL_TIME_GLOBAL g in
  pressure ← check_memory_pressure info;
  let g := mkTrim total (LAST_TRIM_GLOBAL g) pressure (GLOBAL_DECAY g) (AVERAGE_TIMES g) thr in
  if 85 <? pressure then Ret (true, g)
  else
    let timing := AVERAGE_TIMES g in
    if timing =? 0 then Ret (false, g)
    else
      let last := LAST_TRIM_GLOBAL g in
      if (timing <=? saturating_sub total last) && negb (total =? 0) then
        Ret (true, mkTrim total total pressure (GLOBAL_DECAY g) (AVERAGE_TIMES g) thr)
      else Ret (false, g).

(** ** [GTrim] *)

(** [a + 1] on [u32]. *)
Definition succ32 (a : Z) : M Z :=
  if a + 1 <? 2 ^ 32 then Ret (a + 1) else Abort (Panic ArithOverflow).

Section GTrim.
Context `{Config}.
Context {K : Type} `{Kernel K}.
Context (st : Statics).

(** Every access to the per-cpu lists runs on a cpu of its own: the pop and the push of round [i] of a
    class, and the push of a block whose pages were given back. *)
Context (round_am : Z → nat → Ambient) (block_am : Z → Ambient).

(** [while real < 16 && !block.next.is_null() && is_ours(block.next) { .. }]; with [check], each
    block must carry [FREED_MAGIC]. *)
Fixpoint batch_end (fuel : nat) (check : bool) (c : Call K) (block real : Z) : M (Z * Z) :=
  if real <? 16 then
    _ ← deref block;
    let next := hget FNext (c_mem c) block in
    if next =? 0 then Ret (block, real)
    else
      ours ← va_is_ours (c_va c) next;
      if negb ours then Ret (block, real)
      else if check && negb (hget FMagic (c_mem c) block =? FREED_MAGIC st) then log_and_abort MemoryCorruption
      else
        match fuel with
        | O => Abort OutOfFuel
        | S fuel => batch_end fuel check c next (real + 1)
        end
  else Ret (block, real).

(** [block.next = null_mut()]. *)
Definition cut (c : Call K) (block : Z) : M (Call K) :=
  _ ← deref block;
  Ret (with_mem c (hput FNext (c_mem c) block 0)).

(** [GTrim::pop_from_global]. *)
Definition gtrim_pop (c : Call K) (class : Z) (i : nat) : M (Z * Z * Call K) :=
  let am := round_am class i in
  '(global_cache, m, icc, k) ←
    pop_from_global (NUMA_KEY st) (am_buf am) (c_mem c) (c_icc c) class 16 (am_pop_cpu am) (c_kernel c);
  let c := with_global c m icc k in
  if global_cache =? 0 then Ret (0, 0, c)
  else
    '(block, real) ← batch_end 16 true c global_cache 1;
    c ← cut c block;
    if hardened && negb (hget FMagic (c_mem c) block =? FREED_MAGIC st) then log_and_abort MemoryCorruption
    else Ret (global_cache, real, c).

(** [avg], [total], and the two lists. *)
Record Sorted : Type := mkSorted { so_avg : Z; so_total : Z; so_push : Z; so_trim : Z }.

(** [for _ in 0..size { .. }]: old blocks go to one list and the others to the other. *)
Fixpoint sort_loop (n : nat) (timing : Z) (m : mem) (s : Sorted) (block : Z) : M (mem * Sorted) :=
  match n with
  | O => Ret (m, s)
  | S n =>
      _ ← deref block;
      let next := hget FNext m block in
      let life_time := saturating_sub (OX_CURRENT_STAMP st) (hget FLifeTime m block) in
      '(avg, total) ← (if negb (life_time =? 0) then
                         t ← succ32 (so_total s);
                         Ret (Z.min (2 ^ 32 - 1) (so_avg s + life_time), t)
                       else Ret (so_avg s, so_total s));
      if timing <? life_time then
        sort_loop n timing (hput FNext m block (so_trim s)) (mkSorted avg total (so_push s) block) next
      else
        sort_loop n timing (hput FNext m block (so_push s)) (mkSorted avg total block (so_trim s)) next
  end.

(** The young blocks of a batch go back to the lists, unless there are none. *)
Definition put_back (c : Call K) (class : Z) (i : nat) (to_push : Z) : M (Call K) :=
  if to_push =? 0 then Ret c
  else
    '(block, real) ← batch_end 16 false c to_push 1;
    c ← cut c block;
    call_push_to_global st (round_am class i) c class to_push block real.

(** [for _ in 0..class_usage / 16 { .. }]; round [i] to come. *)
Fixpoint class_rounds (n : nat) (i : nat) (c : Call K) (class timing avg total to_trim : Z)
    : M (Call K * Z * Z * Z) :=
  match n with
  | O => Ret (c, avg, total, to_trim)
  | S n =>
      '(cache, size, c) ← gtrim_pop c class i;
      if cache =? 0 then Ret (c, avg, total, to_trim)
      else
        '(m, s) ← sort_loop (Z.to_nat size) timing (c_mem c) (mkSorted avg total 0 to_trim) cache;
        c ← put_back (with_mem c m) class i (so_push s);
        class_rounds n (S i) c class timing (so_avg s) (so_total s) (so_trim s)
  end.

(** [release_memory]: the whole pages of the payload. *)
Definition release_memory (c : Call K) (header size : Z) : M (Call K) :=
  user_start ← uadd header HEADER_SIZE;
  user_end ← uadd user_start size;
  s ← uadd user_start 4096;
  s ← usub s 1;
  let page_start := Z.land s (lnot64 4095) in
  let page_end := Z.land user_end (lnot64 4095) in
  if page_end <=? page_start then Ret c
  else
    length ← usub page_end page_start;
    '(r, k) ← madvise page_start length Advice_DONTNEED (c_kernel c);
    let c := with_kernel c k in
    Ret (if is_err r then c else with_mem c (zero_fill (c_mem c) page_start length)).

(** [while !to_trim.is_null() { .. }]. *)
Fixpoint release_loop (fuel : nat) (c : Call K) (class pad : Z) (force_trim : bool) (to_trim total_freed : Z)
    : M (Call K * Z) :=
  if to_trim =? 0 then Ret (c, total_freed)
  else
    match fuel with
    | O => Abort OutOfFuel
    | S fuel =>
        let next := hget FNext (c_mem c) to_trim in
        size ← vget SIZE_CLASSES class;
        '(c, total_freed) ← (if ((total_freed <=? pad) || (pad =? 0)) || force_trim then
                               c ← release_memory c to_trim size;
                               t ← uadd total_freed size;
                               Ret (c, t)
                             else Ret (c, total_freed));
        c ← call_push_to_global st (block_am to_trim) c class to_trim to_trim 1;
        release_loop fuel c class pad force_trim next total_freed
    end.

(** [for class in class_4096..NUM_SIZE_CLASSES { .. }]; [true] is the early return. *)
Fixpoint class_loop (n : nat) (c : Call K) (class pad timing : Z) (force_trim : bool) (avg total total_freed : Z)
    : M (bool * Call K * Z * Z * Z) :=
  match n with
  | O => Ret (false, c, avg, total, total_freed)
  | S n =>
      if (pad <=? total_freed) && negb (pad =? 0) then Ret (true, c, avg, total, total_freed)
      else
        class_usage ← get_size (c_icc c) class;
        '(c, avg, total, to_trim) ← class_rounds (Z.to_nat (class_usage / 16)) 0 c class timing avg total 0;
        '(c, total_freed) ← release_loop (S (Z.to_nat class_usage)) c class pad force_trim to_trim total_freed;
        class_loop n c (class + 1) pad timing force_trim avg total total_freed
  end.

(** [GTrim::trim]. *)
Definition trim (g : TrimState) (c : Call K) (pad : Z) : M (Z * Z * TrimState * Call K) :=
  let force_trim := 90 <? LAST_PRESSURE_CHECK g in
  let timing := AVERAGE_TIMES g mod 2 ^ 32 in
  class_4096 ← get_size_4096_class;
  '(early, c, avg, total, total_freed) ←
    class_loop (Z.to_nat (NUM_SIZE_CLASSES - class_4096)) c class_4096 pad timing force_trim 0 0 0;
  if early : bool then Ret (1, total_freed, g, c)
  else
    g ← (if 0 <? total then
           a ← udiv avg total;
           let avg := Z.min 10 (Z.max 1 a) in
           Ret (mkTrim (TOTAL_TIME_GLOBAL g) (LAST_TRIM_GLOBAL g) (LAST_PRESSURE_CHECK g)
                  (decay_as_u8 (decide_on avg)) avg (TRIM_THRESHOLD g))
         else Ret g);
    Ret (if pad <=? total_freed then 1 else 0, total_freed, g, c).
End GTrim.

(** ** The loop of the thread *)

Section Round.
Context `{Config}.
Context {K : Type} `{Kernel K}.

(** [OX_CURRENT_STAMP = time]. *)
Definition with_stamp (st : Statics) (time : Z) : Statics :=
  mkStatics (MAGIC st) (FREED_MAGIC st) (NUMA_KEY st) time (OX_MAX_RESERVATION st) (OX_FORCE_THP st).

(** One round of [spawn_gtrim_thread], after its sleep. *)
Definition gtrim_round (st : Statics) (round_am : Z → nat → Ambient) (block_am : Z → Ambient)
    (g : TrimState) (c : Call K) (elapsed_secs : Z) (info : option SysInfo) : M (Statics * TrimState * Call K) :=
  let decay := from_u8 (GLOBAL_DECAY g) in
  let g := mkTrim (wrapping_add64 (TOTAL_TIME_GLOBAL g) (get_trim_time_for_global decay)) (LAST_TRIM_GLOBAL g)
             (LAST_PRESSURE_CHECK g) (GLOBAL_DECAY g) (AVERAGE_TIMES g) (TRIM_THRESHOLD g) in
  let st := with_stamp st (elapsed_secs mod 2 ^ 32) in
  '(go, g) ← decide_global g decay info;
  if go : bool then
    '(_, _, g, c) ← trim st round_am block_am g c (TRIM_THRESHOLD g);
    Ret (st, g, c)
  else Ret (st, g, c).
End Round.
