(* ===== verification/TrimSpec.v ===== *)
(** * The trim thread keeps the invariant of the slab

    [GTrim::trim] takes free blocks out of the per-cpu lists, sorts them by age in
    two chains, clears the whole pages of the old ones and puts all of them back:
    no block is lost, and nothing outside of the free blocks changes. *)

From S2P Require Import Prelude Bits Lib Rng Segment HashMap Sys Radix SizeClass VaMap VaMapSpec VaLive.
From S2P Require Import Mem BlockList ThreadLocal Interconnect InterconnectSpec Bulk BulkSpec.
From S2P Require Import SlabInv SlabOps SlabFill Heap HeapInv HeapFill Trim.

Lemma zlen_cons {A} (x : A) l : zlen (x :: l) = zlen l + 1.
Proof. unfold zlen. cbn. lia. Qed.

(** No class has more than 2 MiB. *)
Lemma class_size_bound c : 0 ≤ c < NUM_SIZE_CLASSES → 0 < class_size c ≤ 2 ^ 21.
Proof.
  intros Hc. assert (Hall : forallb (λ i, (0 <? class_size (Z.of_nat i)) && (class_size (Z.of_nat i) <=? 2 ^ 21))
    (seq 0 (Z.to_nat NUM_SIZE_CLASSES)) = true) by (vm_compute; reflexivity).
  pose proof (forallb_lookup _ _ (Z.to_nat c) (Z.to_nat c) Hall) as Hx. rewrite lookup_seq in Hx.
  specialize (Hx ltac:(lia)). cbn beta in Hx. rewrite Z2Nat.id in Hx by lia.
  apply andb_true_iff in Hx as [?%Z.ltb_lt ?%Z.leb_le]. lia.
Qed.

(** ** Counting *)

Lemma zlen_concat_elem {A} (L : list (list A)) l : l ∈ L → zlen l ≤ zlen (concat L).
Proof.
  intros (L1 & L2 & ->)%list_elem_of_split. rewrite concat_app. cbn. rewrite !zlen_app. unfold zlen. lia.
Qed.

(** Elements between two positions. *)
Lemma zlen_concat_take {A} (L : list (list A)) (i j k : nat) l :
  (i ≤ k < j)%nat → L !! k = Some l → zlen (concat (take i L)) + zlen l ≤ zlen (concat (take j L)).
Proof.
  intros Hk Hl. rewrite <- (take_drop i (take j L)), take_take, Nat.min_l by lia.
  rewrite concat_app, zlen_app. enough (zlen l ≤ zlen (concat (drop i (take j L)))) by lia.
  apply zlen_concat_elem. apply list_elem_of_lookup. exists (k - i)%nat. rewrite lookup_drop, lookup_take_lt by lia.
  by replace (i + (k - i))%nat with k by lia.
Qed.

Lemma zlen_concat_le {A} (L : list (list A)) i : zlen (concat (take i L)) ≤ zlen (concat L).
Proof. rewrite <- (take_drop i L) at 2. rewrite concat_app, zlen_app. unfold zlen. lia. Qed.

Section TrimSpec.
Context `{Config}.
Context {K : Type} `{LinuxKernel K}.
Context (st : Statics).

Abbreviation slab_inv := (slab_inv st).

(** The order in which the blocks outside of the lists are named does not matter. *)
Lemma slab_perm c live As ls gs rest rest' :
  rest ≡ₚ rest' → slab_inv c live As ls gs rest → slab_inv c live As ls gs rest'.
Proof. intros Hp [Q1 Q2 Q3 Q4 Q5 Q6 Q7 Q8 Q9 Q10 Q11]. split; try done. by rewrite <- Hp. Qed.

(** The last block of a chain has no successor. *)
Lemma enc_list_last m x ws t : enc_list m 0 x ws → last ws = Some t → hget FNext m t = 0.
Proof.
  intros He Ht. rewrite <- (app_nil_r ws) in He. by apply (enc_list_app m 0 x ws [] t Ht) in He as (_ & _ & _ & He).
Qed.

Lemma enc_list_linked m x ws : enc_list m 0 x ws → linked m 0 ws.
Proof.
  intros He. destruct (last ws) as [t|] eqn:Ht; [|by apply last_None in Ht as ->].
  rewrite <- (app_nil_r ws) in He. apply (proj1 (enc_list_app m 0 x ws [] t Ht) He).
Qed.

Lemma enc_list_head m x ws : enc_list m 0 x ws → ws ≠ [] → head ws = Some x ∧ x ≠ 0.
Proof. destruct ws as [|y ws]; [done|]. intros ((Hy & _) & -> & _) _. rewrite xor_ptr_general_plain. split; [done|lia]. Qed.

(** Cutting where the chain ends changes no link. *)
Lemma cut_end m x ws t :
  separated ws → enc_list m 0 x ws → last ws = Some t → enc_list (hput FNext m t 0) 0 x ws.
Proof.
  intros Hs He Ht. eapply enc_list_frame; [|exact He]. intros y Hy.
  destruct (decide (y = t)) as [->|Hne].
  - rewrite hget_hput_eq by done. symmetry. by eapply enc_list_last.
  - apply hget_hput_apart. apply (separated_elem ws); [done|by apply last_Some_elem_of|done|congruence].
Qed.

(** A block in front of a chain. *)
Lemma enc_list_push m x l b :
  block_ok 0 b → Forall (apart b) l → enc_list m 0 x l → enc_list (hput FNext m b x) 0 b (b :: l).
Proof.
  intros Hb Ha He. split; [done|]. split; [by rewrite xor_ptr_general_plain|].
  rewrite hget_hput_eq by (apply fits_next; by eapply (enc_list_head_word m 0)).
  eapply enc_list_only_links; [apply only_links_hput_one| |exact He].
  eapply Forall_impl; [exact Ha|]. intros y Hy. apply Forall_singleton. by apply apart_sym.
Qed.

(** [batch_end] finds the end of a chain of at most 16 blocks. *)
Lemma batch_end_spec c ws x t real fuel check :
  enc_list (c_mem c) 0 x ws → last ws = Some t →
  (∀ y, y ∈ ws → va_is_ours (c_va c) y = Ret true ∧ hget FMagic (c_mem c) y = FREED_MAGIC st) →
  real + zlen ws - 1 ≤ 16 → (length ws ≤ fuel)%nat →
  batch_end (K := K) st fuel check c x real = Ret (t, real + zlen ws - 1).
Proof.
  revert x real fuel. induction ws as [|y ws IH]; intros x real fuel He Ht Ho Hb Hf; [done|].
  destruct He as (Hok & -> & He). rewrite xor_ptr_general_plain. destruct Hok as (Hy & _).
  rewrite zlen_cons in *. destruct ws as [|z ws].
  - injection Ht as <-. cbn in He. change (zlen (@nil Z)) with 0 in *. replace (real + (0 + 1) - 1) with real by lia.
    destruct fuel; cbn [batch_end]; (destruct (real <? 16); [|done]);
      rewrite deref_ok, bind_ret by lia; by rewrite He.
  - rewrite zlen_cons in *. assert (0 ≤ zlen ws) by (unfold zlen; lia).
    destruct fuel as [|fuel]; [cbn in Hf; lia|]. cbn [batch_end].
    rewrite (proj2 (Z.ltb_lt real 16)) by lia. rewrite deref_ok, bind_ret by lia.
    pose proof He as ((Hz0 & _) & Hn & _). rewrite xor_ptr_general_plain in Hn. rewrite Hn.
    rewrite (proj2 (Z.eqb_neq z 0)) by lia. rewrite (proj1 (Ho z ltac:(right; left))), bind_ret. cbn [negb].
    rewrite (proj2 (Ho y ltac:(left))), Z.eqb_refl, andb_false_r. rewrite (IH z (real + 1) fuel).
    + f_equal. f_equal. lia.
    + by rewrite Hn in He.
    + done.
    + intros w Hw. apply Ho. by right.
    + lia.
    + cbn in Hf |- *. lia.
Qed.

(** ** Sorting *)

Lemma sort_loop_spec timing l m s block P T :
  enc_list m 0 block l → enc_list m 0 (so_push s) P → enc_list m 0 (so_trim s) T → separated (l ++ P ++ T) →
  so_total s + zlen l < 2 ^ 32 →
  ∃ m' s' E D, sort_loop st (length l) timing m s block = Ret (m', s') ∧
    enc_list m' 0 (so_push s') (E ++ P) ∧ enc_list m' 0 (so_trim s') (D ++ T) ∧ E ++ D ≡ₚ l ∧
    only_links m m' l ∧ so_total s ≤ so_total s' ≤ so_total s + zlen l.
Proof.
  revert m s block P T. induction l as [|b l IH]; intros m s block P T Hl HP HT Hsep Htot.
  - exists m, s, [], []. cbn [length sort_loop]. split; [done|]. split; [done|]. split; [done|]. split; [done|].
    split; [apply only_links_refl|]. unfold zlen. cbn. lia.
  - destruct Hl as (Hb & -> & Hl). rewrite xor_ptr_general_plain. rewrite zlen_cons in Htot.
    assert (0 ≤ zlen l) by (unfold zlen; lia). pose proof Hsep as [Hab _].
    apply Forall_app in Hab as [Hal Hab]. apply Forall_app in Hab as [HaP HaT].
    cbn [length sort_loop]. rewrite deref_ok, bind_ret by (destruct Hb; lia).
    set (life := saturating_sub _ _).
    assert (∃ avg total, (if negb (life =? 0) then t ← succ32 (so_total s); Ret (Z.min (2 ^ 32 - 1) (so_avg s + life), t)
      else Ret (so_avg s, so_total s)) = Ret (avg, total) ∧ so_total s ≤ total ≤ so_total s + 1) as (avg & total & -> & Ht).
    { destruct (life =? 0); cbn [negb]; [eexists _, _; split; [done|lia]|].
      unfold succ32. rewrite (proj2 (Z.ltb_lt _ _)), bind_ret by lia. eexists _, _. split; [done|lia]. }
    rewrite bind_ret.
    assert (∀ v k L, Forall (apart b) L → enc_list m 0 k L → enc_list (hput FNext m b v) 0 k L) as Hfr.
    { intros v k L HaL. apply (enc_list_only_links _ _ _ _ _ [b]); [apply only_links_hput_one|].
      eapply Forall_impl; [exact HaL|]. intros y Hy. apply Forall_singleton. by apply apart_sym. }
    destruct (timing <? life).
    + destruct (IH (hput FNext m b (so_trim s)) (mkSorted avg total (so_push s) b) (hget FNext m b) P (b :: T))
        as (m' & s' & E & D & Hrun & HE & HD & Hperm & Ho & Htot'); cbn [so_push so_trim so_total] in *.
      * by apply Hfr.
      * by apply Hfr.
      * by apply enc_list_push.
      * eapply separated_proper; [|exact Hsep]. solve_Permutation.
      * lia.
      * exists m', s', E, (D ++ [b]). split; [exact Hrun|]. split; [done|]. split; [by rewrite <- app_assoc|].
        split; [|split; [|rewrite zlen_cons; lia]].
        -- rewrite app_assoc, Hperm. solve_Permutation.
        -- eapply only_links_cons; [apply only_links_hput_one|done].
    + destruct (IH (hput FNext m b (so_push s)) (mkSorted avg total b (so_trim s)) (hget FNext m b) (b :: P) T)
        as (m' & s' & E & D & Hrun & HE & HD & Hperm & Ho & Htot'); cbn [so_push so_trim so_total] in *.
      * by apply Hfr.
      * by apply enc_list_push.
      * by apply Hfr.
      * eapply separated_proper; [|exact Hsep]. solve_Permutation.
      * lia.
      * exists m', s', (E ++ [b]), D. split; [exact Hrun|]. split; [by rewrite <- app_assoc|]. split; [done|].
        split; [|split; [|rewrite zlen_cons; lia]].
        -- rewrite <- Hperm. solve_Permutation.
        -- eapply only_links_cons; [apply only_links_hput_one|done].
Qed.

(** ** One class *)

Section Class.
Context (round_am : Z → nat → Ambient) (block_am : Z → Ambient).

(** Every cpu that the thread runs on has its lists. *)
Definition trim_cpus_ok (c : Call K) : Prop :=
  (∀ class i, 0 ≤ unwrap_or_0 (get_cpu_id (am_pop_cpu (round_am class i))) < icc_ncpu (c_icc c) ∧
     0 ≤ unwrap_or_0 (get_cpu_id (am_push_cpu (round_am class i))) < icc_ncpu (c_icc c)) ∧
  ∀ b, 0 ≤ unwrap_or_0 (get_cpu_id (am_push_cpu (block_am b))) < icc_ncpu (c_icc c).

Context (live : gmap Z Z) (As : list arena) (ls : list (list Z)) (rest : list Z).

(** From [c] to [c'], which has the blocks [ws] in hand: the rest is left alone. *)
Record hands (c c' : Call K) (gs' : list (list Z)) (ws : list Z) : Prop := {
  hd_inv : slab_inv c' live As ls gs' (ws ++ rest);
  hd_frame : frame (c_mem c) (c_mem c') live As rest;
  hd_ncpu : icc_ncpu (c_icc c') = icc_ncpu (c_icc c)
}.

Lemma hands_trans c c1 c2 gs1 gs2 ws1 ws2 : hands c c1 gs1 ws1 → hands c1 c2 gs2 ws2 → hands c c2 gs2 ws2.
Proof.
  intros [P1 P2 P3] [Q1 Q2 Q3]. split; [done| |congruence].
  eapply frame_trans; [exact P2|apply extends_refl|exact Q2].
Qed.

(** Only links of blocks in hand change. *)
Lemma hands_links c c' gs gs' ws ws' :
  slab_inv c live As ls gs (ws ++ rest) → slab_inv c' live As ls gs' (ws' ++ rest) →
  only_links (c_mem c) (c_mem c') (ws ++ ws') → icc_ncpu (c_icc c') = icc_ncpu (c_icc c) → hands c c' gs' ws'.
Proof.
  intros Hinv Hinv' Ho Hn. split; [done| |done].
  eapply (frame_links (c_kernel c) (c_va c)); [apply Hinv|apply Hinv|exact Ho| |].
  - intros x Hx. apply elem_of_app in Hx as [Hx|Hx].
    + eapply (slab_rest st); [exact Hinv|]. apply elem_of_app. by left.
    + eapply (slab_rest st); [exact Hinv'|]. apply elem_of_app. by left.
  - intros x Hr Hx. apply elem_of_app in Hx as [Hx|Hx].
    + by eapply (slab_disjoint st c live As ls gs ws rest).
    + by eapply (slab_disjoint st c' live As ls gs' ws' rest).
Qed.

Lemma hand_facts c gs ws :
  slab_inv c live As ls gs (ws ++ rest) →
  separated ws ∧ ws ⊆ heap_blocks As ∧ Forall (block_ok 0) ws ∧
  (∀ y, y ∈ ws → va_is_ours (c_va c) y = Ret true).
Proof.
  intros Hinv. assert (ws ⊆ heap_blocks As) as Hwh.
  { intros z Hz. eapply (slab_rest st); [exact Hinv|]. apply elem_of_app. by left. }
  split; [|split; [done|split]].
  - pose proof (slab_separated st _ _ _ _ _ _ Hinv) as Hsep. rewrite !separated_app in Hsep. tauto.
  - apply Forall_forall. intros y Hy. destruct (slab_block st _ _ _ _ _ _ y Hinv) as (_ & _ & Hb & _); [auto|].
    by eapply block_ok_plain.
  - intros y Hy. eapply (slab_ours st); [exact Hinv|auto].
Qed.

(** A chain of blocks in hand, cut at its end, goes to a per-cpu list. *)
Lemma push_back_chain am c gs ws ts x t class :
  slab_inv c live As ls gs ((ws ++ ts) ++ rest) → linked (c_mem c) 0 ws → head ws = Some x → last ws = Some t →
  Forall (typed st (c_mem c) class) ws → 0 ≤ class < NUM_SIZE_CLASSES →
  0 ≤ unwrap_or_0 (get_cpu_id (am_push_cpu am)) < icc_ncpu (c_icc c) →
  ∃ c' gs', call_push_to_global st am c class x t (zlen ws) = Ret c' ∧ hands c c' gs' ts ∧
    only_links (c_mem c) (c_mem c') ws ∧ c_va c' = c_va c ∧ c_kernel c' = c_kernel c.
Proof.
  intros Hinv Hl Hh Ht Hty Hc Ha. rewrite <- app_assoc in Hinv.
  destruct (slab_push_global st am c live As ls gs ws (ts ++ rest) class x t Hinv)
    as (m' & icc' & gs' & -> & Hinv' & Ho & Hn); [split; done|done..|].
  eexists _, gs'. split; [done|]. split; [|split; [exact Ho|done]].
  rewrite app_assoc in Hinv. eapply hands_links; [exact Hinv|exact Hinv'| |exact Hn].
  eapply only_links_mono; [|exact Ho]. intros y Hy. rewrite !elem_of_app. auto.
Qed.

Lemma gtrim_pop_ok c gs ts class i :
  slab_inv c live As ls gs (ts ++ rest) → 0 ≤ class < NUM_SIZE_CLASSES → trim_cpus_ok c →
  gtrim_pop st round_am c class i = Ret (0, 0, c) ∨
  ∃ x ws c' gs', gtrim_pop st round_am c class i = Ret (x, zlen ws, c') ∧ x ≠ 0 ∧ 0 < zlen ws ≤ 16 ∧
    enc_list (c_mem c') 0 x ws ∧ Forall (typed st (c_mem c') class) ws ∧
    hands c c' gs' (ws ++ ts) ∧ only_links (c_mem c) (c_mem c') ws.
Proof.
  intros Hinv Hc [Ha _]. unfold gtrim_pop. destruct (Ha class i) as [Hpop _].
  destruct (slab_pop_global st (round_am class i) c live As ls gs (ts ++ rest) class 16 Hinv)
    as [->|(x & ws & m' & icc' & gs' & -> & Hx0 & Hx & Hzw & He & Hty & Hs1 & Ho & Hn)]; [lia|done|left|right];
    rewrite bind_ret.
  { cbn [Z.eqb]. by destruct c. }
  rewrite (proj2 (Z.eqb_neq x 0)) by lia. set (c1 := with_global c m' icc' _) in *.
  destruct (last ws) as [t|] eqn:Ht; [|by apply last_None in Ht as ->].
  assert (0 < zlen ws) as Hpos by (destruct ws; [done|]; rewrite zlen_cons; unfold zlen; lia).
  rewrite app_assoc in Hs1. destruct (hand_facts _ _ _ Hs1) as (Hsep & Hwh & Hok & Hours).
  assert (ws ⊆ ws ++ ts) as Hsub by (intros y Hy; apply elem_of_app; by left).
  assert (t ∈ ws) as Htw by by apply last_Some_elem_of.
  rewrite Forall_forall in Hty, Hok.
  rewrite (batch_end_spec c1 ws x t 1 16 true); [|done|done| |lia|unfold zlen in Hzw; lia].
  2: { intros y Hy. split; [apply Hours; auto|]. by apply (Hty y Hy). }
  rewrite bind_ret. replace (1 + zlen ws - 1) with (zlen ws) by lia.
  assert (t ≠ 0) as Ht0 by (pose proof (Hok t (Hsub t Htw)) as [? _]; lia).
  unfold cut. rewrite deref_ok, bind_ret, bind_ret by done. cbn [c_mem with_mem].
  assert (hget FMagic (hput FNext (c_mem c1) t 0) t = FREED_MAGIC st) as Hm.
  { rewrite hget_hput_field by done. by apply (Hty t Htw). }
  rewrite Hm, Z.eqb_refl, andb_false_r.
  assert (only_links (c_mem c1) (hput FNext (c_mem c1) t 0) ws) as Hcut by by apply only_links_hput.
  exists x, ws, (with_mem c1 (hput FNext (c_mem c1) t 0)), gs'. split; [done|]. split; [lia|]. split; [lia|].
  apply separated_app in Hsep as (Hsw & _). split; [by eapply cut_end|].
  split; [apply (typed_links_all st c1 live As ls gs' ((ws ++ ts) ++ rest) _ ws); [done|done|set_solver|set_solver|]; by apply Forall_forall|].
  assert (only_links (c_mem c) (hput FNext (c_mem c1) t 0) ws) as Ho2 by by eapply only_links_trans.
  split; [|exact Ho2]. eapply hands_links; [exact Hinv| | |exact Hn].
  - eapply (slab_links st c1); [exact Hs1|exact Hcut|]. set_solver.
  - eapply only_links_mono; [|exact Ho2]. set_solver.
Qed.

(** Sorting a popped chain into the two chains of a class. *)
Lemma sort_ok c gs x ws ts to_trim class timing avg total :
  slab_inv c live As ls gs ((ws ++ ts) ++ rest) → enc_list (c_mem c) 0 x ws → enc_list (c_mem c) 0 to_trim ts →
  Forall (typed st (c_mem c) class) (ws ++ ts) → total + zlen ws < 2 ^ 32 →
  ∃ m' s E D, sort_loop st (Z.to_nat (zlen ws)) timing (c_mem c) (mkSorted avg total 0 to_trim) x = Ret (m', s) ∧
    enc_list m' 0 (so_push s) E ∧ enc_list m' 0 (so_trim s) (D ++ ts) ∧ E ++ D ≡ₚ ws ∧
    Forall (typed st m' class) (E ++ D ++ ts) ∧ hands c (with_mem c m') gs (E ++ D ++ ts) ∧
    total ≤ so_total s ≤ total + zlen ws.
Proof.
  intros Hinv He Ht Hty Htot. destruct (hand_facts _ _ _ Hinv) as (Hsep & Hwh & _ & _).
  destruct (sort_loop_spec timing ws (c_mem c) (mkSorted avg total 0 to_trim) x [] ts)
    as (m' & s & E & D & Hrun & HE & HD & Hperm & Ho & Htot'); [done..|].
  unfold zlen at 1. rewrite Nat2Z.id. rewrite app_nil_r in HE. exists m', s, E, D.
  assert (E ++ D ++ ts ≡ₚ ws ++ ts) as Hp by (by rewrite app_assoc, Hperm).
  assert (ws ⊆ (ws ++ ts) ++ rest) as Hsub by set_solver.
  split; [exact Hrun|]. split; [done|]. split; [done|]. split; [done|]. split; [|split; [|done]].
  - rewrite Hp. apply (typed_links_all st c live As ls gs ((ws ++ ts) ++ rest) _ ws); [done|done|set_solver|done|done].
  - eapply hands_links; [exact Hinv| | |done].
    + eapply slab_perm; [by rewrite Hp|]. eapply (slab_links st c); [exact Hinv|exact Ho|exact Hsub].
    + eapply only_links_mono; [|exact Ho]. set_solver.
Qed.

(** A chain survives changes to the links of blocks apart from it. *)
Lemma enc_list_apart m m' key x ws ts :
  only_links m m' ws → Forall (λ y, Forall (apart y) ts) ws → enc_list m key x ts → enc_list m' key x ts.
Proof.
  intros Ho Hap He. eapply enc_list_only_links; [exact Ho| |exact He]. rewrite Forall_forall in Hap. apply Forall_forall.
  intros y Hy. apply Forall_forall. intros w Hw. apply apart_sym. specialize (Hap w Hw).
  rewrite Forall_forall in Hap. by apply Hap.
Qed.

(** Chains and types survive changes to the links of other blocks in hand. *)
Lemma chain_kept c gs ws ts m' x class :
  slab_inv c live As ls gs ((ws ++ ts) ++ rest) → only_links (c_mem c) m' ws → enc_list (c_mem c) 0 x ts →
  Forall (typed st (c_mem c) class) ts → enc_list m' 0 x ts ∧ Forall (typed st m' class) ts.
Proof.
  intros Hinv Ho He Hty. destruct (hand_facts _ _ _ Hinv) as (Hsep & Hwh & _ & _).
  apply separated_app in Hsep as (_ & _ & Hap). split.
  - by eapply enc_list_apart.
  - apply (typed_links_all st c live As ls gs ((ws ++ ts) ++ rest) _ ws); [done|done|set_solver|set_solver|done].
Qed.

Lemma trim_cpus_hands c c' gs' ws : trim_cpus_ok c → hands c c' gs' ws → trim_cpus_ok c'.
Proof. intros Ha [_ _ Hn]. unfold trim_cpus_ok. by rewrite Hn. Qed.

(** The chain [E] goes back to the lists, the rest stays in hand. *)
Lemma put_back_ok c gs E ts x to_trim class i :
  slab_inv c live As ls gs ((E ++ ts) ++ rest) → 0 ≤ class < NUM_SIZE_CLASSES → trim_cpus_ok c →
  enc_list (c_mem c) 0 x E → enc_list (c_mem c) 0 to_trim ts → Forall (typed st (c_mem c) class) (E ++ ts) → zlen E ≤ 16 →
  ∃ c' gs', put_back st round_am c class i x = Ret c' ∧ hands c c' gs' ts ∧
    enc_list (c_mem c') 0 to_trim ts ∧ Forall (typed st (c_mem c') class) ts.
Proof.
  intros Hinv Hc Ha HE Ht Hty Hz. unfold put_back. destruct (Z.eqb_spec x 0) as [Hx|Hx].
  { apply (enc_list_null _ _ _ _ HE) in Hx as ->. exists c, gs. split; [done|]. split; [by split; [|apply frame_refl|]|]. by split. }
  assert (E ≠ []) as HEne by (intros ->; by apply Hx).
  destruct (last E) as [t|] eqn:HEt; [|by apply last_None in HEt as ->].
  destruct (hand_facts _ _ _ Hinv) as (Hsep & Hwh & Hok & Hours). pose proof Hty as Hty0.
  rewrite Forall_forall in Hty, Hok. assert (t ∈ E) as HtE by by apply last_Some_elem_of.
  rewrite (batch_end_spec c E x t 1 16 false); [|done|done| |lia|unfold zlen in *; lia].
  2: { intros y Hy. split; [apply Hours; set_solver|]. apply (Hty y). set_solver. }
  rewrite bind_ret. replace (1 + zlen E - 1) with (zlen E) by lia.
  assert (t ≠ 0) as Ht0 by (destruct (Hok t ltac:(set_solver)); lia).
  unfold cut. rewrite deref_ok, !bind_ret by done. set (c1 := with_mem c (hput FNext (c_mem c) t 0)).
  assert (only_links (c_mem c) (c_mem c1) E) as Hcut by by apply only_links_hput.
  assert (slab_inv c1 live As ls gs ((E ++ ts) ++ rest)) as Hinv1.
  { eapply (slab_links st c); [exact Hinv|exact Hcut|set_solver]. }
  assert (Forall (typed st (c_mem c1) class) E) as HtyE.
  { apply (typed_links_all st c live As ls gs ((E ++ ts) ++ rest) _ E); [done|done|set_solver|set_solver|].
    by apply Forall_app in Hty0 as [? _]. }
  destruct (chain_kept c gs E ts (c_mem c1) to_trim class Hinv Hcut Ht) as [Ht1 Hty1]; [by apply Forall_app in Hty0 as [_ ?]|].
  assert (enc_list (c_mem c1) 0 x E) as HE1 by (apply separated_app in Hsep as (HsE & _); by eapply cut_end).
  destruct (push_back_chain (round_am class i) c1 gs E ts x t class Hinv1
    (enc_list_linked _ _ _ HE1) (proj1 (enc_list_head _ _ _ HE1 HEne)) HEt HtyE Hc)
    as (c2 & gs2 & -> & Hh2 & Ho2 & _); [apply Ha|].
  exists c2, gs2. split; [done|]. destruct (chain_kept c1 gs E ts (c_mem c2) to_trim class Hinv1 Ho2 Ht1 Hty1) as [Ht2 Hty2].
  split; [|done]. eapply hands_trans; [|exact Hh2].
  eapply hands_links; [exact Hinv|exact Hinv1|eapply only_links_mono; [|exact Hcut]; set_solver|done].
Qed.

(** What the rounds of a class leave: the chain of old blocks. *)
Definition rounds_post (c : Call K) (class total : Z) (ts : list Z) (n : nat) (r : Call K * Z * Z * Z) : Prop :=
  let '(c', _, total', to_trim') := r in
  ∃ gs' ts', hands c c' gs' ts' ∧ enc_list (c_mem c') 0 to_trim' ts' ∧ Forall (typed st (c_mem c') class) ts' ∧
    total ≤ total' ≤ total + 16 * Z.of_nat n ∧ zlen ts' ≤ zlen ts + 16 * Z.of_nat n.

Lemma class_rounds_ok class timing n i c gs ts avg total to_trim :
  slab_inv c live As ls gs (ts ++ rest) → 0 ≤ class < NUM_SIZE_CLASSES → trim_cpus_ok c →
  enc_list (c_mem c) 0 to_trim ts → Forall (typed st (c_mem c) class) ts →
  total + 16 * Z.of_nat n < 2 ^ 32 →
  ∃ r, class_rounds st round_am n i c class timing avg total to_trim = Ret r ∧ rounds_post c class total ts n r.
Proof.
  intros Hinv Hc. revert i c gs ts avg total to_trim Hinv.
  induction n as [|n IH]; intros i c gs ts avg total to_trim Hinv Ha He Hty Htot; cbn [class_rounds].
  { eexists. split; [done|]. exists gs, ts. split; [by split; [|apply frame_refl|]|]. split; [done|]. split; [done|lia]. }
  destruct (gtrim_pop_ok c gs ts class i Hinv Hc Ha)
    as [->|(x & ws & c1 & gs1 & -> & Hx & Hw & He1 & Hty1 & Hh1 & Ho1)]; rewrite bind_ret.
  { cbn [Z.eqb]. eexists. split; [done|]. exists gs, ts. split; [by split; [|apply frame_refl|]|]. split; [done|]. split; [done|lia]. }
  rewrite (proj2 (Z.eqb_neq x 0)) by done. pose proof (hd_inv _ _ _ _ Hh1) as Hinv1.
  assert (enc_list (c_mem c1) 0 to_trim ts ∧ Forall (typed st (c_mem c1) class) ts) as [Het1 Htt1].
  { destruct (hand_facts _ _ _ Hinv1) as (Hsep & Hwh & _). apply separated_app in Hsep as (_ & _ & Hap).
    split; [by eapply enc_list_apart|]. apply (typed_links_all st c live As ls gs (ts ++ rest) _ ws); [done|done|set_solver|set_solver|done]. }
  destruct (sort_ok c1 gs1 x ws ts to_trim class timing avg total Hinv1 He1 Het1)
    as (m2 & s & E & D & -> & HE & HD & Hperm & Hty2 & Hh2 & Htot2); [by apply Forall_app|lia|]. rewrite bind_ret.
  pose proof (hands_trans _ _ _ _ _ _ _ Hh1 Hh2) as Hh12.
  assert (zlen E + zlen D = zlen ws) as Hlen by (rewrite <- zlen_app; unfold zlen; by rewrite Hperm).
  assert (0 ≤ zlen E ∧ 0 ≤ zlen D) as [HzE HzD] by (unfold zlen; lia).
  destruct (put_back_ok (with_mem c1 m2) gs1 E (D ++ ts) (so_push s) (so_trim s) class i (hd_inv _ _ _ _ Hh2) Hc)
    as (c3 & gs3 & -> & Hh3 & He3 & Hty3); [by eapply trim_cpus_hands|done|done|done|lia|]. rewrite bind_ret.
  pose proof (hands_trans _ _ _ _ _ _ _ Hh12 Hh3) as Hh13.
  destruct (IH (S i) c3 gs3 (D ++ ts) (so_avg s) (so_total s) (so_trim s))
    as ([[[c4 avg4] total4] trim4] & Hrun & gs4 & ts4 & Hh4 & He4 & Hty4 & Ht4 & Hz4); [apply Hh13|by eapply trim_cpus_hands|done|done|lia|].
  eexists. split; [exact Hrun|]. exists gs4, ts4. split; [by eapply hands_trans|].
  rewrite zlen_app in Hz4. split; [done|]. split; [done|]. lia.
Qed.

(** ** Clearing pages *)

(** Writing to a block in hand. *)
Lemma block_write c gs a b m' keep :
  slab_inv c live As ls gs keep → a ∈ As → b ∈ arena_blocks a → b ∈ keep →
  only_range (c_mem c) m' (b + HEADER_SIZE) (class_size (ar_class a)) →
  slab_inv (with_mem c m') live As ls gs keep ∧
  (∀ f y, y ∈ heap_blocks As → hget f m' y = hget f (c_mem c) y) ∧
  ∀ keep', (b ∉ keep') → frame (c_mem c) m' live As keep'.
Proof.
  intros Hinv Haa Hb Hk Ho. destruct (slab_slots st _ _ _ _ _ _ Hinv) as (_ & Q2 & _). rewrite Forall_forall in Q2.
  pose proof (co_bounds _ (class_ok_all _ (ai_class _ _ (Q2 a Haa)))) as (B1 & B2 & _).
  pose proof (HEADER_SIZE_cases _) as Hhs.
  assert (∀ f, hget f m' b = hget f (c_mem c) b) as Hget.
  { intros f. pose proof (field_inside f).
    apply (same_on_load _ _ b HEADER_SIZE); [eapply only_range_same; [exact Ho|lia]|lia|lia]. }
  destruct (slab_write_block st c live As ls gs keep a b m' Hinv Haa Hb Hk) as (Hi & Ho' & Hf);
    [eapply only_range_mono; [| |exact Ho]; lia|apply Hget|].
  split; [done|]. split; [|done]. intros f y Hy. destruct (decide (y = b)) as [->|Hne]; [done|by apply Ho'].
Qed.

Lemma release_memory_ok c a b :
  0 < b → b + HEADER_SIZE + class_size (ar_class a) + 4096 ≤ usize_max → 0 ≤ class_size (ar_class a) →
  ∃ k' m', release_memory c b (class_size (ar_class a)) = Ret (with_mem (with_kernel c k') m') ∧
    keeps (c_kernel c) k' ∧ only_range (c_mem c) m' (b + HEADER_SIZE) (class_size (ar_class a)).
Proof.
  intros Hb Hmax Hsz. pose proof (HEADER_SIZE_cases _) as Hhs. unfold release_memory. checked.
  change 4095 with (2 ^ 12 - 1). rewrite !land_lnot64_ones by (unfold word64, usize_max, u64_max in *; lia).
  change (2 ^ 12) with 4096. set (pe := _ / 4096 * 4096). set (ps := _ / 4096 * 4096).
  assert (∀ k, with_mem (with_kernel c k) (c_mem c) = with_kernel c k) as Hid by (by destruct c).
  assert (with_kernel c (c_kernel c) = c) as Hkc by (by destruct c).
  destruct (Z.leb_spec pe ps) as [|Hlt].
  { exists (c_kernel c), (c_mem c). rewrite Hid, Hkc. split; [done|]. split; [done|]. by intros x _. }
  checked. destruct (madvise_spec ps (pe - ps) Advice_DONTNEED (c_kernel c)) as (r & k' & -> & Hk). rewrite bind_ret.
  destruct (is_err r).
  { exists k', (c_mem c). rewrite Hid. split; [done|]. split; [done|]. by intros x _. }
  exists k', (zero_fill (c_mem c) ps (pe - ps)). split; [done|]. split; [done|].
  intros x Hx. unfold zero_fill. destruct (Z.leb_spec ps x), (Z.ltb_spec x (ps + (pe - ps))); cbn; try done.
  exfalso. unfold ps, pe in *. zdiv.
Qed.

(** The arena of a block in hand. *)
Lemma typed_arena c gs ws class b :
  slab_inv c live As ls gs (ws ++ rest) → b ∈ ws → typed st (c_mem c) class b →
  ∃ a, a ∈ As ∧ b ∈ arena_blocks a ∧ ar_class a = class.
Proof.
  intros Hinv Hb [Ht _]. destruct (hand_facts _ _ _ Hinv) as (_ & Hwh & _).
  destruct (proj1 (elem_of_heap_blocks As b) (Hwh b Hb)) as (a & Haa & Hba). exists a. split; [done|]. split; [done|].
  pose proof (ao_mem _ _ _ (si_arenas _ _ _ _ _ _ _ Hinv)) as Hm. rewrite Forall_forall in Hm.
  pose proof (am_classes _ _ (Hm a Haa)) as Hcl. rewrite Forall_forall in Hcl. rewrite <- Ht. symmetry. by apply Hcl.
Qed.

(** One old block. *)
Lemma release_one_ok c gs b ts class x :
  slab_inv c live As ls gs ((b :: ts) ++ rest) → 0 ≤ class < NUM_SIZE_CLASSES →
  enc_list (c_mem c) 0 x (b :: ts) → Forall (typed st (c_mem c) class) (b :: ts) →
  ∃ c', release_memory c b (class_size class) = Ret c' ∧ hands c c' gs (b :: ts) ∧
    enc_list (c_mem c') 0 x (b :: ts) ∧ Forall (typed st (c_mem c') class) (b :: ts).
Proof.
  intros Hinv Hc He Hty. pose proof Hty as [Hb _]%Forall_cons.
  destruct (typed_arena c gs (b :: ts) class b Hinv ltac:(left) Hb) as (a & Haa & Hba & <-).
  destruct (slab_slots st _ _ _ _ _ _ Hinv) as (Q1 & Q2 & Q3).
  destruct (block_range _ _ _ _ Q1 Q2 _ _ Haa Hba) as (_ & _ & _ & R3 & _ & _ & R6).
  pose proof (co_bounds _ (class_ok_all _ Hc)) as (B1 & B2 & _). pose proof (HEADER_SIZE_cases _) as Hhs.
  destruct (release_memory_ok c a b) as (k' & m' & -> & Hk & Ho); [lia|unfold usize_max, u64_max; lia|lia|].
  pose proof (slab_kernel st _ _ _ _ _ _ _ Hinv Hk) as Hinv1.
  destruct (block_write (with_kernel c k') gs a b m' ((b :: ts) ++ rest) Hinv1 Haa Hba ltac:(by left) Ho)
    as (Hinv2 & Hget & Hfr). destruct (hand_facts _ _ _ Hinv) as (_ & Hwh & _).
  eexists. split; [done|]. split; [|split].
  - split; [exact Hinv2| |done]. apply Hfr. intros Hr. by apply (slab_disjoint st c live As ls gs (b :: ts) rest b Hinv Hr); left.
  - eapply enc_list_frame; [|exact He]. intros y Hy. apply Hget. auto.
  - rewrite Forall_forall in Hty |- *. intros y Hy. destruct (Hty y Hy) as [T1 T2]. unfold typed.
    cbn [c_mem with_mem]. by rewrite !Hget by auto.
Qed.

Lemma release_loop_ok fuel c gs ts class pad force to_trim freed :
  slab_inv c live As ls gs (ts ++ rest) → 0 ≤ class < NUM_SIZE_CLASSES → trim_cpus_ok c →
  enc_list (c_mem c) 0 to_trim ts → Forall (typed st (c_mem c) class) ts → (length ts < fuel)%nat →
  0 ≤ freed → freed + zlen ts * 2 ^ 21 ≤ 2 ^ 63 →
  ∃ c' freed' gs', release_loop st block_am fuel c class pad force to_trim freed = Ret (c', freed') ∧
    hands c c' gs' [] ∧ freed ≤ freed' ≤ freed + zlen ts * 2 ^ 21.
Proof.
  intros Hinv Hc. revert c gs ts to_trim freed Hinv.
  induction fuel as [|fuel IH]; intros c gs ts to_trim freed Hinv Ha He Hty Hf H0' Hmax; [lia|].
  cbn [release_loop]. destruct ts as [|b ts].
  { cbn in He. subst to_trim. cbn [Z.eqb]. exists c, freed, gs. split; [done|].
    split; [split; [done|apply frame_refl|done]|]. unfold zlen. cbn. lia. }
  pose proof (enc_list_head _ _ _ He ltac:(done)) as [Hhd Hne]. injection Hhd as ->.
  rewrite (proj2 (Z.eqb_neq to_trim 0)) by done. rewrite (co_size _ (class_ok_all _ Hc)), bind_ret.
  pose proof (co_bounds _ (class_ok_all _ Hc)) as (B1 & B2 & _). rewrite zlen_cons in *.
  assert (0 ≤ zlen ts) as Hz by (unfold zlen; lia). pose proof (class_size_bound class Hc) as Hcs.
  assert (∃ c1 freed1, (if (freed <=? pad) || (pad =? 0) || force then
      c ← release_memory c to_trim (class_size class); t ← uadd freed (class_size class); Ret (c, t)
      else Ret (c, freed)) = Ret (c1, freed1) ∧ hands c c1 gs (to_trim :: ts) ∧ enc_list (c_mem c1) 0 to_trim (to_trim :: ts) ∧
      Forall (typed st (c_mem c1) class) (to_trim :: ts) ∧ freed ≤ freed1 ≤ freed + 2 ^ 21)
    as (c1 & freed1 & Hrun & Hh1 & He1 & Hty1 & Hfr1).
  { destruct (_ || _ || force).
    - destruct (release_one_ok c gs to_trim ts class to_trim Hinv Hc He Hty) as (c1 & -> & Hh1 & He1 & Hty1).
      rewrite bind_ret, uadd_ok, bind_ret by (unfold usize_max, u64_max; lia). eexists _, _. split; [done|].
      split; [done|]. split; [done|]. split; [done|]. lia.
    - eexists _, _. split; [done|]. split; [split; [done|apply frame_refl|done]|]. split; [done|]. split; [done|]. lia. }
  assert (hget FNext (c_mem c1) to_trim = hget FNext (c_mem c) to_trim) as Hnx.
  { destruct He as (_ & _ & He), He1 as (_ & _ & He1). destruct ts as [|y ts]; [by rewrite He, He1|].
    destruct He as (_ & -> & _), He1 as (_ & -> & _). done. }
  rewrite Hrun, bind_ret. pose proof (hd_inv _ _ _ _ Hh1) as Hinv1. pose proof (trim_cpus_hands _ _ _ _ Ha Hh1) as Ha1.
  rewrite <- Hnx. pose proof He1 as (Hb & _ & He1n). apply Forall_cons in Hty1 as [Htb Hty1].
  destruct (hand_facts _ _ _ Hinv1) as ([Hapt Hsep] & _).
  destruct (push_back_chain (block_am to_trim) c1 gs [to_trim] ts to_trim to_trim class Hinv1 I eq_refl eq_refl)
    as (c2 & gs2 & Hpush & Hh2 & Ho2 & _); [by apply Forall_singleton|done|apply Ha1|].
  change (zlen [to_trim]) with 1 in Hpush. rewrite Hpush, bind_ret.
  destruct (chain_kept c1 gs [to_trim] ts (c_mem c2) (hget FNext (c_mem c1) to_trim) class Hinv1 Ho2 He1n Hty1) as [He2 Hty2].
  pose proof (hands_trans _ _ _ _ _ _ _ Hh1 Hh2) as Hh12.
  destruct (IH c2 gs2 ts (hget FNext (c_mem c1) to_trim) freed1 (hd_inv _ _ _ _ Hh2)) as (c3 & freed3 & gs3 & -> & Hh3 & Hfr3);
    [by eapply trim_cpus_hands|done|done|cbn in Hf; lia|lia|lia|].
  exists c3, freed3, gs3. split; [done|]. split; [by eapply hands_trans|]. lia.
Qed.

(** ** The classes in turn *)

Lemma get_size_ok key m icc gs class :
  icc_rep key m icc gs → 0 ≤ class < NUM_SIZE_CLASSES → zlen (concat gs) ≤ usize_max →
  ∃ u, get_size icc class = Ret u ∧ 0 ≤ u ≤ zlen (concat gs).
Proof.
  intros Hrep Hc Hmax. unfold get_size.
  assert (∀ n i total, 0 ≤ i → i + Z.of_nat n = icc_ncpu icc →
    0 ≤ total ≤ zlen (concat (take (Z.to_nat (i * NUM_SIZE_CLASSES)) gs)) →
    ∃ u, get_size_loop n icc i class total = Ret u ∧ 0 ≤ u ≤ zlen (concat gs)) as Hloop.
  { induction n as [|n IH]; intros i total Hi Hn Ht; cbn [get_size_loop].
    { exists total. split; [done|]. pose proof (zlen_concat_le gs (Z.to_nat (i * NUM_SIZE_CLASSES))). lia. }
    destruct (icc_rep_cell _ _ _ _ i class Hrep) as (l & v & u & Hcell & Hl & _ & Hu & _ & _ & ->); [split; [lia|done]|].
    rewrite Hcell, bind_ret, Hu, bind_ret. change NUM_SIZE_CLASSES with 34 in *.
    assert (0 ≤ cell_index i class) as Hci by (unfold cell_index; change NUM_SIZE_CLASSES with 34; lia).
    rewrite zlookup_nonneg in Hl by done.
    assert (Z.to_nat (i * 34) ≤ Z.to_nat (cell_index i class) < Z.to_nat ((i + 1) * 34))%nat as Hidx
      by (unfold cell_index; change NUM_SIZE_CLASSES with 34; lia).
    pose proof (zlen_concat_take gs _ _ _ l Hidx Hl) as Hz.
    pose proof (zlen_concat_le gs (Z.to_nat ((i + 1) * 34))). assert (0 ≤ zlen l) by (unfold zlen; lia).
    rewrite uadd_ok, bind_ret by lia. apply IH; lia. }
  apply Hloop; [lia|pose proof (ir_ncpu _ _ _ _ Hrep); lia|]. cbn. unfold zlen. cbn. lia.
Qed.

(** The usage counters say how many blocks there are. *)
Lemma usage_sum key m icc gs : icc_rep key m icc gs → foldr Z.add 0 (icc_usage icc) = zlen (concat gs).
Proof.
  intros Hrep. assert (icc_usage icc = zlen <$> gs) as ->.
  { apply list_eq. intros i. rewrite list_lookup_fmap. destruct (gs !! i) as [l|] eqn:Hl; cbn.
    - destruct (ir_cells _ _ _ _ Hrep (Z.of_nat i) l) as (v & u & _ & Hu & _ & _ & ->).
      { by rewrite zlookup_nonneg, Nat2Z.id by lia. }
      by rewrite zlookup_nonneg, Nat2Z.id in Hu by lia.
    - apply lookup_ge_None. apply lookup_ge_None in Hl. pose proof (ir_usage _ _ _ _ Hrep) as Hlen. unfold zlen in Hlen. lia. }
  clear Hrep. induction gs as [|l gs IH]; [done|]. cbn [fmap list_fmap foldr concat]. by rewrite zlen_app, IH.
Qed.

(** No block is lost, so the lists have as many as before. *)
Lemma hands_count c c' gs gs' : slab_inv c live As ls gs rest → hands c c' gs' [] → zlen (concat gs') = zlen (concat gs).
Proof.
  intros Hinv [Hinv' _ _]. cbn [app] in Hinv'.
  pose proof (si_blocks _ _ _ _ _ _ _ Hinv) as Hp. rewrite (si_blocks _ _ _ _ _ _ _ Hinv') in Hp.
  apply Permutation_length in Hp. rewrite !length_app in Hp. unfold zlen. lia.
Qed.

Lemma class_loop_ok n c gs class pad timing force avg total freed :
  slab_inv c live As ls gs rest → trim_cpus_ok c → 0 ≤ class → class + Z.of_nat n = NUM_SIZE_CLASSES →
  zlen (concat gs) ≤ 2 ^ 28 → 0 ≤ total → 0 ≤ freed → total + Z.of_nat n * 2 ^ 28 < 2 ^ 32 →
  freed + Z.of_nat n * 2 ^ 49 ≤ 2 ^ 63 →
  ∃ early c' avg' total' freed' gs',
    class_loop st round_am block_am n c class pad timing force avg total freed = Ret (early, c', avg', total', freed') ∧
    hands c c' gs' [] ∧ freed ≤ freed'.
Proof.
  revert c gs class avg total freed.
  induction n as [|n IH]; intros c gs class avg total freed Hinv Ha Hc Hn Hcount Ht0 Hf0 Htot Hfr; cbn [class_loop].
  { exists false, c, avg, total, freed, gs. split; [done|]. split; [by split; [|apply frame_refl|]|lia]. }
  destruct ((pad <=? freed) && negb (pad =? 0)).
  { exists true, c, avg, total, freed, gs. split; [done|]. split; [by split; [|apply frame_refl|]|lia]. }
  destruct (get_size_ok _ _ _ _ class (si_icc _ _ _ _ _ _ _ Hinv)) as (u & -> & Hu); [lia|unfold usize_max, u64_max; lia|].
  rewrite bind_ret.
  assert (16 * Z.of_nat (Z.to_nat (u / 16)) ≤ u) as Hu16 by zdiv.
  destruct (class_rounds_ok class timing (Z.to_nat (u / 16)) 0 c gs [] avg total 0)
    as ([[[c1 avg1] total1] trim1] & -> & gs1 & ts & Hh1 & He1 & Hty1 & Ht1 & Hz1); try done; [lia|lia|].
  rewrite bind_ret. change (zlen (@nil Z)) with 0 in Hz1.
  destruct (release_loop_ok (S (Z.to_nat u)) c1 gs1 ts class pad force trim1 freed (hd_inv _ _ _ _ Hh1))
    as (c2 & freed2 & gs2 & -> & Hh2 & Hf2); [lia|by eapply trim_cpus_hands|done|done|unfold zlen in *; lia|done|lia|].
  rewrite bind_ret. pose proof (hands_trans _ _ _ _ _ _ _ Hh1 Hh2) as Hh12.
  destruct (IH c2 gs2 (class + 1) avg1 total1 freed2 (hd_inv _ _ _ _ Hh12))
    as (early & c3 & avg3 & total3 & freed3 & gs3 & -> & Hh3 & Hf3);
    [by eapply trim_cpus_hands|lia|lia|by rewrite (hands_count c c2 gs gs2)|lia|lia|lia|lia|].
  exists early, c3, avg3, total3, freed3, gs3. split; [done|]. split; [by eapply hands_trans|lia].
Qed.

Lemma trim_ok g c gs pad :
  slab_inv c live As ls gs rest → trim_cpus_ok c → zlen (concat gs) ≤ 2 ^ 28 →
  ∃ code freed g' c' gs', trim st round_am block_am g c pad = Ret (code, freed, g', c') ∧ hands c c' gs' [] ∧
    (code = 0 ∨ code = 1) ∧ 0 ≤ freed.
Proof.
  intros Hinv Ha Hcount. unfold trim.
  assert (get_size_4096_class = Ret 22) as -> by (vm_compute; reflexivity). rewrite bind_ret.
  destruct (class_loop_ok (Z.to_nat (NUM_SIZE_CLASSES - 22)) c gs 22 pad (AVERAGE_TIMES g mod 2 ^ 32)
    (90 <? LAST_PRESSURE_CHECK g) 0 0 0 Hinv Ha) as (early & c' & avg & total & freed & gs' & -> & Hh & Hf);
    try done; try (change (NUM_SIZE_CLASSES - 22) with 12; lia). rewrite bind_ret.
  destruct early; [exists 1, freed, g, c', gs'; by auto|].
  assert (∃ g', (if 0 <? total then a ← udiv avg total; Ret (mkTrim (TOTAL_TIME_GLOBAL g) (LAST_TRIM_GLOBAL g)
      (LAST_PRESSURE_CHECK g) (decay_as_u8 (decide_on (Z.min 10 (Z.max 1 a)))) (Z.min 10 (Z.max 1 a)) (TRIM_THRESHOLD g))
    else Ret g) = Ret g') as [g' Hg].
  { destruct (Z.ltb_spec 0 total); [|by exists g]. rewrite udiv_ok, bind_ret by lia. by eexists. }
  cbv zeta. rewrite Hg, bind_ret. eexists _, freed, g', c', gs'. split; [done|]. split; [done|].
  destruct (pad <=? freed); auto.
Qed.
End Class.

End TrimSpec.

(** ** A round of the thread *)

Section RoundSpec.
Context `{Config}.
Context {K : Type} `{LinuxKernel K}.
Context (st : Statics).

(** The stamp is in no block of the invariant. *)
Lemma slab_stamp time (c : Call K) live As ls gs rest :
  SlabOps.slab_inv st c live As ls gs rest ↔ SlabOps.slab_inv (with_stamp st time) c live As ls gs rest.
Proof. split; intros [Q1 Q2 Q3 Q4 Q5 Q6 Q7 Q8 Q9 Q10 Q11]; by split. Qed.

(** The sums and the product of [check_memory_pressure] fit in a word: so it is when no more memory is
    free than there is, and there are less than 180 PB of it. *)
Definition pressure_fits (info : option SysInfo) : Prop :=
  match info with
  | None => True
  | Some i =>
      let bytes n := saturating_mul64 n (mem_unit i) in
      bytes (freeram i) + bytes (freeswap i) ≤ usize_max ∧ bytes (totalram i) + bytes (totalswap i) ≤ usize_max ∧
      let total := bytes (totalram i) + bytes (totalswap i) in
      (total = 0 ∨ saturating_sub total (bytes (freeram i) + bytes (freeswap i)) * 100 ≤ usize_max)
  end.

Lemma sysinfo_fits i :
  0 ≤ mem_unit i → 0 ≤ freeram i ≤ totalram i → 0 ≤ freeswap i ≤ totalswap i →
  (totalram i + totalswap i) * mem_unit i * 100 ≤ u64_max → pressure_fits (Some i).
Proof.
  destruct i as [u tr fr ts fs]. cbn. intros Hu Hr Hs Hmax. unfold saturating_mul64, saturating_sub, usize_max, u64_max in *.
  assert (fr * u ≤ tr * u ∧ fs * u ≤ ts * u ∧ 0 ≤ fr * u ∧ 0 ≤ fs * u) as (E1 & E2 & E3 & E4) by (split_and!; nia).
  assert ((tr + ts) * u = tr * u + ts * u) as Hd by lia. rewrite Hd in Hmax. rewrite !Z.min_r by lia. lia.
Qed.

(** It returns if they fit, and panics otherwise. *)
Lemma check_memory_pressure_ok info : pressure_fits info → ∃ p, check_memory_pressure info = Ret p.
Proof.
  destruct info as [[u tr fr ts fs]|]; [|by exists 50]. cbn -[uadd umul udiv]. intros (Ha & Ht & Hm).
  rewrite (uadd_ok (saturating_mul64 fr u)), bind_ret, uadd_ok, bind_ret by done. destruct (Z.eqb_spec (saturating_mul64 tr u + saturating_mul64 ts u) 0) as [|Hne]; [by exists 50|].
  destruct Hm as [?|Hm]; [done|]. rewrite umul_ok, bind_ret, udiv_ok by done. by eexists.
Qed.

Lemma check_memory_pressure_ends info :
  post (check_memory_pressure info) (λ _, True) (λ e, e = Panic ArithOverflow ∧ ¬ pressure_fits info).
Proof.
  assert (∀ p, check_memory_pressure info = Abort p → ¬ pressure_fits info) as Hno.
  { intros p E Hf. destruct (check_memory_pressure_ok info Hf) as (q & E'). congruence. }
  assert (post (check_memory_pressure info) (λ _, True) (λ e, e = Panic ArithOverflow)) as Hp.
  { destruct info as [[u tr fr ts fs]|]; [|done]. cbn -[uadd umul udiv]. unfold uadd, umul.
    destruct (saturating_mul64 fr u + _ <=? _); [|done]. rewrite bind_ret.
    destruct (saturating_mul64 tr u + _ <=? _); [|done]. rewrite bind_ret. destruct (Z.eqb_spec (saturating_mul64 tr u + saturating_mul64 ts u) 0) as [|Hne]; [done|].
    destruct (_ <=? _); [|done]. by rewrite bind_ret, udiv_ok. }
  destruct (check_memory_pressure info) as [p|e]; [done|]. split; [exact Hp|by eapply Hno].
Qed.

Lemma decide_global_ends g decay info :
  post (decide_global g decay info) (λ _, True) (λ e, e = Panic ArithOverflow ∧ ¬ pressure_fits info).
Proof.
  unfold decide_global. eapply post_bind; [apply check_memory_pressure_ends|]. intros p _.
  destruct (85 <? p); [done|]. cbn. destruct (AVERAGE_TIMES g =? 0); [done|]. by destruct (_ && _).
Qed.

(** What a round leaves. *)
Definition round_result (c : Call K) (live : gmap Z Z) (As : list arena) (ls gs : list (list Z)) (rest : list Z) (time : Z)
    (r : Statics * TrimState * Call K) : Prop :=
  r.1.1 = with_stamp st (time mod 2 ^ 32) ∧
  ∃ gs', call_ok st c live As rest r.2 ls gs' ∧ zlen (concat gs') = zlen (concat gs).

Lemma gtrim_round_ok round_am block_am g (c : Call K) live As ls gs rest time info :
  SlabOps.slab_inv st c live As ls gs rest → trim_cpus_ok round_am block_am c →
  foldr Z.add 0 (icc_usage (c_icc c)) ≤ 2 ^ 28 →
  post (gtrim_round st round_am block_am g c time info) (round_result c live As ls gs rest time)
    (λ e, e = Panic ArithOverflow ∧ ¬ pressure_fits info).
Proof.
  intros Hinv Ha Hcount. rewrite (usage_sum _ _ _ _ (si_icc _ _ _ _ _ _ _ Hinv)) in Hcount. unfold gtrim_round.
  eapply post_bind; [apply decide_global_ends|]. intros [go g1] _.
  pose proof Hinv as Hinv'. apply (slab_stamp (time mod 2 ^ 32)) in Hinv'. destruct go.
  - destruct (trim_ok (with_stamp st (time mod 2 ^ 32)) round_am block_am live As ls rest g1 c gs (TRIM_THRESHOLD g1) Hinv' Ha Hcount)
      as (code & freed & g2 & c' & gs' & -> & Hh & _).
    rewrite bind_ret. split; [done|]. exists gs'.
    pose proof (hands_count _ _ _ _ _ _ _ _ _ Hinv' Hh) as Hn. destruct Hh as [Hinv2 Hf Hnc]. split; [|done].
    exists live, As. split; [by apply (slab_stamp (time mod 2 ^ 32))|]. split; [apply extends_refl|done].
  - split; [done|]. exists gs. split; [by apply call_ok_refl|done].
Qed.
End RoundSpec.
