(* ===== verification/ThreadExit.v ===== *)
(** * The end of a thread ([cleanup_thread_cache] of src/src/slab/thread_local.rs)

    When a thread ends, the blocks of its cache go to the per-cpu lists, with
    their links decoded, and so do the blocks that are left in the arenas of the classes
    that it has blocks of.  Nothing of a thread that has ended is lost but the rest of
    the other classes' arenas. *)

From S2P Require Import Prelude Bits Lib Rng Segment HashMap Sys Radix SizeClass VaMap VaMapSpec VaLive.
From S2P Require Import Mem BlockList ThreadLocal Interconnect InterconnectSpec Bulk BulkSpec.
From S2P Require Import SlabInv SlabOps SlabFill Heap HeapInv HeapFill.

Section ThreadExit.
Context `{Config}.
Context {K : Type} `{LinuxKernel K}.
Context (st : Statics) (Hst : statics_ok st).

Abbreviation slab_inv := (slab_inv st).

(** The key of the code's [xor_ptr_general] calls. *)
Lemma random_key_spec p key : xor_ptr_general p (if hardened then key else 0) = xor_ptr_general p key.
Proof. unfold xor_ptr_general. by destruct hardened. Qed.

(** ** Decoding a list *)

(** What the loop leaves of a list: plain links, and the rest of memory as it was. *)
Record decoded (c : Call K) (m m' : mem) (live : gmap Z Z) (As : list arena) (ls gs : list (list Z))
    (rest : list Z) (class : Z) (l : list Z) : Prop := {
  dc_inv : slab_inv (with_mem c m') live As ls gs rest;
  dc_linked : linked m' 0 l;
  dc_typed : Forall (typed st m' class) l;
  dc_other : ∀ f y, y ∈ heap_blocks As → (y ∉ l) → hget f m' y = hget f m y;
  dc_frame : ∀ keep, (∀ y, y ∈ l → y ∉ keep) → frame m m' live As keep
}.

(** One round: the link of [x] is decoded and its life time cleared. *)
Lemma decode_one c m live As ls gs rest class x v :
  slab_inv (with_mem c m) live As ls gs rest → x ∈ rest → typed st m class x → word64 v →
  let m' := hput FLifeTime (hput FNext m x v) x 0 in
  decoded c m m' live As ls gs rest class [x] ∧ hget FNext m' x = v.
Proof.
  intros Hinv Hx [Ht1 Ht2] Hv m'. assert (x ∈ heap_blocks As) as Hxh by (by eapply (slab_rest st)).
  apply elem_of_heap_blocks in Hxh as (a & Ha & Hxa).
  destruct (slab_slots st _ _ _ _ _ _ Hinv) as (_ & Q2 & _). rewrite Forall_forall in Q2.
  pose proof (bsz_header _ (ai_class _ _ (Q2 a Ha))) as Hb.
  assert (∀ f, f = FClass ∨ f = FMagic → hget f m' x = hget f m x) as Hg.
  { intros f Hf. unfold m'. rewrite !hget_hput_field by (by intros <-; destruct Hf). done. }
  destruct (slab_write_block st (with_mem c m) live As ls gs rest a x m' Hinv Ha Hxa Hx) as (Hinv' & Ho & Hf).
  { cbn. eapply only_range_trans; intros y Hy; apply hput_outside; lia. }
  { by apply Hg; left. }
  split.
  - split; [exact Hinv'|done| | |].
    + apply Forall_singleton. split; rewrite Hg by auto; done.
    + intros f y Hy Hne. apply (Ho f y Hy). intros ->. apply Hne. left.
    + intros keep Hk. apply Hf, Hk. left.
  - unfold m'. rewrite hget_hput_field by done. by apply hget_hput_eq, fits_next.
Qed.

Lemma cleanup_loop_ok c live As ls gs rest class key l x m count fuel :
  slab_inv (with_mem c m) live As ls gs rest → word64 key → x :: l ⊆ rest → NoDup (x :: l) →
  enc_list m key (xor_ptr_general x key) (x :: l) → Forall (typed st m class) (x :: l) →
  count + zlen l ≤ usize_max → (length l < fuel)%nat →
  ∃ m' t, cleanup_loop fuel (if hardened then key else 0) (c_va c) m x count = Ret (m', t, count + zlen l) ∧
    last (x :: l) = Some t ∧ decoded c m m' live As ls gs rest class (x :: l).
Proof.
  revert x m count fuel. induction l as [|y l IH]; intros x m count fuel Hinv Hk Hsub Hnd He Hty Hc Hf;
    (destruct fuel as [|fuel]; [cbn in Hf; lia|]); cbn [cleanup_loop];
    destruct He as ((Hx0 & Hxw & _) & _ & He); rewrite deref_ok, bind_ret, random_key_spec by lia;
    apply Forall_cons in Hty as [Htx Hty]; assert (x ∈ rest) as Hxr by (apply Hsub; left).
  - cbn in He. rewrite He, xor_ptr_general_0. cbn [Z.eqb].
    destruct (decode_one c m live As ls gs rest class x 0 Hinv Hxr Htx ltac:(done)) as [Hd _].
    eexists _, x. split; [unfold zlen; cbn; by rewrite Z.add_0_r|]. split; [done|exact Hd].
  - pose proof He as (Hby & Hn & He'). rewrite Hn, (xor_ptr_general_inv key y Hk Hby).
    pose proof Hby as (Hy0 & Hyw & _). rewrite (proj2 (Z.eqb_neq y 0)) by lia.
    assert (y ∈ rest) as Hyr by (apply Hsub; right; left).
    assert (va_is_ours (c_va c) y = Ret true) as Hours.
    { eapply (slab_ours st (with_mem c m)); [exact Hinv|by eapply (slab_rest st)]. }
    rewrite Hours, bind_ret. cbn [negb]. assert (zlen (y :: l) = zlen l + 1) as Hz by (unfold zlen; cbn; lia).
    assert (0 ≤ zlen l) by (unfold zlen; lia). rewrite Hz in *. rewrite uadd_ok, bind_ret by lia.
    destruct (decode_one c m live As ls gs rest class x y Hinv Hxr Htx Hyw) as [[D1 D2 D3 D4 D5] Hnx].
    set (m1 := hput FLifeTime _ _ _) in *. apply NoDup_cons in Hnd as [Hxl Hnd].
    assert (∀ f z, z ∈ y :: l → hget f m1 z = hget f m z) as Hsame.
    { intros f z Hzl. apply D4; [|intros ->%list_elem_of_singleton; done]. eapply (slab_rest st); [exact Hinv|].
      apply Hsub. by right. }
    destruct (IH y m1 (count + 1) fuel D1 Hk) as (m' & t & -> & Ht & [E1 E2 E3 E4 E5]).
    + intros z Hzl. apply Hsub. by right.
    + done.
    + rewrite <- Hn. eapply enc_list_frame; [intros z Hzl; by apply Hsame|exact He].
    + rewrite Forall_forall in Hty |- *. intros z Hzl. unfold typed. rewrite !Hsame by done. by apply Hty.
    + lia.
    + cbn in Hf |- *. lia.
    + exists m', t. split; [do 2 f_equal; lia|]. split; [exact Ht|].
      assert (x ∈ heap_blocks As) as Hxh by (by eapply (slab_rest st)).
      split; [exact E1| | | |].
      * split; [|exact E2]. rewrite E4 by done. by rewrite xor_ptr_general_plain.
      * apply Forall_cons. split; [|exact E3]. apply Forall_singleton in D3 as [T1 T2].
        split; rewrite E4 by done; done.
      * intros f z Hzh Hzn. rewrite E4 by (done || set_solver). apply D4; set_solver.
      * intros keep Hkeep. eapply frame_trans; [apply D5|apply extends_refl|apply E5]; set_solver.
Qed.

(** ** The arena that was being filled *)

Lemma call_push_global_ok am c live As ls gs ws rest class h t :
  slab_inv c live As ls gs (ws ++ rest) → 0 ≤ class < NUM_SIZE_CLASSES → push_cpu_ok am c →
  head ws = Some h → last ws = Some t → linked (c_mem c) 0 ws → Forall (typed st (c_mem c) class) ws →
  ∃ c' gs', call_push_to_global st am c class h t (zlen ws) = Ret c' ∧ call_ok st c live As rest c' ls gs'.
Proof.
  intros Hinv Hc Ha Hh Ht Hl Hty.
  destruct (slab_push_global st am c live As ls gs ws rest class h t Hinv)
    as (m' & icc' & gs' & -> & Hinv' & Ho & Hn); [by split|done..|].
  eexists _, gs'. split; [done|]. exists live, As. split; [done|]. split; [apply extends_refl|]. split; [|done].
  eapply (frame_links (c_kernel c) (c_va c)); [apply Hinv|apply Hinv|done| |].
  - intros x Hx. apply (slab_rest st _ _ _ _ _ _ x Hinv). apply elem_of_app. by left.
  - intros x Hr Hx. by apply (slab_disjoint st _ _ _ _ _ _ _ x Hinv).
Qed.

Lemma drain_pending_ok am c live As ls gs rest class :
  slab_inv c live As ls gs rest → 0 ≤ class < NUM_SIZE_CLASSES → push_cpu_ok am c →
  ∃ c' gs', drain_pending st am c class = Ret c' ∧ call_ok st c live As rest c' ls gs'.
Proof.
  intros Hinv Hc Ha. unfold drain_pending. destruct (si_pending _ _ _ _ _ _ _ Hinv) as [Hlen Hpend].
  destruct (zlookup_lt (pending (c_engine c)) class) as [p Hp]; [lia|].
  rewrite (vget_ok _ _ _ Hp), bind_ret. destruct (Z.eqb_spec p 0) as [->|Hp0].
  { exists c, gs. split; [done|]. by apply call_ok_refl. }
  destruct (Hpend class p Hp) as [?|(a & Haa & <- & <-)]; [done|].
  pose proof (class_ok_all _ Hc) as Hco. pose proof (bsz_header _ Hc) as Hbs.
  pose proof (co_bounds _ Hco) as (_ & _ & _ & _ & _ & ->). rewrite (co_bsz _ Hco), bind_ret.
  destruct (remaining_blocks_total (c_mem c) (ar_base a) (bsz (ar_class a))) as [r ->]; [lia|]. rewrite bind_ret.
  assert (∀ c' gs', call_ok st c live As rest c' ls gs' →
    ∃ c2 gs2, call_set_pending c' (ar_class a) 0 = Ret c2 ∧ call_ok st c live As rest c2 ls gs2) as Hend.
  { intros c' gs' (l1 & A1 & Hi1 & He1 & Hf1 & Hn1).
    destruct (call_set_pending_ok st c' l1 A1 ls gs' rest (ar_class a) 0 Hi1 Hc (or_introl eq_refl)) as (c2 & -> & Hok).
    exists c2, gs'. split; [done|]. by apply (call_ok_step st c c' c2 live l1 As A1). }
  destruct (Z.ltb_spec 0 r) as [Hr|_]; [|rewrite bind_ret; apply (Hend c gs); by apply call_ok_refl].
  destruct (call_init_ok st Hst _ _ _ _ _ _ a r Hinv Haa ltac:(lia))
    as [->|(m' & h & t & ws & As' & -> & Hz & Hh & Ht & Hl & Hty & Hinv1 & He1 & Hf1)]; rewrite bind_ret.
  { cbn [Z.ltb Z.compare]. rewrite bind_ret. apply (Hend _ gs). destruct c. by apply call_ok_refl. }
  rewrite (proj2 (Z.ltb_lt 0 (zlen ws))) by lia.
  destruct (call_push_global_ok am (with_mem c m') live As' ls gs ws rest (ar_class a) h t Hinv1 Hc Ha Hh Ht Hl Hty)
    as (c2 & gs2 & -> & Hok2). rewrite bind_ret. apply (Hend c2 gs2).
  by apply (call_ok_step st c (with_mem c m') c2 live live As As').
Qed.

(** ** One class

    The code leaves the heads of the emptied lists in the thread's cache, which nobody reads
    again.  The invariant holds of the call with bins [tl] in their place. *)

Definition ghost (tl : list TlsBin) (c : Call K) : Call K :=
  with_engine c (mkEngine tl (pending (c_engine c)) (xor_key (c_engine c))).

Lemma push_ghost am tl c class h t n r :
  call_push_to_global st am (ghost tl c) class h t n = Ret r →
  ∃ c', call_push_to_global st am c class h t n = Ret c' ∧ r = ghost tl c' ∧ c_engine c' = c_engine c.
Proof.
  unfold call_push_to_global. intros ([[m' icc'] k'] & E & [= <-])%bind_Ret_inv.
  cbn in E. rewrite E, bind_ret. by eexists.
Qed.

Lemma set_pending_ghost tl c class p r :
  call_set_pending (ghost tl c) class p = Ret r →
  ∃ c', call_set_pending c class p = Ret c' ∧ r = ghost tl c' ∧ tls (c_engine c') = tls (c_engine c).
Proof.
  unfold call_set_pending. intros (pend & E & [= <-])%bind_Ret_inv. cbn in E. rewrite E, bind_ret. by eexists.
Qed.

Lemma drain_ghost am tl c class r :
  drain_pending st am (ghost tl c) class = Ret r →
  ∃ c', drain_pending st am c class = Ret c' ∧ r = ghost tl c' ∧ tls (c_engine c') = tls (c_engine c).
Proof.
  unfold drain_pending. intros (p & E & Hr)%bind_Ret_inv. cbn in E. rewrite E, bind_ret.
  destruct (p =? 0); [injection Hr as <-; by exists c|].
  apply bind_Ret_inv in Hr as (bs & -> & Hr). rewrite bind_ret.
  apply bind_Ret_inv in Hr as (n & E2 & Hr). cbn in E2. rewrite E2, bind_ret.
  apply bind_Ret_inv in Hr as (r1 & E3 & Hr).
  assert (∀ c1, tls (c_engine c1) = tls (c_engine c) → call_set_pending (ghost tl c1) class 0 = Ret r →
    ∃ c', call_set_pending c1 class 0 = Ret c' ∧ r = ghost tl c' ∧ tls (c_engine c') = tls (c_engine c)) as Hend.
  { intros c1 Ht1 E5. destruct (set_pending_ghost _ _ _ _ _ E5) as (c2 & -> & -> & He). exists c2. by rewrite He, Ht1. }
  destruct (0 <? n); [|injection E3 as <-; rewrite bind_ret; by apply (Hend c)].
  apply bind_Ret_inv in E3 as ([[[m h] t] count] & E4 & Hr3). cbn in E4. rewrite E4, bind_ret. cbn zeta in *.
  destruct (0 <? count); [|injection Hr3 as <-; rewrite bind_ret; by apply (Hend (with_mem c m))].
  destruct (push_ghost am tl (with_mem c m) class h t count r1 Hr3) as (c' & -> & -> & He).
  rewrite bind_ret. apply (Hend c'); [by rewrite He|done].
Qed.

(** The list of a class leaves the cache. *)
Lemma slab_take_list c live As ls gs rest class l :
  slab_inv c live As ls gs rest → zlookup ls class = Some l →
  slab_inv (with_engine c (with_bin (c_engine c) class (mkBin 0 0))) live As (zinsert ls class []) gs (l ++ rest).
Proof.
  intros [Q1 Q2 Q3 Q4 Q5 Q6 Q7 Q8 Q9 Q10 Q11] Hl.
  destruct (concat_zinsert_perm _ _ _ Hl) as (r & Hp & Hi). specialize (Hi []).
  pose proof (zlookup_Some_lt _ _ _ Hl). split; cbn; try done.
  - apply engine_rep_with_bin; [done|by split|]. rewrite Hi. cbn. pose proof (er_sep _ _ _ Q4) as Hs. rewrite Hp in Hs.
    by apply separated_app in Hs as (_ & ? & _).
  - rewrite Q6, Hp, Hi. cbn. solve_Permutation.
  - by apply (Forall_zinsert (λ class l, Forall (typed st (c_mem c) class) l)); [lia| |].
Qed.

(** The state before class [class] is looked at: the lists below are empty. *)
Record exiting (c : Call K) (live : gmap Z Z) (As : list arena) (tl : list TlsBin) (ls gs : list (list Z))
    (rest : list Z) (class : Z) : Prop := {
  ex_inv : slab_inv (ghost tl c) live As ls gs rest;
  ex_bins : ∀ i, class ≤ i → zlookup tl i = zlookup (tls (c_engine c)) i;
  ex_empty : ∀ i l, i < class → zlookup ls i = Some l → l = []
}.

Definition exit_step (c : Call K) (live : gmap Z Z) (As : list arena) (rest : list Z) (class : Z) (c' : Call K) : Prop :=
  ∃ live' As' tl' ls' gs', exiting c' live' As' tl' ls' gs' rest class ∧ extends live live' As As' ∧
    frame (c_mem c) (c_mem c') live As rest ∧ icc_ncpu (c_icc c') = icc_ncpu (c_icc c).

(** A chain that was in the cache goes to the lists, and the rest of the class's arena after it. *)
Lemma flush_ok list_am drain_am c live As tl ls gs ws rest class x t :
  slab_inv (ghost tl c) live As ls gs (ws ++ rest) → 0 ≤ class < NUM_SIZE_CLASSES →
  push_cpu_ok (list_am class) c → push_cpu_ok (drain_am class) c →
  head ws = Some x → last ws = Some t → linked (c_mem c) 0 ws → Forall (typed st (c_mem c) class) ws →
  ∃ c1 c' live' As' gs', call_push_to_global st (list_am class) c class x t (zlen ws) = Ret c1 ∧
    drain_pending st (drain_am class) c1 class = Ret c' ∧ tls (c_engine c') = tls (c_engine c) ∧
    slab_inv (ghost tl c') live' As' ls gs' rest ∧ extends live live' As As' ∧
    frame (c_mem c) (c_mem c') live As rest ∧ icc_ncpu (c_icc c') = icc_ncpu (c_icc c).
Proof.
  intros Hinv Hc Hla Hda Hx Ht Hl Hty.
  destruct (call_push_global_ok (list_am class) (ghost tl c) live As ls gs ws rest class x t Hinv Hc Hla Hx Ht Hl Hty)
    as (c2 & gs2 & E2 & Hok2).
  destruct (push_ghost _ _ _ _ _ _ _ _ E2) as (c2' & -> & -> & He2).
  destruct Hok2 as (live2 & As2 & Hinv2 & Hext2 & Hf2 & Hn2).
  destruct (drain_pending_ok (drain_am class) _ _ _ _ _ _ class Hinv2 Hc) as (c3 & gs3 & E3 & Hok3).
  { unfold push_cpu_ok. rewrite Hn2. exact Hda. }
  destruct (drain_ghost _ _ _ _ _ E3) as (c3' & E3' & -> & He3).
  destruct Hok3 as (live3 & As3 & Hinv3 & Hext3 & Hf3 & Hn3).
  exists c2', c3', live3, As3, gs3. split; [done|]. split; [exact E3'|]. split; [by rewrite He3, He2|]. split; [exact Hinv3|].
  split; [by eapply extends_trans|]. split; [by eapply frame_trans|]. etrans; [exact Hn3|exact Hn2].
Qed.

(** The invariant of the classes below goes one class up. *)
Lemma exiting_next c live As tl ls gs rest class c' live' As' gs' rest' :
  exiting c live As tl ls gs rest class → 0 ≤ class → tls (c_engine c') = tls (c_engine c) →
  slab_inv (ghost (zinsert tl class (mkBin 0 0)) c') live' As' (zinsert ls class []) gs' rest' →
  exiting c' live' As' (zinsert tl class (mkBin 0 0)) (zinsert ls class []) gs' rest' (class + 1).
Proof.
  intros [Hinv Hbins Hempty] Hc He Hinv'. split; [exact Hinv'| |].
  - intros i Hi. rewrite He, zlookup_zinsert_ne by lia. apply Hbins. lia.
  - intros i l Hi Hl. destruct (decide (i = class)) as [->|Hne].
    + rewrite zlookup_zinsert_eq in Hl; [congruence|]. pose proof (zlookup_Some_lt _ _ _ Hl) as Hlt. by rewrite zlen_zinsert in Hlt.
    + rewrite zlookup_zinsert_ne in Hl by lia. apply (Hempty i); [lia|done].
Qed.

(** A class without blocks is skipped. *)
Lemma exiting_skip c live As tl ls gs rest class :
  exiting c live As tl ls gs rest class → zlookup ls class = Some [] → exit_step c live As rest (class + 1) c.
Proof.
  intros [Hinv Hbins Hempty] Hl. exists live, As, tl, ls, gs.
  split; [|split_and!; [apply extends_refl|apply frame_refl|done]]. split; [done|intros i Hi; apply Hbins; lia|].
  intros i l Hi Hl0. destruct (decide (i = class)) as [->|]; [congruence|apply (Hempty i); [lia|done]].
Qed.

Lemma cleanup_class_ok list_am drain_am c live As tl ls gs rest class :
  exiting c live As tl ls gs rest class → 0 ≤ class < NUM_SIZE_CLASSES →
  push_cpu_ok (list_am class) c → push_cpu_ok (drain_am class) c →
  ∃ c', cleanup_class st list_am drain_am c class = Ret c' ∧ exit_step c live As rest (class + 1) c'.
Proof.
  intros Hex Hc Hla Hda. pose proof Hex as [Hinv Hbins Hempty]. unfold cleanup_class.
  pose proof (si_engine _ _ _ _ _ _ _ Hinv) as Heng. destruct (engine_rep_bin _ _ _ class Heng Hc) as (b & l & Hb & Hl & [He Hu]).
  cbn [c_engine ghost with_engine tls xor_key c_mem] in He, Hb. rewrite Hbins in Hb by lia.
  rewrite (vget_ok _ _ _ Hb), bind_ret, random_key_spec. destruct l as [|x l].
  { cbn in He. rewrite He, xor_ptr_general_0.
    assert (va_is_ours (c_va c) 0 = Ret false) as -> by exact (null_not_ours _ _ _ (si_live _ _ _ _ _ _ _ Hinv)).
    rewrite bind_ret. cbn [negb]. exists c. split; [done|]. by eapply exiting_skip. }
  pose proof He as ((Hx0 & Hxw & Hxk) & Henc & _). rewrite Henc.
  rewrite (xor_ptr_general_inv (xor_key (c_engine c)) x (er_key _ _ _ Heng) (proj1 He)).
  pose proof (slab_take_list _ _ _ _ _ _ _ _ Hinv Hl) as Hinv1.
  set (tl1 := zinsert tl class (mkBin 0 0)). set (ls1 := zinsert ls class []) in *.
  change (with_engine _ _) with (ghost tl1 c) in Hinv1.
  assert (x ∈ heap_blocks As) as Hxh by (eapply (slab_rest st); [exact Hinv1|set_solver]).
  assert (va_is_ours (c_va c) x = Ret true) as -> by (eapply (slab_ours st (ghost tl1 c)); [exact Hinv1|done]).
  rewrite bind_ret. cbn [negb]. rewrite (proj2 (Z.eqb_neq x 0)) by lia. cbn [negb].
  assert (NoDup (x :: l)) as Hnd.
  { pose proof (slab_separated st _ _ _ _ _ _ Hinv1) as Hs%separated_NoDup. rewrite !NoDup_app in Hs. naive_solver. }
  pose proof (engine_rep_room _ _ _ _ _ [] Heng (proj1 Hc) Hl (er_sep _ _ _ Heng) ltac:(constructor)) as Hroom.
  assert (zlen (x :: l) = 1 + zlen l) as Hz by (unfold zlen; cbn; lia).
  destruct (cleanup_loop_ok (ghost tl1 c) live As ls1 gs ((x :: l) ++ rest) class (xor_key (c_engine c)) l x (c_mem c) 1
    (S (Z.to_nat (bin_usage b)))) as (m' & t & E & Ht & [D1 D2 D3 D4 D5]);
    [exact Hinv1|exact (er_key _ _ _ (si_engine _ _ _ _ _ _ _ Hinv1))|set_solver|exact Hnd|rewrite <- Henc; exact He
    |exact (si_ls _ _ _ _ _ _ _ Hinv _ _ Hl)|unfold zlen in Hroom, Hz |- *; cbn in Hroom; lia|rewrite Hu; unfold zlen; cbn; lia|].
  cbn [c_va ghost with_engine] in E. rewrite E, bind_ret. clear E. rewrite <- Hz.
  destruct (flush_ok list_am drain_am (with_mem c m') live As tl1 ls1 gs (x :: l) rest class x t D1 Hc Hla Hda eq_refl Ht D2 D3)
    as (c2 & c3 & live3 & As3 & gs3 & -> & E3 & He3 & Hinv3 & Hext3 & Hf3 & Hn3).
  rewrite bind_ret. exists c3. split; [exact E3|]. exists live3, As3, tl1, ls1, gs3.
  split; [exact (exiting_next c live As tl ls gs rest class c3 live3 As3 gs3 rest Hex (proj1 Hc) He3 Hinv3)|]. split; [exact Hext3|]. split; [|exact Hn3].
  eapply frame_trans; [|apply extends_refl|exact Hf3]. apply D5. intros y Hy Hy'. by eapply (slab_disjoint st).
Qed.

(** ** All classes *)

Definition exit_cpus_ok (list_am drain_am : Z → Ambient) (c : Call K) : Prop :=
  ∀ class, 0 ≤ class < NUM_SIZE_CLASSES → push_cpu_ok (list_am class) c ∧ push_cpu_ok (drain_am class) c.

Lemma cleanup_classes_ok list_am drain_am n c live As tl ls gs rest class :
  exiting c live As tl ls gs rest class → 0 ≤ class → class + Z.of_nat n ≤ NUM_SIZE_CLASSES →
  exit_cpus_ok list_am drain_am c →
  ∃ c', cleanup_classes st list_am drain_am n c class = Ret c' ∧ exit_step c live As rest (class + Z.of_nat n) c'.
Proof.
  revert c live As tl ls gs class. induction n as [|n IH]; intros c live As tl ls gs class Hex Hc Hn Ha; cbn [cleanup_classes].
  - exists c. split; [done|]. exists live, As, tl, ls, gs. rewrite Z.add_0_r.
    split_and!; [done|apply extends_refl|apply frame_refl|done].
  - destruct (Ha class ltac:(lia)) as [Hl Hd].
    destruct (cleanup_class_ok list_am drain_am _ _ _ _ _ _ _ _ Hex ltac:(lia) Hl Hd) as (c1 & -> & Hs1). rewrite bind_ret.
    destruct Hs1 as (l1 & A1 & t1 & s1 & g1 & Hex1 & He1 & Hf1 & Hn1).
    destruct (IH c1 l1 A1 t1 s1 g1 (class + 1) Hex1 ltac:(lia) ltac:(lia)) as (c2 & -> & Hs2).
    { intros i Hi. unfold push_cpu_ok. rewrite Hn1. by apply Ha. }
    exists c2. split; [done|]. replace (class + Z.of_nat (S n)) with (class + 1 + Z.of_nat n) by lia.
    destruct Hs2 as (l2 & A2 & t2 & s2 & g2 & Hex2 & He2 & Hf2 & Hn2). exists l2, A2, t2, s2, g2.
    split_and!; [done|by eapply extends_trans|by eapply frame_trans|congruence].
Qed.

Lemma ghost_id c : ghost (tls (c_engine c)) c = c.
Proof. by destruct c as [? ? ? [? ? ?] ? ?]. Qed.

(** The address map has no part in it. *)
Lemma push_va am c class h t n c' : call_push_to_global st am c class h t n = Ret c' → c_va c' = c_va c.
Proof. unfold call_push_to_global. by intros ([[m' icc'] k'] & _ & [= <-])%bind_Ret_inv. Qed.

Lemma drain_va am c class c' : drain_pending st am c class = Ret c' → c_va c' = c_va c.
Proof.
  unfold drain_pending. intros (p & _ & Hr)%bind_Ret_inv. destruct (p =? 0); [by injection Hr as <-|].
  apply bind_Ret_inv in Hr as (bs & _ & (n & _ & (c1 & E1 & Hr)%bind_Ret_inv)%bind_Ret_inv).
  apply bind_Ret_inv in Hr as (pend & _ & [= <-]). cbn.
  destruct (0 <? n); [|by injection E1 as <-]. apply bind_Ret_inv in E1 as ([[[m h] t] count] & _ & E1).
  destruct (0 <? count); [|by injection E1 as <-]. by apply push_va in E1.
Qed.

Lemma cleanup_class_va list_am drain_am c class c' :
  cleanup_class st list_am drain_am c class = Ret c' → c_va c' = c_va c.
Proof.
  unfold cleanup_class. intros (b & _ & (ours & _ & Hr)%bind_Ret_inv)%bind_Ret_inv.
  destruct (negb ours); [by injection Hr as <-|]. apply bind_Ret_inv in Hr as (c1 & E1 & ->%drain_va).
  case_match; [|by injection E1 as <-]. apply bind_Ret_inv in E1 as ([[m t] count] & _ & ->%push_va). done.
Qed.

Lemma cleanup_classes_va list_am drain_am n c class c' :
  cleanup_classes st list_am drain_am n c class = Ret c' → c_va c' = c_va c.
Proof.
  revert c class. induction n as [|n IH]; cbn; intros c class Hr; [by injection Hr as <-|].
  apply bind_Ret_inv in Hr as (c1 & ->%cleanup_class_va%eq_sym & Hr). by eapply IH.
Qed.

(** The engine's mapping holds no descriptor of the address map. *)
Definition engine_apart (va : VaState) (cache : Z) : Prop :=
  cache ≠ 0 ∧ ∀ p, is_Some (va_segs va !! p) → ¬ cache ≤ p < cache + ENGINE_SIZE.

(** The whole clean-up: it returns, no block is left in the cache, and none is lost. *)
Lemma cleanup_thread_cache_ok list_am drain_am c live As ls gs rest cache :
  slab_inv c live As ls gs rest → exit_cpus_ok list_am drain_am c → engine_apart (c_va c) cache →
  ∃ c' tl ls' gs', cleanup_thread_cache st list_am drain_am c cache = Ret c' ∧
    call_ok st c live As rest (ghost tl c') ls' gs' ∧ concat ls' = [].
Proof.
  intros Hinv Ha [Hcache Hap]. unfold cleanup_thread_cache. rewrite (proj2 (Z.eqb_neq cache 0)) by done.
  destruct (cleanup_classes_ok list_am drain_am (Z.to_nat NUM_SIZE_CLASSES) c live As (tls (c_engine c)) ls gs rest 0)
    as (c1 & E1 & (l1 & A1 & t1 & s1 & g1 & [Hi1 Hb1 Hempty] & He1 & Hf1 & Hn1)); [|done|done|done|].
  { split; [by rewrite ghost_id|done|]. intros i l Hi Hl. pose proof (zlookup_Some_lt _ _ _ Hl). lia. }
  rewrite E1, bind_ret. apply cleanup_classes_va in E1.
  destruct (unmap_memory_spec cache ENGINE_SIZE (c_kernel c1)) as (r & k & -> & Hk). rewrite bind_ret.
  exists (with_kernel c1 k), t1, s1, g1. split; [done|]. split.
  - exists l1, A1. split; [|done]. destruct Hi1 as [Q1 Q2 Q3 Q4 Q5 Q6 Q7 Q8 Q9 Q10 Q11]. split; try done.
    eapply live_unmap; [exact Hk| |exact Q1]. cbn. by rewrite E1.
  - apply List.concat_nil_Forall. pose proof (er_classes _ _ _ (si_engine _ _ _ _ _ _ _ Hi1)) as Hlen.
    apply Forall_lookup. intros i l Hl. apply (Hempty (Z.of_nat i)).
    + apply lookup_lt_Some in Hl. unfold zlen in Hlen. rewrite Z2Nat.id by done. lia.
    + rewrite zlookup_nonneg by lia. by rewrite Nat2Z.id.
Qed.
End ThreadExit.
