(* ===== verification/CpuRows.v ===== *)
(** * Threads on cpus that have no lists

    The per-cpu table has as many rows as [sched_getaffinity] counted bits when it was made, and
    [sched_getcpu] chooses the row. Nothing makes it smaller than the number of rows: a process
    that is bound to cpu 5 has one row. Access to a row that is not there is the model's
    [WildAccess]. Here it is shown of every call that this is the only thing that a cpu without a
    row can do: the call ends with the wild access, or it does what it does on a cpu that has one. *)

From S2P Require Import Prelude Bits Lib Rng HashMap Sys SizeClass VaMap Mem BlockList ThreadLocal Interconnect Bulk.
From S2P Require Import Heap Align Realloc Trim.

(** The table is there, with [n] rows. *)
Definition rows (n : Z) (icc : InterConnectCache) : Prop := icc_once icc = true ∧ icc_ncpu icc = n.

(** The row that the result [id] of [sched_getcpu] chooses. *)
Abbreviation row id := (unwrap_or_0 (get_cpu_id id)).

(** A cpu that has a row: the same, if it has one. *)
Definition on_row (n id : Z) : Z := if row id <? n then id else 0.
Definition on_rows (n : Z) (am : Ambient) : Ambient :=
  mkAmbient (on_row n (am_pop_cpu am)) (on_row n (am_push_cpu am)) (am_spurious am) (am_buf am).

Lemma row_nonneg id : 0 ≤ row id.
Proof. unfold get_cpu_id. case_zb; cbn; lia. Qed.

Lemma on_row_ok n id : 0 < n → 0 ≤ row (on_row n id) < n.
Proof. intros Hn. pose proof (row_nonneg id). unfold on_row. case_zb; [lia|]. by cbn. Qed.

Abbreviation strays := (stops_or WildAccess).

(** Two runs side by side, through the steps that are the same in both. *)
Ltac stray :=
  match goal with
  | |- strays _ (Ret _) (Ret _) => apply stops_or_ret
  | |- strays _ (Abort ?e) (Abort ?e) => by apply stops_or_refl
  | |- strays _ (log_and_abort ?e) (log_and_abort ?e) => by apply stops_or_refl
  | |- strays _ (?x ≫= _) (?x ≫= _) =>
      eapply (stops_or_bind _ (λ _, True)); [by apply stops_or_refl|]; intros ? _ ?
  | |- strays _ (_ ≫= _) (_ ≫= _) => eapply stops_or_bind; [by eauto with rows|]; intros ? ? _
  | |- strays _ (match ?x with _ => _ end) _ => destruct x eqn:?
  end.
Ltac strays :=
  repeat match goal with |- context [am_buf (on_rows ?n ?am)] => change (am_buf (on_rows n am)) with (am_buf am) end;
  repeat stray.

Create HintDb rows.

(** What holds of a call on cpus that have rows, [P], holds of it on any cpu, but for the wild
    access. *)
Lemma strays_post {A} (P : Prop) (R Q : A → Prop) (F : fault → Prop) x y :
  strays R x y → post y Q F → (P → post x Q F) → ¬ F WildAccess → post x Q (λ e, F e ∨ e = WildAccess ∧ ¬ P).
Proof.
  intros [->|[-> _]] Hy Hx Hw; [right; split; [done|]; intros HP; exact (Hw (Hx HP))|].
  eapply post_mono; [exact Hy|done|by left].
Qed.

(** ** The per-cpu lists *)

Section Lists.
Context `{Config}.
Context {K : Type} `{Kernel K}.
Context (n : Z).

Lemma icc_cell_wild icc cpu class : rows n icc → n ≤ cpu → icc_cell icc cpu class = Abort WildAccess.
Proof. intros [_ Hn] Hc. unfold icc_cell. by rewrite Hn, (proj2 (Z.ltb_ge cpu n)), andb_false_r. Qed.

Lemma ensure_cache_rows mask_buf icc (k : K) : rows n icc → ensure_cache mask_buf icc k = Ret (icc, k).
Proof. intros [Ho _]. unfold ensure_cache. by rewrite Ho. Qed.

Lemma stops_or_self {A} (P : A → Prop) (x : M A) a : strays P x x → x = Ret a → P a.
Proof. intros [->|[_ HP]]; [done|apply HP]. Qed.

Lemma with_cell_rows icc i v u : rows n icc → rows n (with_cell icc i v u).
Proof. by intros [? ?]. Qed.

Lemma try_push_self NUMA mask_buf m icc class head tail batch cpu sp (k : K) :
  rows n icc → strays (λ r, rows n r.1.2) (try_push NUMA mask_buf m icc class head tail batch cpu sp k)
    (try_push NUMA mask_buf m icc class head tail batch cpu sp k).
Proof.
  intros Hr. unfold try_push. rewrite (ensure_cache_rows _ _ _ Hr), bind_ret. strays. by apply with_cell_rows.
Qed.

Lemma pop_self NUMA mask_buf m icc class batch cpu (k : K) :
  rows n icc → strays (λ r, rows n r.1.2) (pop NUMA mask_buf m icc class batch cpu k) (pop NUMA mask_buf m icc class batch cpu k).
Proof.
  intros Hr. unfold pop. rewrite (ensure_cache_rows _ _ _ Hr), bind_ret. strays; by try apply with_cell_rows.
Qed.

Lemma steal_loop_self NUMA mask_buf fuel i m icc class batch cpu ncpu (k : K) :
  rows n icc → strays (λ r, rows n r.1.2) (steal_loop NUMA mask_buf fuel i m icc class batch cpu ncpu k)
    (steal_loop NUMA mask_buf fuel i m icc class batch cpu ncpu k).
Proof.
  revert i m icc k. induction fuel as [|fuel IH]; intros i m icc k Hr; cbn [steal_loop]; [by apply stops_or_ret|].
  eapply (stops_or_bind _ (λ _, True)); [by apply stops_or_refl|]. intros s _ _.
  eapply (stops_or_bind _ (λ _, True)); [by apply stops_or_refl|]. intros v _ _.
  eapply stops_or_bind; [by apply pop_self|]. intros [[[[b|] m1] icc1] k1] Hr1 _; [by apply stops_or_ret|by apply IH].
Qed.

(** On a cpu without a row neither gets past the row. *)
Lemma try_push_rows NUMA mask_buf m icc class head tail batch cpu sp (k : K) :
  rows n icc → strays (λ r, rows n r.1.2) (try_push NUMA mask_buf m icc class head tail batch cpu sp k)
    (try_push NUMA mask_buf m icc class head tail batch (on_row n cpu) sp k).
Proof.
  intros Hr. unfold on_row. destruct (Z.ltb_spec (row cpu) n) as [_|Hge]; [by apply try_push_self|left].
  unfold try_push. by rewrite (ensure_cache_rows _ _ _ Hr), bind_ret, (icc_cell_wild _ _ _ Hr Hge).
Qed.

Lemma try_pop_rows NUMA mask_buf m icc class batch cpu (k : K) :
  rows n icc → strays (λ r, rows n r.1.2) (try_pop NUMA mask_buf m icc class batch cpu k)
    (try_pop NUMA mask_buf m icc class batch (on_row n cpu) k).
Proof.
  intros Hr. unfold on_row. destruct (Z.ltb_spec (row cpu) n) as [_|Hge].
  - unfold try_pop. eapply stops_or_bind; [by apply pop_self|]. intros [[[[b|] m1] icc1] k1] Hr1 _; [by apply stops_or_ret|].
    by apply steal_loop_self.
  - left. unfold try_pop, pop. by rewrite (ensure_cache_rows _ _ _ Hr), bind_ret, (icc_cell_wild _ _ _ Hr Hge).
Qed.

Lemma push_to_global_rows NUMA mask_buf m icc class head tail batch cpu sp (k : K) :
  rows n icc → strays (λ r, rows n r.1.2) (push_to_global NUMA mask_buf m icc class head tail batch cpu sp k)
    (push_to_global NUMA mask_buf m icc class head tail batch (on_row n cpu) sp k).
Proof. intros Hr. unfold push_to_global. strays. by apply try_push_rows. Qed.
End Lists.

(** ** Filling a class, and the end of a thread *)

Section Calls.
Context `{Config}.
Context {K : Type} `{Kernel K}.
Context (n : Z) (st : Statics).

Abbreviation crows c := (rows n (c_icc c)).

Lemma call_push_tailed_icc (c c' : Call K) class head tail count :
  call_push_tailed c class head tail count = Ret c' → c_icc c' = c_icc c.
Proof. by intros ([m e] & _ & [= <-])%bind_Ret_inv. Qed.

Lemma call_set_pending_icc (c c' : Call K) class p : call_set_pending c class p = Ret c' → c_icc c' = c_icc c.
Proof. by intros (pend & _ & [= <-])%bind_Ret_inv. Qed.

Lemma call_push_to_global_rows am (c : Call K) class head tail count :
  crows c → strays (λ c', crows c') (call_push_to_global st am c class head tail count)
    (call_push_to_global st (on_rows n am) c class head tail count).
Proof.
  intros Hr. unfold call_push_to_global. eapply stops_or_bind; [by apply push_to_global_rows|].
  intros [[m icc] k] Hr' _. by apply stops_or_ret.
Qed.
#[local] Hint Resolve call_push_to_global_rows : rows.

(** The lists after the calls that leave them alone. *)
Ltac same_icc :=
  repeat match goal with
    | H : call_push_tailed _ _ _ _ _ = Ret _ |- _ => apply call_push_tailed_icc in H
    | H : call_set_pending _ _ _ = Ret _ |- _ => apply call_set_pending_icc in H
    | H : (match ?b with _ => _ end) = Ret _ |- _ => destruct b
    | H : Ret _ = Ret _ |- _ => injection H as <-
    end; cbn;
  repeat match goal with H : c_icc ?a = _ |- rows _ (c_icc ?a) => rewrite H; cbn end; try done.

Lemma fill_from_pending_self (c : Call K) class block_size max_init :
  crows c → strays (λ r, match r with inl c' | inr c' => crows c' end)
    (fill_from_pending st c class block_size max_init) (fill_from_pending st c class block_size max_init).
Proof. intros Hr. unfold fill_from_pending. strays; same_icc. Qed.

Lemma fill_new_arena_rows am (c : Call K) class p block_size max_init :
  crows c → strays (λ r, crows r.2) (fill_new_arena st am c class p block_size max_init)
    (fill_new_arena st (on_rows n am) c class p block_size max_init).
Proof.
  intros Hr. unfold fill_new_arena. strays; [done|]. eapply (stops_or_bind _ (λ c', crows c')).
  { strays; [by apply call_push_to_global_rows|]. apply stops_or_refl. intros c' E. same_icc. }
  intros c1 Hr1 _. strays. same_icc.
Qed.
#[local] Hint Resolve fill_new_arena_rows : rows.

Lemma fill_from_arena_rows am (c : Call K) class block_size max_init :
  crows c → strays (λ r, crows r.2) (fill_from_arena st am c class block_size max_init)
    (fill_from_arena st (on_rows n am) c class block_size max_init).
Proof. intros Hr. unfold fill_from_arena. strays; try done; try by apply fill_new_arena_rows.
Qed.
#[local] Hint Resolve fill_from_arena_rows : rows.

Lemma bulk_fill_rows am (c : Call K) class :
  crows c → strays (λ r, crows r.2) (bulk_fill st am c class) (bulk_fill st (on_rows n am) c class).
Proof.
  intros Hr. unfold bulk_fill. do 2 stray. eapply stops_or_bind; [by apply fill_from_pending_self|].
  intros [c1|c1] Hr1 _; [by apply stops_or_ret|by apply fill_from_arena_rows].
Qed.

Lemma drain_pending_rows am (c : Call K) class :
  crows c → strays (λ c', crows c') (drain_pending st am c class) (drain_pending st (on_rows n am) c class).
Proof.
  intros Hr. unfold drain_pending. stray. stray; [by apply stops_or_ret|]. do 2 stray.
  eapply (stops_or_bind _ (λ c', crows c')); [strays; first [done|by apply call_push_to_global_rows]|].
  intros c1 Hr1 _. apply stops_or_refl. intros c2 E. same_icc.
Qed.

Context (list_am drain_am : Z → Ambient).

Lemma cleanup_class_rows (c : Call K) class :
  crows c → strays (λ c', crows c') (cleanup_class st list_am drain_am c class)
    (cleanup_class st (λ i, on_rows n (list_am i)) (λ i, on_rows n (drain_am i)) c class).
Proof.
  intros Hr. unfold cleanup_class. stray. stray. stray; [by apply stops_or_ret|].
  eapply (stops_or_bind _ (λ c', crows c')); [strays; first [done|by apply call_push_to_global_rows]|].
  intros c1 Hr1 _. by apply drain_pending_rows.
Qed.

Lemma cleanup_classes_rows k (c : Call K) class :
  crows c → strays (λ c', crows c') (cleanup_classes st list_am drain_am k c class)
    (cleanup_classes st (λ i, on_rows n (list_am i)) (λ i, on_rows n (drain_am i)) k c class).
Proof.
  revert c class. induction k as [|k IH]; intros c class Hr; cbn [cleanup_classes]; [by apply stops_or_ret|].
  eapply stops_or_bind; [by apply cleanup_class_rows|]. intros c1 Hr1 _. by apply IH.
Qed.

Lemma cleanup_thread_cache_rows (c : Call K) cache :
  crows c → strays (λ c', crows c') (cleanup_thread_cache st list_am drain_am c cache)
    (cleanup_thread_cache st (λ i, on_rows n (list_am i)) (λ i, on_rows n (drain_am i)) c cache).
Proof.
  intros Hr. unfold cleanup_thread_cache. stray; [by apply stops_or_ret|].
  eapply stops_or_bind; [by apply cleanup_classes_rows|]. intros c1 Hr1 _. by strays.
Qed.
End Calls.

(** ** The heap *)

Section Heaps.
Context `{Config}.
Context {K : Type} `{Kernel K}.
Context {B : Type} `{BigMap B}.
Context (n : Z) (st : Statics).

Abbreviation heap := (Heap K B).
Abbreviation hrows h := (rows n (c_icc (hp_call h))).

Lemma bump_batch_hint_call (h h' : heap) class up : bump_batch_hint h class up = Ret h' → hp_call h' = hp_call h.
Proof. unfold bump_batch_hint. intros ?. by inv_ret. Qed.

Lemma fill_tries_rows am k (h : heap) class :
  hrows h → strays (λ r, hrows r.2) (fill_tries st am k h class) (fill_tries st (on_rows n am) k h class).
Proof.
  revert h. induction k as [|k IH]; intros h Hr; cbn [fill_tries]; [by apply stops_or_ret|].
  eapply stops_or_bind; [by apply bulk_fill_rows|]. intros [[r|e] c] Hr1 _; [|by apply IH].
  strays. cbn. by erewrite bump_batch_hint_call by done.
Qed.

Lemma try_fill_rows am (h : heap) class :
  hrows h → strays (λ r, hrows r.2) (try_fill st am h class) (try_fill st (on_rows n am) h class).
Proof.
  intros Hr. unfold try_fill. change (am_buf (on_rows n am)) with (am_buf am). stray.
  eapply stops_or_bind; [by apply try_pop_rows|]. intros [[[g m] icc] k] Hr1 _. stray.
  - strays. cbn. erewrite bump_batch_hint_call by done. cbn. by erewrite call_push_tailed_icc by done.
  - stray. apply fill_tries_rows. by erewrite bump_batch_hint_call by done.
Qed.

Lemma allocate_hot_rows am (h : heap) class :
  hrows h → strays (λ r, hrows r.2) (allocate_hot st am h class) (allocate_hot st (on_rows n am) h class).
Proof.
  intros Hr. unfold allocate_hot. stray. stray.
  eapply (stops_or_bind _ (λ r, hrows r.2)).
  { stray; [by apply try_fill_rows|by apply stops_or_ret]. }
  intros [q h1] Hr1 _. stray; [by apply stops_or_ret|].
  eapply (stops_or_bind _ (λ h, hrows h)); [by strays|]. intros h2 Hr2 _. by strays.
Qed.

Lemma allocate_class_rows am (h : heap) class :
  hrows h → strays (λ r, hrows r.2) (allocate_class st am h class) (allocate_class st (on_rows n am) h class).
Proof.
  intros Hr. unfold allocate_class. stray; [by apply allocate_hot_rows|]. apply allocate_hot_rows.
  unfold boot_accounting. by repeat case_match.
Qed.

Lemma big_pages_self (h : heap) hint total :
  hrows h → strays (λ r, hrows r.2) (big_pages h hint total) (big_pages h hint total).
Proof. intros Hr. unfold big_pages. by strays. Qed.

Lemma big_malloc_rows am (h : heap) size :
  hrows h → strays (λ r, hrows r.2) (big_malloc st am h size) (big_malloc st (on_rows n am) h size).
Proof.
  intros Hr. unfold big_malloc. change (am_buf (on_rows n am)) with (am_buf am). do 3 stray.
  stray. stray. stray; [|by apply stops_or_ret].
  eapply stops_or_bind; [by apply big_pages_self|]. intros [[q|] h1] Hr1 _; by strays.
Qed.

Lemma malloc_rows am (h : heap) size :
  hrows h → strays (λ r, hrows r.2) (malloc st am h size) (malloc st (on_rows n am) h size).
Proof.
  intros Hr. unfold malloc. stray.
  - stray; [by apply allocate_class_rows|by strays].
  - stray; [by apply stops_or_ret|]. stray. stray; [by apply allocate_class_rows|by apply big_malloc_rows].
Qed.

Lemma big_free_self (h : heap) p : hrows h → strays (λ h', hrows h') (big_free st h p) (big_free st h p).
Proof. intros Hr. unfold big_free. by strays. Qed.

Lemma free_internal_rows am (h : heap) p :
  hrows h → strays (λ h', hrows h') (free_internal st am h p) (free_internal st (on_rows n am) h p).
Proof.
  intros Hr. unfold free_internal. stray. stray; [by apply big_free_self|]. do 3 stray. stray; [|by strays].
  eapply stops_or_bind; [by apply call_push_to_global_rows|]. intros c Hr1 _. by apply stops_or_ret.
Qed.

Lemma free_rows am (h : heap) p :
  hrows h → strays (λ r, hrows r.2) (free st am h p) (free st (on_rows n am) h p).
Proof.
  assert (∀ h : heap, hrows h → strays (λ r, hrows r.2) (free_main st am h p) (free_main st (on_rows n am) h p)) as Hmain.
  { clear. intros h Hr. unfold free_main. stray; [by apply stops_or_ret|]. stray. stray; [by apply stops_or_ret|]. stray.
    eapply stops_or_bind; [by apply free_internal_rows|]. intros h1 Hr1 _. by apply stops_or_ret. }
  intros Hr. unfold free. stray; by apply Hmain.
Qed.

(** [calloc] and aligned allocation. *)
Lemma calloc_rows am (h : heap) nmemb size :
  hrows h → strays (λ r, hrows r.2) (calloc st am h nmemb size) (calloc st (on_rows n am) h nmemb size).
Proof.
  intros Hr. unfold calloc. stray; [|by apply stops_or_ret].
  eapply (stops_or_bind _ (λ r, hrows r.2)).
  { unfold calc_and_get. stray; [|by apply stops_or_ret].
    eapply stops_or_bind; [by apply malloc_rows|]. intros [q h1] Hr1 _. by apply stops_or_ret. }
  intros [[[q e]|] h1] Hr1 _; [|by apply stops_or_ret]. by strays.
Qed.

Lemma posix_memalign_rows am (h : heap) memptr al size :
  hrows h → strays (λ r, hrows r.2) (posix_memalign st am h memptr al size) (posix_memalign st (on_rows n am) h memptr al size).
Proof.
  intros Hr. unfold posix_memalign. stray; [by apply stops_or_ret|]. stray; [by apply stops_or_ret|].
  stray; [|by apply stops_or_ret]. eapply stops_or_bind; [by apply malloc_rows|]. intros [q h1] Hr1 _.
  eapply (stops_or_bind _ (λ r, hrows r.2)); [stray; [by apply malloc_rows|by apply stops_or_ret]|].
  intros [q2 h2] Hr2 _. by strays.
Qed.

Lemma memalign_rows am (h : heap) stack al size :
  hrows h → strays (λ r, hrows r.2) (memalign st am h stack al size) (memalign st (on_rows n am) h stack al size).
Proof.
  intros Hr. unfold memalign. stray; [by apply stops_or_ret|].
  eapply stops_or_bind; [by apply posix_memalign_rows|]. intros [[code q] h1] Hr1 _. by apply stops_or_ret.
Qed.

Lemma aligned_alloc_rows am (h : heap) stack al size :
  hrows h → strays (λ r, hrows r.2) (aligned_alloc st am h stack al size) (aligned_alloc st (on_rows n am) h stack al size).
Proof. intros Hr. unfold aligned_alloc. stray; [by apply stops_or_ret|by apply memalign_rows]. Qed.

(** [realloc]. *)
Context (am am_free : Ambient).

Lemma move_block_rows (h : heap) p size raw offset :
  hrows h → strays (λ r, hrows r.2) (move_block st am am_free h p size raw offset)
    (move_block st (on_rows n am) (on_rows n am_free) h p size raw offset).
Proof.
  intros Hr. unfold move_block. eapply stops_or_bind; [by apply malloc_rows|]. intros [q h1] Hr1 _.
  stray; [by apply stops_or_ret|]. eapply stops_or_bind; [by apply free_rows|]. intros [s h2] Hr2 _. by apply stops_or_ret.
Qed.

Lemma set_class_self (h : heap) header old new size :
  hrows h → strays (λ h', hrows h') (set_class h header old new size) (set_class h header old new size).
Proof. intros Hr. unfold set_class. by strays. Qed.

Lemma heap_va_free_self (h : heap) addr size :
  hrows h → strays (λ h', hrows h') (heap_va_free h addr size) (heap_va_free h addr size).
Proof. intros Hr. unfold heap_va_free. by strays. Qed.

Lemma resize_block_self (h : heap) header old raw size :
  hrows h → strays (λ r, hrows r.2) (resize_block h header old raw size) (resize_block h header old raw size).
Proof.
  intros Hr. unfold resize_block. do 4 stray. stray.
  { eapply stops_or_bind; [by apply set_class_self|]. intros h1 Hr1 _. by apply stops_or_ret. }
  stray.
  - eapply (stops_or_bind _ (λ h', hrows h')); [|intros h1 Hr1 _; by apply stops_or_ret].
    unfold shrink_block. do 3 stray. stray; [|by apply stops_or_ret]. do 2 stray. stray; [by apply stops_or_ret|]. do 2 stray.
    eapply stops_or_bind; [by apply heap_va_free_self|]. intros h1 Hr1 _. by apply set_class_self.
  - unfold grow_block. do 6 stray. stray; [|by apply stops_or_ret]. do 5 stray. stray.
    + do 2 stray. eapply (stops_or_bind _ (λ h', hrows h')); [stray; [by apply heap_va_free_self|by apply stops_or_ret]|].
      intros h1 Hr1 _. by apply stops_or_ret.
    + eapply stops_or_bind; [by apply set_class_self|]. intros h1 Hr1 _. by apply stops_or_ret.
Qed.

Lemma realloc_rows (h : heap) p size :
  hrows h → strays (λ r, hrows r.2) (realloc st am am_free h p size)
    (realloc st (on_rows n am) (on_rows n am_free) h p size).
Proof.
  intros Hr. unfold realloc. stray.
  { eapply stops_or_bind; [by apply malloc_rows|]. intros [q h1] Hr1 _. by apply stops_or_ret. }
  stray; [by apply stops_or_ret|]. stray. stray; [by apply stops_or_ret|]. stray.
  { eapply stops_or_bind; [by apply free_rows|]. intros [s h1] Hr1 _.
    eapply stops_or_bind; [by apply malloc_rows|]. intros [q h2] Hr2 _. by apply stops_or_ret. }
  eapply (stops_or_bind _ (λ r, hrows r.2)); [|intros [q h1] Hr1 _; by apply stops_or_ret].
  unfold realloc_ours. do 5 stray. stray; [by apply move_block_rows|]. stray; [by apply stops_or_ret|].
  eapply (stops_or_bind _ (λ r, hrows r.2)); [stray; [by apply resize_block_self|by apply stops_or_ret]|].
  intros [[] h1] Hr1 _; [by apply stops_or_ret|by apply move_block_rows].
Qed.
End Heaps.

(** ** The trim thread *)

Section Trims.
Context `{Config}.
Context {K : Type} `{Kernel K}.
Context (n : Z) (st : Statics) (round_am : Z → nat → Ambient) (block_am : Z → Ambient).

Abbreviation crows c := (rows n (c_icc c)).
Abbreviation round_on := (λ class i, on_rows n (round_am class i)).
Abbreviation block_on := (λ b, on_rows n (block_am b)).

Lemma cut_self (c : Call K) block : crows c → strays (λ c', crows c') (cut c block) (cut c block).
Proof. intros Hr. unfold cut. by strays. Qed.

Lemma gtrim_pop_rows (c : Call K) class i :
  crows c → strays (λ r, crows r.2) (gtrim_pop st round_am c class i) (gtrim_pop st round_on c class i).
Proof.
  intros Hr. unfold gtrim_pop. eapply stops_or_bind; [by apply try_pop_rows|]. intros [[[g m] icc] k] Hr1 _.
  stray; [by apply stops_or_ret|]. stray. stray.
  eapply stops_or_bind; [by apply cut_self|]. intros c1 Hr2 _. by strays.
Qed.

Lemma put_back_rows (c : Call K) class i to_push :
  crows c → strays (λ c', crows c') (put_back st round_am c class i to_push) (put_back st round_on c class i to_push).
Proof.
  intros Hr. unfold put_back. stray; [by apply stops_or_ret|]. do 2 stray.
  eapply stops_or_bind; [by apply cut_self|]. intros c1 Hr1 _. by apply call_push_to_global_rows.
Qed.

Lemma class_rounds_rows k i (c : Call K) class timing avg total to_trim :
  crows c → strays (λ r, crows r.1.1.1) (class_rounds st round_am k i c class timing avg total to_trim)
    (class_rounds st round_on k i c class timing avg total to_trim).
Proof.
  revert i c avg total to_trim. induction k as [|k IH]; intros i c avg total to_trim Hr; cbn [class_rounds]; [by apply stops_or_ret|].
  eapply stops_or_bind; [by apply gtrim_pop_rows|]. intros [[cache size] c1] Hr1 _.
  stray; [by apply stops_or_ret|]. do 2 stray.
  eapply stops_or_bind; [by apply put_back_rows|]. intros c2 Hr2 _. by apply IH.
Qed.

Lemma release_memory_self (c : Call K) header size :
  crows c → strays (λ c', crows c') (release_memory c header size) (release_memory c header size).
Proof. intros Hr. unfold release_memory. strays; [done|]. cbn. by case_match. Qed.

Lemma release_loop_rows k (c : Call K) class pad force to_trim freed :
  crows c → strays (λ r, crows r.1) (release_loop st block_am k c class pad force to_trim freed)
    (release_loop st block_on k c class pad force to_trim freed).
Proof.
  revert c to_trim freed. induction k as [|k IH]; intros c to_trim freed Hr; cbn [release_loop]; [by strays|].
  stray; [by apply stops_or_ret|]. stray. eapply (stops_or_bind _ (λ r, crows r.1)).
  { stray; [|by apply stops_or_ret]. eapply stops_or_bind; [by apply release_memory_self|]. intros c1 Hr1 _. by strays. }
  intros [c1 freed1] Hr1 _. eapply stops_or_bind; [by apply call_push_to_global_rows|]. intros c2 Hr2 _. by apply IH.
Qed.

Lemma class_loop_rows k (c : Call K) class pad timing force avg total freed :
  crows c → strays (λ r, crows r.1.1.1.2) (class_loop st round_am block_am k c class pad timing force avg total freed)
    (class_loop st round_on block_on k c class pad timing force avg total freed).
Proof.
  revert c class avg total freed. induction k as [|k IH]; intros c class avg total freed Hr; cbn [class_loop]; [by apply stops_or_ret|].
  stray; [by apply stops_or_ret|]. stray.
  eapply stops_or_bind; [by apply class_rounds_rows|]. intros [[[c1 a1] t1] trim1] Hr1 _.
  eapply stops_or_bind; [by apply release_loop_rows|]. intros [c2 f2] Hr2 _. by apply IH.
Qed.
End Trims.

Lemma gtrim_round_rows `{Config} {K} `{Kernel K} n st round_am block_am g (c : Call K) time info :
  rows n (c_icc c) → strays (λ r, rows n (c_icc r.2)) (gtrim_round st round_am block_am g c time info)
    (gtrim_round st (λ class i, on_rows n (round_am class i)) (λ b, on_rows n (block_am b)) g c time info).
Proof.
  intros Hr. unfold gtrim_round. do 2 stray. stray; [|by apply stops_or_ret].
  eapply (stops_or_bind _ (λ r, rows n (c_icc r.2))); [|intros [[[x f] g2] c2] Hr2 _; by apply stops_or_ret].
  unfold trim. stray. eapply stops_or_bind; [by apply class_loop_rows|]. intros [[[[e c1] a1] t1] f1] Hr1 _.
  stray; [by apply stops_or_ret|]. by strays.
Qed.
