(* ===== verification/AlignSpec.v ===== *)
(** * What the other allocation functions give

    Each adds a block of at least the size that was asked for; [calloc] clears it,
    and the aligned functions give a multiple of the alignment, at which [free] and
    [malloc_usable_size] find the block again. *)

From S2P Require Import Prelude Bits Lib Rng Segment HashMap Sys Radix SizeClass VaMap VaMapSpec VaLive.
From S2P Require Import Mem BlockList ThreadLocal Interconnect InterconnectSpec Bulk BulkSpec.
From S2P Require Import SlabInv SlabOps SlabFill Heap HeapInv HeapFill HeapBig HeapSpec Align.

Lemma is_power_of_two_pow n : is_power_of_two n = true → ∃ k, 0 ≤ k ∧ n = 2 ^ k.
Proof.
  unfold is_power_of_two. intros [Hn%Z.ltb_lt Hl%Z.eqb_eq]%andb_true_iff.
  exists (Z.log2 n). split; [apply Z.log2_nonneg|].
  destruct (Z.log2_spec n Hn) as [H1 H2]. destruct (decide (n = 2 ^ Z.log2 n)) as [|Hne]; [done|].
  assert (Z.testbit (Z.land n (n - 1)) (Z.log2 n) = true) as Hb; [|by rewrite Hl, Z.bits_0 in Hb].
  rewrite Z.land_spec, Z.bit_log2 by done. cbn.
  replace (Z.log2 n) with (Z.log2 (n - 1)); [|apply Z.log2_unique; [apply Z.log2_nonneg|lia]].
  apply Z.bit_log2. pose proof (Z.pow_pos_nonneg 2 (Z.log2 n)). pose proof (Z.log2_nonneg n). lia.
Qed.

Lemma align_up_ok s al :
  0 ≤ s → is_power_of_two al = true → al ≤ 2 ^ 63 → s + al ≤ usize_max → align_up s al = Ret (round_up s al).
Proof.
  intros Hs (k & Hk & ->)%is_power_of_two_pow Hal Hle.
  pose proof (Z.pow_pos_nonneg 2 k ltac:(lia) Hk).
  assert (k < 64) as Hk64 by (apply (Z.pow_lt_mono_r_iff 2); lia).
  unfold align_up. checked. rewrite land_lnot64_ones; [done|lia|].
  unfold word64, usize_max, u64_max in *. lia.
Qed.

Section AlignSpec.
Context `{Config}.
Context {K : Type} `{LinuxKernel K}.
Context {B : Type} `{BigMap B}.
Context (st : Statics) (Hst : statics_ok st).

Abbreviation heap_inv := (heap_inv st).
Abbreviation heap_step := (heap_step st).
Abbreviation heap_to := (heap_to st).

(** A null pointer, or a pointer into a new block with [size] usable bytes that satisfies [P]. *)
Definition fresh_result (h : Heap K B) (As : list arena) (others : list Z) (U : users) (size : Z)
    (P : Z → Heap K B → Prop) (r : Z * Heap K B) : Prop :=
  (r.1 = 0 ∧ null_step st h As others U r.2) ∨
  (0 < r.1 ∧ P r.1 r.2 ∧ ∃ p u, ub_ptr u = r.1 ∧ U !! p = None ∧ size ≤ usable p u ∧
     heap_step h As others U r.2 others (<[p := u]> U)).

Lemma fresh_result_null h live As ls gs others U size P :
  heap_inv h live As ls gs others U → fresh_result h As others U size P (0, h).
Proof. intros Hinv. left. split; [done|]. by eapply null_step_refl. Qed.

(** Every pointer of [malloc] is a multiple of 16. *)
Lemma alloc_fresh h As others U size r :
  alloc_result st h As others U size r → fresh_result h As others U size (λ p _, p mod 16 = 0) r.
Proof.
  intros [Hz|(Hz & u & Hp & HU & Hc & Hs)]; [by left|right]. split; [done|].
  pose proof Hs as (l1 & A1 & s1 & g1 & Hto).
  destruct (user_facts st _ _ _ _ _ _ _ _ _ (ht_inv Hto) (lookup_insert_eq _ _ _)) as (_ & F1 & F2 & _).
  split; [destruct (HEADER_SIZE_cases _) as [E|E]; rewrite E in F2; zdiv|].
  exists (r.1 - HEADER_SIZE), u. split; [done|]. split; [done|]. split; [|done].
  unfold usable. rewrite Hp. lia.
Qed.

(** ** [calloc] *)

Lemma fresh_result_mono h As others U n n' (P Q : Z → Heap K B → Prop) r :
  n' ≤ n → (∀ p h, P p h → Q p h) → fresh_result h As others U n P r → fresh_result h As others U n' Q r.
Proof.
  intros Hn HPQ [Hz|(Hz & HP & p & u & Hp & HU & Hc & Hs)]; [by left|right]. split; [done|]. split; [auto|].
  exists p, u. split; [done|]. split; [done|]. split; [lia|done].
Qed.

Lemma heap_errno h live As ls gs others U e :
  heap_inv h live As ls gs others U → null_step st h As others U (with_errno h e).
Proof.
  intros Hinv. split; [|done]. assert (heap_inv (with_errno h e) live As ls gs others U) as Hinv' by (destruct Hinv; by split).
  exists live, As, ls, gs. exact (heap_to_aux (heap_to_refl st _ _ _ _ _ _ _ _ Hinv) Hinv' eq_refl).
Qed.

(** The bytes that [calloc] promises. *)
Definition cleared (n p : Z) (h : Heap K B) : Prop := p mod 16 = 0 ∧ ∀ x, p ≤ x < p + n → heap_mem h x = 0.

Lemma calloc_ok am h live As ls gs others U nmemb size :
  heap_inv h live As ls gs others U → 0 ≤ nmemb → 0 ≤ size → cpus_ok am h →
  post (calloc st am h nmemb size) (fresh_result h As others U (nmemb * size) (cleared (nmemb * size))) (alloc_end (hp_big h)).
Proof.
  intros Hinv Hn Hs Ha. unfold calloc, layout_array_u8.
  destruct (size <=? isize_max); [|left; split; [done|by eapply heap_errno]].
  unfold calc_and_get, checked_mul64. destruct (nmemb * size <=? u64_max);
    [|left; split; [done|by eapply heap_errno]].
  set (eff := if nmemb * size =? 0 then 1 else nmemb * size).
  assert (0 ≤ eff ∧ nmemb * size ≤ eff) as [He0 He] by (unfold eff; case_zb; nia).
  apply (post_bind _ _ (λ '(o, h'), match o with
    | None => null_step st h As others U h'
    | Some (p, e) => e = eff ∧ fresh_result h As others U eff (λ p _, p mod 16 = 0) (p, h') ∧ 0 < p ∧
        alloc_result st h As others U eff (p, h') end)).
  { eapply post_bind; [by apply (malloc_ok st Hst am _ _ _ _ _ _ _ eff Hinv)|]. intros [p h'] Hal.
    pose proof (alloc_fresh _ _ _ _ _ _ Hal) as Hf. destruct (Z.eqb_spec p 0) as [->|Hp0]; cbn.
    - destruct Hf as [[_ Hz]|[? _]]; [exact Hz|cbn in *; lia].
    - destruct Hal as [[? _]|Hal]; [done|]. pose proof (proj1 Hal). cbn in *.
      split; [done|]. split; [exact Hf|]. split; [done|]. by right. }
  intros [[[p e]|] h1] Hres; [|by left]. destruct Hres as (-> & Hf & Hp0 & Hal).
  rewrite (proj2 (Z.eqb_neq p 0)) by lia. cbn [negb].
  destruct Hf as [[? _]|(_ & Hp16 & _)]; [cbn in *; lia|]. cbn [fst snd] in Hp16.
  destruct Hal as [[? _]|(_ & u & Hu & HU & Hcap & l1 & A1 & s1 & g1 & Hto)]; [cbn in *; lia|].
  cbn [fst snd] in *. set (q := p - HEADER_SIZE) in *. pose proof (ht_inv Hto) as Hinv1.
  pose proof (lookup_insert_eq U q u) as Hlk.
  destruct (user_facts st _ _ _ _ _ _ _ _ _ Hinv1 Hlk) as (Hok & F1 & F2 & F3 & F4 & F5 & F6 & _).
  rewrite wrapping_sub_small by (pose proof (HEADER_SIZE_cases _); unfold q in *; lia). fold q.
  rewrite (payload_capacity_ok st _ _ _ _ _ _ _ _ _ Hinv1 Hlk), bind_ret.
  replace (Z.min (cap u) eff) with eff by lia. right. cbn [fst snd]. split; [done|]. split.
  { split; [done|]. intros x Hx. cbn. unfold zero_fill.
    by rewrite (proj2 (Z.leb_le _ _)), (proj2 (Z.ltb_lt _ _)) by lia. }
  exists q, u. split; [done|]. split; [done|]. split; [unfold usable, q; lia|].
  assert (only_range (heap_mem h1) (zero_fill (heap_mem h1) p eff) (ub_ptr u) (usable q u)) as Ho.
  { rewrite Hu. apply zero_fill_range. unfold usable, q. lia. }
  pose proof (heap_payload_write st _ _ _ _ _ _ _ _ _ _ Hinv1 Hlk Ho) as Hto2.
  rewrite delete_insert_id in Hto2 by done.
  exists l1, A1, s1, g1. exact (heap_to_trans Hto Hto2 ltac:(done) ltac:(done)).
Qed.

(** ** Aligned allocation *)

(** The two words before the aligned address. *)
Definition tag_block (m : mem) (aligned raw : Z) : mem :=
  store 8 (store 8 m (aligned - 16) OX_ALIGN_TAG) (aligned - 8) raw.

(** A block becomes known by an aligned address inside of it. *)
Lemma heap_realign h live As ls gs others U p u al :
  heap_inv h live As ls gs others U → U !! p = Some u → p + HEADER_SIZE + 16 ≤ al < p + HEADER_SIZE + cap u →
  al mod 8 = 0 →
  heap_to h As others (delete p U) (with_heap_mem h (tag_block (heap_mem h) al (p + HEADER_SIZE)))
    live As ls gs others (<[p := mkU (ub_kind u) al]> U).
Proof.
  intros Hinv Hp Hal Hm8. destruct (user_facts st _ _ _ _ _ _ _ _ _ Hinv Hp) as (Hu & F1 & F2 & F3 & F4 & F5 & F6 & _).
  pose proof (HEADER_SIZE_cases _) as Hhs. set (m' := tag_block _ _ _).
  assert (∀ x, x < al - 16 ∨ al ≤ x → m' x = heap_mem h x) as Ho.
  { intros x Hx. unfold m', tag_block. rewrite !store_outside by lia. done. }
  assert (∀ f, hget f m' p = hget f (heap_mem h) p) as Hg.
  { intros f. pose proof (field_inside f). apply load_ext. intros x Hx. apply Ho. lia. }
  eapply heap_write; [done|done|done| |].
  - intros x Hx. apply Ho. lia.
  - destruct Hu as [U1 U2 U3 U4]. split; [done|by rewrite Hg|by rewrite Hg|].
    right. cbn [ub_ptr]. split; [done|]. split; [done|]. unfold m', tag_block. split.
    + rewrite load_store_ne by lia. apply load_store_eq. by vm_compute.
    + apply load_store_eq. change (256 ^ Z.of_nat 8) with (2 ^ 64). lia.
Qed.

(** What [posix_memalign] returns for valid arguments. *)
Definition memalign_result (h : Heap K B) (As : list arena) (others : list Z) (U : users) (alignment size : Z)
    (r : Z * option Z * Heap K B) : Prop :=
  (r.1.1 = NOMEM ∧ r.1.2 = None ∧ null_step st h As others U r.2) ∨
  (r.1.1 = 0 ∧ ∃ p, r.1.2 = Some p ∧ fresh_result h As others U size (λ p _, p mod alignment = 0) (p, r.2) ∧ p ≠ 0).

Lemma malloc_twice_ok am h live As ls gs others U size :
  heap_inv h live As ls gs others U → 0 ≤ size → cpus_ok am h →
  post ('(raw, h) ← malloc st am h size; if raw =? 0 then malloc st am h size else Ret (raw, h))
    (alloc_result st h As others U size) (alloc_end (hp_big h)).
Proof.
  intros Hinv Hs Ha. eapply post_bind; [by apply (malloc_ok st Hst am _ _ _ _ _ _ _ size Hinv)|].
  intros [raw h1] Hres. destruct (Z.eqb_spec raw 0) as [->|Hne]; [|done].
  destruct Hres as [[_ [(l1 & A1 & s1 & g1 & Hto) Hb]]|[? _]]; [|cbn in *; lia]. cbn [fst snd] in Hto, Hb.
  eapply post_mono; [eapply (malloc_ok st Hst am); [apply (ht_inv Hto)|done|]| |by rewrite Hb].
  - unfold cpus_ok. by rewrite (ht_ncpu Hto).
  - intros r Hr2. by eapply alloc_result_trans.
Qed.

(** The aligned address fits between the tag's room and the end of the payload. *)
Lemma aligned_fit raw al size c :
  0 < raw → is_power_of_two al = true → 8 ≤ al → 0 ≤ size → size + al + 16 ≤ c → raw + c ≤ 2 ^ 57 →
  align_up (saturating_add64 raw TAG_SIZE) al = Ret (round_up (raw + 16) al) ∧
  raw + 16 ≤ round_up (raw + 16) al ∧ round_up (raw + 16) al + size < raw + c ∧
  round_up (raw + 16) al mod al = 0 ∧ round_up (raw + 16) al mod 8 = 0.
Proof.
  intros Hr Hp Ha Hs Hc Hle. pose proof (round_up_spec (raw + 16) al ltac:(lia)) as [Hb Hm].
  unfold saturating_add64, TAG_SIZE, OFFSET_SIZE, u64_max. change (8 * 2) with 16.
  rewrite Z.min_r by lia. rewrite align_up_ok by (try done; unfold usize_max, u64_max; lia).
  split; [done|]. split; [lia|]. split; [lia|]. split; [done|].
  destruct (is_power_of_two_pow al Hp) as (k & Hk & ->).
  assert (3 ≤ k) as Hk3 by (apply (Z.pow_le_mono_r_iff 2); lia).
  apply Z.mod_divide; [lia|]. apply Z.mod_divide in Hm; [|lia]. etrans; [|exact Hm].
  exists (2 ^ (k - 3)). change 8 with (2 ^ 3). rewrite <- (Z.pow_add_r 2 (k - 3) 3) by lia. f_equal. lia.
Qed.

Lemma posix_memalign_ok am h live As ls gs others U memptr al size :
  heap_inv h live As ls gs others U → 0 ≤ size → cpus_ok am h →
  memptr ≠ 0 → 8 ≤ al → is_power_of_two al = true →
  post (posix_memalign st am h memptr al size) (memalign_result h As others U al size) (alloc_end (hp_big h)).
Proof.
  intros Hinv Hs Ha Hp Hal Hpow. unfold posix_memalign.
  rewrite (proj2 (Z.eqb_neq memptr 0)), (proj2 (Z.ltb_ge al 8)), Hpow by done. cbn [orb negb].
  destruct (v ← checked_add64 size al; checked_add64 v TAG_SIZE) as [total|] eqn:Et.
  2: { left. split; [done|]. split; [done|]. by eapply null_step_refl. }
  assert (total = size + al + 16) as ->.
  { unfold checked_add64 in Et. destruct (size + al <=? u64_max); [|done]. cbn in Et. unfold TAG_SIZE, OFFSET_SIZE in Et.
    destruct (size + al + 8 * 2 <=? u64_max); [|done]. injection Et as <-. lia. }
  pose proof (malloc_twice_ok am _ _ _ _ _ _ _ (size + al + 16) Hinv ltac:(lia) Ha) as Htw.
  destruct (malloc st am h (size + al + 16)) as [[raw0 h0]|e]; [|exact Htw]. rewrite bind_ret.
  eapply post_bind; [exact Htw|]. intros [raw h1] Hres. clear Htw.
  destruct (Z.eqb_spec raw 0) as [->|Hraw].
  { destruct Hres as [[_ Hn]|[? _]]; [by left|cbn in *; lia]. }
  destruct Hres as [[? _]|(Hraw0 & u & Hu & HU & Hcap & l1 & A1 & s1 & g1 & Hto)]; [done|]. cbn [fst snd] in *.
  set (q := raw - HEADER_SIZE) in *. pose proof (ht_inv Hto) as Hinv1. pose proof (lookup_insert_eq U q u) as Hlk.
  destruct (user_facts st _ _ _ _ _ _ _ _ _ Hinv1 Hlk) as (Hok & F1 & F2 & F3 & F4 & F5 & F6 & _).
  assert (q + HEADER_SIZE = raw) as Hq by (unfold q; lia).
  destruct (aligned_fit raw al size (cap u)) as (-> & A2 & A3 & A4 & A5); try done; try lia.
  set (p := round_up (raw + 16) al) in *. rewrite bind_ret. right. split; [done|]. exists p. split; [done|].
  split; [|lia]. cbn [fst snd]. unfold saturating_sub, TAG_SIZE, OFFSET_SIZE. change (8 * 2) with 16.
  rewrite !Z.max_r by lia. right. cbn [fst snd]. split; [lia|]. split; [done|].
  exists q, (mkU (ub_kind u) p). split; [done|]. split; [done|].
  split; [unfold usable, cap; cbn [ub_kind ub_ptr]; fold (cap u); lia|].
  pose proof (heap_realign _ _ _ _ _ _ _ q u p Hinv1 Hlk) as Hto2. rewrite Hq in Hto2.
  rewrite delete_insert_id, insert_insert_eq in Hto2 by done.
  exists l1, A1, s1, g1. exact (heap_to_trans Hto (Hto2 ltac:(lia) A5) ltac:(done) ltac:(done)).
Qed.

(** The other three ask [posix_memalign]. *)
Lemma memalign_ok am h live As ls gs others U stack al size :
  heap_inv h live As ls gs others U → 0 ≤ size → cpus_ok am h → stack ≠ 0 →
  post (memalign st am h stack al size) (fresh_result h As others U size (λ p _, p mod (Z.max 8 al) = 0)) (alloc_end (hp_big h)).
Proof.
  intros Hinv Hs Ha Hp. unfold memalign.
  replace (if al <? 8 then 8 else al) with (Z.max 8 al) by (case_zb; lia).
  destruct (is_power_of_two (Z.max 8 al)) eqn:Hpow; cbn [negb]; [|by eapply fresh_result_null].
  eapply post_bind; [apply (posix_memalign_ok am h live As ls gs others U stack (Z.max 8 al) size); try done; lia|].
  intros [[code ptr] h1] [(Hc & Hn & Hstep)|(Hc & p & Hptr & Hf & Hp0)]; cbn [fst snd] in *; subst code ptr.
  - left. done.
  - exact Hf.
Qed.

Lemma aligned_alloc_ok am h live As ls gs others U stack al size :
  heap_inv h live As ls gs others U → 0 ≤ size → cpus_ok am h → stack ≠ 0 →
  post (aligned_alloc st am h stack al size) (fresh_result h As others U size (λ p _, p mod (Z.max 8 al) = 0)) (alloc_end (hp_big h)).
Proof.
  intros. unfold aligned_alloc. destruct ((al =? 0) || negb (is_power_of_two al)); [by eapply fresh_result_null|].
  by eapply memalign_ok.
Qed.
End AlignSpec.
