(* ===== verification/Boot.v ===== *)
(** * The start of the process, and fork (src/src/va/bootstrap.rs)

    [boot_strap] runs its closure once: it makes the first thread's cache, reads the
    settings and draws the random values of the process.  What the kernel and the
    environment answer is an argument.  The handlers that [register_fork_handlers]
    installs reset the locks and [Once]s of the child. *)

From S2P Require Import Prelude Bits Lib Rng Env Once Lock Sys Radix SizeClass VaMap VaMapSpec.
From S2P Require Import Mem BlockList ThreadLocal Interconnect Bulk BulkSpec.

(** ** The number of NUMA nodes *)

Definition leading_zeros64 (word : Z) : Z := if word =? 0 then 64 else 63 - Z.log2 word.

(** [for (i, &word) in mask.iter().enumerate().rev()]; [n] words to go. *)
Fixpoint last_node (n : nat) (mask : list Z) : M (option Z) :=
  match n with
  | O => Ret None
  | S i =>
      word ← vget mask (Z.of_nat i);
      if negb (word =? 0) then
        bit_in_word ← usub 63 (leading_zeros64 word);
        Ret (Some (Z.max (Z.of_nat i * 64 + bit_in_word + 1) 1))
      else last_node i mask
  end.

(** [mask]: what [get_mempolicy] stores in the 16 words, [None] if it fails. *)
Definition detect_numa_nodes (mask : option (list Z)) : M Z :=
  match mask with
  | None => Ret 1
  | Some mask => r ← last_node (length mask) mask; Ret (default 1 r)
  end.

Section Boot.
Context `{Config}.
Context {K : Type} `{Kernel K}.

(** ** Random values *)

(** The statics that [boot_strap] sets, and the thread's [TLS]. *)
Record BootState : Type := mkBoot {
  bo_tls : option (Z * ThreadLocalEngine);
  bo_globals : Globals;
  bo_random : Z;
  bo_magic : Z;
  bo_freed : Z;
  bo_nodes : Z;
  bo_numa_key : Z;
  bo_nthreads : Z;
  bo_kernel : K
}.

Definition initial_boot (k : K) : BootState :=
  mkBoot None initial_globals 0 (if hardened then 0x01B01698BF0BEEF else 0)
    (if hardened then 0x12BE34FF09EBEAFF else 1) 0 0 0 k.

(** The array [[T; n]] of zeroes over which the kernel has stored [bytes]. *)
Definition random_words (size : Z) (n : nat) (bytes : list Z) : list Z :=
  (λ i, from_le_bytes (take (Z.to_nat size) (drop (Z.to_nat size * i) bytes))) <$> seq 0 n.

(** [getrandom] of [n] values of [size] bytes, or the end of the process; [buf] is a local array. *)
Definition draw (buf size : Z) (n : nat) (k : K) : M (list Z * K) :=
  '(ret, bytes, k) ← getrandom buf (Z.of_nat n) size k;
  if is_err ret then log_and_abort SecurityViolation else Ret (random_words size n bytes, k).

Definition init_random (buf : Z) (b : BootState) : M BootState :=
  '(rand, k) ← draw buf 1 8 (bo_kernel b);
  Ret (mkBoot (bo_tls b) (bo_globals b) (from_le_bytes rand) (bo_magic b) (bo_freed b) (bo_nodes b)
         (bo_numa_key b) (bo_nthreads b) k).

Definition init_magic (buf : Z) (b : BootState) : M BootState :=
  '(rand, k) ← draw buf (if hardened then 8 else 1) 2 (bo_kernel b);
  rand0 ← vget rand 0;
  rand1 ← vget rand 1;
  let rand1 := if bo_freed b =? bo_magic b then saturating_sub rand1 1 else rand1 in
  Ret (mkBoot (bo_tls b) (bo_globals b) (bo_random b) rand0 rand1 (bo_nodes b)
         (bo_numa_key b) (bo_nthreads b) k).

(** Only in the hardened build. *)
Definition init_random_numa (buf : Z) (b : BootState) : M BootState :=
  '(rand, k) ← draw buf 8 1 (bo_kernel b);
  key ← vget rand 0;
  Ret (mkBoot (bo_tls b) (bo_globals b) (bo_random b) (bo_magic b) (bo_freed b) (bo_nodes b)
         (Z.land key (lnot64 15)) (bo_nthreads b) k).

Definition init_numa_nodes (mask : option (list Z)) (b : BootState) : M BootState :=
  nodes ← detect_numa_nodes mask;
  Ret (mkBoot (bo_tls b) (bo_globals b) (bo_random b) (bo_magic b) (bo_freed b) nodes
         (bo_numa_key b) (bo_nthreads b) (bo_kernel b)).

Definition init_nthreads (buf : Z) (b : BootState) : BootState :=
  let '(thread_num, k) := get_cpu_count buf (bo_kernel b) in
  mkBoot (bo_tls b) (bo_globals b) (bo_random b) (bo_magic b) (bo_freed b) (bo_nodes b)
    (bo_numa_key b) thread_num k.

(** [ThreadLocalEngine::get_or_init]. *)
Definition get_or_init (am : Ambient) (tls : option (Z * ThreadLocalEngine)) (k : K)
    : M (Z * ThreadLocalEngine * K) :=
  match tls with
  | Some (cache, e) => Ret (cache, e, k)
  | None => init_tls am k
  end.

(** ** [boot_strap] *)

Definition with_settings (b : BootState) (g : Globals) : BootState :=
  mkBoot (bo_tls b) g (bo_random b) (bo_magic b) (bo_freed b) (bo_nodes b) (bo_numa_key b) (bo_nthreads b) (bo_kernel b).

(** The closure. *)
Definition boot_closure (am : Ambient) (environ : list (list Z)) (numa : option (list Z)) (b : BootState)
    : M BootState :=
  '(cache, e, k) ← get_or_init am (bo_tls b) (bo_kernel b);
  g ← init_settings environ (bo_globals b);
  let b := mkBoot (Some (cache, e)) g (bo_random b) (bo_magic b) (bo_freed b) (bo_nodes b) (bo_numa_key b)
             (bo_nthreads b) k in
  b ← init_random (am_buf am) b;
  b ← init_magic (am_buf am) b;
  b ← init_numa_nodes numa b;
  b ← (if hardened then init_random_numa (am_buf am) b else Ret b);
  Ret (init_nthreads (am_buf am) b).

(** [ONCE.call_once], when no other thread is in it. *)
Definition boot_strap (am : Ambient) (environ : list (list Z)) (numa : option (list Z)) (once : bool) (b : BootState)
    : M (bool * BootState) :=
  if once then Ret (true, b) else b ← boot_closure am environ numa b; Ret (true, b).

(** The statics that the rest of the allocator reads. *)
Definition boot_statics (b : BootState) : Statics :=
  mkStatics (bo_magic b) (bo_freed b) (bo_numa_key b) (Lib.OX_CURRENT_STAMP (bo_globals b))
    (Lib.OX_MAX_RESERVATION (bo_globals b)) (Lib.OX_FORCE_THP (bo_globals b)).
End Boot.
#[global] Arguments BootState K : clear implicits.

(** ** Fork *)

(** The state that fork copies and that a thread of the parent may be changing: [true] is a locked
    lock; a [Once] is its state; the per-cpu locks are there in the hardened build. *)
Record ForkState : Type := mkFork {
  fk_mutex : bool;                  (* BOOTSTRAP_LOCK *)
  fk_guard : bool;                  (* ATFORK_GUARD.is_some() *)
  fk_va_lock : bool;                (* VA_MAP.lock *)
  fk_big_lock : bool;               (* BIG_ALLOC_MAP.lock *)
  fk_onces : list (OnceLock ());  (* ONCE, ONCE_PROTECTION, CLASS_4096, OX_GLOBAL_STAMP, FREE_INIT, REALLOC_INIT, MUS_INIT, boot ONCE *)
  fk_icc_once : OnceLock (); (* ICC.once *)
  fk_icc_locks : list (list bool);  (* ICC.locks, empty until they are made *)
  fk_flags : bool * Z * bool        (* THREAD_SPAWNED, TOTAL_MALLOC_FREE, HOT_READY *)
}.

(** [BOOTSTRAP_LOCK.lock()]; [None]: blocked. *)
Definition fork_prepare (f : ForkState) : option ForkState :=
  if fk_mutex f then None
  else Some (mkFork true true (fk_va_lock f) (fk_big_lock f) (fk_onces f) (fk_icc_once f) (fk_icc_locks f) (fk_flags f)).

(** [if let Some(guard) = ATFORK_GUARD.take() { drop(guard) }]. *)
Definition fork_parent (f : ForkState) : ForkState :=
  mkFork (if fk_guard f then false else fk_mutex f) false (fk_va_lock f) (fk_big_lock f) (fk_onces f)
    (fk_icc_once f) (fk_icc_locks f) (fk_flags f).

(** bitmap.rs [reset_fork_locks]: [VA_MAP.lock.reset_on_fork()]. *)
Definition reset_fork_locks (lock : bool) : bool := Lock.reset_on_fork lock.

(** [InterConnectCache::reset_on_fork]: nothing, if the locks have not been made. *)
Definition icc_reset_on_fork (locks : list (list bool)) : list (list bool) := GlobalLock_reset_on_fork <$> locks.

Definition fork_child `{Config} (f : ForkState) : ForkState :=
  let f := fork_parent f in
  mkFork (fk_mutex f) (fk_guard f) (reset_fork_locks (fk_va_lock f)) (fk_big_lock f)
    (Once.reset_on_fork <$> fk_onces f) (fk_icc_once f)
    (if hardened then icc_reset_on_fork (fk_icc_locks f) else fk_icc_locks f)
    (false, 1024, false).

(** ** The start establishes what the allocator relies on *)

(** Node [j] is in the mask. *)
Definition node_allowed (mask : list Z) (j : Z) : Prop :=
  ∃ word, zlookup mask (j / 64) = Some word ∧ Z.testbit word (j mod 64) = true.

Lemma last_node_spec n mask :
  (n ≤ length mask)%nat → Forall word64 mask →
  ∃ r, last_node n mask = Ret r ∧
    match r with
    | Some k => 1 ≤ k ≤ 64 * Z.of_nat n ∧ node_allowed mask (k - 1) ∧ ∀ j, k ≤ j < 64 * Z.of_nat n → ¬ node_allowed mask j
    | None => ∀ j, 0 ≤ j < 64 * Z.of_nat n → ¬ node_allowed mask j
    end.
Proof.
  intros Hn Hm. induction n as [|n IH]; cbn [last_node]; [exists None; split; [done|lia]|].
  destruct (vget_in_bounds mask (Z.of_nat n)) as (w & -> & Hl); [unfold zlen; lia|]. rewrite bind_ret.
  assert (word64 w) as Hw.
  { rewrite Forall_forall in Hm. apply Hm. rewrite zlookup_nonneg in Hl by lia. by eapply list_elem_of_lookup_2. }
  assert (∀ j, 64 * Z.of_nat n ≤ j < 64 * Z.of_nat (S n) → node_allowed mask j → Z.testbit w (j - 64 * Z.of_nat n) = true) as Hrow.
  { intros j Hj (w' & Hw' & Hb). assert (j / 64 = Z.of_nat n) as E by zdiv.
    assert (j mod 64 = j - 64 * Z.of_nat n) as <- by zdiv. rewrite E in Hw'. congruence. }
  destruct (Z.eqb_spec w 0) as [->|Hne]; cbn [negb].
  - destruct IH as (r & -> & Hr); [lia|]. exists r. split; [done|].
    assert (∀ j, 64 * Z.of_nat n ≤ j < 64 * Z.of_nat (S n) → ¬ node_allowed mask j) as Hz.
    { intros j Hj Ha%Hrow; [|done]. by rewrite Z.bits_0 in Ha. }
    destruct r as [k|].
    + destruct Hr as (Hk & Ha & Hh). split; [lia|]. split; [done|]. intros j Hj.
      destruct (Z.lt_ge_cases j (64 * Z.of_nat n)); [apply Hh; lia|apply Hz; lia].
    + intros j Hj. destruct (Z.lt_ge_cases j (64 * Z.of_nat n)); [apply Hr; lia|apply Hz; lia].
  - assert (0 ≤ Z.log2 w < 64) as Hlog.
    { split; [apply Z.log2_nonneg|]. unfold word64 in Hw. apply Z.log2_lt_pow2; lia. }
    unfold leading_zeros64. rewrite (proj2 (Z.eqb_neq w 0)) by done. rewrite usub_ok, bind_ret by lia.
    eexists. split; [done|]. rewrite Z.max_l by lia. split; [lia|]. split.
    + exists w. assert ((Z.of_nat n * 64 + (63 - (63 - Z.log2 w)) + 1 - 1) / 64 = Z.of_nat n) as -> by zdiv.
      split; [done|]. assert ((Z.of_nat n * 64 + (63 - (63 - Z.log2 w)) + 1 - 1) mod 64 = Z.log2 w) as -> by zdiv.
      apply Z.bit_log2. unfold word64 in Hw. lia.
    + intros j Hj Ha%Hrow; [|lia]. rewrite Z.bits_above_log2 in Ha; [done|unfold word64 in Hw; lia|lia].
Qed.

Section Spec.
Context `{Config}.
Context {K : Type} `{LinuxKernel K}.

Lemma random_words_ok size n bytes :
  Forall (λ b, 0 ≤ b < 256) bytes → 0 ≤ size →
  length (random_words size n bytes) = n ∧ Forall (λ v, 0 ≤ v < 256 ^ size) (random_words size n bytes).
Proof.
  intros Hb Hs. unfold random_words. split; [by rewrite length_fmap, length_seq|].
  apply Forall_fmap, Forall_forall. intros i _. cbn.
  pose proof (from_le_bytes_bound _ (Forall_take _ (Z.to_nat size) _ (Forall_drop _ (Z.to_nat size * i) _ Hb))) as Hv.
  set (l := take _ _) in *. assert (zlen l ≤ size) as Hl by (unfold zlen, l; rewrite length_take; lia).
  pose proof (Z.pow_le_mono_r 256 (zlen l) size ltac:(lia) Hl). lia.
Qed.

Definition no_entropy (e : fault) : Prop := e = Fatal SecurityViolation.

Lemma draw_ok buf size n (k : K) :
  0 ≤ size → Z.of_nat n * size ≤ usize_max →
  post (draw buf size n k)
    (λ r, length r.1 = n ∧ Forall (λ v, 0 ≤ v < 256 ^ size) r.1 ∧ keeps k r.2) no_entropy.
Proof.
  intros Hs Hn. unfold draw. destruct (getrandom_sized buf (Z.of_nat n) size k) as (r & bytes & k' & -> & Hk & Hb); [lia|].
  rewrite bind_ret. destruct (is_err r); [done|]. destruct (random_words_ok size n bytes Hb Hs). done.
Qed.

(** A value of the drawn array. *)
Lemma drawn (P : Z → Prop) (rand : list Z) i : Forall P rand → 0 ≤ i < zlen rand → ∃ v, vget rand i = Ret v ∧ P v.
Proof.
  intros HP Hi. destruct (vget_in_bounds rand i Hi) as (v & Hv & Hl). exists v. split; [done|].
  rewrite Forall_forall in HP. apply HP. rewrite zlookup_nonneg in Hl by lia. by eapply list_elem_of_lookup_2.
Qed.

(** The errors that [boot_strap] can end the process with. *)
Definition boot_fault (e : fault) : Prop := e = Fatal SecurityViolation ∨ e = Fatal PThreadCacheFailed.

Lemma init_tls_ok am (k : K) :
  post (init_tls am k)
    (λ r, 0 < r.1.1 ∧ r.1.1 mod 4096 = 0 ∧ ∃ key, r.1.2 = engine_new key ∧ word64 key ∧ (hardened = false → key = 0))
    boot_fault.
Proof.
  unfold init_tls. destruct (mmap_memory_spec 0 ENGINE_SIZE rw k) as (r & k1 & -> & _ & Hr); [done|].
  rewrite bind_ret. destruct r as [cache|e]; [|by right]. destruct (Hr cache eq_refl) as (Hpos & Hm & _).
  destruct hardened eqn:Hh.
  - destruct (getrandom_spec (am_buf am) 8 k1) as (r2 & bytes & k2 & -> & _ & Hb); [by vm_compute|].
    rewrite bind_ret. destruct (is_err r2); [by left|]. cbn. split; [done|]. split; [done|].
    eexists. split; [done|]. split; [|done]. pose proof (from_le_bytes_bound _ (Forall_take _ 8 _ Hb)) as Hv.
    set (l := take 8 bytes) in *. assert (zlen l ≤ 8) as Hl by (unfold zlen, l; rewrite length_take; lia).
    pose proof (Z.pow_le_mono_r 256 (zlen l) 8 ltac:(lia) Hl). unfold word64. change (2 ^ 64) with (256 ^ 8). lia.
  - cbn. split; [done|]. split; [done|]. by exists 0.
Qed.

Lemma detect_numa_nodes_ok mask :
  (∀ m, mask = Some m → length m = 16%nat ∧ Forall word64 m) →
  ∃ n, detect_numa_nodes mask = Ret n ∧ 1 ≤ n ≤ 1024 ∧ (mask = None → n = 1) ∧
    ∀ m, mask = Some m → (∀ j, n ≤ j < 1024 → ¬ node_allowed m j) ∧ (n = 1 ∨ node_allowed m (n - 1)).
Proof.
  intros Hm. destruct mask as [m|]; [|by exists 1]. destruct (Hm m eq_refl) as [Hl Hw]. unfold detect_numa_nodes.
  destruct (last_node_spec (length m) m) as (r & -> & Hr); [lia|done|]. rewrite Hl in Hr. rewrite bind_ret.
  change (64 * Z.of_nat 16) with 1024 in Hr. exists (default 1 r). split; [done|].
  destruct r as [n|]; cbn.
  - split; [lia|]. split; [done|]. intros ? [= <-]. split; [apply Hr|right; apply Hr].
  - split; [lia|]. split; [done|]. intros ? [= <-]. split; [|by left]. intros j Hj. apply Hr. lia.
Qed.

(** What the settings are afterwards, and that they suit the rest of the allocator. *)
Definition settings_ok (g : Globals) : Prop :=
  0 ≤ Lib.OX_MAX_RESERVATION g ≤ 2 ^ 57 ∧ Lib.OX_CURRENT_STAMP g = 0 ∧ MiB ≤ OX_TRIM_THRESHOLD g.

Lemma init_settings_ok environ :
  Forall c_string environ → (∀ key n, setting environ key = Some n → n ≤ usize_max) →
  ∃ g, init_settings environ initial_globals = Ret g ∧ settings_ok g.
Proof.
  intros Henv Hfit. eexists. split; [by apply init_settings_spec|].
  assert (∀ n, setting environ key_reservation = Some n → 0 ≤ clamp_reservation n ≤ 2 ^ 57) as Hr.
  { intros n _. unfold clamp_reservation. lia. }
  unfold settings_ok, MiB. destruct (setting environ key_reservation) as [n|]; [pose proof (Hr n eq_refl)|clear Hr];
    destruct (setting environ key_threshold); case_bool_decide; cbn; unfold GiB; lia.
Qed.

(** One step of the closure: what it leaves of the values drawn before. *)
Definition boot_ok (b : BootState K) : Prop :=
  word64 (bo_random b) ∧ fits_field FMagic (bo_magic b) ∧ fits_field FMagic (bo_freed b) ∧
  word64 (bo_numa_key b) ∧ bo_numa_key b mod 16 = 0 ∧ (hardened = false → bo_numa_key b = 0).

Lemma init_random_ok buf (b : BootState K) :
  boot_ok b → post (init_random buf b)
    (λ b', boot_ok b' ∧ bo_tls b' = bo_tls b ∧ bo_globals b' = bo_globals b ∧ bo_magic b' = bo_magic b) boot_fault.
Proof.
  intros (Q1 & Q2 & Q3 & Q4 & Q5 & Q6). unfold init_random. eapply post_bind.
  { eapply post_mono; [apply (draw_ok buf 1 8); unfold usize_max, u64_max; lia|intros r Hr; exact Hr|intros e He; by left]. }
  intros [rand k] (Hl & Hv & _). cbn [fst snd] in *. cbn. split; [|done]. split_and!; try done.
  pose proof (from_le_bytes_bound rand Hv) as Hb. unfold zlen in Hb. by rewrite Hl in Hb.
Qed.

Lemma init_magic_ok buf (b : BootState K) :
  boot_ok b → post (init_magic buf b)
    (λ b', boot_ok b' ∧ bo_tls b' = bo_tls b ∧ bo_globals b' = bo_globals b) boot_fault.
Proof.
  intros (Q1 & Q2 & Q3 & Q4 & Q5 & Q6). unfold init_magic. eapply post_bind.
  { eapply post_mono; [apply (draw_ok buf (if hardened then 8 else 1) 2)| |intros e He; by left].
    - by destruct hardened.
    - unfold usize_max, u64_max. destruct hardened; lia.
    - intros r Hr; exact Hr. }
  intros [rand k] (Hl & Hv & _). cbn [fst snd] in *.
  destruct (drawn _ rand 0 Hv) as (v0 & -> & H0'); [unfold zlen; lia|]. rewrite bind_ret.
  destruct (drawn _ rand 1 Hv) as (v1 & -> & H1'); [unfold zlen; lia|]. rewrite bind_ret.
  cbn. split; [|done]. assert (∀ v, 0 ≤ v < 256 ^ (if hardened then 8 else 1) → fits_field FMagic v) as Hfit.
  { intros v Hr. unfold fits_field, field_width, size_magic. by destruct hardened. }
  split_and!; try done; [by apply Hfit|]. apply Hfit. assert (0 ≤ saturating_sub v1 1 ≤ v1) by (unfold saturating_sub; lia). destruct (bo_freed b =? bo_magic b); cbn [bo_freed]; lia.
Qed.

Lemma init_random_numa_ok buf (b : BootState K) :
  hardened = true → boot_ok b → post (init_random_numa buf b)
    (λ b', boot_ok b' ∧ bo_tls b' = bo_tls b ∧ bo_globals b' = bo_globals b ∧ bo_nodes b' = bo_nodes b) boot_fault.
Proof.
  intros Hh (Q1 & Q2 & Q3 & Q4 & Q5 & Q6). unfold init_random_numa. eapply post_bind.
  { eapply post_mono; [apply (draw_ok buf 8 1); unfold usize_max, u64_max; lia|intros r Hr; exact Hr|intros e He; by left]. }
  intros [rand k] (Hl & Hv & _). cbn [fst snd] in *.
  destruct (drawn _ rand 0 Hv) as (v0 & -> & Hv0); [unfold zlen; lia|]. rewrite bind_ret. cbn.
  split; [|done]. assert (word64 v0) as Hw by (unfold word64; change (2 ^ 64) with (256 ^ 8); lia).
  change 15 with (2 ^ 4 - 1). rewrite land_lnot64_ones by (done || lia). change (2 ^ 4) with 16. unfold word64 in Hw.
  split_and!; try done; cbn [bo_numa_key]; [unfold word64; zdiv|by rewrite Z.mod_mul|by rewrite Hh].
Qed.

(** The nodes that [detect_numa_nodes] counts: one more than the highest node allowed, or one if none
    is, or if the kernel does not say. *)
Definition counts_nodes (numa : option (list Z)) (n : Z) : Prop :=
  1 ≤ n ≤ 1024 ∧ (numa = None → n = 1) ∧
  ∀ mask, numa = Some mask → (∀ j, n ≤ j < 1024 → ¬ node_allowed mask j) ∧ (n = 1 ∨ node_allowed mask (n - 1)).

(** C36: The start of the process, for any answers of the kernel and any environment whose numbers fit:
    it returns, or ends the process because there is no memory for the first cache or no random
    numbers.  Afterwards the first thread has an empty cache, the random values fit their
    types, the key of the per-cpu lists keeps its low four bits clear (the heads use them for
    their tags) and is 0 in the default build, the reservation is one that the address map can
    take, and the number of nodes is one more than the highest node allowed, or 1 if no node is
    allowed or the kernel does not say.  A second call changes nothing. *)
Theorem boot_strap_ready am environ numa (k : K)
    (Henv : Forall c_string environ)
    (Hfit : ∀ key n, setting environ key = Some n → n ≤ usize_max)
    (Hnuma : ∀ mask, numa = Some mask → length mask = 16%nat ∧ Forall word64 mask) :
  post (boot_strap am environ numa false (initial_boot k))
    (λ r, let b := r.2 in
       r.1 = true ∧ statics_ok (boot_statics b) ∧ word64 (bo_random b) ∧
       NUMA_KEY (boot_statics b) mod 16 = 0 ∧ (hardened = false → NUMA_KEY (boot_statics b) = 0) ∧
       (∃ cache key, bo_tls b = Some (cache, engine_new key) ∧ 0 < cache ∧ word64 key) ∧
       1 ≤ bo_nodes b ≤ 1024 ∧ (numa = None → bo_nodes b = 1) ∧
       (∀ mask, numa = Some mask →
          (∀ j, bo_nodes b ≤ j < 1024 → ¬ node_allowed mask j) ∧
          (bo_nodes b = 1 ∨ node_allowed mask (bo_nodes b - 1))) ∧
       boot_strap am environ numa r.1 b = Ret (true, b))
    boot_fault.
Proof.
  unfold boot_strap, boot_closure, get_or_init. cbn [bo_tls initial_boot bo_kernel bo_globals].
  eapply post_bind with (P' := λ b, boot_ok b ∧ settings_ok (bo_globals b) ∧ counts_nodes numa (bo_nodes b) ∧
    ∃ cache key, bo_tls b = Some (cache, engine_new key) ∧ 0 < cache ∧ word64 key).
  2: { intros b ((Q1 & Q2 & Q3 & Q4 & Q5 & Q6) & (S1 & S2 & S3) & (Hn & Hz & Hm) & Ht). cbn.
       split_and!; try done; try lia. split; cbn; try done. by rewrite S2. }
  eapply post_bind; [apply init_tls_ok|]. intros [[cache e] k1] Hr. cbn [fst snd] in Hr.
  destruct Hr as (Hpos & _ & key & -> & Hkey & _).
  destruct (init_settings_ok environ Henv Hfit) as (g & -> & Hg). rewrite bind_ret.
  eapply post_bind; [apply init_random_ok|].
  { unfold boot_ok, fits_field, field_width, size_magic, word64. cbn. destruct hardened; cbn; split_and!; done || lia. }
  intros b1 (B1 & T1 & G1 & _). eapply post_bind; [by apply init_magic_ok|]. intros b2 (B2 & T2 & G2).
  unfold init_numa_nodes. destruct (detect_numa_nodes_ok numa Hnuma) as (n & -> & Hn & Hnm). rewrite !bind_ret.
  eapply post_bind with (P' := λ b', boot_ok b' ∧ bo_tls b' = bo_tls b2 ∧ bo_globals b' = bo_globals b2 ∧ bo_nodes b' = n).
  { destruct hardened eqn:Hh; [by apply init_random_numa_ok|]. by apply post_ret. }
  intros b4 (B4 & T4 & G4 & N4). apply post_ret. unfold init_nthreads. destruct (get_cpu_count _ _) as [cpus k2].
  unfold boot_ok, counts_nodes in *. cbn. rewrite N4, G4, G2, G1, T4, T2, T1. cbn.
  split; [exact B4|]. split; [done|]. split; [done|by exists cache, key].
Qed.
End Spec.

Section Demo.
#[local] Existing Instance default_build.

Lemma demo_nodes j : 3 ≤ j < 1024 → ¬ node_allowed (5 :: replicate 15 0) j.
Proof.
  intros Hj (word & Hl & Hb). rewrite zlookup_nonneg in Hl by zdiv. destruct (decide (j < 64)) as [Hlt|Hge].
  - rewrite Z.div_small, Z.mod_small in * by lia. injection Hl as <-. rewrite Z.bits_above_log2 in Hb; [done|lia|cbn; lia].
  - destruct (Z.to_nat (j / 64)) as [|n] eqn:E; [zdiv|]. apply lookup_replicate in Hl as [-> _]. by rewrite Z.bits_0 in Hb.
Qed.

(** A start where the kernel answers and the nodes 0 and 2 are allowed. *)
Lemma boot_strap_ready_witness :
  let am := mkAmbient 0 1 [] 4096 in
  post (boot_strap am demo_environ (Some (5 :: replicate 15 0)) false (initial_boot (0 : Z)))
    (λ r, r.1 = true ∧ statics_ok (boot_statics r.2) ∧ bo_nodes r.2 = 3) boot_fault.
Proof.
  intros am. eapply post_mono; [apply (boot_strap_ready am demo_environ (Some (5 :: replicate 15 0)) (0 : Z))| |].
  - exact (proj1 demo_environ_ok).
  - intros key n. unfold setting. cbn. repeat (case_decide; cbn; [intros [= <-]; vm_compute; discriminate|]). done.
  - intros mask [= <-]. split; [done|]. repeat constructor; done.
  - intros r (Q1 & Q2 & _ & _ & _ & _ & Q6 & _ & Q7 & _). split; [done|]. split; [done|].
    destruct (Q7 _ eq_refl) as [Hout Hin]. destruct (decide (bo_nodes r.2 ≤ 2)) as [Hle|Hgt].
    { destruct (Hout 2); [lia|]. exists 5. split; reflexivity. }
    destruct Hin as [?|Hin]; [lia|]. destruct (decide (bo_nodes r.2 = 3)) as [?|Hne]; [done|exfalso].
    apply (demo_nodes (bo_nodes r.2 - 1)); [lia|done].
  - done.
Defined.
End Demo.

(** ** Fork *)

Section ForkSpec.
Context `{Config}.

(** Fork between [fork_prepare] and the handlers: the parent is as it was; in the child the
    bootstrap mutex, the lock of the address map and, in the hardened build, the per-cpu locks are
    free, and no [Once] of those that the handler knows is left in the middle of its
    initialisation, while those that were complete stay complete. *)
Lemma fork_handlers_correct f f1 (Hprep : fork_prepare f = Some f1) (Hguard : fk_guard f = false) :
  fork_parent f1 = f ∧
  let c := fork_child f1 in
  fk_mutex c = false ∧ fk_va_lock c = false ∧
  Forall (λ o, o_state o ≠ 1) (fk_onces c) ∧
  (∀ i o, fk_onces f !! i = Some o → o_state o ≠ 1 → fk_onces c !! i = Some o) ∧
  (hardened = true → Forall (Forall (eq false)) (fk_icc_locks c)).
Proof.
  unfold fork_prepare in Hprep. destruct (fk_mutex f) eqn:Hm; [done|]. injection Hprep as <-.
  split; [destruct f; cbn in *; by subst|]. cbn. split; [done|]. split; [done|]. split_and!.
  - apply Forall_fmap, Forall_forall. intros o _. cbn. unfold Once.reset_on_fork. by case_zb.
  - intros i o Ho Hne. rewrite list_lookup_fmap, Ho. cbn. unfold Once.reset_on_fork. by case_zb.
  - intros Hh. rewrite Hh. apply Forall_fmap, Forall_forall. intros l _. cbn. unfold GlobalLock_reset_on_fork.
    apply Forall_fmap, Forall_forall. done.
Qed.

(** A thread of the child that has not begun. *)
Definition child_thread (t : lthread) : Prop := ∃ n, t = start (guarded n).

Lemma locked_stuck ts st : Forall child_thread ts → rtc lstep (true, ts) st → st = (true, ts).
Proof.
  intros Hts Hr. remember (true, ts) as st0 eqn:E. destruct Hr as [|st0 st1 st2 Hs _]; [done|]. exfalso.
  destruct Hs as [s ts' tid t s' t' Ht Hs]. injection E as -> ->.
  destruct (proj1 (Forall_lookup _ _) Hts tid t Ht) as [n ->]. by destruct n.
Qed.

(** Threads that wait for a thread that fork has left behind. *)
Definition waiting {T} (st : OnceLock T * list (othread T)) : Prop :=
  o_state st.1 = 1 ∧ Forall (λ t, ot_pc t = OLoad ∨ ot_pc t = OCas ∨ ot_pc t = OWait) st.2.

Lemma waiting_step {T} (st st' : OnceLock T * list (othread T)) : waiting st → ostep st st' → waiting st'.
Proof.
  intros [Hs Hts] Hstep. destruct Hstep as [o ts tid t o' t' Ht Hs']. cbn in *.
  pose proof (proj1 (Forall_lookup _ _) Hts tid t Ht) as Hpc. unfold once_step in Hs'. rewrite Hs in Hs'.
  destruct Hpc as [E|[E|E]]; rewrite E in Hs'; cbn in Hs'; [| |done]; injection Hs' as <- <-;
    (split; [done|]); cbn; apply Forall_insert; cbn; auto.
Qed.

(** C37: The handler misses the lock of the table of big allocations and the [Once] of the per-cpu
    lists.  If another thread of the parent holds that lock at the fork, no thread of the
    child ever takes it; if another thread is making the per-cpu lists, no thread of the child
    ever gets past [ensure_cache]. *)
Theorem fork_child_stuck f f1 (Hprep : fork_prepare f = Some f1) :
  (fk_big_lock f = true → ∀ ts st, Forall child_thread ts → rtc lstep (fk_big_lock (fork_child f1), ts) st → st = (true, ts)) ∧
  (o_state (fk_icc_once f) = 1 → ∀ n st, rtc ostep (fk_icc_once (fork_child f1), callers (replicate n ())) st →
     Forall (λ t, ot_pc t ≠ ODone) st.2).
Proof.
  unfold fork_prepare in Hprep. destruct (fk_mutex f); [done|]. injection Hprep as <-. cbn. split.
  - intros -> ts st Hts. by apply locked_stuck.
  - intros Hs n st Hr.
    assert (waiting st) as [_ Hw].
    { eapply (rtc_preserve waiting); [apply @waiting_step|exact Hr|]. split; [done|]. cbn. unfold callers.
      apply Forall_fmap, Forall_forall. intros v _. by left. }
    eapply Forall_impl; [exact Hw|]. cbn. intros t [E|[E|E]]; by rewrite E.
Qed.

End ForkSpec.

Section ForkDemo.
#[local] Existing Instance default_build.

(** Another thread holds every lock and is in every [Once]. *)
Definition demo_fork (prepared : bool) : ForkState :=
  mkFork prepared prepared true true (replicate 8 (mkOnce 1 None 0)) (mkOnce 1 None 0) [[true; false]] (true, 0, true).

Lemma fork_child_stuck_witness :
  fork_prepare (demo_fork false) = Some (demo_fork true) ∧ fk_va_lock (fork_child (demo_fork true)) = false ∧
  ∀ st, rtc lstep (fk_big_lock (fork_child (demo_fork true)), [start (guarded 1)]) st → st = (true, [start (guarded 1)]).
Proof.
  split; [reflexivity|]. split; [reflexivity|]. intros st Hr.
  refine (proj1 (fork_child_stuck (demo_fork false) (demo_fork true) eq_refl) eq_refl _ st _ Hr).
  apply Forall_singleton. exists 1%nat. reflexivity.
Defined.
End ForkDemo.
