(* ===== verification/ClientCalls.v ===== *)
(** * The calls of a client, on any cpu

    The six functions that allocate are one operation [run_alloc].  The theorems on single calls
    assume that the cpu the thread is on has a row of the per-cpu table; here they are stated of
    any cpu: a call does what it does on a cpu that has one, or ends with the wild access of a row
    that is not there, and only if it is not there. *)

From S2P Require Import Prelude Bits Lib Rng Segment HashMap Sys Radix SizeClass VaMap VaMapSpec VaLive.
From S2P Require Import Mem BlockList ThreadLocal Interconnect InterconnectSpec Bulk BulkSpec.
From S2P Require Import SlabInv SlabOps SlabFill Heap HeapInv HeapFill HeapBig HeapSpec Align AlignSpec.
From S2P Require Import Realloc ReallocSpec Trim TrimSpec ThreadExit CpuRows.

(** ** Calls that allocate *)

Inductive alloc_call : Type :=
| AMalloc (size : Z)
| ACalloc (nmemb size : Z)
| APosix (memptr alignment size : Z)
| AMemalign (stack_ptr alignment size : Z)
| AAligned (stack_ptr alignment size : Z)
| AValloc (stack_ptr size : Z).

(** The bytes asked for, and the alignment promised. *)
Definition asked (call : alloc_call) : Z :=
  match call with
  | AMalloc n | APosix _ _ n | AMemalign _ _ n | AAligned _ _ n | AValloc _ n => n
  | ACalloc a b => a * b
  end.

Definition promised_alignment (call : alloc_call) : Z :=
  match call with
  | AMalloc _ | ACalloc _ _ => 16
  | APosix _ al _ => al
  | AMemalign _ al _ | AAligned _ al _ => Z.max 8 al
  | AValloc _ _ => 4096
  end.

(** The arguments are sizes, and local variables have addresses; [posix_memalign]'s are valid. *)
Definition call_wf (call : alloc_call) : Prop :=
  match call with
  | AMalloc n => 0 ≤ n
  | ACalloc a b => 0 ≤ a ∧ 0 ≤ b
  | APosix p al n => 0 ≤ n ∧ p ≠ 0 ∧ 8 ≤ al ∧ is_power_of_two al = true
  | AMemalign s _ n | AAligned s _ n | AValloc s n => 0 ≤ n ∧ s ≠ 0
  end.

Lemma asked_nonneg call : call_wf call → 0 ≤ asked call.
Proof. destruct call; cbn; nia. Qed.

(** ** On any cpu *)

Section Calls.
Context `{Config}.
Context {K : Type} `{LinuxKernel K}.
Context {B : Type} `{BigMap B}.
Context (st : Statics) (Hst : statics_ok st).

Abbreviation heap := (Heap K B).
Abbreviation heap_inv := (heap_inv st).

Definition run_alloc (am : Ambient) (h : heap) (call : alloc_call) : M (Z * heap) :=
  match call with
  | AMalloc n => malloc st am h n
  | ACalloc a b => calloc st am h a b
  | APosix p al n => '(_, r, h) ← posix_memalign st am h p al n; Ret (default 0 r, h)
  | AMemalign s al n => memalign st am h s al n
  | AAligned s al n => aligned_alloc st am h s al n
  | AValloc s n => valloc st am h s n
  end.

Lemma run_alloc_ok am h live As ls gs others U call :
  heap_inv h live As ls gs others U → call_wf call → cpus_ok am h →
  post (run_alloc am h call)
    (fresh_result st h As others U (asked call) (λ p _, p mod promised_alignment call = 0)) (alloc_end (hp_big h)).
Proof.
  intros Hinv Hwf Ha. destruct call as [n|a b|p al n|s al n|s al n|s n];
    cbn [run_alloc asked promised_alignment call_wf] in *.
  - eapply post_mono; [by eapply malloc_ok| |done]. intros r. apply alloc_fresh.
  - destruct Hwf. eapply post_mono; [by eapply calloc_ok| |done].
    intros r. apply fresh_result_mono; [done|]. by intros p h' [Hp _].
  - destruct Hwf as (Hn & Hp & Hal & Hpow). eapply post_bind; [by eapply posix_memalign_ok|].
    intros [[code r] h1] [(Hc & Hz & Hs)|(Hc & q & Hq & Hf & _)]; cbn [fst snd] in *; subst.
    + left. done.
    + exact Hf.
  - destruct Hwf. by eapply memalign_ok.
  - destruct Hwf. by eapply aligned_alloc_ok.
  - destruct Hwf. by eapply (memalign_ok st Hst am h live As ls gs others U s 4096 n).
Qed.

Lemma run_alloc_rows n am (h : heap) call :
  rows n (c_icc (hp_call h)) → strays (λ r, rows n (c_icc (hp_call r.2))) (run_alloc am h call) (run_alloc (on_rows n am) h call).
Proof.
  intros Hr. destruct call; cbn [run_alloc].
  - by apply malloc_rows.
  - by apply calloc_rows.
  - eapply stops_or_bind; [by apply posix_memalign_rows|]. intros [[code r] h1] Hr1 _. by apply stops_or_ret.
  - by apply memalign_rows.
  - by apply aligned_alloc_rows.
  - by apply memalign_rows.
Qed.

(** The invariant's table is there; and what [on_rows] makes has a row in it. *)
Abbreviation ncpu h := (icc_ncpu (c_icc (hp_call h))).

Lemma slab_rows c live As ls gs rest : slab_inv st c live As ls gs rest → 0 < icc_ncpu (c_icc c) ∧ rows (icc_ncpu (c_icc c)) (c_icc c).
Proof. intros Hinv. destruct (si_icc _ _ _ _ _ _ _ Hinv) as [R1 R2 _ _ _ _ _]. split; [lia|done]. Qed.

Lemma cpus_on_rows am (h : heap) : 0 < ncpu h → cpus_ok (on_rows (ncpu h) am) h.
Proof. intros Hn. split; by apply on_row_ok. Qed.

Lemma alloc_end_tame (b : B) : ¬ alloc_end b WildAccess.
Proof. by intros [[|[|]]|[? _]]. Qed.

Ltac any_cpu Hinv Hrows :=
  destruct (slab_rows _ _ _ _ _ _ (hi_slab Hinv)) as [Hn Hr]; eapply strays_post; [by apply Hrows| | |].

(** What may end a call: the documented errors, or the cpu has no row. *)
Definition ends (ok : Prop) (F : fault → Prop) (e : fault) : Prop := F e ∨ e = WildAccess ∧ ¬ ok.

Lemma run_alloc_any am h live As ls gs others U call :
  heap_inv h live As ls gs others U → call_wf call →
  post (run_alloc am h call)
    (fresh_result st h As others U (asked call) (λ p _, p mod promised_alignment call = 0))
    (ends (cpus_ok am h) (alloc_end (hp_big h))).
Proof.
  intros Hinv Hwf. any_cpu Hinv run_alloc_rows; [|intros ?; by eapply run_alloc_ok|apply alloc_end_tame].
  eapply run_alloc_ok; [done..|by apply cpus_on_rows].
Qed.

Lemma calloc_any am h live As ls gs others U nmemb size :
  heap_inv h live As ls gs others U → 0 ≤ nmemb → 0 ≤ size →
  post (calloc st am h nmemb size)
    (fresh_result st h As others U (nmemb * size) (cleared (nmemb * size)))
    (ends (cpus_ok am h) (alloc_end (hp_big h))).
Proof.
  intros Hinv Hn0 Hs. any_cpu Hinv calloc_rows; [|intros ?; by eapply calloc_ok|apply alloc_end_tame].
  eapply calloc_ok; [done..|by apply cpus_on_rows].
Qed.

Lemma posix_memalign_any am h live As ls gs others U memptr al size :
  heap_inv h live As ls gs others U → 0 ≤ size → memptr ≠ 0 → 8 ≤ al → is_power_of_two al = true →
  post (posix_memalign st am h memptr al size) (memalign_result st h As others U al size)
    (ends (cpus_ok am h) (alloc_end (hp_big h))).
Proof.
  intros Hinv Hs Hm Hal Hp. any_cpu Hinv posix_memalign_rows; [|intros ?; by eapply posix_memalign_ok|apply alloc_end_tame].
  eapply posix_memalign_ok; [done|done|done|by apply cpus_on_rows|done..].
Qed.

(** A size that has a class, which asks nothing of the table of big allocations. *)
Lemma malloc_class_any am h live As ls gs others U size :
  heap_inv h live As ls gs others U → 0 < size ≤ 2097152 →
  post (malloc st am h size) (alloc_result st h As others U size) (ends (cpus_ok am h) alloc_fault).
Proof.
  intros Hinv Hsz. any_cpu Hinv malloc_rows; [|intros ?; by eapply malloc_class_ok|by intros [|[|]]].
  eapply malloc_class_ok; [done..|by apply cpus_on_rows].
Qed.

Lemma free_any am h live As ls gs others U p u :
  heap_inv h live As ls gs others U → U !! p = Some u →
  post (free st am h (ub_ptr u)) (λ r, r.1 = Here ∧ freed st h As others U p u r.2) (ends (cpus_ok am h) (λ _, False)).
Proof.
  intros Hinv Hp.
  assert (∀ am, cpus_ok am h → post (free st am h (ub_ptr u)) (λ r, r.1 = Here ∧ freed st h As others U p u r.2) (λ _, False)) as Hok.
  { intros am' Ha. destruct (free_ok st Hst am' _ _ _ _ _ _ _ _ _ Hinv Hp Ha) as (h' & -> & Hf). done. }
  any_cpu Hinv free_rows; [by apply Hok, cpus_on_rows|exact (Hok am)|by intros []].
Qed.

Lemma realloc_any am am_free h live As ls gs others U p u n :
  heap_inv h live As ls gs others U → U !! p = Some u → 0 < n ≤ 1024 * 1024 * 1024 * 3 → resizable st p u n →
  post (realloc st am am_free h (ub_ptr u) n)
    (λ r, r.1.1 = Here ∧ realloc_result st h As others U p u n (r.1.2, r.2))
    (ends (cpus_ok am h ∧ cpus_ok am_free h) (alloc_end (hp_big h))).
Proof.
  intros Hinv Hp Hn0 Hs. any_cpu Hinv realloc_rows; [|intros [??]; by eapply realloc_ok|apply alloc_end_tame].
  eapply realloc_ok; [done..|by apply cpus_on_rows|by apply cpus_on_rows|done].
Qed.

(** A [realloc] to nothing frees the block and asks for one byte. *)
Lemma realloc_zero am am_free h live As ls gs others U p u :
  heap_inv h live As ls gs others U → U !! p = Some u →
  realloc st am am_free h (ub_ptr u) 0 =
    ('(_, h1) ← free st am_free h (ub_ptr u); '(q, h2) ← malloc st am h1 1; Ret (Here, q, h2)).
Proof.
  intros Hinv Hp. destruct (user_ptr st _ _ _ _ _ _ _ _ _ Hinv Hp) as (Ho & Hne & _).
  unfold realloc. by rewrite (proj2 (Z.eqb_neq _ _) Hne), Ho, bind_ret.
Qed.

Lemma realloc_too_big am am_free (h : heap) p n :
  p ≠ 0 → 1024 * 1024 * 1024 * 3 < n → realloc st am am_free h p n = Ret (Here, 0, with_errno h NOMEM).
Proof. intros Hp Hn. unfold realloc. by rewrite (proj2 (Z.eqb_neq _ _) Hp), (proj2 (Z.ltb_lt _ _) Hn). Qed.

(** ** The end of a thread, and a round of the trim thread *)

Lemma exit_any list_am drain_am (c : Call K) live As ls gs rest cache :
  slab_inv st c live As ls gs rest → engine_apart (c_va c) cache →
  post (cleanup_thread_cache st list_am drain_am c cache)
    (λ c', ∃ tl ls' gs', call_ok st c live As rest (ghost tl c') ls' gs' ∧ concat ls' = [])
    (ends (exit_cpus_ok list_am drain_am c) (λ _, False)).
Proof.
  intros Hinv Hap. destruct (slab_rows _ _ _ _ _ _ Hinv) as [Hn Hr].
  assert (∀ list_am drain_am, exit_cpus_ok list_am drain_am c → post (cleanup_thread_cache st list_am drain_am c cache)
    (λ c', ∃ tl ls' gs', call_ok st c live As rest (ghost tl c') ls' gs' ∧ concat ls' = []) (λ _, False)) as Hok.
  { intros la da Ha. destruct (cleanup_thread_cache_ok st Hst la da _ _ _ _ _ _ cache Hinv Ha Hap) as (c' & tl & ls' & gs' & -> & Hc).
    exists tl, ls', gs'. done. }
  eapply strays_post; [by apply cleanup_thread_cache_rows| |exact (Hok _ _)|by intros []].
  apply Hok. intros class _. split; by apply on_row_ok.
Qed.

Lemma trim_any round_am block_am g (c : Call K) live As ls gs rest time info :
  slab_inv st c live As ls gs rest → foldr Z.add 0 (icc_usage (c_icc c)) ≤ 2 ^ 28 →
  post (gtrim_round st round_am block_am g c time info) (round_result st c live As ls gs rest time)
    (ends (trim_cpus_ok round_am block_am c) (λ e, e = Panic ArithOverflow ∧ ¬ pressure_fits info)).
Proof.
  intros Hinv Hcount. destruct (slab_rows _ _ _ _ _ _ Hinv) as [Hn Hr].
  eapply strays_post; [by apply gtrim_round_rows| |intros ?; by eapply gtrim_round_ok|by intros [? _]].
  eapply gtrim_round_ok; [done| |done]. split; intros; cbn; [split|]; by apply on_row_ok.
Qed.
End Calls.
