(* ===== verification/Client.v ===== *)
(** * Threads and a client of the heap

    Any number of threads call the C interface of one heap, a call at a time: the
    heap of the running thread holds its cache and its generator, the other threads'
    are parked.  A client step is a call that allocates, a [free] or a [realloc] of a pointer
    that the client holds, a write to a byte that it holds, a round of the trim thread, a change
    of the running thread, its end, or the start of a new one.  What the client holds is a map from
    pointers to the sizes that it asked for. *)

From S2P Require Import Prelude Bits Lib Rng Segment HashMap Sys Radix SizeClass VaMap VaMapSpec VaLive.
From S2P Require Import Mem BlockList ThreadLocal Interconnect InterconnectSpec Bulk BulkSpec.
From S2P Require Import SlabInv SlabOps SlabFill Heap HeapInv HeapFill HeapBig HeapSpec Align AlignSpec.
From S2P Require Import Realloc ReallocSpec Trim TrimSpec ThreadExit CpuRows ClientCalls.

Section Client.
Context `{Config}.
Context {K : Type} `{LinuxKernel K}.
Context {B : Type} `{BigMap B}.
Context (st : Statics) (Hst : statics_ok st).

Abbreviation heap := (Heap K B).
Abbreviation heap_inv := (heap_inv st).
Abbreviation heap_to := (heap_to st).

(** ** Threads *)

(** A thread that does not run: its cache and its generator. *)
Abbreviation parked := (list (ThreadLocalEngine * AllocRng)).

(** The heap with the running thread, the other threads, and the settings: the trim thread advances the
    stamp among them. *)
Record World : Type := mkWorld { w_heap : heap; w_parked : parked; w_statics : Statics }.

(** The parked thread [t] takes over. *)
Definition with_thread (h : heap) (t : ThreadLocalEngine * AllocRng) : heap :=
  let c := hp_call h in
  with_call h (mkCall (c_mem c) (c_icc c) (c_va c) t.1 t.2 (c_kernel c)).
Definition running (h : heap) : ThreadLocalEngine * AllocRng := (c_engine (hp_call h), c_rng (hp_call h)).

Record parked_ok (m : mem) (As : list arena) (t : ThreadLocalEngine * AllocRng) (ls : list (list Z)) : Prop := {
  pk_rng : ar_ok t.2;
  pk_engine : engine_rep m t.1 ls;
  pk_ls : ∀ class l, zlookup ls class = Some l → Forall (typed st m class) l;
  pk_pending : zlen (pending t.1) = NUM_SIZE_CLASSES ∧
    ∀ class p, zlookup (pending t.1) class = Some p →
      p = 0 ∨ ∃ a, a ∈ As ∧ ar_base a = p ∧ ar_class a = class;
  pk_key : key_free (xor_key t.1)
}.

(** The blocks in the parked caches. *)
Definition parked_blocks (lss : list (list (list Z))) : list Z := concat (@concat Z <$> lss).

Record world_inv (w : World) (live : gmap Z Z) (As : list arena) (ls gs : list (list Z))
    (lss : list (list (list Z))) (U : users) : Prop := {
  wi_heap : heap_inv (w_heap w) live As ls gs (parked_blocks lss) U;
  wi_parked : Forall2 (parked_ok (heap_mem (w_heap w)) As) (w_parked w) lss
}.

(** A parked thread's cache survives the steps of the running one. *)
Lemma parked_frame m m' As As' t ls :
  parked_ok m As t ls → grown As As' → (∀ f h, h ∈ concat ls → hget f m' h = hget f m h) → parked_ok m' As' t ls.
Proof.
  intros [Q1 Q2 Q3 Q4 Q5] Hg Hf. split; try done.
  - eapply engine_rep_frame_next; [done|auto].
  - intros class l Hl. pose proof (Q3 class l Hl) as Hty. rewrite Forall_forall in Hty.
    apply Forall_forall. intros x Hx. destruct (Hty x Hx) as [T1 T2].
    assert (x ∈ concat ls) as Hxl by by eapply elem_of_concat_z. unfold typed. by rewrite !Hf.
  - destruct Q4 as [Hlen Hp]. split; [done|]. intros class p Hlk.
    destruct (Hp class p Hlk) as [?|(a & Ha & Hb & Hc)]; [by left|right].
    destruct (Hg a Ha) as (a' & Ha' & Hb' & Hc' & _). exists a'. split_and!; [done|congruence|congruence].
Qed.

Lemma world_step w live As ls gs lss U keep h' live' As' ls' gs' U' :
  world_inv w live As ls gs lss U →
  heap_to (w_heap w) As (parked_blocks lss) keep h' live' As' ls' gs' (parked_blocks lss) U' →
  world_inv (mkWorld h' (w_parked w) (w_statics w)) live' As' ls' gs' lss U'.
Proof.
  intros [Hh Hp] [T1 T2 [T3 _] _]. split; [done|].
  apply Forall2_same_length_lookup_2; [by eapply Forall2_length|]. cbn. intros i t l Ht Hl.
  pose proof (Forall2_lookup_lr _ _ _ _ _ _ Hp Ht Hl) as Hok.
  eapply parked_frame; [exact Hok|exact T2|]. intros f x Hx.
  assert (x ∈ parked_blocks lss) as Hxp.
  { eapply (elem_of_concat _ i); [|exact Hx]. by rewrite list_lookup_fmap, Hl. }
  assert (x ∈ heap_blocks As) as Hxh.
  { eapply (slab_rest st); [apply (hi_slab Hh)|]. apply elem_of_app. by left. }
  apply elem_of_heap_blocks in Hxh as (a & Ha & Hxa).
  pose proof (ao_in _ _ _ (si_arenas _ _ _ _ _ _ _ (hi_slab Hh))) as Hin. rewrite Forall_forall in Hin.
  pose proof (bsz_header _ (ai_class _ _ (Hin a Ha))) as Hb. pose proof (field_inside f).
  eapply same_on_load; [by apply (T3 a x)|lia|lia].
Qed.

(** Another thread runs. *)
Lemma world_switch w live As ls gs lss U i t :
  world_inv w live As ls gs lss U → w_parked w !! i = Some t →
  ∃ ls' lss', world_inv (mkWorld (with_thread (w_heap w) t) (<[i := running (w_heap w)]> (w_parked w)) (w_statics w))
    live As ls' gs lss' U.
Proof.
  intros [[[Q1 Q2 Q3 Q4 Q5 Q6 Q7 Q8 Q9 Q10 Q11] Hb Hu Hh] Hp] Hi.
  destruct (Forall2_lookup_l _ _ _ _ _ Hp Hi) as (lsi & Hli & Hok). destruct Hok as [P1 P2 P3 P4 P5].
  exists lsi, (<[i := ls]> lss).
  destruct (concat_insert_perm (@concat Z <$> lss) i (concat lsi)) as (r & Hr & Hins).
  { by rewrite list_lookup_fmap, Hli. }
  split; [|].
  - split; [|done|done|done]. cbn [w_heap]. split; try done. cbn.
    unfold parked_blocks in *. rewrite list_fmap_insert, Hins, Q6, Hr. solve_Permutation.
  - cbn. apply Forall2_insert; [done|]. by split.
Qed.

(** A new thread is parked. *)
Lemma world_spawn am w live As ls gs lss U cache e rng k :
  world_inv w live As ls gs lss U → init_tls am (c_kernel (hp_call (w_heap w))) = Ret (cache, e, k) →
  key_free (xor_key e) → ar_ok rng →
  ∃ lss', world_inv (mkWorld (with_heap_kernel (w_heap w) k) (w_parked w ++ [(e, rng)]) (w_statics w)) live As ls gs lss' U.
Proof.
  intros [Hh Hp] Hi Hk Hr.
  assert (∃ key, e = engine_new key ∧ keeps (c_kernel (hp_call (w_heap w))) k) as (key & -> & Hkk).
  { unfold init_tls in Hi.
    destruct (mmap_memory_spec 0 ENGINE_SIZE rw (c_kernel (hp_call (w_heap w)))) as (r & k1 & E1 & Hk1 & _); [done|].
    rewrite E1, bind_ret in Hi. destruct r as [c|]; [|done]. destruct hardened.
    - destruct (getrandom_spec (am_buf am) 8 k1) as (r2 & bytes & k2 & E2 & Hk2 & _); [by vm_compute|].
      rewrite E2, bind_ret in Hi. destruct (is_err r2); [done|]. injection Hi as <- <- <-.
      eexists. split; [done|]. by etrans.
    - injection Hi as <- <- <-. by exists 0. }
  assert (parked_blocks (lss ++ [replicate (Z.to_nat NUM_SIZE_CLASSES) []]) = parked_blocks lss) as Hpb.
  { unfold parked_blocks. rewrite fmap_app, concat_app. cbn. by rewrite app_nil_r. }
  exists (lss ++ [replicate (Z.to_nat NUM_SIZE_CLASSES) []]). split.
  - rewrite Hpb. by apply heap_kernel.
  - cbn. apply Forall2_app; [done|]. apply Forall2_cons. split; [|done]. split; [done|apply engine_new_rep, Hk| | |done].
    + intros class l Hl. pose proof (zlookup_Some_lt _ _ _ Hl) as Hlt. rewrite zlookup_nonneg in Hl by lia.
      apply lookup_replicate in Hl as [-> _]. done.
    + split; [done|]. intros class p Hl. left. pose proof (zlookup_Some_lt _ _ _ Hl) as Hlt.
      rewrite zlookup_nonneg in Hl by lia. cbn [pending engine_new fst] in Hl.
      by apply lookup_replicate in Hl as [-> _].
Qed.

(** The running thread has ended with an empty cache; the parked thread [t] takes over. *)
Lemma world_end w live As ls gs lss U i t :
  world_inv w live As ls gs lss U → concat ls = [] → w_parked w !! i = Some t →
  ∃ ls' lss', world_inv (mkWorld (with_thread (w_heap w) t) (delete i (w_parked w)) (w_statics w)) live As ls' gs lss' U.
Proof.
  intros [[[Q1 Q2 Q3 Q4 Q5 Q6 Q7 Q8 Q9 Q10 Q11] Hb Hu Hh] Hp] Hempty Hi.
  destruct (Forall2_lookup_l _ _ _ _ _ Hp Hi) as (lsi & Hli & Hok). destruct Hok as [P1 P2 P3 P4 P5].
  exists lsi, (delete i lss). split; [|by apply Forall2_delete].
  split; [|done|done|done]. cbn [w_heap]. split; try done. cbn.
  unfold parked_blocks in *. rewrite Q6, Hempty. rewrite (delete_Permutation lss i lsi) at 1 by done. cbn.
  solve_Permutation.
Qed.

(** ** The client *)

(** Where [realloc] is sound: for aligned blocks, for blocks whose class has many blocks to a slab
    or still fits, and for big blocks that [malloc] gave for their size, without forced huge
    pages. *)
Definition resize_safe (h : heap) (p n : Z) : Prop :=
  load 8 (heap_mem h) (p - 16) = OX_ALIGN_TAG ∨
  let class := hget FClass (heap_mem h) (p - HEADER_SIZE) in
  if class =? BIG_CLASS then
    OX_FORCE_THP st = false ∧ ∃ size, malloc_usable_size h p = Ret (Here, size) ∧ 2097152 < size
  else zlookup ITERATIONS class ≠ Some 1 ∨ match_size_class n = Ret (Some class).

Lemma resize_safe_resizable h live As ls gs others U p u n :
  heap_inv h live As ls gs others U → U !! p = Some u → 0 < n → resize_safe h (ub_ptr u) n → resizable st p u n.
Proof.
  intros Hinv Hp Hn Hs. destruct (user_facts st _ _ _ _ _ _ _ _ _ Hinv Hp) as (Hu & F1 & F2 & F3 & _).
  pose proof (HEADER_SIZE_cases _) as Hhs. unfold resizable.
  destruct (uo_ptr _ _ _ _ _ _ Hu) as [(E & Ht)|(E & _)]; [right|left; lia].
  destruct Hs as [?|Hs]; [done|]. rewrite E in Hs. replace (p + HEADER_SIZE - HEADER_SIZE) with p in Hs by lia.
  rewrite (uo_class _ _ _ _ _ _ Hu) in Hs. rewrite <- E in Hs. destruct u as [[c|m] q]; unfold kind_class in Hs; cbn [ub_kind] in *.
  - destruct (slab_slots st _ _ _ _ _ _ (hi_slab Hinv)) as (_ & Q2 & _). rewrite Forall_forall in Q2.
    destruct (uo_place _ _ _ _ _ _ Hu) as (a & Haa & _ & Hca). cbn in Hca. pose proof (ai_class _ _ (Q2 a Haa)) as Hc.
    rewrite Hca in Hc. change NUM_SIZE_CLASSES with 34 in Hc.
    rewrite (proj2 (Z.eqb_neq c BIG_CLASS)) in Hs by (unfold BIG_CLASS; lia).
    destruct Hs as [?|Hs]; [by left|right]. pose proof (match_size_class_spec n ltac:(lia)) as Hm.
    destruct ((n =? 0) || (2097152 <? n)); [congruence|]. destruct Hm as (c' & Hm & Hf). congruence.
  - rewrite Z.eqb_refl in Hs. destruct Hs as (Hthp & size & Hsz & Hlt).
    rewrite (malloc_usable_size_ok st _ _ _ _ _ _ _ _ _ Hinv Hp) in Hsz. injection Hsz as <-.
    unfold usable in Hlt. cbn [cap ub_kind] in Hlt. rewrite E in Hlt. split; [lia|done].
Qed.

(** What a step was: a write to a byte, or not. *)
Inductive wlabel : Type := LWrite (x : Z) | LCall.

(** What the client holds after [realloc p n] returned [q]. *)
Definition resized_held (C : gmap Z Z) (p n q : Z) : gmap Z Z :=
  if q =? 0 then if n =? 0 then delete p C else C else <[q := n]> (delete p C).

(** The client's pointers lead to blocks with room for what was asked. *)
Definition client_ok (C : gmap Z Z) (U : users) : Prop :=
  ∀ p n, C !! p = Some n → ∃ h u, U !! h = Some u ∧ ub_ptr u = p ∧ 0 ≤ n ≤ usable h u.

Definition client_inv (wc : World * gmap Z Z) : Prop :=
  ∃ live As ls gs lss U, world_inv wc.1 live As ls gs lss U ∧ client_ok wc.2 U.

Lemma client_insert C U p n h u :
  client_ok C U → U !! h = None → ub_ptr u = p → 0 ≤ n ≤ usable h u → client_ok (<[p := n]> C) (<[h := u]> U).
Proof.
  intros Hc HU Hp Hn q m. rewrite lookup_insert_Some. intros [(<- & <-)|(Hne & Hq)].
  - exists h, u. by rewrite lookup_insert_eq.
  - destruct (Hc q m Hq) as (h' & u' & Hh' & ? & ?). exists h', u'.
    by rewrite lookup_insert_ne by congruence.
Qed.

Lemma client_delete C U p h u :
  client_ok C U → U !! h = Some u → ub_ptr u = p → client_ok (delete p C) (delete h U).
Proof.
  intros Hc HU Hp q m [Hne Hq]%lookup_delete_Some. destruct (Hc q m Hq) as (h' & u' & Hh' & Hp' & Hm).
  exists h', u'. split; [|done]. rewrite lookup_delete_ne; [done|]. intros ->. simplify_eq.
Qed.

(** The client's bytes lie in the extent of their block. *)
Lemma client_extent (h : heap) live As ls gs others U C p n :
  heap_inv h live As ls gs others U → client_ok C U → C !! p = Some n →
  ∃ b u, U !! b = Some u ∧ ub_ptr u = p ∧ 0 ≤ n ≤ usable b u ∧ b + 16 ≤ p ∧ p + n ≤ b + extent st u ∧
    p < b + extent st u.
Proof.
  intros Hinv HC Hp. destruct (HC p n Hp) as (b & u & Hb & Hu & Hn).
  destruct (user_facts st _ _ _ _ _ _ _ _ _ Hinv Hb) as (Hok & F1 & F2 & F3 & F4 & F5 & F6 & _).
  pose proof (ptr_ok_range _ _ _ (uo_ptr _ _ _ _ _ _ Hok) F3) as Hr. unfold usable in Hn.
  exists b, u. split; [done|]. split; [done|]. split; [done|]. pose proof (HEADER_SIZE_cases _) as Hhs.
  split; [lia|]. split; [lia|]. destruct (uo_ptr _ _ _ _ _ _ Hok) as [(E & _)|(E & _)]; lia.
Qed.

(** The bytes that the client holds before and after a step, unless the step writes them. *)
Definition contents_kept (l : wlabel) (x y : World * gmap Z Z) : Prop :=
  ∀ p n b, x.2 !! p = Some n → y.2 !! p = Some n → p ≤ b < p + n → l ≠ LWrite b →
    heap_mem (w_heap y.1) b = heap_mem (w_heap x.1) b.

(** The bytes of a block that a step keeps. *)
Lemma frame_kept (h h' : heap) live As ls gs others U keep q u n x :
  heap_inv h live As ls gs others U → heap_frame st (heap_mem h) (heap_mem h') As others keep →
  U !! q = Some u → keep !! q = Some u → 0 ≤ n ≤ usable q u → ub_ptr u ≤ x < ub_ptr u + n →
  heap_mem h' x = heap_mem h x.
Proof.
  intros Hinv Hf Hq Hk Hn Hx. apply (hf_users _ _ _ _ _ _ Hf q u Hk).
  pose proof (usable_extent st _ _ _ _ _ _ _ _ _ (x - ub_ptr u) Hinv Hq ltac:(lia)) as E.
  pose proof (HEADER_SIZE_cases _). lia.
Qed.

(** The steps, one kind at a time; [st] are the settings at the time. *)
Lemma client_alloc_step w live As ls gs lss U C am call p h' :
  world_inv w live As ls gs lss U → client_ok C U → call_wf call → run_alloc st am (w_heap w) call = Ret (p, h') →
  let y := (mkWorld h' (w_parked w) (w_statics w), if p =? 0 then C else <[p := asked call]> C) in
  client_inv y ∧ contents_kept LCall (w, C) y.
Proof.
  intros Hw HC Hwf Hrun y. pose proof (wi_heap _ _ _ _ _ _ _ Hw) as Hh.
  assert (∃ live' As' ls' gs' U', heap_to (w_heap w) As (parked_blocks lss) U h' live' As' ls' gs' (parked_blocks lss) U' ∧
    client_ok y.2 U') as (l1 & A1 & s1 & g1 & U1 & Hto & HC1).
  { pose proof (run_alloc_any st Hst am _ _ _ _ _ _ _ call Hh Hwf) as Hres. rewrite Hrun in Hres. unfold y.
    destruct Hres as [[Hz [(l1 & A1 & s1 & g1 & Hto) _]]|(Hz & _ & b & u & Hu & HU & Hn & l1 & A1 & s1 & g1 & Hto)];
      cbn [fst snd] in *; exists l1, A1, s1, g1; eexists; (split; [exact Hto|]).
    - by subst p.
    - rewrite (proj2 (Z.eqb_neq p 0)) by lia. apply client_insert; [done|done|done|].
      pose proof (asked_nonneg _ Hwf). lia. }
  split; [exists l1, A1, s1, g1, lss, U1; split; [by eapply world_step|done]|].
  intros q m x Hq _ Hx _. destruct (HC q m Hq) as (b & u & Hb & <- & Hn).
  by eapply (frame_kept (w_heap w) h'); eauto using ht_frame.
Qed.

Lemma client_free_step w live As ls gs lss U C am p n s h' :
  world_inv w live As ls gs lss U → client_ok C U → C !! p = Some n → free st am (w_heap w) p = Ret (s, h') →
  let y := (mkWorld h' (w_parked w) (w_statics w), delete p C) in client_inv y ∧ contents_kept LCall (w, C) y.
Proof.
  intros Hw HC Hp Hrun y. pose proof (wi_heap _ _ _ _ _ _ _ Hw) as Hh.
  destruct (HC p n Hp) as (b & u & Hb & <- & Hn).
  pose proof (free_any st Hst am _ _ _ _ _ _ _ _ _ Hh Hb) as Hfr. rewrite Hrun in Hfr.
  destruct Hfr as [_ (l1 & A1 & s1 & g1 & Hto & _)]. cbn [snd] in *. split.
  - exists l1, A1, s1, g1, lss, (delete b U). split; [by eapply world_step|by eapply client_delete].
  - intros q m x Hq Hq' Hx _. destruct (HC q m Hq) as (c & v & Hc & <- & Hm).
    unfold y in Hq'. cbn [snd] in Hq'. apply lookup_delete_Some in Hq' as [Hne _].
    eapply (frame_kept (w_heap w) h'); [exact Hh|exact (ht_frame Hto)|exact Hc| |exact Hm|exact Hx].
    rewrite lookup_delete_ne; [done|]. intros ->. congruence.
Qed.

Lemma client_resize_step w live As ls gs lss U C am am_free p m n s q h' :
  world_inv w live As ls gs lss U → client_ok C U → C !! p = Some m → 0 < n ≤ 1024 * 1024 * 1024 * 3 →
  resize_safe (w_heap w) p n → realloc st am am_free (w_heap w) p n = Ret (s, q, h') →
  let y := (mkWorld h' (w_parked w) (w_statics w), resized_held C p n q) in
  client_inv y ∧ contents_kept LCall (w, C) y.
Proof.
  intros Hw HC Hp Hn Hs Hrun y. pose proof (wi_heap _ _ _ _ _ _ _ Hw) as Hh.
  destruct (HC p m Hp) as (b & u & Hb & <- & Hm).
  assert (resizable st b u n) as Hrs by (eapply resize_safe_resizable; [exact Hh|exact Hb|lia|exact Hs]).
  pose proof (realloc_any st Hst am am_free _ _ _ _ _ _ _ _ _ n Hh Hb Hn Hrs) as Hres.
  rewrite Hrun in Hres. destruct Hres as [_ Hres]. unfold y, resized_held. clear y. rewrite (proj2 (Z.eqb_neq n 0)) by lia.
  destruct Hres as [[Hz (l1 & A1 & s1 & g1 & Hto)]|(Hz & b' & u' & Hu' & Hb' & Hn' & (l1 & A1 & s1 & g1 & Hto) & Hbytes)];
    cbn [fst snd] in *.
  - subst q. cbn [Z.eqb]. split; [exists l1, A1, s1, g1, lss, U; split; [by eapply world_step|done]|].
    intros r k x Hk _ Hx _. destruct (HC r k Hk) as (c & v & Hc & <- & Hkk).
    by eapply (frame_kept (w_heap w) h'); eauto using ht_frame.
  - rewrite (proj2 (Z.eqb_neq q 0)) by lia. split.
    + exists l1, A1, s1, g1, lss, (<[b' := u']> (delete b U)). split; [by eapply world_step|].
      apply client_insert; [by eapply client_delete| |done|lia].
      destruct Hb' as [->|Hb']; [apply lookup_delete_eq|]. apply lookup_delete_None. by right.
    + intros r k x Hk Hk' Hx _. destruct (HC r k Hk) as (c & v & Hc & <- & Hkk). cbn [snd fst w_heap] in *.
      destruct (decide (c = b)) as [->|Hne].
      * assert (v = u) as -> by congruence.
        apply lookup_insert_Some in Hk' as [[E <-]|[_ E]]; [|by rewrite lookup_delete_eq in E].
        pose proof (Hbytes (x - q) ltac:(lia)) as E'. rewrite <- E in E'.
        replace (q + (x - q)) with x in E' by lia. exact E'.
      * eapply (frame_kept (w_heap w) h'); [exact Hh|exact (ht_frame Hto)|exact Hc| |exact Hkk|exact Hx].
        by rewrite lookup_delete_ne.
Qed.

(** [realloc] to nothing is a [free] and a [malloc(1)]. *)
Lemma client_empty_step w live As ls gs lss U C am am_free p m s q h' :
  world_inv w live As ls gs lss U → client_ok C U → C !! p = Some m → realloc st am am_free (w_heap w) p 0 = Ret (s, q, h') →
  let y := (mkWorld h' (w_parked w) (w_statics w), resized_held C p 0 q) in
  client_inv y ∧ contents_kept LCall (w, C) y.
Proof.
  intros Hw HC Hp Hrun y. pose proof (wi_heap _ _ _ _ _ _ _ Hw) as Hh.
  destruct (HC p m Hp) as (b & u & Hb & Hu & Hm). rewrite <- Hu in Hrun.
  rewrite (realloc_zero st am am_free _ _ _ _ _ _ _ _ _ Hh Hb), Hu in Hrun.
  apply bind_Ret_inv in Hrun as ([s1 h1] & E1 & Hrun). apply bind_Ret_inv in Hrun as ([q2 h2] & E2 & [= <- <- <-]).
  destruct (client_free_step w _ _ _ _ _ _ C am_free p m s1 h1 Hw HC Hp E1)
    as [(live1 & As1 & ls1 & gs1 & lss1 & U1 & Hw1 & HC1) Hk1]. cbn [fst snd] in *.
  destruct (client_alloc_step _ _ _ _ _ _ _ _ am (AMalloc 1) q2 h2 Hw1 HC1 ltac:(cbn; lia) E2)
    as [(live2 & As2 & ls2 & gs2 & lss2 & U2 & Hw2 & HC2) Hk2]. cbn [fst snd w_parked w_statics asked] in *.
  unfold y, resized_held. cbn [Z.eqb]. revert HC2 Hk2. destruct (Z.eqb_spec q2 0) as [Hz|Hz]; intros HC2 Hk2; split.
  - by exists live2, As2, ls2, gs2, lss2, U2.
  - intros r k x Hr Hr' Hx Hl. etrans; [by eapply Hk2|by eapply Hk1].
  - exists live2, As2, ls2, gs2, lss2, U2. split; [exact Hw2|]. intros r k Hr. cbn [snd] in Hr.
    apply lookup_insert_Some in Hr as [[<- <-]|[Hne Hr]].
    + destruct (HC2 q2 1 (lookup_insert_eq _ _ _)) as (c & v & ? & ? & ?). exists c, v. split_and!; [done..|lia|lia].
    + apply HC2. by rewrite lookup_insert_ne.
  - intros r k x Hr Hr' Hx Hl. cbn [fst snd] in *.
    apply lookup_insert_Some in Hr' as [[<- <-]|[Hne Hr']]; [lia|].
    etrans; [|by eapply Hk1]. apply (Hk2 r k x); [exact Hr'|by cbn; rewrite lookup_insert_ne|done|done].
Qed.

Lemma client_realloc_step w live As ls gs lss U C am am_free p m n s q h' :
  world_inv w live As ls gs lss U → client_ok C U → C !! p = Some m → 0 ≤ n →
  (0 < n ≤ 1024 * 1024 * 1024 * 3 → resize_safe (w_heap w) p n) → realloc st am am_free (w_heap w) p n = Ret (s, q, h') →
  let y := (mkWorld h' (w_parked w) (w_statics w), resized_held C p n q) in
  client_inv y ∧ contents_kept LCall (w, C) y.
Proof.
  intros Hw HC Hp Hn Hs Hrun y. pose proof (wi_heap _ _ _ _ _ _ _ Hw) as Hh.
  destruct (decide (n = 0)) as [->|Hne]; [by eapply client_empty_step|].
  destruct (decide (n ≤ 1024 * 1024 * 1024 * 3)) as [Hle|Hgt].
  { eapply client_resize_step; [done..|lia|apply Hs; lia|done]. }
  destruct (client_extent _ _ _ _ _ _ _ _ _ _ Hh HC Hp) as (b & u & Hb & _ & _ & Hpos & _).
  destruct (user_facts st _ _ _ _ _ _ _ _ _ Hh Hb) as (_ & F1 & _).
  rewrite realloc_too_big in Hrun by lia. injection Hrun as <- <- <-.
  destruct (heap_errno st _ _ _ _ _ _ _ NOMEM Hh) as [(l1 & A1 & s1 & g1 & Hto) _].
  unfold y, resized_held. cbn [Z.eqb]. rewrite (proj2 (Z.eqb_neq n 0)) by lia. split; [|done].
  exists l1, A1, s1, g1, lss, U. split; [by eapply world_step|done].
Qed.

Lemma client_trim_step w live As ls gs lss U C round_am block_am g time info st' g' c' :
  world_inv w live As ls gs lss U → client_ok C U → foldr Z.add 0 (icc_usage (c_icc (hp_call (w_heap w)))) ≤ 2 ^ 28 →
  gtrim_round st round_am block_am g (hp_call (w_heap w)) time info = Ret (st', g', c') →
  let y := (mkWorld (with_call (w_heap w) c') (w_parked w) st', C) in
  st' = with_stamp st (time mod 2 ^ 32) ∧ client_inv y ∧ contents_kept LCall (w, C) y.
Proof.
  intros Hw HC Hcount Hrun y. pose proof (wi_heap _ _ _ _ _ _ _ Hw) as Hh.
  pose proof (trim_any st round_am block_am g _ _ _ _ _ _ time info (hi_slab Hh) Hcount) as Hres. rewrite Hrun in Hres.
  destruct Hres as (Est & gs2 & Hok & _). cbn [fst snd] in *. split; [exact Est|].
  destruct (heap_of_slab st _ _ _ _ _ _ _ _ _ _ _ Hh Hok) as (l1 & A1 & Hto). split.
  - exists l1, A1, ls, gs2, lss, U. split; [|done]. destruct (world_step _ _ _ _ _ _ _ _ _ _ _ _ _ _ Hw Hto). by split.
  - intros q m x Hq _ Hx _. destruct (HC q m Hq) as (b & u & Hb & <- & Hn).
    by eapply (frame_kept (w_heap w) (with_call (w_heap w) c')); eauto using ht_frame.
Qed.

Lemma client_exit_step w live As ls gs lss U C list_am drain_am cache i t c' :
  world_inv w live As ls gs lss U → client_ok C U →
  engine_apart (c_va (hp_call (w_heap w))) cache → w_parked w !! i = Some t →
  cleanup_thread_cache st list_am drain_am (hp_call (w_heap w)) cache = Ret c' →
  let y := (mkWorld (with_thread (with_call (w_heap w) c') t) (delete i (w_parked w)) (w_statics w), C) in
  client_inv y ∧ contents_kept LCall (w, C) y.
Proof.
  intros Hw HC Hap Hi Hrun y. pose proof (wi_heap _ _ _ _ _ _ _ Hw) as Hh.
  pose proof (exit_any st Hst list_am drain_am _ _ _ _ _ _ cache (hi_slab Hh) Hap) as Hres. rewrite Hrun in Hres.
  destruct Hres as (tl & ls2 & gs2 & Hok & Hempty).
  destruct (heap_of_slab st _ _ _ _ _ _ _ _ _ _ _ Hh Hok) as (l1 & A1 & Hto). split.
  - pose proof (world_step _ _ _ _ _ _ _ _ _ _ _ _ _ _ Hw Hto) as Hw2.
    destruct (world_end _ _ _ _ _ _ _ i t Hw2 Hempty Hi) as (ls3 & lss3 & Hw3).
    exists l1, A1, ls3, gs2, lss3, U. split; [exact Hw3|done].
  - intros q m x Hq _ Hx _. destruct (HC q m Hq) as (b & u & Hb & <- & Hn).
    by eapply (frame_kept (w_heap w) (with_call (w_heap w) (ghost tl c'))); eauto using ht_frame.
Qed.

Lemma client_write_step w live As ls gs lss U C p n x v :
  world_inv w live As ls gs lss U → client_ok C U → C !! p = Some n → p ≤ x < p + n →
  let y := (mkWorld (with_heap_mem (w_heap w) (λ y, if y =? x then v else heap_mem (w_heap w) y)) (w_parked w) (w_statics w), C) in
  client_inv y ∧ contents_kept (LWrite x) (w, C) y.
Proof.
  intros Hw HC Hp Hx Y. pose proof (wi_heap _ _ _ _ _ _ _ Hw) as Hh.
  destruct (HC p n Hp) as (c & u & Hc & Hu & Hn). set (m' := λ y, _) in Y.
  pose proof (heap_payload_write st _ _ _ _ _ _ _ c u m' Hh Hc) as Hto. split.
  - exists live, As, ls, gs, lss, U. split; [|done]. eapply world_step; [done|]. apply Hto.
    intros y Hy. unfold m'. rewrite (proj2 (Z.eqb_neq y x)); [done|]. lia.
  - intros q k y Hq _ Hy Hne. cbn. unfold m'. rewrite (proj2 (Z.eqb_neq y x)); [done|]. congruence.
Qed.
End Client.

(** ** The states of a process *)

Section Steps.
Context `{Config}.
Context {K : Type} `{LinuxKernel K}.
Context {B : Type} `{BigMap B}.

Abbreviation heap := (Heap K B).

Inductive wstep : wlabel → World * gmap Z Z → World * gmap Z Z → Prop :=
| ws_alloc am call w C p h' :
    call_wf call → run_alloc (w_statics w) am (w_heap w) call = Ret (p, h') →
    wstep LCall (w, C) (mkWorld h' (w_parked w) (w_statics w), if p =? 0 then C else <[p := asked call]> C)
| ws_free am w C p n s h' :
    C !! p = Some n → free (w_statics w) am (w_heap w) p = Ret (s, h') →
    wstep LCall (w, C) (mkWorld h' (w_parked w) (w_statics w), delete p C)
| ws_realloc am am_free w C p m n q s h' :
    C !! p = Some m → 0 ≤ n → (0 < n ≤ 1024 * 1024 * 1024 * 3 → resize_safe (w_statics w) (w_heap w) p n) →
    realloc (w_statics w) am am_free (w_heap w) p n = Ret (s, q, h') →
    wstep LCall (w, C) (mkWorld h' (w_parked w) (w_statics w), resized_held C p n q)
| ws_write w C p n x v :
    C !! p = Some n → p ≤ x < p + n →
    wstep (LWrite x) (w, C)
      (mkWorld (with_heap_mem (w_heap w) (λ y, if y =? x then v else heap_mem (w_heap w) y)) (w_parked w) (w_statics w), C)
| ws_trim round_am block_am g time info w C st' g' c' :
    foldr Z.add 0 (icc_usage (c_icc (hp_call (w_heap w)))) ≤ 2 ^ 28 →
    gtrim_round (w_statics w) round_am block_am g (hp_call (w_heap w)) time info = Ret (st', g', c') →
    wstep LCall (w, C) (mkWorld (with_call (w_heap w) c') (w_parked w) st', C)
| ws_exit list_am drain_am w C cache i t c' :
    engine_apart (c_va (hp_call (w_heap w))) cache → w_parked w !! i = Some t →
    cleanup_thread_cache (w_statics w) list_am drain_am (hp_call (w_heap w)) cache = Ret c' →
    wstep LCall (w, C) (mkWorld (with_thread (with_call (w_heap w) c') t) (delete i (w_parked w)) (w_statics w), C)
| ws_switch w C i t :
    w_parked w !! i = Some t →
    wstep LCall (w, C) (mkWorld (with_thread (w_heap w) t) (<[i := running (w_heap w)]> (w_parked w)) (w_statics w), C)
| ws_spawn am w C cache e rng k :
    init_tls am (c_kernel (hp_call (w_heap w))) = Ret (cache, e, k) → key_free (xor_key e) → ar_ok rng →
    wstep LCall (w, C) (mkWorld (with_heap_kernel (w_heap w) k) (w_parked w ++ [(e, rng)]) (w_statics w), C).

Definition wsteps : relation (World * gmap Z Z) := rtc (λ x y, ∃ l, wstep l x y).

(** The stamp is in no invariant. *)
Lemma client_stamp st t (x : World * gmap Z Z) : client_inv (B := B) st x → client_inv (with_stamp st t) x.
Proof.
  intros (live & As & ls & gs & lss & U & [[Hs Hb Hu Hh] Hp] & HC). exists live, As, ls, gs, lss, U. split; [|exact HC].
  split; [split; [by apply slab_stamp|exact Hb| |exact Hh]|].
  - intros p u Hpu. by destruct (Hu p u Hpu).
  - eapply Forall2_impl; [exact Hp|]. intros t' l [Q1 Q2 Q3 Q4 Q5]. by split.
Qed.

Lemma statics_stamp st t : statics_ok st → statics_ok (with_stamp st (t mod 2 ^ 32)).
Proof.
  intros [S1 S2 S3 S4 S5]. split; try done. unfold fits_field. cbn. change (2 ^ 32) with 4294967296. zdiv.
Qed.

(** A state of the process: its settings are valid, and the invariant holds with them. *)
Definition state_ok (x : World * gmap Z Z) : Prop := statics_ok (w_statics x.1) ∧ client_inv (B := B) (w_statics x.1) x.

Lemma client_step l x y :
  state_ok x → wstep l x y →
  state_ok y ∧ contents_kept l x y ∧ ∃ t, w_statics y.1 = with_stamp (w_statics x.1) t.
Proof.
  assert (∀ st, st = with_stamp st (OX_CURRENT_STAMP st)) as Hsame by by intros [].
  intros [Hst (live & As & ls & gs & lss & U & Hw & HC)] Hs.
  assert (∀ (y' : World * gmap Z Z), w_statics y'.1 = w_statics x.1 → client_inv (w_statics x.1) y' ∧ contents_kept l x y' →
    state_ok y' ∧ contents_kept l x y' ∧ ∃ t, w_statics y'.1 = with_stamp (w_statics x.1) t) as Hkeep.
  { intros y' E [Hi Hk]. unfold state_ok. rewrite E. split; [done|]. split; [done|]. eexists. apply Hsame. }
  destruct Hs as [am call w C p h' Hwf Hrun|am w C p n s h' Hp Hrun|am am_free w C p m n q s h' Hp Hn Hs Hrun
    |w C p n b v Hp Hb
    |round_am block_am g time info w C st' g' c' Hcount Hrun
    |list_am drain_am w C cache i t c' Hap Hi Hrun|w C i t Hi|am w C cache e rng k Hi Hk Hrng]; cbn [fst snd] in *.
  - apply Hkeep; [done|]. by eapply client_alloc_step.
  - apply Hkeep; [done|]. by eapply client_free_step.
  - apply Hkeep; [done|]. by eapply client_realloc_step.
  - apply Hkeep; [done|]. by eapply client_write_step.
  - destruct (client_trim_step _ w live As ls gs lss U C round_am block_am g time info st' g' c' Hw HC Hcount Hrun) as (-> & Hi & Hk).
    split; [|split; [exact Hk|by eexists]]. split; [by apply statics_stamp|by apply client_stamp].
  - apply Hkeep; [done|]. by eapply client_exit_step.
  - apply Hkeep; [done|]. destruct (world_switch _ _ _ _ _ _ _ _ _ _ Hw Hi) as (ls' & lss' & Hw'). split; [|by intros q m x].
    exists live, As, ls', gs, lss', U. done.
  - apply Hkeep; [done|]. destruct (world_spawn _ am _ _ _ _ _ _ _ _ _ _ _ Hw Hi Hk Hrng) as (lss' & Hw'). split; [|by intros q m x].
    exists live, As, ls, gs, lss', U. done.
Qed.
End Steps.
