(* ===== verification/ClientSpec.v ===== *)
(** * What a client of the heap can rely on

    The theorems about every state that any number of threads and a client that
    frees only what it holds, and writes only to what it holds, can reach from the
    start. *)

From S2P Require Import Prelude Bits Lib Rng Segment SegmentSpec HashMap HashMapSpec Sys Radix SizeClass VaMap VaMapSpec VaLive.
From S2P Require Import Mem BlockList ThreadLocal Interconnect InterconnectSpec Bulk BulkSpec.
From S2P Require Import SlabInv SlabOps SlabFill Heap HeapInv HeapFill HeapBig HeapSpec Align AlignSpec.
From S2P Require Import Trim ClientCalls Client.

Section Start.
Context `{Config}.
Context {K : Type} `{LinuxKernel K}.
Context {B : Type} `{BigMap B}.
Context (st : Statics).

(** The heap after the start of the process: nothing is reserved; the per-cpu tables are there,
    and empty; the first thread has an empty cache. *)
Definition start_heap (m : mem) (ncpu key : Z) (rng : AllocRng) (k : K) : Heap K B :=
  let cells := Z.to_nat (ncpu * NUM_SIZE_CLASSES) in
  mkHeap (mkCall m (mkICC (replicate cells 0) (replicate cells 0) ncpu true) VaBitmap_new (engine_new key) rng k)
    bmap_empty initial_hints false 0 false 0.

(** The start of a process: valid settings, at least one cpu, keys that are no block's address. *)
Record start_ok (ncpu key : Z) (rng : AllocRng) : Prop := {
  sk_statics : statics_ok st;
  sk_ncpu : 0 < ncpu ≤ 65536;
  sk_rng : ar_ok rng;
  sk_key : key_free key;
  sk_numa : key_free (NUMA_KEY st)
}.

Lemma zlookup_replicate_nil n i (l : list Z) : zlookup (replicate n []) i = Some l → l = [].
Proof.
  intros Hl. pose proof (zlookup_Some_lt _ _ _ Hl). rewrite zlookup_nonneg in Hl by lia.
  by apply lookup_replicate in Hl as [-> _].
Qed.

Lemma concat_replicate_nil n : concat (replicate n []) = ([] : list Z).
Proof. induction n as [|n IH]; [done|exact IH]. Qed.

Lemma start_inv m ncpu key rng (k : K) :
  start_ok ncpu key rng → client_inv st (mkWorld (start_heap m ncpu key rng k) [] st, ∅).
Proof.
  intros [S1 S2 S3 S4 S5].
  exists ∅, [], (replicate (Z.to_nat NUM_SIZE_CLASSES) []), (replicate (Z.to_nat (ncpu * NUM_SIZE_CLASSES)) []), [], ∅.
  split; [|by intros p n; cbn; rewrite lookup_empty]. split; [|constructor]. split.
  - split; cbn; try done.
    + apply live_inv_start.
    + split; constructor.
    + apply engine_new_rep, S4.
    + by apply icc_rep_empty.
    + by rewrite !concat_replicate_nil.
    + intros class l ->%zlookup_replicate_nil. done.
    + intros i l ->%zlookup_replicate_nil. done.
    + split; [done|]. intros class p Hl. left. pose proof (zlookup_Some_lt _ _ _ Hl).
      rewrite zlookup_nonneg in Hl by lia. by apply lookup_replicate in Hl as [-> _].
  - apply bmap_empty_rep.
  - apply map_Forall_empty.
  - split; [done|]. cbn. apply Forall_replicate. unfold BATCH_MIN, BATCH_MAX. lia.
Qed.

(** The states that the threads and their client can reach. *)
Definition reachable (m : mem) (ncpu key : Z) (rng : AllocRng) (k : K) (x : World * gmap Z Z) : Prop :=
  wsteps (mkWorld (start_heap m ncpu key rng k) [] st, ∅) x.

(** The invariant of reachable states; of the settings only the stamp has changed. *)
Lemma reachable_state m ncpu key rng k x :
  start_ok ncpu key rng → reachable m ncpu key rng k x →
  state_ok x ∧ ∃ t, w_statics x.1 = with_stamp st t.
Proof.
  intros Hs Hr. pose (P := λ x : World * gmap Z Z, state_ok (B := B) x ∧ ∃ t, w_statics x.1 = with_stamp st t).
  apply (rtc_preserve P) in Hr; [exact Hr| |].
  - intros y z [Hy [t Ht]] [l Hl]. destruct (client_step l y z Hy Hl) as (Hz & _ & [t' Ht']). split; [done|].
    exists t'. by rewrite Ht', Ht.
  - split; [split; [apply Hs|by apply start_inv]|]. exists (OX_CURRENT_STAMP st). by destruct st.
Qed.

Lemma reachable_inv m ncpu key rng k x :
  start_ok ncpu key rng → reachable m ncpu key rng k x → state_ok x.
Proof. intros Hs Hr. by apply reachable_state in Hr as [? _]. Qed.

(** Two blocks that the client holds are apart. *)
Lemma held_apart (h : Heap K B) live As ls gs others U p u q v :
  heap_inv st h live As ls gs others U → U !! p = Some u → U !! q = Some v → p ≠ q →
  p + extent st u ≤ q ∨ q + extent st v ≤ p.
Proof.
  intros Hinv Hp Hq Hne. destruct (slab_slots st _ _ _ _ _ _ (hi_slab Hinv)) as (Q1 & Q2 & Q3).
  pose proof (heap_inv_places st _ _ _ _ _ _ _ Hinv) as Hpl.
  eapply slot_disjoint; [done..| | |done]; apply place_slot; by apply Hpl.
Qed.

Lemma held_free st' am w C p n :
  statics_ok st' → client_inv st' (w, C) → C !! p = Some n →
  post (free st' am (w_heap w) p) (λ r, r.1 = Here) (ends (cpus_ok am (w_heap w)) (λ _, False)).
Proof.
  intros Hst (live & As & ls & gs & lss & U & Hw & HC) Hp. pose proof (wi_heap _ _ _ _ _ _ _ _ Hw) as Hh.
  destruct (HC p n Hp) as (b & u & Hb & <- & Hn).
  eapply post_mono; [by eapply free_any|by intros r [? _]|done].
Qed.
Lemma free_returns am w C p n :
  state_ok (w, C) → C !! p = Some n → cpus_ok am (w_heap w) → ∃ h', free (w_statics w) am (w_heap w) p = Ret (Here, h').
Proof.
  intros [Hw Hi] Hp Ha. pose proof (held_free (w_statics w) am w C p n Hw Hi Hp) as Hf. cbn [fst] in *.
  destruct (free _ am _ p) as [[s h']|e]; [cbn in Hf; subst s; by exists h'|]. destruct Hf as [[]|[_ ?]]. done.
Qed.
(** A new block is none of the client's, and apart from them. *)
Lemma fresh_apart (h h' : Heap K B) live As ls gs others U C p n (P : Z → Heap K B → Prop) :
  heap_inv st h live As ls gs others U → client_ok C U → 0 ≤ n → fresh_result st h As others U n P (p, h') →
  p = 0 ∨ 0 < p ∧ C !! p = None ∧ P p h' ∧ ∀ q k, C !! q = Some k → p + n ≤ q ∨ q + k ≤ p.
Proof.
  intros Hh HC Hn0 [[Hz _]|(Hz & HP & b & u & Hu & HU & Hn & l1 & A1 & s1 & g1 & Hto)];
    cbn [fst snd] in *; [by left|right]. pose proof (ht_inv Hto) as Hh'.
  pose proof (lookup_insert_eq U b u) as Hbu.
  destruct (user_facts st _ _ _ _ _ _ _ _ _ Hh' Hbu) as (Hok & F1 & F2 & F3 & F4 & F5 & F6 & _).
  pose proof (ptr_ok_range _ _ _ (uo_ptr _ _ _ _ _ _ Hok) F3) as Hrg. pose proof (HEADER_SIZE_cases _) as Hhs.
  assert (p < b + extent st u) as Hpe by (destruct (uo_ptr _ _ _ _ _ _ Hok) as [(E & _)|(E & _)]; lia).
  assert (∀ q k, C !! q = Some k → q ≠ p ∧ (p + n ≤ q ∨ q + k ≤ p)) as Hq.
  { intros q k Hq. destruct (client_extent st _ _ _ _ _ _ _ _ _ _ Hh HC Hq) as (c & v & Hc & Hv & Hk & G1 & G2 & G3).
    assert (b ≠ c) as Hbc by (intros ->; congruence).
    pose proof (lookup_insert_ne U b c u Hbc) as Hcn. rewrite Hc in Hcn. unfold usable in *.
    destruct (held_apart _ _ _ _ _ _ _ _ _ _ _ Hh' Hbu Hcn Hbc); lia. }
  split; [done|]. split; [|split; [done|intros q k HCq; by apply Hq]].
  destruct (C !! p) as [k|] eqn:E; [|done]. by destruct (Hq p k E).
Qed.
End Start.

Section Properties.
Context `{Config}.
Context {K : Type} `{LinuxKernel K}.
Context {B : Type} `{BigMap B}.
Context (st : Statics) (m0 : mem) (ncpu key : Z) (rng : AllocRng) (k0 : K).
Context (Hstart : start_ok st ncpu key rng).
Context (w : World) (C : gmap Z Z) (Hreach : reachable st m0 ncpu key rng k0 (w, C)).

(** The settings now. *)
Abbreviation now := (w_statics w).

(** C1: The memory that the threads of a process hold, in every state that any sequence of
    allocations (through all six functions), frees, writes, thread switches and thread starts
    can reach: every block lies in a reserved range and is recognised as the allocator's own, at its
    start and at every multiple of 8 inside it, and no two blocks share a byte, whichever thread
    asked for them and whichever class or big range serves them. *)
Theorem client_blocks_exclusive :
  (∀ p n, C !! p = Some n → 0 ≤ n ∧ 0 < p ∧ p + n ≤ 2 ^ 57 ∧ heap_is_ours (w_heap w) p = Ret true ∧
     ∀ x, p ≤ x < p + n → x mod 8 = 0 → heap_is_ours (w_heap w) x = Ret true) ∧
  (∀ p q n k, p ≠ q → C !! p = Some n → C !! q = Some k → p + n ≤ q ∨ q + k ≤ p).
Proof.
  destruct (reachable_inv st _ _ _ _ _ _ Hstart Hreach) as [Hst (live & As & ls & gs & lss & U & Hw & HC)].
  pose proof (wi_heap _ _ _ _ _ _ _ _ Hw) as Hh. cbn [fst snd] in *. split.
  - intros p n Hp. destruct (client_extent now _ _ _ _ _ _ _ _ _ _ Hh HC Hp) as (b & u & Hb & Hu & Hn & E1 & E2 & E3).
    destruct (user_facts now _ _ _ _ _ _ _ _ _ Hh Hb) as (_ & F1 & F2 & F3 & F4 & F5 & F6 & _).
    split; [lia|]. split; [lia|]. split; [lia|]. split.
    { subst p. by eapply (user_ptr now). }
    intros x Hx Hm. eapply (user_ours now); [exact Hh|exact Hb|lia|exact Hm].
  - intros p q n k Hne Hp Hq.
    destruct (client_extent now _ _ _ _ _ _ _ _ _ _ Hh HC Hp) as (b & u & Hb & Hu & Hn & E1 & E2 & E3).
    destruct (client_extent now _ _ _ _ _ _ _ _ _ _ Hh HC Hq) as (c & v & Hc & Hv & Hk & G1 & G2 & G3).
    assert (b ≠ c) as Hbc by (intros ->; congruence).
    destruct (held_apart now _ _ _ _ _ _ _ _ _ _ _ Hh Hb Hc Hbc); lia.
Qed.

(** C2: No step changes a byte of a block that the client holds before and after it, except
    the client's own write to that byte: not an allocation, a free, a refill, a flush to the
    per-cpu lists, a round of the trim thread, nor anything another thread does.  Of the calls to
    [realloc] those to nothing and those above 3 GiB are steps, and the others where [resize_safe]
    holds. *)
Theorem client_contents_kept l y (Hstep : wstep l (w, C) y) p n b :
  C !! p = Some n → y.2 !! p = Some n → p ≤ b < p + n → l ≠ LWrite b →
  heap_mem (w_heap y.1) b = heap_mem (w_heap w) b.
Proof.
  destruct (client_step l (w, C) y) as (_ & Hk & _); [|done|apply Hk].
  exact (reachable_inv st _ _ _ _ _ _ Hstart Hreach).
Qed.

(** C3: Every allocating call of every reachable state, on any cpu, returns or ends the process: with
    one of three documented errors, with [OutOfMemory] when the table of big allocations has to
    grow and the kernel refuses it, or with a wild access when the thread is on a cpu that has no
    row in the per-cpu table; no panic and no loop.  What it returns is null or a pointer that the
    client does not hold, with the promised alignment and room for the bytes asked for, apart from
    everything the client holds. *)
Theorem client_alloc am call :
  call_wf call →
  (∃ p h', run_alloc now am (w_heap w) call = Ret (p, h') ∧
     (p = 0 ∨ 0 < p ∧ C !! p = None ∧ p mod promised_alignment call = 0 ∧
        ∀ q n, C !! q = Some n → p + asked call ≤ q ∨ q + n ≤ p)) ∨
  (∃ e, run_alloc now am (w_heap w) call = Abort e ∧
     (alloc_fault e ∨ e = Fatal OutOfMemory ∧ ¬ bmap_ready (hp_big (w_heap w)) ∨
      e = WildAccess ∧ ¬ cpus_ok am (w_heap w))).
Proof.
  intros Hwf.
  destruct (reachable_inv st _ _ _ _ _ _ Hstart Hreach) as [Hst (live & As & ls & gs & lss & U & Hw & HC)].
  pose proof (wi_heap _ _ _ _ _ _ _ _ Hw) as Hh. cbn [fst snd] in *.
  pose proof (run_alloc_any now Hst am _ _ _ _ _ _ _ call Hh Hwf) as Hres.
  destruct (run_alloc now am (w_heap w) call) as [[p h']|e]; cbn in Hres; [left|right].
  2: { exists e. split; [done|]. destruct Hres as [[?|?]|?]; auto. }
  exists p, h'. split; [done|].
  exact (fresh_apart _ _ _ _ _ _ _ _ _ _ _ _ _ Hh HC (asked_nonneg _ Hwf) Hres).
Qed.

(** C4: Freeing a pointer that the client holds succeeds, whatever the caches hold, and its usable size
    is at least what was asked for.  On a cpu that has no row in the per-cpu table, and only there,
    [free] may end in a wild access instead. *)
Theorem client_free_usable p n :
  C !! p = Some n →
  (∀ am, (∃ h', free now am (w_heap w) p = Ret (Here, h')) ∨
     free now am (w_heap w) p = Abort WildAccess ∧ ¬ cpus_ok am (w_heap w)) ∧
  ∃ size, malloc_usable_size (w_heap w) p = Ret (Here, size) ∧ n ≤ size.
Proof.
  intros Hp. destruct (reachable_inv st _ _ _ _ _ _ Hstart Hreach) as [Hst Hinv]. split.
  { intros am. pose proof (held_free now am w C p n Hst Hinv Hp) as Hf.
    destruct (free now am (w_heap w) p) as [[s h']|e]; [left|right].
    - cbn in Hf. subst s. by exists h'.
    - destruct Hf as [[]|[-> ?]]. done. }
  destruct Hinv as (live & As & ls & gs & lss & U & Hw & HC).
  pose proof (wi_heap _ _ _ _ _ _ _ _ Hw) as Hh. cbn [fst snd] in *.
  destruct (HC p n Hp) as (b & u & Hb & <- & Hn).
  exists (usable b u). split; [|lia]. by eapply malloc_usable_size_ok.
Qed.

(** C8: A second [free] of a small block right after the first is detected and ends the process
    with [DoubleFree], provided the two magic numbers differ.  Blocks of aligned allocation are
    left out, whose pointer has the tag before it. *)
Theorem double_free_detected am am2 p n h' :
  MAGIC st ≠ FREED_MAGIC st → C !! p = Some n →
  hget FClass (heap_mem (w_heap w)) (p - HEADER_SIZE) ≠ BIG_CLASS →
  load 8 (heap_mem (w_heap w)) (p - 16) ≠ OX_ALIGN_TAG →
  free now am (w_heap w) p = Ret (Here, h') → free now am2 h' p = Abort (Fatal DoubleFree).
Proof.
  intros Hm Hp Hcl Htag Hfree.
  destruct (reachable_state st _ _ _ _ _ _ Hstart Hreach) as [[Hst (live & As & ls & gs & lss & U & Hw & HC)] [t Ht]].
  pose proof (wi_heap _ _ _ _ _ _ _ _ Hw) as Hh. cbn [fst snd] in *.
  destruct (HC p n Hp) as (b & u & Hb & <- & Hn).
  destruct (user_facts now _ _ _ _ _ _ _ _ _ Hh Hb) as (Hok & _).
  destruct (uo_ptr _ _ _ _ _ _ Hok) as [(E & _)|(_ & _ & E & _)]; [|congruence].
  rewrite E in *. replace (b + HEADER_SIZE - HEADER_SIZE) with b in Hcl by lia.
  rewrite (uo_class _ _ _ _ _ _ Hok) in Hcl. rewrite <- E in Hfree.
  pose proof (free_any now Hst am _ _ _ _ _ _ _ _ _ Hh Hb) as Hres. rewrite Hfree in Hres.
  destruct Hres as [_ (l1 & A1 & s1 & g1 & Hto & Hin)]. cbn [snd] in *.
  destruct u as [[c|k] q]; [|done]. cbn [ub_kind] in Hin.
  eapply (double_free_ok now); [apply Hto|by rewrite Ht|done].
Qed.

(** C9: [calloc] multiplies without overflow and clears: when the product or the size does not
    fit it returns null, sets [errno] and changes nothing else; and every byte asked for of
    a block it returns is zero. *)
Theorem calloc_correct am nmemb size :
  0 ≤ nmemb → 0 ≤ size →
  (isize_max < size ∨ u64_max < nmemb * size →
     calloc now am (w_heap w) nmemb size = Ret (0, with_errno (w_heap w) NOMEM)) ∧
  (∀ p h', calloc now am (w_heap w) nmemb size = Ret (p, h') → p ≠ 0 →
     ∀ x, p ≤ x < p + nmemb * size → heap_mem h' x = 0).
Proof.
  intros Hn Hs. split.
  - intros Hov. unfold calloc, layout_array_u8. destruct (Z.leb_spec size isize_max); [|done].
    destruct Hov as [?|Hov]; [lia|]. unfold calc_and_get, checked_mul64. by rewrite (proj2 (Z.leb_gt _ _)).
  - intros p h' Hc Hp x Hx.
    destruct (reachable_inv st _ _ _ _ _ _ Hstart Hreach) as [Hst (live & As & ls & gs & lss & U & Hw & HC)].
    pose proof (calloc_any now Hst am _ _ _ _ _ _ _ nmemb size (wi_heap _ _ _ _ _ _ _ _ Hw) Hn Hs) as Hres.
    cbn [fst snd] in *. rewrite Hc in Hres. destruct Hres as [[? _]|(_ & [_ Hz] & _)]; [done|]. by apply Hz.
Qed.

(** C10: [posix_memalign] refuses a null [memptr] and an alignment that is no power of two or
    below the size of a pointer with [EINVAL], reports [ENOMEM] without storing anything, and
    otherwise stores a multiple of the alignment; or the process ends, with one of the three
    documented errors, with [OutOfMemory] when the table of big allocations has to grow and the kernel
    refuses it, or with a wild access on a cpu that has no row in the per-cpu table. *)
Theorem posix_memalign_correct am memptr al size :
  0 ≤ size →
  (memptr = 0 ∨ al < 8 ∨ is_power_of_two al = false →
     posix_memalign now am (w_heap w) memptr al size = Ret (EINVAL, None, w_heap w)) ∧
  (memptr ≠ 0 → 8 ≤ al → is_power_of_two al = true →
     (∃ h', posix_memalign now am (w_heap w) memptr al size = Ret (NOMEM, None, h')) ∨
     (∃ p h', posix_memalign now am (w_heap w) memptr al size = Ret (0, Some p, h') ∧ 0 < p ∧ p mod al = 0) ∨
     (∃ e, posix_memalign now am (w_heap w) memptr al size = Abort e ∧
        (alloc_fault e ∨ e = Fatal OutOfMemory ∧ ¬ bmap_ready (hp_big (w_heap w)) ∨
         e = WildAccess ∧ ¬ cpus_ok am (w_heap w)))).
Proof.
  intros Hs. split.
  - intros Hbad. unfold posix_memalign. destruct (Z.eqb_spec memptr 0); [done|].
    destruct Hbad as [?|[Hlt|Hpow]]; [done|by rewrite (proj2 (Z.ltb_lt _ _)) by lia|].
    rewrite Hpow. by rewrite orb_true_r.
  - intros Hp Hal Hpow.
    destruct (reachable_inv st _ _ _ _ _ _ Hstart Hreach) as [Hst (live & As & ls & gs & lss & U & Hw & HC)].
    pose proof (posix_memalign_any now Hst am _ _ _ _ _ _ _ memptr al size (wi_heap _ _ _ _ _ _ _ _ Hw) Hs Hp Hal Hpow) as Hres.
    cbn [fst snd] in *. destruct (posix_memalign now am (w_heap w) memptr al size) as [[[code r] h']|e].
    2: { right; right. exists e. split; [done|]. destruct Hres as [[?|?]|?]; auto. }
    destruct Hres as [(Hc & Hn & _)|(Hc & p & Hq & Hf & Hp0)]; cbn [fst snd] in *; subst code r; [by left; exists h'|].
    right; left. exists p, h'. split; [done|].
    destruct Hf as [[? _]|(Hpos & Hmod & _)]; done.
Qed.
End Properties.

(** ** A process of the default build *)

Definition demo_statics : Statics := mkStatics 17 34 0 0 0 false.
Definition demo_am : Ambient := mkAmbient 0 1 [] 4096.

Section Demo.
#[local] Existing Instance default_build.
(** A kernel that maps tables of up to 2^57 bytes. *)
Definition demo_maps (size : Z) : bool := size <=? 2 ^ 57.
Lemma demo_maps_fits size : demo_maps size = true → size ≤ 2 ^ 57.
Proof. by intros ?%Z.leb_le. Qed.
#[local] Instance demo_big : BigMap BigAllocMap := BigAllocMap_BigMap demo_maps demo_maps_fits.

Definition demo_heap : Heap Z BigAllocMap := start_heap (λ _, 0) 2 0 demo_rng 0.
Definition demo_alloc (h : Heap Z BigAllocMap) (call : alloc_call) : M (Z * Heap Z BigAllocMap) :=
  run_alloc demo_statics demo_am h call.

(** A small block, and one aligned to 64. *)
Definition demo_calls : M (Z * Z * Heap Z BigAllocMap * Heap Z BigAllocMap) :=
  '(p, h1) ← demo_alloc demo_heap (AMalloc 100);
  '(q, h2) ← demo_alloc h1 (AMemalign 4096 64 200);
  Ret (p, q, h1, h2).

Definition demo_facts (h : Heap Z BigAllocMap) (p : Z) : list Z :=
  [icc_ncpu (c_icc (hp_call h)); bm_cap (hp_big h); hget FClass (heap_mem h) (p - 16); load 8 (heap_mem h) (p - 16)].

Lemma demo_calls_result :
  (λ '(p, q, h1, h2), (p, q, demo_facts h1 p, demo_facts h2 p)) <$> demo_calls =
  Ret (3439960112, 3641344064, [2; 0; 6; 3439960240], [2; 0; 6; 3439960240]).
Proof. vm_compute. reflexivity. Qed.

Lemma demo_start : start_ok demo_statics 2 0 demo_rng.
Proof. split; [by split|done|apply demo_rng_ok|done|done]. Qed.

Definition demo_held : gmap Z Z := <[3641344064 := 200]> (<[3439960112 := 100]> ∅).

Lemma demo_state :
  ∃ w, reachable demo_statics (λ _, 0) 2 0 demo_rng 0 (w, demo_held) ∧ cpus_ok demo_am (w_heap w) ∧
    bmap_ready (hp_big (w_heap w)) ∧ hget FClass (heap_mem (w_heap w)) (3439960112 - 16) = 6 ∧
    load 8 (heap_mem (w_heap w)) (3439960112 - 16) = 3439960240 ∧ w_statics w = demo_statics.
Proof.
  destruct (fmap_Ret_inv _ _ _ demo_calls_result) as ([[[p q] h1] h2] & E & Hr).
  unfold demo_calls in E. apply bind_Ret_inv in E as ([p' h1'] & E1 & E).
  apply bind_Ret_inv in E as ([q' h2'] & E2 & E). injection E as -> -> -> ->.
  unfold demo_alloc in E1, E2. unfold demo_facts in Hr. injection Hr as -> -> N1 B1 C1 L1 N2 B2 C2 L2.
  exists (mkWorld h2 [] demo_statics). split; [|split; [|split; [|split; [exact C2|split; [exact L2|reflexivity]]]]].
  - apply (rtc_l _ _ (mkWorld h1 [] demo_statics, <[3439960112 := 100]> ∅)); [|apply rtc_once]; exists LCall.
    + refine (ws_alloc demo_am (AMalloc 100) (mkWorld demo_heap [] demo_statics) ∅ 3439960112 h1 _ E1). cbn. lia.
    + refine (ws_alloc demo_am (AMemalign 4096 64 200) (mkWorld h1 [] demo_statics) (<[3439960112 := 100]> ∅) 3641344064 h2 _ E2).
      cbn. lia.
  - unfold cpus_ok. cbn [w_heap]. rewrite N2. change ((0 ≤ 0 < 2) ∧ (0 ≤ 1 < 2)). lia.
  - change (next_granted demo_maps (hp_big h2) = true). unfold next_granted, next_cap. rewrite B2. reflexivity.
Qed.

Lemma demo_held_lookup : demo_held !! 3439960112 = Some 100 ∧ demo_held !! 3641344064 = Some 200.
Proof. split; vm_compute; reflexivity. Qed.

Lemma client_blocks_exclusive_witness :
  ∃ w, reachable demo_statics (λ _, 0) 2 0 demo_rng 0 (w, demo_held) ∧
    heap_is_ours (w_heap w) (3641344064 + 192) = Ret true ∧ 3439960112 + 100 ≤ 3641344064.
Proof.
  destruct demo_state as (w & Hr & _). exists w. split; [exact Hr|].
  destruct (client_blocks_exclusive demo_statics (λ _, 0) 2 0 demo_rng 0 demo_start w demo_held Hr) as [Hin Hap].
  destruct demo_held_lookup as [Hp Hq]. split.
  - destruct (Hin _ _ Hq) as (_ & _ & _ & _ & Hx). apply Hx; [lia|reflexivity].
  - destruct (Hap 3439960112 3641344064 100 200 ltac:(discriminate) Hp Hq); lia.
Defined.

(** The client writes the first byte of its second block. *)
Lemma client_contents_kept_witness :
  ∃ w w', reachable demo_statics (λ _, 0) 2 0 demo_rng 0 (w, demo_held) ∧
    wstep (LWrite 3641344064) (w, demo_held) (w', demo_held) ∧
    heap_mem (w_heap w') 3439960112 = heap_mem (w_heap w) 3439960112.
Proof.
  destruct demo_state as (w & Hr & _). destruct demo_held_lookup as [Hp Hq]. exists w. eexists. split; [exact Hr|].
  assert (Hs : wstep (LWrite 3641344064) (w, demo_held)
    (mkWorld (with_heap_mem (w_heap w) (λ y, if y =? 3641344064 then 7 else heap_mem (w_heap w) y)) (w_parked w) (w_statics w),
     demo_held)).
  { apply (ws_write w demo_held 3641344064 200 3641344064 7 Hq). lia. }
  split; [exact Hs|].
  exact (client_contents_kept demo_statics (λ _, 0) 2 0 demo_rng 0 demo_start w demo_held Hr _ _ Hs
    3439960112 100 3439960112 Hp Hp ltac:(lia) ltac:(discriminate)).
Defined.

(** Here the cpu has a row, and the kernel maps the table. *)
Lemma client_alloc_witness :
  ∃ w, reachable demo_statics (λ _, 0) 2 0 demo_rng 0 (w, demo_held) ∧
    ((∃ p h', demo_alloc (w_heap w) (ACalloc 10 50) = Ret (p, h') ∧
        (p = 0 ∨ 0 < p ∧ demo_held !! p = None ∧ p mod 16 = 0 ∧
           ∀ q n, demo_held !! q = Some n → p + 500 ≤ q ∨ q + n ≤ p)) ∨
     (∃ e, demo_alloc (w_heap w) (ACalloc 10 50) = Abort e ∧ alloc_fault e)).
Proof.
  destruct demo_state as (w & Hr & Ha & Hb & _ & _ & Hst). exists w. split; [exact Hr|].
  pose proof (client_alloc demo_statics (λ _, 0) 2 0 demo_rng 0 demo_start w demo_held Hr demo_am (ACalloc 10 50)
    ltac:(cbn; lia)) as Hres. rewrite Hst in Hres.
  destruct Hres as [Hres|(e & E & [He|[[_ Hno]|[_ Hno]]])];
    [left; exact Hres|right; exists e; split; [exact E|exact He]|destruct (Hno Hb)|destruct (Hno Ha)].
Defined.

Lemma client_free_usable_witness :
  ∃ w, reachable demo_statics (λ _, 0) 2 0 demo_rng 0 (w, demo_held) ∧
    (∃ h', free demo_statics demo_am (w_heap w) 3641344064 = Ret (Here, h')) ∧
    ∃ size, malloc_usable_size (w_heap w) 3641344064 = Ret (Here, size) ∧ 200 ≤ size.
Proof.
  destruct demo_state as (w & Hr & Ha & _ & _ & _ & Hst). exists w. split; [exact Hr|].
  destruct (client_free_usable demo_statics (λ _, 0) 2 0 demo_rng 0 demo_start w demo_held Hr 3641344064 200
    (proj2 demo_held_lookup)) as [Hf Hu]. rewrite Hst in Hf. split; [|exact Hu].
  destruct (Hf demo_am) as [Hret|[_ Hno]]; [exact Hret|destruct (Hno Ha)].
Defined.

Lemma double_free_detected_witness :
  ∃ w h', reachable demo_statics (λ _, 0) 2 0 demo_rng 0 (w, demo_held) ∧
    free demo_statics demo_am (w_heap w) 3439960112 = Ret (Here, h') ∧
    free demo_statics demo_am h' 3439960112 = Abort (Fatal DoubleFree).
Proof.
  destruct demo_state as (w & Hr & Ha & _ & Hc & Hl & Hst).
  destruct (free_returns demo_am w demo_held 3439960112 100 (reachable_inv _ _ _ _ _ _ _ demo_start Hr)
    (proj1 demo_held_lookup) Ha) as [h' Hfree].
  pose proof (double_free_detected demo_statics (λ _, 0) 2 0 demo_rng 0 demo_start w demo_held Hr demo_am demo_am
    3439960112 100 h' ltac:(discriminate) (proj1 demo_held_lookup)) as Hd.
  rewrite Hst in Hd, Hfree. exists w, h'. split; [exact Hr|]. split; [exact Hfree|]. apply Hd; [| |exact Hfree].
  - change HEADER_SIZE with 16. rewrite Hc. discriminate.
  - rewrite Hl. discriminate.
Defined.

Lemma calloc_correct_witness :
  ∃ w, reachable demo_statics (λ _, 0) 2 0 demo_rng 0 (w, demo_held) ∧
    calloc demo_statics demo_am (w_heap w) (2 ^ 40) (2 ^ 40) = Ret (0, with_errno (w_heap w) NOMEM) ∧
    ∀ p h', calloc demo_statics demo_am (w_heap w) 10 50 = Ret (p, h') → p ≠ 0 → ∀ x, p ≤ x < p + 500 → heap_mem h' x = 0.
Proof.
  destruct demo_state as (w & Hr & _ & _ & _ & _ & Hst). exists w. split; [exact Hr|]. rewrite <- Hst. split.
  - apply (proj1 (calloc_correct demo_statics (λ _, 0) 2 0 demo_rng 0 demo_start w demo_held Hr demo_am (2 ^ 40) (2 ^ 40)
      ltac:(lia) ltac:(lia))). right. unfold u64_max. lia.
  - exact (proj2 (calloc_correct demo_statics (λ _, 0) 2 0 demo_rng 0 demo_start w demo_held Hr demo_am 10 50
      ltac:(lia) ltac:(lia))).
Defined.

Lemma posix_memalign_correct_witness :
  ∃ w, reachable demo_statics (λ _, 0) 2 0 demo_rng 0 (w, demo_held) ∧
    posix_memalign demo_statics demo_am (w_heap w) 4096 48 10 = Ret (EINVAL, None, w_heap w).
Proof.
  destruct demo_state as (w & Hr & _ & _ & _ & _ & Hst). exists w. split; [exact Hr|]. rewrite <- Hst.
  apply (proj1 (posix_memalign_correct demo_statics (λ _, 0) 2 0 demo_rng 0 demo_start w demo_held Hr demo_am 4096 48 10
    ltac:(lia))). right; right. reflexivity.
Defined.
End Demo.
