(* ===== verification/ReallocClient.v ===== *)
(** * What a client can rely on when it resizes blocks, and where it cannot

    In every state that threads and their client can reach, a [realloc] that
    [resize_safe] admits keeps the contents, and so do those to nothing and to more than
    3 GiB.  Outside of it the code is wrong: a block of no
    bytes keeps its recorded size, and a block that is alone in its slab grows past the end of
    the slab. *)

From S2P Require Import Prelude Bits Lib Rng Segment SegmentSpec HashMap HashMapSpec Sys Radix SizeClass VaMap VaMapSpec VaLive.
From S2P Require Import Mem BlockList ThreadLocal Interconnect InterconnectSpec Bulk BulkSpec.
From S2P Require Import SlabInv SlabOps SlabFill Heap HeapInv HeapFill HeapBig HeapSpec Align AlignSpec.
From S2P Require Import Realloc ReallocSpec Trim ClientCalls Client ClientSpec.

Section Resize.
Context `{Config}.
Context {K : Type} `{LinuxKernel K}.
Context {B : Type} `{BigMap B}.
Context (st : Statics) (Hst : statics_ok st).
Context (w : World (K := K) (B := B)) (C : gmap Z Z) (live : gmap Z Z) (As : list arena) (ls gs : list (list Z))
  (lss : list (list (list Z))) (U : users).
Context (Hw : world_inv st w live As ls gs lss U) (HC : client_ok C U).

(** A block that [realloc p n] returns to the client, who held [m] bytes there. *)
Definition resized_block (p m n q : Z) (h' : Heap K B) : Prop :=
  0 < q ∧ (q = p ∨ C !! q = None) ∧
  (∀ i, 0 ≤ i < Z.min m n → heap_mem h' (q + i) = heap_mem (w_heap w) (p + i)) ∧
  ∀ r k, r ≠ p → C !! r = Some k → q + n ≤ r ∨ r + k ≤ q.

Definition resize_end (am am_free : Ambient) (e : fault) : Prop :=
  alloc_fault e ∨ e = Fatal OutOfMemory ∧ ¬ bmap_ready (hp_big (w_heap w)) ∨
  e = WildAccess ∧ ¬ (cpus_ok am (w_heap w) ∧ cpus_ok am_free (w_heap w)).

Lemma resize_some am am_free p m n :
  C !! p = Some m → 0 < n ≤ 1024 * 1024 * 1024 * 3 → resize_safe st (w_heap w) p n →
  post (realloc st am am_free (w_heap w) p n)
    (λ r, r.1.1 = Here ∧ (r.1.2 = 0 ∨ resized_block p m n r.1.2 r.2)) (resize_end am am_free).
Proof.
  intros Hp Hn Hs. pose proof (wi_heap _ _ _ _ _ _ _ _ Hw) as Hh. destruct (HC p m Hp) as (b & u & Hb & <- & Hm).
  pose proof (resize_safe_resizable st _ _ _ _ _ _ _ _ _ n Hh Hb (proj1 Hn) Hs) as Hrs.
  eapply post_mono; [exact (realloc_any st Hst am am_free _ _ _ _ _ _ _ _ _ n Hh Hb Hn Hrs)| |].
  2: { intros e [[?|?]|?]; unfold resize_end; auto. }
  intros [[s q] h'] [-> Hres]. split; [done|]. cbn [fst snd] in *.
  destruct Hres as [[Hz _]|(Hz & b' & u' & Hu' & Hb' & Hn' & (l1 & A1 & s1 & g1 & Hto) & Hbytes)]; cbn [fst snd] in *; [by left|right].
  assert (<[b' := u']> (delete b U) !! b' = Some u') as Hlk by apply lookup_insert_eq.
  assert (∀ r k, r ≠ ub_ptr u → C !! r = Some k → r ≠ q ∧ (q + n ≤ r ∨ r + k ≤ q)) as Hap.
  { intros r k Hne Hrk. destruct (HC r k Hrk) as (c & v & Hc & <- & Hk).
    assert (c ≠ b) as Hcb by congruence. assert (c ≠ b') as Hcb' by (destruct Hb' as [->|?]; congruence).
    assert (<[b' := u']> (delete b U) !! c = Some v) as Hlc by (by rewrite lookup_insert_ne, lookup_delete_ne by congruence).
    destruct (user_facts st _ _ _ _ _ _ _ _ _ (ht_inv Hto) Hlk) as (Hok & F1 & F2 & F3 & F4 & F5 & _).
    destruct (user_facts st _ _ _ _ _ _ _ _ _ (ht_inv Hto) Hlc) as (Hok' & G1 & G2 & G3 & G4 & G5 & _).
    pose proof (ptr_ok_range _ _ _ (uo_ptr _ _ _ _ _ _ Hok) F3). pose proof (ptr_ok_range _ _ _ (uo_ptr _ _ _ _ _ _ Hok') G3).
    pose proof (HEADER_SIZE_cases _). unfold usable in *.
    destruct (held_apart st _ _ _ _ _ _ _ _ _ _ _ (ht_inv Hto) Hlk Hlc ltac:(congruence)); lia. }
  split; [done|]. split; [|split; [|intros r k Hne Hrk; by apply Hap]].
  - destruct (decide (q = ub_ptr u)) as [?|Hne]; [by left|right]. destruct (C !! q) as [k|] eqn:E; [|done]. exfalso.
    by destruct (Hap q k Hne E).
  - intros i Hi. apply Hbytes. lia.
Qed.

Lemma resize_none am am_free p m :
  C !! p = Some m →
  post (realloc st am am_free (w_heap w) p 0)
    (λ r, r.1.1 = Here ∧ (r.1.2 = 0 ∨ resized_block p m 0 r.1.2 r.2)) (resize_end am am_free).
Proof.
  intros Hp. pose proof (wi_heap _ _ _ _ _ _ _ _ Hw) as Hh. destruct (HC p m Hp) as (b & u & Hb & <- & Hm).
  rewrite (realloc_zero st am am_free _ _ _ _ _ _ _ _ _ Hh Hb). eapply post_bind.
  { eapply post_mono; [exact (free_any st Hst am_free _ _ _ _ _ _ _ _ _ Hh Hb)|done|].
    intros e [[]|[-> Hno]]. right; right. split; [done|]. by intros [_ ?]. }
  intros [s h1] [_ (l1 & A1 & s1 & g1 & Hto & _)]. cbn [snd] in Hto. pose proof (ht_inv Hto) as Hh1. eapply post_bind.
  { eapply post_mono; [exact (malloc_class_any st Hst am _ _ _ _ _ _ _ 1 Hh1 ltac:(lia))|done|].
    intros e [?|[-> Hno]]; [by left|]. right; right. split; [done|]. intros [[Ha1 Ha2] _]. apply Hno.
    unfold cpus_ok. by rewrite (ht_ncpu Hto). }
  intros [q h2] Hres%alloc_fresh. split; [done|]. cbn [fst snd].
  assert (client_ok (delete (ub_ptr u) C) (delete b U)) as HC1 by by eapply client_delete.
  destruct (fresh_apart st _ _ _ _ _ _ _ _ _ _ 1 _ Hh1 HC1 ltac:(lia) Hres) as [?|(Hq & HqC & _ & Hap)]; [by left|right].
  split; [done|]. split; [|split; [lia|]].
  - apply lookup_delete_None in HqC as [?|?]; auto.
  - intros r k Hne Hr. assert (delete (ub_ptr u) C !! r = Some k) as Hr' by by rewrite lookup_delete_ne.
    destruct (Hap r k Hr'); lia.
Qed.

Lemma resize_any am am_free p m n :
  C !! p = Some m → 0 ≤ n → (0 < n ≤ 1024 * 1024 * 1024 * 3 → resize_safe st (w_heap w) p n) →
  post (realloc st am am_free (w_heap w) p n)
    (λ r, r.1.1 = Here ∧ (r.1.2 = 0 ∨ resized_block p m n r.1.2 r.2)) (resize_end am am_free).
Proof.
  intros Hp Hn Hs. destruct (decide (n = 0)) as [->|Hne]; [by apply resize_none|].
  destruct (decide (n ≤ 1024 * 1024 * 1024 * 3)) as [Hle|Hgt]; [apply resize_some; [done|lia|apply Hs; lia]|].
  destruct (client_extent st _ _ _ _ _ _ _ _ _ _ (wi_heap _ _ _ _ _ _ _ _ Hw) HC Hp) as (b & u & Hb & _ & _ & Hpos & _).
  destruct (user_facts st _ _ _ _ _ _ _ _ _ (wi_heap _ _ _ _ _ _ _ _ Hw) Hb) as (_ & F1 & _).
  rewrite realloc_too_big by lia. split; [done|by left].
Qed.
End Resize.

Section Properties.
Context `{Config}.
Context {K : Type} `{LinuxKernel K}.
Context {B : Type} `{BigMap B}.
Context (st : Statics) (m0 : mem) (ncpu key : Z) (rng : AllocRng) (k0 : K).
Context (Hstart : start_ok st ncpu key rng).
Context (w : World) (C : gmap Z Z) (Hreach : reachable st m0 ncpu key rng k0 (w, C)).

(** The settings now. *)
Abbreviation now := (w_statics w).

(** C5: [realloc] of a pointer that the client holds, in every reachable state and on any cpu, where
    [resize_safe] holds: for aligned blocks, for blocks of a class with several blocks to a slab or
    of a class that the new size still has, and for big blocks of more than 2 MiB without forced
    huge pages.  (For the other blocks see
    [realloc_overruns_slab] and [realloc_of_empty_block].)  It is not needed
    when the new size is 0 or above 3 GiB.  The call returns or ends the process as an allocating
    call may.  If it returns null the client's blocks are as they were, without the old one if the
    new size was 0; otherwise the first bytes of the block it returns, as many as the old request
    and the new have in common, are those of the old block, and the new block meets no other block of
    the client.  This covers blocks that stay, big blocks that shrink or grow in place (and the way
    back when the kernel refuses the pages), and blocks that move. *)
Theorem client_realloc am am_free p m n :
  C !! p = Some m → 0 ≤ n → (0 < n ≤ 1024 * 1024 * 1024 * 3 → resize_safe now (w_heap w) p n) →
  (∃ q h', realloc now am am_free (w_heap w) p n = Ret (Here, q, h') ∧
     ((q = 0 ∧ ∀ r k x, C !! r = Some k → (n = 0 → r ≠ p) → r ≤ x < r + k → heap_mem h' x = heap_mem (w_heap w) x) ∨
      (0 < q ∧ (q = p ∨ C !! q = None) ∧
       (∀ i, 0 ≤ i < Z.min m n → heap_mem h' (q + i) = heap_mem (w_heap w) (p + i)) ∧
       ∀ r k, r ≠ p → C !! r = Some k → q + n ≤ r ∨ r + k ≤ q))) ∨
  (∃ e, realloc now am am_free (w_heap w) p n = Abort e ∧
     (alloc_fault e ∨ e = Fatal OutOfMemory ∧ ¬ bmap_ready (hp_big (w_heap w)) ∨
      e = WildAccess ∧ ¬ (cpus_ok am (w_heap w) ∧ cpus_ok am_free (w_heap w)))).
Proof.
  intros Hp Hn Hs.
  destruct (reachable_inv st _ _ _ _ _ _ Hstart Hreach) as [Hst (live & As & ls & gs & lss & U & Hw & HC)].
  pose proof (resize_any now Hst w C _ _ _ _ _ _ Hw HC am am_free p m n Hp Hn Hs) as Hres.
  destruct (realloc now am am_free (w_heap w) p n) as [[[s q] h']|e] eqn:E; [left|right; by exists e].
  destruct Hres as [Es Hres]. cbn [fst snd] in *. subst s. exists q, h'. split; [done|].
  destruct Hres as [->|Hres]; [left|right; exact Hres]. split; [done|]. intros r k x Hr Hne Hx.
  destruct (client_realloc_step now Hst w _ _ _ _ _ _ C am am_free p m n Here 0 h' Hw HC Hp Hn Hs E) as [_ Hk].
  apply (Hk r k x); [exact Hr| |exact Hx|done]. cbn [snd]. unfold resized_held. cbn [Z.eqb].
  destruct (Z.eqb_spec n 0) as [Hz|_]; [|exact Hr]. rewrite lookup_delete_ne; [exact Hr|]. intros ->. by apply Hne.
Qed.

(** A block from [malloc(0)] has a recorded size of 0 and a page of its own.  A [realloc] of it
    to as much as 3840 bytes gives the same pointer and changes nothing: the client was given
    [n] bytes, and the recorded size is still 0, so that the next [realloc] that moves the
    block copies none of them. *)
Theorem realloc_of_empty_block am am_free p m n :
  C !! p = Some m → hget FClass (heap_mem (w_heap w)) (p - HEADER_SIZE) = BIG_CLASS →
  load 8 (heap_mem (w_heap w)) (p - 16) ≠ OX_ALIGN_TAG → malloc_usable_size (w_heap w) p = Ret (Here, 0) →
  OX_FORCE_THP st = false → 0 < n ≤ 3840 →
  realloc now am am_free (w_heap w) p n = Ret (Here, p, w_heap w).
Proof.
  intros Hp Hcl Htag Hus Hthp Hn.
  destruct (reachable_state st _ _ _ _ _ _ Hstart Hreach) as [[Hst (live & As & ls & gs & lss & U & Hw & HC)] [t Ht]].
  pose proof (wi_heap _ _ _ _ _ _ _ _ Hw) as Hh. cbn [fst snd] in *.
  destruct (HC p m Hp) as (b & u & Hb & <- & Hm).
  destruct (user_facts now _ _ _ _ _ _ _ _ _ Hh Hb) as (Hok & _).
  destruct (uo_ptr _ _ _ _ _ _ Hok) as [(E & _)|(_ & _ & E & _)]; [|congruence].
  rewrite E in Hcl. replace (b + HEADER_SIZE - HEADER_SIZE) with b in Hcl by lia.
  rewrite (uo_class _ _ _ _ _ _ Hok) in Hcl.
  rewrite (malloc_usable_size_ok now _ _ _ _ _ _ _ _ _ Hh Hb) in Hus. injection Hus as Hus.
  destruct u as [[c|k] q]; unfold kind_class in Hcl; cbn [ub_kind ub_ptr] in *.
  - exfalso. destruct (slab_slots now _ _ _ _ _ _ (hi_slab Hh)) as (_ & Q2 & _). rewrite Forall_forall in Q2.
    destruct (uo_place _ _ _ _ _ _ Hok) as (a & Haa & _ & Hca). pose proof (ai_class _ _ (Q2 a Haa)) as Hc.
    cbn in Hca. rewrite Hca, Hcl in Hc. change NUM_SIZE_CLASSES with 34 in Hc. unfold BIG_CLASS in Hc. lia.
  - unfold usable in Hus. cbn [cap ub_kind ub_ptr] in Hus. assert (k = 0) as -> by lia. subst q.
    eapply (realloc_empty_ok now); [done..|by rewrite Ht|done].
Qed.
End Properties.

(** ** A process of the default build *)

Section Demo.
#[local] Existing Instance default_build.
#[local] Existing Instance demo_big.

Lemma client_realloc_witness :
  ∃ w, reachable demo_statics (λ _, 0) 2 0 demo_rng 0 (w, demo_held) ∧
    ((∃ q h', realloc demo_statics demo_am demo_am (w_heap w) 3439960112 5000 = Ret (Here, q, h') ∧
       ((q = 0 ∧ ∀ r k x, demo_held !! r = Some k → (5000 = 0 → r ≠ 3439960112) → r ≤ x < r + k →
           heap_mem h' x = heap_mem (w_heap w) x) ∨
        (0 < q ∧ (q = 3439960112 ∨ demo_held !! q = None) ∧
         (∀ i, 0 ≤ i < Z.min 100 5000 → heap_mem h' (q + i) = heap_mem (w_heap w) (3439960112 + i)) ∧
         ∀ r k, r ≠ 3439960112 → demo_held !! r = Some k → q + 5000 ≤ r ∨ r + k ≤ q))) ∨
     (∃ e, realloc demo_statics demo_am demo_am (w_heap w) 3439960112 5000 = Abort e ∧ alloc_fault e)).
Proof.
  destruct demo_state as (w & Hr & Ha & Hb & Hc & _ & Hst). exists w. split; [exact Hr|].
  pose proof (client_realloc demo_statics (λ _, 0) 2 0 demo_rng 0 demo_start w demo_held Hr demo_am demo_am
    3439960112 100 5000 (proj1 demo_held_lookup) ltac:(lia)) as Hres. rewrite Hst in Hres.
  destruct Hres as [Hres|(e & E & [He|[[_ Hno]|[_ Hno]]])];
    [|left; exact Hres|right; exists e; split; [exact E|exact He]|destruct (Hno Hb)|destruct (Hno (conj Ha Ha))].
  intros _. right. change HEADER_SIZE with 16. rewrite Hc. left. discriminate.
Defined.

(** The client asks for nothing. *)
Definition empty_run : M (Z * Heap Z BigAllocMap) := malloc demo_statics demo_am demo_heap 0.

Lemma empty_run_result :
  (λ '(p, h), (p, hget FClass (heap_mem h) (p - 16), load 8 (heap_mem h) (p - 16), malloc_usable_size h p)) <$> empty_run =
  Ret (3439898640, 100, 0, Ret (Here, 0)).
Proof. vm_compute. reflexivity. Qed.

Lemma realloc_of_empty_block_witness :
  ∃ w, reachable demo_statics (λ _, 0) 2 0 demo_rng 0 (w, <[3439898640 := 0]> ∅) ∧
    realloc demo_statics demo_am demo_am (w_heap w) 3439898640 100 = Ret (Here, 3439898640, w_heap w) ∧
    malloc_usable_size (w_heap w) 3439898640 = Ret (Here, 0).
Proof.
  destruct (fmap_Ret_inv _ _ _ empty_run_result) as ([p h] & E & Hr). injection Hr as -> Hc Ht Hu.
  assert (Htag : load 8 (heap_mem h) (3439898640 - 16) = 0) by exact Ht. exists (mkWorld h [] demo_statics).
  assert (Hreach : reachable demo_statics (λ _, 0) 2 0 demo_rng 0 (mkWorld h [] demo_statics, <[3439898640 := 0]> ∅)).
  { apply rtc_once. exists LCall.
    refine (ws_alloc demo_am (AMalloc 0) (mkWorld demo_heap [] demo_statics) ∅ 3439898640 h _ E). cbn. lia. }
  split; [exact Hreach|]. split; [|exact Hu].
  refine (realloc_of_empty_block demo_statics (λ _, 0) 2 0 demo_rng 0 demo_start (mkWorld h [] demo_statics) _ Hreach demo_am demo_am
    3439898640 0 100 _ Hc _ Hu eq_refl _).
  - vm_compute. reflexivity.
  - cbn [w_heap]. rewrite Htag. discriminate.
  - lia.
Defined.

(** A block of the largest class grows in place, into the next page; its end is written, and it
    is freed. *)
Definition overrun : M (Z * Z * Heap Z BigAllocMap * Heap Z BigAllocMap) :=
  '(p, h) ← malloc demo_statics demo_am demo_heap 2097152;
  '(_, q, h) ← realloc demo_statics demo_am demo_am h p 2101232;
  let h := with_heap_mem h (store 1 (heap_mem h) (q + 2101231) 7) in
  '(_, h') ← free demo_statics demo_am h q;
  Ret (p, q, h, h').

Definition taken_bool (va : VaState) (x : Z) : bool :=
  existsb (λ '(_, s), (va_start s <=? x) && (x <? va_start s + max_bits s * BLOCK_SIZE) &&
    bit (seg_map s) ((x - va_start s) / BLOCK_SIZE)) (map_to_list (va_segs va)).

Lemma taken_bool_spec va x : taken va x → taken_bool va x = true.
Proof.
  intros (p & s & Hp & [Hlo Hhi] & Hb). unfold taken_bool. apply existsb_exists. exists (p, s). split.
  - by apply list_elem_of_In, elem_of_map_to_list.
  - by rewrite Hb, (proj2 (Z.leb_le _ _)), (proj2 (Z.ltb_lt _ _)) by done.
Qed.

Lemma overrun_result :
  (λ '(p, q, h, h'), (p, q, malloc_usable_size h q, taken_bool (c_va (hp_call h)) (q + 2101231),
     (heap_mem h (q + 2101231), heap_mem h' (q + 2101231)))) <$> overrun =
  Ret (3439960112, 3439960112, Ret (Here, 2101232), false, (7, 0)).
Proof. vm_compute. reflexivity. Qed.

(** C39: A block of a class with one block to a slab does not start at a page, but [realloc] resizes
    it as if it did.  From the start, [malloc(2097152)] and a [realloc] of the result to 2101232
    bytes give a block whose last byte is in no range that is in use, so that another
    allocation can be given it; and when the block is freed, that byte is set to 0, whoever holds
    it. *)
Theorem realloc_overruns_slab :
  ∃ p h h', overrun = Ret (p, p, h, h') ∧ malloc_usable_size h p = Ret (Here, 2101232) ∧
    ¬ taken (c_va (hp_call h)) (p + 2101231) ∧
    heap_mem h (p + 2101231) = 7 ∧ heap_mem h' (p + 2101231) = 0.
Proof.
  destruct (fmap_Ret_inv _ _ _ overrun_result) as ([[[p q] h] h'] & E & Hr). injection Hr as -> -> Hu Ht Hb Hb'.
  exists 3439960112, h, h'. split; [exact E|]. split; [exact Hu|]. split; [|split; [exact Hb|exact Hb']].
  intros Htk%taken_bool_spec. congruence.
Qed.
End Demo.
