(* ===== verification/ThreadsSpec.v ===== *)
(** * What ends and what tidies up: the end of a thread and a round of the trim thread

    In every state that threads and their client can reach, both return, and both keep
    every block: what the ending thread had in its cache is in the per-cpu lists
    afterwards, and the trim thread puts back what it takes. *)

From S2P Require Import Prelude Bits Lib Rng Segment SegmentSpec HashMap HashMapSpec Sys Radix SizeClass VaMap VaMapSpec VaLive.
From S2P Require Import Mem BlockList ThreadLocal Interconnect InterconnectSpec Bulk BulkSpec.
From S2P Require Import SlabInv SlabOps SlabFill Heap HeapInv HeapFill HeapBig HeapSpec Align AlignSpec.
From S2P Require Import Realloc ReallocSpec Trim TrimSpec ThreadExit ClientCalls Client ClientSpec.

(** The blocks that the counters of the per-cpu lists, and of a cache, tell. *)
Definition icc_total (icc : InterConnectCache) : Z := foldr Z.add 0 (icc_usage icc).
Definition cache_total (e : ThreadLocalEngine) : Z := foldr Z.add 0 (bin_usage <$> tls e).

Section Counts.
Context `{Config}.
Context {K : Type} `{LinuxKernel K}.
Context {B : Type} `{BigMap B}.
Context (st : Statics).

Lemma cache_total_ok m e ls : engine_rep m e ls → cache_total e = zlen (concat ls).
Proof.
  intros [_ Hb _ _]. unfold cache_total. induction Hb as [|b l bs ls' [_ Hu] _ IH]; [done|].
  cbn [fmap list_fmap foldr concat]. by rewrite zlen_app, Hu, IH.
Qed.

(** Blocks do not go away, and keep their class. *)
Lemma heap_blocks_grown c live As ls gs rest As' :
  SlabOps.slab_inv st c live As ls gs rest → grown As As' → heap_blocks As ⊆+ heap_blocks As'.
Proof.
  intros Hinv Hg. pose proof (slab_separated st _ _ _ _ _ _ Hinv) as Hs%separated_NoDup.
  rewrite <- (si_blocks _ _ _ _ _ _ _ Hinv) in Hs.
  apply NoDup_submseteq; [done|]. intros h (a & Ha & Hh)%elem_of_heap_blocks.
  destruct (Hg a Ha) as (a' & Ha' & Hbase & Hcl & Hn). apply elem_of_heap_blocks. exists a'. split; [done|].
  by eapply arena_blocks_mono.
Qed.

Lemma grown_class m m' live live' As As' h :
  arenas_ok m live As → arenas_ok m' live' As' → grown As As' → h ∈ heap_blocks As → hget FClass m' h = hget FClass m h.
Proof.
  intros [_ _ Hm] [_ _ Hm'] Hg (a & Ha & Hh)%elem_of_heap_blocks. destruct (Hg a Ha) as (a' & Ha' & Hb & Hc & Hn).
  rewrite Forall_forall in Hm, Hm'. destruct (Hm a Ha) as [_ _ Hcl]. destruct (Hm' a' Ha') as [_ _ Hcl'].
  rewrite Forall_forall in Hcl, Hcl'. rewrite (Hcl h Hh), (Hcl' h), Hc; [done|by eapply arena_blocks_mono].
Qed.

(** What was in the caches is in the per-cpu lists. *)
Lemma handed_over c live As ls gs rest c' ls' gs' :
  SlabOps.slab_inv st c live As ls gs rest → call_ok st c live As rest c' ls' gs' → concat ls' = [] →
  concat ls ++ concat gs ⊆+ concat gs'.
Proof.
  intros Hinv (l2 & A2 & Hinv' & [_ Hg _] & _) Hempty. pose proof (heap_blocks_grown _ _ _ _ _ _ _ Hinv Hg) as Hsub.
  rewrite (si_blocks _ _ _ _ _ _ _ Hinv), (si_blocks _ _ _ _ _ _ _ Hinv'), Hempty, app_assoc in Hsub.
  cbn [app] in Hsub. by apply submseteq_app_inv_r in Hsub.
Qed.

Lemma handed_class c live As ls gs rest c' ls' gs' class l h :
  SlabOps.slab_inv st c live As ls gs rest → call_ok st c live As rest c' ls' gs' → concat ls' = [] →
  zlookup ls class = Some l → h ∈ l →
  ∃ i l', zlookup gs' i = Some l' ∧ i mod NUM_SIZE_CLASSES = class ∧ h ∈ l'.
Proof.
  intros Hinv Hok Hempty Hl Hh. pose proof (handed_over _ _ _ _ _ _ _ _ _ Hinv Hok Hempty) as Hsub.
  destruct Hok as (l2 & A2 & Hinv' & [_ Hg _] & _). assert (h ∈ concat ls) as Hc by by eapply elem_of_concat_z.
  assert (h ∈ heap_blocks As) as Hb by (rewrite (si_blocks _ _ _ _ _ _ _ Hinv), elem_of_app; by left).
  assert (h ∈ concat gs') as Hgs by (eapply elem_of_submseteq; [|exact Hsub]; apply elem_of_app; by left).
  apply elem_of_concat_zlookup in Hgs as (i & l' & Hi & Hh'). exists i, l'. split; [done|]. split; [|done].
  pose proof (si_gs _ _ _ _ _ _ _ Hinv' i l' Hi) as Hty'. pose proof (si_ls _ _ _ _ _ _ _ Hinv class l Hl) as Hty.
  rewrite Forall_forall in Hty, Hty'. destruct (Hty h Hh) as [<- _], (Hty' h Hh') as [<- _].
  eapply grown_class; [apply Hinv|apply Hinv'|done|done].
Qed.
End Counts.

Section Properties.
Context `{Config}.
Context {K : Type} `{LinuxKernel K}.
Context {B : Type} `{BigMap B}.
Context (st : Statics) (m0 : mem) (ncpu key : Z) (rng : AllocRng) (k0 : K).
Context (Hstart : start_ok st ncpu key rng).
Context (w : World) (C : gmap Z Z) (Hreach : reachable st m0 ncpu key rng k0 (w, C)).

(** The settings now. *)
Abbreviation now := (w_statics w).

(** C11: When a thread ends, in any reachable state, the clean-up of its cache returns, unless the thread
    is on a cpu that has no row in the per-cpu table.  (The mapping of the thread's own cache, which is
    given back, holds no descriptor of the address map: [engine_apart].)  Decode the lists: [ls] are those of the
    cache, [gs] the per-cpu lists before and [gs'] those after.  Every block that was in one of
    them is in a per-cpu list afterwards, no block twice; a block of the cache is in a list of
    its own class; and no byte of a block of the client changes. *)
Theorem thread_exit_hands_over list_am drain_am cache :
  let c := hp_call (w_heap w) in
  engine_apart (c_va c) cache →
  (∃ c' ls gs gs', cleanup_thread_cache now list_am drain_am c cache = Ret c' ∧
     engine_rep (c_mem c) (c_engine c) ls ∧ icc_rep (NUMA_KEY st) (c_mem c) (c_icc c) gs ∧
     icc_rep (NUMA_KEY st) (c_mem c') (c_icc c') gs' ∧
     concat ls ++ concat gs ⊆+ concat gs' ∧ NoDup (concat gs') ∧
     (∀ class l h, zlookup ls class = Some l → h ∈ l →
        ∃ i l', zlookup gs' i = Some l' ∧ i mod NUM_SIZE_CLASSES = class ∧ h ∈ l') ∧
     ∀ p n b, C !! p = Some n → p ≤ b < p + n → c_mem c' b = c_mem c b) ∨
  cleanup_thread_cache now list_am drain_am c cache = Abort WildAccess ∧ ¬ exit_cpus_ok list_am drain_am c.
Proof.
  intros c Hap.
  destruct (reachable_state st _ _ _ _ _ _ Hstart Hreach) as [[Hst (live & As & ls & gs & lss & U & Hw & HC)] [t Ht]].
  pose proof (wi_heap _ _ _ _ _ _ _ _ Hw) as Hh. cbn [fst snd] in *. pose proof (hi_slab Hh) as Hs.
  pose proof (exit_any now Hst list_am drain_am _ _ _ _ _ _ cache Hs Hap) as Hres. fold c in Hs, Hres.
  destruct (cleanup_thread_cache now list_am drain_am c cache) as [c'|e]; [left|right].
  2: { destruct Hres as [[]|[-> ?]]. done. }
  destruct Hres as (tl & ls' & gs' & Hok & Hempty). exists c', ls, gs, gs'. split; [done|].
  assert (NUMA_KEY st = NUMA_KEY now) as -> by by rewrite Ht.
  pose proof Hok as (l2 & A2 & Hs2 & _). split; [apply Hs|]. split; [apply Hs|]. split; [apply Hs2|].
  split; [by eapply handed_over|]. split; [apply separated_NoDup, (ir_sep _ _ _ _ (si_icc _ _ _ _ _ _ _ Hs2))|].
  split; [intros class l h; by eapply handed_class|].
  destruct (heap_of_slab now _ _ _ _ _ _ _ _ _ _ _ Hh Hok) as (l1 & A1 & Hto).
  intros p n b Hp Hb. destruct (HC p n Hp) as (q & u & Hq & <- & Hn).
  exact (frame_kept now (w_heap w) (with_call (w_heap w) (ghost tl c')) _ _ _ _ _ _ _ q u n b Hh (ht_frame Hto) Hq Hq Hn Hb).
Qed.

(** C12: A round of the trim thread, in any reachable state with at most 2^28 blocks in the per-cpu
    lists, whatever the kernel says of its memory and on any cpu, returns: every loop over the lists
    ends, no counter overflows, every block that was taken out is put back, so that the lists count
    as many blocks as before, no byte of a block of the client changes, and the stamp is the
    time modulo 2^32.  There are two exceptions: the answer of the kernel makes one of the sums or
    the product of [check_memory_pressure] overflow, which panics, or a cpu has no row in the per-cpu
    table. *)
Theorem trim_round_keeps_blocks round_am block_am g time info :
  let c := hp_call (w_heap w) in
  icc_total (c_icc c) ≤ 2 ^ 28 →
  (∃ g' c', gtrim_round now round_am block_am g c time info = Ret (with_stamp now (time mod 2 ^ 32), g', c') ∧
     icc_total (c_icc c') = icc_total (c_icc c) ∧
     ∀ p n b, C !! p = Some n → p ≤ b < p + n → c_mem c' b = c_mem c b) ∨
  (gtrim_round now round_am block_am g c time info = Abort (Panic ArithOverflow) ∧ ¬ pressure_fits info) ∨
  (gtrim_round now round_am block_am g c time info = Abort WildAccess ∧ ¬ trim_cpus_ok round_am block_am c).
Proof.
  intros c Hcount.
  destruct (reachable_inv st _ _ _ _ _ _ Hstart Hreach) as [Hst (live & As & ls & gs & lss & U & Hw & HC)].
  pose proof (wi_heap _ _ _ _ _ _ _ _ Hw) as Hh. cbn [fst snd] in *. pose proof (hi_slab Hh) as Hs.
  pose proof (trim_any now round_am block_am g _ _ _ _ _ _ time info Hs Hcount) as Hres. fold c in Hs, Hres.
  destruct (gtrim_round now round_am block_am g c time info) as [[[st' g'] c']|e]; [left|right].
  2: { destruct Hres as [[-> ?]|[-> ?]]; auto. }
  destruct Hres as (Est & gs2 & Hok & Hn). cbn [fst snd] in *. subst st'. exists g', c'. split; [done|].
  destruct (heap_of_slab now _ _ _ _ _ _ _ _ _ _ _ Hh Hok) as (l1 & A1 & Hto). split.
  - destruct Hok as (l2 & A2 & Hs2 & _). unfold icc_total.
    pose proof (usage_sum _ _ _ _ (si_icc _ _ _ _ _ _ _ Hs)) as T1.
    pose proof (usage_sum _ _ _ _ (si_icc _ _ _ _ _ _ _ Hs2)) as T2. congruence.
  - intros p n b Hp Hb. destruct (HC p n Hp) as (q & u & Hq & <- & Hnn).
    exact (frame_kept now (w_heap w) (with_call (w_heap w) c') _ _ _ _ _ _ _ q u n b Hh (ht_frame Hto) Hq Hq Hnn Hb).
Qed.
End Properties.

(** ** A process of the default build *)

Section Demo.
#[local] Existing Instance default_build.
#[local] Existing Instance demo_big.

(** The first thread asks for a block, a second thread starts, and the first ends. *)
Definition demo_spawn : M (Z * Heap Z BigAllocMap * Heap Z BigAllocMap * ThreadLocalEngine * Z) :=
  '(p, h1) ← demo_alloc demo_heap (AMalloc 100);
  '(cache, e, k) ← init_tls demo_am (c_kernel (hp_call h1));
  Ret (p, h1, with_heap_kernel h1 k, e, cache).

Definition demo_exit : M (Z * Heap Z BigAllocMap * Heap Z BigAllocMap * ThreadLocalEngine * Call Z) :=
  '(p, h1, h2, e, cache) ← demo_spawn;
  c' ← cleanup_thread_cache demo_statics (λ _, demo_am) (λ _, demo_am) (hp_call h2) 8192;
  Ret (p, h1, h2, e, c').

Definition exit_facts (h : Heap Z BigAllocMap) : Z * list Z * Z * Z :=
  (icc_ncpu (c_icc (hp_call h)), fst <$> map_to_list (va_segs (c_va (hp_call h))),
   cache_total (c_engine (hp_call h)), icc_total (c_icc (hp_call h))).

Lemma demo_exit_result :
  (λ '(p, h1, h2, e, c'), (p, exit_facts h2, xor_key e, icc_ncpu (c_icc c'), icc_total (c_icc c'))) <$> demo_exit =
  Ret (3439960112, (2, [4295299072], 27, 0), 0, 2, 169).
Proof. vm_compute. reflexivity. Qed.

Definition held_100 : gmap Z Z := <[3439960112 := 100]> ∅.

Lemma exit_counts h : exit_facts h = (2, [4295299072], 27, 0) →
  icc_ncpu (c_icc (hp_call h)) = 2 ∧ fst <$> map_to_list (va_segs (c_va (hp_call h))) = [4295299072] ∧
  cache_total (c_engine (hp_call h)) = 27 ∧ icc_total (c_icc (hp_call h)) = 0.
Proof. intros [[[? ?]%pair_eq ?]%pair_eq ?]%pair_eq. done. Qed.

Lemma exit_engine_apart h : exit_facts h = (2, [4295299072], 27, 0) → engine_apart (c_va (hp_call h)) 8192.
Proof.
  intros (_ & Hk & _)%exit_counts. split; [done|]. intros p [s Hp] Hin.
  assert (p ∈ (fst <$> map_to_list (va_segs (c_va (hp_call h))))) as Hm.
  { apply list_elem_of_fmap. exists (p, s). split; [done|]. by apply elem_of_map_to_list. }
  rewrite Hk in Hm. apply list_elem_of_singleton in Hm as ->. change ENGINE_SIZE with 832 in Hin. lia.
Qed.

Lemma exit_cpus (c : Call Z) : icc_ncpu (c_icc c) = 2 → exit_cpus_ok (λ _, demo_am) (λ _, demo_am) c.
Proof. intros Hn class _. unfold push_cpu_ok. rewrite Hn. change ((0 ≤ 1 < 2) ∧ (0 ≤ 1 < 2)). lia. Qed.

(** Before the first thread ends, and afterwards. *)
Lemma exit_states :
  ∃ h e c', reachable demo_statics (λ _, 0) 2 0 demo_rng 0 (mkWorld h [(e, demo_rng)] demo_statics, held_100) ∧
    exit_facts h = (2, [4295299072], 27, 0) ∧
    cleanup_thread_cache demo_statics (λ _, demo_am) (λ _, demo_am) (hp_call h) 8192 = Ret c' ∧
    reachable demo_statics (λ _, 0) 2 0 demo_rng 0 (mkWorld (with_thread (with_call h c') (e, demo_rng)) [] demo_statics, held_100) ∧
    icc_ncpu (c_icc c') = 2 ∧ icc_total (c_icc c') = 169.
Proof.
  destruct (fmap_Ret_inv _ _ _ demo_exit_result) as ([[[[p h1] h2] e] c'] & E & Hr).
  apply pair_eq in Hr as [[[[-> Hf]%pair_eq X]%pair_eq N2]%pair_eq I2]. exists h2, e, c'.
  unfold demo_exit in E. apply bind_Ret_inv in E as ([[[[p' h1'] h2'] e'] cache] & E1 & E).
  apply bind_Ret_inv in E as (c2 & E2 & E). injection E as -> -> -> -> ->.
  unfold demo_spawn in E1. apply bind_Ret_inv in E1 as ([p2 h3] & E3 & E1).
  apply bind_Ret_inv in E1 as ([[cache2 e2] k] & E4 & E1). injection E1 as -> -> <- -> ->.
  assert (reachable demo_statics (λ _, 0) 2 0 demo_rng 0 (mkWorld (with_heap_kernel h1 k) [(e, demo_rng)] demo_statics, held_100)) as Hr1.
  { apply (rtc_l _ _ (mkWorld h1 [] demo_statics, held_100)); [|apply rtc_once]; exists LCall.
    - refine (ws_alloc demo_am (AMalloc 100) (mkWorld demo_heap [] demo_statics) ∅ 3439960112 h1 _ E3). cbn. lia.
    - refine (ws_spawn demo_am (mkWorld h1 [] demo_statics) held_100 cache e demo_rng k E4 _ demo_rng_ok).
      rewrite X. clear. done. }
  split; [exact Hr1|]. split; [exact Hf|]. split; [exact E2|]. split; [|split; [exact N2|exact I2]].
  eapply rtc_r; [exact Hr1|]. exists LCall.
  refine (ws_exit (λ _, demo_am) (λ _, demo_am) (mkWorld (with_heap_kernel h1 k) [(e, demo_rng)] demo_statics) held_100
    8192 0 (e, demo_rng) c' _ eq_refl E2).
  exact (exit_engine_apart _ Hf).
Qed.

(** The 27 blocks of the cache are in the per-cpu lists afterwards. *)
Lemma thread_exit_hands_over_witness :
  ∃ (h : Heap Z BigAllocMap) c' ls gs',
    cleanup_thread_cache demo_statics (λ _, demo_am) (λ _, demo_am) (hp_call h) 8192 = Ret c' ∧
    engine_rep (c_mem (hp_call h)) (c_engine (hp_call h)) ls ∧ icc_rep 0 (c_mem c') (c_icc c') gs' ∧
    zlen (concat ls) = 27 ∧ concat ls ⊆+ concat gs' ∧
    ∀ b, 3439960112 ≤ b < 3439960112 + 100 → c_mem c' b = heap_mem h b.
Proof.
  destruct exit_states as (h & e & c0 & Hr & Hf & _). destruct (exit_counts _ Hf) as (N1 & _ & T1 & I1).
  destruct (thread_exit_hands_over demo_statics (λ _, 0) 2 0 demo_rng 0 demo_start _ _ Hr (λ _, demo_am) (λ _, demo_am) 8192
    (exit_engine_apart _ Hf)) as [(c' & ls & gs & gs' & E & He & _ & Hg & Hsub & _ & _ & Hm)|[_ Hno]];
    [|destruct (Hno (exit_cpus _ N1))].
  exists h, c', ls, gs'. split; [exact E|]. split; [exact He|]. split; [exact Hg|].
  split; [rewrite <- T1; symmetry; exact (cache_total_ok _ _ _ He)|].
  split; [etrans; [apply submseteq_inserts_r; reflexivity|exact Hsub]|].
  intros b Hb. apply (Hm 3439960112 100 b); [apply lookup_insert_eq|exact Hb].
Defined.

(** A round after the first thread has ended, when most of the memory is in use. *)
Lemma trim_round_keeps_blocks_witness :
  ∃ c, icc_total (c_icc c) = 169 ∧
    ∃ st' g' c', gtrim_round demo_statics (λ _ _, demo_am) (λ _, demo_am) (mkTrim 0 0 0 0 0 4096) c 5000
      (Some (mkSysInfo 4096 1000 10 0 0)) = Ret (st', g', c') ∧ icc_total (c_icc c') = 169.
Proof.
  destruct exit_states as (h & e & c0 & _ & _ & _ & Hr & N2 & I2).
  set (c := hp_call (with_thread (with_call h c0) (e, demo_rng))).
  assert (icc_ncpu (c_icc c) = 2) as N3 by exact N2. assert (icc_total (c_icc c) = 169) as I3 by exact I2.
  exists c. split; [exact I3|].
  destruct (trim_round_keeps_blocks demo_statics (λ _, 0) 2 0 demo_rng 0 demo_start _ _ Hr (λ _ _, demo_am) (λ _, demo_am)
    (mkTrim 0 0 0 0 0 4096) 5000 (Some (mkSysInfo 4096 1000 10 0 0))) as [(g' & c' & E & Hn & _)|[[_ Hno]|[_ Hno]]].
  - cbn [w_heap]. fold c. rewrite I3. lia.
  - eexists _, g', c'. split; [exact E|]. etrans; [exact Hn|exact I3].
  - destruct Hno. vm_compute. repeat split; try discriminate. right. discriminate.
  - destruct Hno. cbn [w_heap]. fold c. unfold trim_cpus_ok. rewrite N3.
    split; [intros class i|intros b]; [change ((0 ≤ 0 < 2) ∧ (0 ≤ 1 < 2))|change (0 ≤ 1 < 2)]; lia.
Defined.
End Demo.
