(* ===== verification/BootClient.v ===== *)
(** * Starts that go wrong

    [init_magic] means to give [MAGIC] and [FREED_MAGIC] different values, but it compares the
    values that they had before.  When the kernel's two random bytes are equal, which
    happens once in 256 starts of the default build, a second [free] of a block is not
    detected, and the block is handed out twice.  And a process that may run on one cpu only, which
    is not cpu 0, uses a row of the per-cpu table that is not there. *)

From S2P Require Import Prelude Bits Lib Rng Segment SegmentSpec HashMap HashMapSpec Sys Radix SizeClass Env VaMap VaMapSpec VaLive.
From S2P Require Import Mem BlockList ThreadLocal Interconnect InterconnectSpec Bulk BulkSpec.
From S2P Require Import Heap HeapSpec Align AlignSpec Boot Client ClientSpec.

(** ** Equal magic numbers *)

Section Twin.
#[local] Existing Instance default_build.
#[local] Existing Instance demo_big.

(** A kernel whose random bytes are all 7, and that maps memory upwards. *)
#[local] Instance twin_kernel : Kernel Z := {|
  machine := X86_64;
  syscall6 n args k :=
    if n =? 318 then (8, replicate 8 7, k) else @syscall6 Z bump_kernel n args k
|}.

(** A start, an allocation, two frees of the block, and two more allocations. *)
Definition twin_run : M (BootState Z * list Z * Heap Z BigAllocMap) :=
  '(_, b) ← boot_strap demo_am [] None false (initial_boot (0 : Z));
  let st := boot_statics b in
  '(p, h) ← malloc st demo_am (start_heap (λ _, 0) 2 0 demo_rng (bo_kernel b)) 100;
  '(_, h) ← free st demo_am h p;
  '(_, h) ← free st demo_am h p;
  '(q, h) ← malloc st demo_am h 100;
  '(r, h) ← malloc st demo_am h 100;
  Ret (b, [p; q; r], h).

Lemma twin_run_result :
  (λ '(b, l, _), (bo_magic b, bo_freed b, l)) <$> twin_run = Ret (7, 7, [14194163760; 14194163760; 14194163760]).
Proof. vm_compute. reflexivity. Qed.

(** C38: Equal random bytes give equal magic numbers: the check in [init_magic] compares the initial
    values, which differ.  After such a start, a client that allocates, frees twice and allocates
    twice more sees no error and is given the same block both times. *)
Theorem init_magic_collides :
  (∀ K (HK : Kernel K) buf (b : BootState K) x rest ret k', bo_freed b ≠ bo_magic b →
     getrandom buf 2 1 (bo_kernel b) = Ret (Ok ret, x :: x :: rest, k') →
     ∃ b', init_magic buf b = Ret b' ∧ bo_magic b' = x ∧ bo_freed b' = x) ∧
  ∃ b p h, boot_strap demo_am [] None false (initial_boot (0 : Z)) = Ret (true, b) ∧
    bo_magic b = bo_freed b ∧ twin_run = Ret (b, [p; p; p], h) ∧ 0 < p.
Proof.
  split.
  - intros K HK buf b x rest ret k' Hne Hg. unfold init_magic, draw. cbn [hardened default_build].
    change (Z.of_nat 2) with 2. rewrite Hg, !bind_ret. cbn [is_err]. rewrite !bind_ret. cbn.
    rewrite (proj2 (Z.eqb_neq _ _)) by done. eexists. split; [done|]. change (x + 256 * 0 = x ∧ x + 256 * 0 = x). lia.
  - destruct (fmap_Ret_inv _ _ _ twin_run_result) as ([[b l] h] & E & Hr). injection Hr as Hm Hf ->.
    exists b, 14194163760, h. unfold twin_run in E. apply bind_Ret_inv in E as ([o b'] & E & Hrun).
    assert (o = true ∧ b' = b) as [-> ->].
    { unfold boot_strap in E. apply bind_Ret_inv in E as (b0 & _ & [= <- <-]). split; [done|].
      repeat (apply bind_Ret_inv in Hrun as ([? ?] & _ & Hrun)). by injection Hrun. }
    split; [exact E|]. split; [congruence|]. split; [|done]. unfold twin_run. rewrite E, bind_ret. exact Hrun.
Qed.
End Twin.

(** ** A process on a cpu that has no lists *)

Section Bound.
#[local] Existing Instance default_build.
#[local] Existing Instance demo_big.

(** A kernel that has bound the process to cpu 40: the sixth byte of the mask is 1. *)
#[local] Instance bound_kernel : Kernel Z := {|
  machine := X86_64;
  syscall6 n args k :=
    if n =? 204 then (8, [0; 0; 0; 0; 0; 1; 0; 0], k) else @syscall6 Z bump_kernel n args k
|}.

(** The first allocation of the process, on a cpu. *)
Definition bound_alloc (cpu : Z) : M (Z * Heap Z BigAllocMap) :=
  let h := start_heap (λ _, 0) 2 0 demo_rng 0 in
  let c := hp_call h in
  malloc demo_statics (mkAmbient cpu cpu [] 4096)
    (with_call h (mkCall (c_mem c) InterConnectCache_new (c_va c) (c_engine c) (c_rng c) (c_kernel c))) 100.

(** C40: The per-cpu table has as many rows as the process may use cpus, and the number of the cpu
    chooses the row.  A process that is bound to cpu 40 alone has one row, for which one page is
    mapped; row 40 lies behind that page, and the first [malloc] accesses it.  On cpu 0 the same
    [malloc] returns a block. *)
Theorem bound_process_strays :
  (get_cpu_count 4096 (0 : Z)).1 = 1 ∧ SIZE_OF_ROW ≤ 4096 ≤ 40 * SIZE_OF_ROW ∧
  bound_alloc 40 = Abort WildAccess ∧ ∃ p h, bound_alloc 0 = Ret (p, h) ∧ 0 < p.
Proof.
  split; [by vm_compute|]. split; [by vm_compute|]. split; [by vm_compute|].
  assert (fst <$> bound_alloc 0 = Ret 3473530928) as E by (vm_compute; reflexivity).
  apply fmap_Ret_inv in E as ([p h] & E & Hp). exists p, h. split; [exact E|]. cbn in Hp. lia.
Qed.
End Bound.
