(* ===== verification/Fallback.v ===== *)
(** * Falling back to the C library (src/src/abi/fallback.rs), and the quarantine (src/src/slab/quarantine.rs)

    A pointer that the allocator did not hand out belongs to the C library's allocator: [free],
    [realloc] and [malloc_usable_size] forward it to the next definition of their name, which
    [get_symbol] looks up once. The C library is a class; its functions are called through the
    address that [dlsym] gave. *)

From stdpp Require Import strings.
From S2P Require Import Prelude Bits Lib Rng Once HashMap Sys SizeClass VaMap Mem ThreadLocal Interconnect Bulk.
From S2P Require Import Heap Realloc.

(** The functions of the C library, at the address [func]. *)
Class CLibrary (C : Type) := {
  dlsym : string → C → Z * C;
  c_free : Z → Z → C → C;
  c_realloc : Z → Z → Z → C → Z * C;
  c_malloc_usable_size : Z → Z → C → Z * C
}.

(** ** The symbols *)

(** A [Once] and the slot of its symbol, for each of the three functions. *)
Record Fallback : Type := mkFallback {
  fb_free : OnceLock Z;
  fb_realloc : OnceLock Z;
  fb_mus : OnceLock Z
}.
Definition Fallback_new : Fallback := mkFallback OnceLock_new OnceLock_new OnceLock_new.

Definition fallback_reinit_on_fork (f : Fallback) : Fallback :=
  mkFallback (Once.reset_on_fork (fb_free f)) (Once.reset_on_fork (fb_realloc f)) (Once.reset_on_fork (fb_mus f)).

Section Fallback.
Context {C : Type} `{CLibrary C}.

(** [init.call_once(..)] of one thread, and the load of the slot, which is null at first. If
    another thread was in the closure, and is not there any more, the wait is endless. *)
Definition get_symbol (name : string) (o : OnceLock Z) (c : C) : M (Z * OnceLock Z * C) :=
  '(o, c) ← (if get_state o =? 2 then Ret (o, c)
             else if o_state o =? 0 then
               let '(sym, c) := dlsym name c in
               Ret (mkOnce 2 (Some sym) (o_runs o + 1), c)
             else Abort Spin);
  Ret (default 0 (o_value o), o, c).

Definition free_fallback (f : Fallback) (c : C) (ptr : Z) : M (Fallback * C) :=
  if ptr =? 0 then Ret (f, c)
  else
    '(sym, o, c) ← get_symbol "free" (fb_free f) c;
    let f := mkFallback o (fb_realloc f) (fb_mus f) in
    if sym =? 0 then Ret (f, c) else Ret (f, c_free sym ptr c).

Definition realloc_fallback (f : Fallback) (c : C) (ptr size : Z) : M (Z * Fallback * C) :=
  '(sym, o, c) ← get_symbol "realloc" (fb_realloc f) c;
  let f := mkFallback (fb_free f) o (fb_mus f) in
  if sym =? 0 then Ret (0, f, c) else let '(r, c) := c_realloc sym ptr size c in Ret (r, f, c).

Definition malloc_usable_size_fallback (f : Fallback) (c : C) (ptr : Z) : M (Z * Fallback * C) :=
  if ptr =? 0 then Ret (0, f, c)
  else
    '(sym, o, c) ← get_symbol "malloc_usable_size" (fb_mus f) c;
    let f := mkFallback (fb_free f) (fb_realloc f) o in
    if sym =? 0 then Ret (0, f, c) else let '(r, c) := c_malloc_usable_size sym ptr c in Ret (r, f, c).

(** ** The calls of the C interface, with what they forward *)

Context `{Config}.
Context {K : Type} `{Kernel K}.
Context {B : Type} `{BigMap B}.
Context (st : Statics) (am am_free : Ambient).

Definition free_or_forward (h : Heap K B) (f : Fallback) (c : C) (ptr : Z) : M (Heap K B * Fallback * C) :=
  '(s, h) ← free st am h ptr;
  match s with
  | Here => Ret (h, f, c)
  | Libc => '(f, c) ← free_fallback f c ptr; Ret (h, f, c)
  end.

Definition realloc_or_forward (h : Heap K B) (f : Fallback) (c : C) (ptr new_size : Z) : M (Z * Heap K B * Fallback * C) :=
  '(s, p, h) ← realloc st am am_free h ptr new_size;
  match s with
  | Here => Ret (p, h, f, c)
  | Libc => '(p, f, c) ← realloc_fallback f c ptr new_size; Ret (p, h, f, c)
  end.

Definition usable_or_forward (h : Heap K B) (f : Fallback) (c : C) (ptr : Z) : M (Z * Fallback * C) :=
  '(s, n) ← malloc_usable_size h ptr;
  match s with
  | Here => Ret (n, f, c)
  | Libc => malloc_usable_size_fallback f c ptr
  end.

(** A client frees one pointer after the other. *)
Fixpoint free_all (h : Heap K B) (f : Fallback) (c : C) (ps : list Z) : M (Heap K B * Fallback * C) :=
  match ps with
  | [] => Ret (h, f, c)
  | p :: ps => '(h, f, c) ← free_or_forward h f c p; free_all h f c ps
  end.
End Fallback.

(** ** The quarantine

    Nothing calls [quarantine]. It remembers the last pointer and the number of calls. *)

Definition MAX_QUARANTINE : Z := 1024.

Record Quarantine : Type := mkQuarantine { QUARANTINE : Z; TOTAL_QUARANTINED : Z }.
Definition Quarantine_new : Quarantine := mkQuarantine 0 0.

Definition quarantine (GLOBAL_RANDOM : Z) (q : Quarantine) (ptr : Z) : M (bool * Quarantine) :=
  let ptr := Z.lxor ptr GLOBAL_RANDOM in
  let guard := QUARANTINE q in
  let total := wrapping_add64 (TOTAL_QUARANTINED q) 1 in
  if guard =? ptr then log_and_abort DoubleQuarantine
  else if total <? MAX_QUARANTINE then Ret (false, mkQuarantine ptr total)
  else log_and_abort TooMuchQuarantine.

Fixpoint quarantine_all (GLOBAL_RANDOM : Z) (q : Quarantine) (ptrs : list Z) : M Quarantine :=
  match ptrs with
  | [] => Ret q
  | p :: ptrs => '(_, q) ← quarantine GLOBAL_RANDOM q p; quarantine_all GLOBAL_RANDOM q ptrs
  end.
