(* ===== verification/FallbackSpec.v ===== *)
(** * The C library gets what is not ours

    Each foreign pointer reaches the C library once, and its symbols are looked up once; a child
    of a fork does not wait for a look-up that a thread of the parent had begun. *)

From stdpp Require Import strings.
From S2P Require Import Prelude Bits Lib Rng Once HashMap Sys SizeClass VaMap Mem ThreadLocal Interconnect Bulk.
From S2P Require Import VaMapSpec Heap HeapInv HeapSpec Realloc ClientSpec Fallback.

(** ** Look-ups *)

Section Symbols.
Context {C : Type} `{CLibrary C}.

(** No thread is looking the symbol up. *)
Definition settled (o : OnceLock Z) : Prop := o_state o = 0 ∨ o_state o = 2.

(** The symbol, and the library after the look-up that the state asks for. *)
Definition looked_up (name : string) (o : OnceLock Z) (c : C) : Z * C :=
  if o_state o =? 2 then (default 0 (o_value o), c) else dlsym name c.

Lemma get_symbol_ok name o c :
  settled o → ∃ o', get_symbol name o c = Ret ((looked_up name o c).1, o', (looked_up name o c).2) ∧
    o_state o' = 2 ∧ o_value o' = (if o_state o =? 2 then o_value o else Some (looked_up name o c).1).
Proof.
  unfold settled, get_symbol, looked_up, get_state. intros [E|E]; rewrite E; cbn; [|by exists o].
  destruct (dlsym name c) as [sym c']. cbn. by eexists.
Qed.

(** A look-up that is over is not made again. *)
Lemma looked_up_again name o c : o_state o = 2 → looked_up name o c = (default 0 (o_value o), c).
Proof. unfold looked_up. by intros ->. Qed.

(** It is the run of one caller of [OnceLock::get_or_init], in the model of [Once.v]. *)
Lemma get_symbol_once name o c sym o' c' :
  settled o → get_symbol name o c = Ret (sym, o', c') →
  rtc ostep (o, [mkOT OLoad (looked_up name o c).1]) (o', [mkOT ODone (looked_up name o c).1]).
Proof.
  destruct o as [s val runs]. unfold settled, get_symbol, looked_up, get_state. cbn [o_state]. intros [-> | ->]; cbn.
  - destruct (dlsym name c) as [y d]. cbn. intros [= <- <- <-].
    exact (run_alone_steps 6 (mkOnce 0 val runs) (mkOT OLoad y)).
  - intros [= <- <- <-]. exact (run_alone_steps 6 (mkOnce 2 val runs) (mkOT OLoad (default 0 val))).
Qed.

Lemma reset_settled o : o_state o = 0 ∨ o_state o = 1 ∨ o_state o = 2 → settled (Once.reset_on_fork o).
Proof. unfold settled, Once.reset_on_fork. intros [E|[E|E]]; rewrite E; cbn; auto. Qed.
End Symbols.

Section Forward.
Context {C : Type} `{CLibrary C}.
Context `{Config}.
Context {K : Type} `{Kernel K}.
Context {B : Type} `{BigMap B}.
Context (st : Statics) (am am_free : Ambient).

(** What the C library is after it has been given [p]. *)
Definition given (f : Fallback) (c : C) (p : Z) : C :=
  let '(sym, c) := looked_up "free" (fb_free f) c in
  if sym =? 0 then c else c_free sym p c.

Lemma free_or_forward_foreign (h : Heap K B) f c p :
  settled (fb_free f) → p ≠ 0 → heap_is_ours h p = Ret false →
  ∃ h' f', free_or_forward st am h f c p = Ret (h', f', given f c p) ∧
    hp_call h' = hp_call h ∧ hp_big h' = hp_big h ∧ o_state (fb_free f') = 2 ∧
    o_value (fb_free f') = (if o_state (fb_free f) =? 2 then o_value (fb_free f) else Some (looked_up "free" (fb_free f) c).1).
Proof.
  intros Hs Hp Ho. destruct (free_foreign st am h p) as (s & h' & E & Hc & Hb & Hl); [by right|].
  unfold free_or_forward, given. rewrite E, bind_ret. destruct s; [by discriminate (proj2 Hl Hp)|].
  unfold free_fallback. rewrite (proj2 (Z.eqb_neq _ _) Hp).
  destruct (get_symbol_ok "free" (fb_free f) c Hs) as (o' & -> & Ho2 & Hov). rewrite bind_ret.
  destruct (looked_up "free" (fb_free f) c) as [sym c1] eqn:El. cbn [fst snd] in *. exists h', (mkFallback o' (fb_realloc f) (fb_mus f)).
  by destruct (sym =? 0).
Qed.

(** The C library after it has been given all of [ps] through its function [sym]. *)
Definition given_all (sym : Z) (c : C) (ps : list Z) : C := foldl (λ c p, if sym =? 0 then c else c_free sym p c) c ps.

Lemma free_all_resolved (h : Heap K B) f c ps :
  o_state (fb_free f) = 2 → Forall (λ p, p ≠ 0 ∧ heap_is_ours h p = Ret false) ps →
  ∃ h' f', free_all st am h f c ps = Ret (h', f', given_all (default 0 (o_value (fb_free f))) c ps) ∧
    hp_call h' = hp_call h ∧ hp_big h' = hp_big h.
Proof.
  intros Hs Hps. revert h f c Hs Hps. induction ps as [|p ps IH]; intros h f c Hs Hps; [by exists h, f|].
  apply Forall_cons in Hps as [[Hp Ho] Hps].
  destruct (free_or_forward_foreign h f c p) as (h1 & f1 & E & Hc & Hb & Hs1 & Hv1); [by right|done|done|].
  rewrite Hs in Hv1. cbn in Hv1.
  destruct (IH h1 f1 (given f c p) Hs1) as (h' & f' & E' & Hc' & Hb').
  { eapply Forall_impl; [exact Hps|]. intros q [Hq Hqo]. split; [done|]. unfold heap_is_ours in *. by rewrite Hc. }
  exists h', f'. cbn [free_all]. rewrite E, bind_ret, E', Hv1, Hc', Hb'. split; [|by rewrite Hc, Hb].
  unfold given_all. cbn [foldl]. unfold given. by rewrite looked_up_again.
Qed.
End Forward.

(** ** Theorems *)

(** C33: Frees of foreign pointers, one after the other: each of them reaches the C library's
    [free] once, in order, through the symbol that is looked up at the first of them only; the
    allocator's own state is as before. Without the symbol they are ignored. *)
Theorem foreign_frees_reach_libc {C} `{CLibrary C} `{Config} {K} `{Kernel K} {B} `{BigMap B} (st : Statics) (am : Ambient)
    (h : Heap K B) (f : Fallback) (c c1 : C) (sym p : Z) (ps : list Z) :
  o_state (fb_free f) = 0 → dlsym "free" c = (sym, c1) →
  Forall (λ p, p ≠ 0 ∧ heap_is_ours h p = Ret false) (p :: ps) →
  ∃ h' f', free_all st am h f c (p :: ps) =
      Ret (h', f', foldl (λ c p, if sym =? 0 then c else c_free sym p c) c1 (p :: ps)) ∧
    hp_call h' = hp_call h ∧ hp_big h' = hp_big h.
Proof.
  intros Hs Hsym Hps. pose proof Hps as [[Hp Ho] Hps']%Forall_cons.
  destruct (free_or_forward_foreign st am h f c p) as (h1 & f1 & E & Hc & Hb & Hs1 & Hv1); [by left|done|done|].
  unfold looked_up in Hv1. rewrite Hs in Hv1. cbn in Hv1. rewrite Hsym in Hv1. cbn in Hv1.
  destruct (free_all_resolved st am h1 f1 (given f c p) ps Hs1) as (h' & f' & E' & Hc' & Hb').
  { eapply Forall_impl; [exact Hps'|]. intros q [Hq Hqo]. split; [done|]. unfold heap_is_ours in *. by rewrite Hc. }
  exists h', f'. cbn [free_all]. rewrite E, bind_ret, E', Hv1, Hc', Hb'. split; [|by rewrite Hc, Hb].
  unfold given_all. cbn [foldl default]. unfold given, looked_up. rewrite Hs. cbn. by rewrite Hsym.
Qed.

(** [realloc] of a foreign pointer: more than 3 GiB is refused with [ENOMEM] before the C library
    is asked; below that the result is the C library's, or null, with [errno] as it was, if it has
    no [realloc]. The allocator's state does not change. *)
Theorem foreign_realloc_reaches_libc {C} `{CLibrary C} `{Config} {K} `{Kernel K} {B} `{BigMap B} (st : Statics) (am am_free : Ambient)
    (h : Heap K B) (f : Fallback) (c c1 : C) (sym p n : Z) :
  o_state (fb_realloc f) = 0 → dlsym "realloc" c = (sym, c1) → p ≠ 0 → heap_is_ours h p = Ret false →
  let size_ok := n <=? 1024 * 1024 * 1024 * 3 in
  ∃ f', realloc_or_forward st am am_free h f c p n =
    (if size_ok then
       if sym =? 0 then Ret (0, h, f', c1)
       else Ret ((c_realloc sym p n c1).1, h, f', (c_realloc sym p n c1).2)
     else Ret (0, with_errno h NOMEM, f', c)).
Proof.
  intros Hs Hsym Hp Ho size_ok. unfold realloc_or_forward, realloc. rewrite (proj2 (Z.eqb_neq _ _) Hp), Ho.
  unfold size_ok. destruct (Z.leb_spec n (1024 * 1024 * 1024 * 3)) as [Hn|Hn].
  - rewrite (proj2 (Z.ltb_ge _ _) Hn), bind_ret. cbn [negb]. rewrite bind_ret.
    unfold realloc_fallback, get_symbol, get_state. rewrite Hs. cbn [Z.eqb]. rewrite Hsym, !bind_ret.
    change (id sym) with sym. cbn [default o_value]. unfold id. eexists. destruct (sym =? 0); [reflexivity|]. by destruct (c_realloc sym p n c1).
  - rewrite (proj2 (Z.ltb_lt _ _) Hn), bind_ret. by exists f.
Qed.

(** In the child of a fork each of the three functions finds its symbol, even if a thread of the
    parent was in the middle of a look-up; without [fallback_reinit_on_fork] the child would wait
    for it for ever. *)
Theorem fallback_usable_after_fork {C} `{CLibrary C} (f : Fallback) (c : C) (p n : Z) :
  Forall (λ o, 0 ≤ o_state o ≤ 2) [fb_free f; fb_realloc f; fb_mus f] →
  let f' := fallback_reinit_on_fork f in
  (is_ret (free_fallback f' c p) = true ∧ is_ret (realloc_fallback f' c p n) = true ∧
   is_ret (malloc_usable_size_fallback f' c p) = true) ∧
  (o_state (fb_realloc f) = 1 → realloc_fallback f c p n = Abort Spin).
Proof.
  intros Hst f'. assert (∀ name o, 0 ≤ o_state o ≤ 2 → ∃ r, get_symbol name (Once.reset_on_fork o) c = Ret r) as Hg.
  { intros name o Ho. destruct (get_symbol_ok name (Once.reset_on_fork o) c) as (o' & -> & _); [|by eexists].
    apply reset_settled. lia. }
  apply Forall_cons in Hst as [Hf [Hr [Hm _]%Forall_cons]%Forall_cons].
  split; [split; [|split]|].
  - unfold free_fallback. destruct (p =? 0); [done|]. destruct (Hg "free" (fb_free f) Hf) as [[[sym o] c'] Hg']. cbn. rewrite Hg'. cbn. by destruct (sym =? 0).
  - unfold realloc_fallback. destruct (Hg "realloc" (fb_realloc f) Hr) as [[[sym o] c'] Hg']. cbn. rewrite Hg'. cbn.
    destruct (sym =? 0); [done|]. by destruct (c_realloc sym p n c').
  - unfold malloc_usable_size_fallback. destruct (p =? 0); [done|].
    destruct (Hg "malloc_usable_size" (fb_mus f) Hm) as [[[sym o] c'] Hg']. cbn. rewrite Hg'. cbn.
    destruct (sym =? 0); [done|]. by destruct (c_malloc_usable_size sym p c').
  - intros E. unfold realloc_fallback, get_symbol, get_state. by rewrite E.
Qed.

(** ** The quarantine *)

(** The second of two calls with one pointer ends the process; so does the 1024th call. *)
Lemma quarantine_repeat rnd q p q' :
  quarantine rnd q p = Ret (false, q') → quarantine rnd q' p = Abort (Fatal DoubleQuarantine).
Proof.
  unfold quarantine. intros E. case_zb_in E; [done|]. case_zb_in E; [|done]. injection E as <-. cbn. by rewrite Z.eqb_refl.
Qed.

Lemma quarantine_total rnd q p b q' :
  quarantine rnd q p = Ret (b, q') → 0 ≤ TOTAL_QUARANTINED q < MAX_QUARANTINE →
  b = false ∧ TOTAL_QUARANTINED q' = TOTAL_QUARANTINED q + 1 ∧ TOTAL_QUARANTINED q' < MAX_QUARANTINE.
Proof.
  unfold quarantine. intros E Hq. unfold MAX_QUARANTINE in *. revert E.
  unfold wrapping_add64, wrap64. rewrite Z.mod_small by lia. case_zb; [done|]. case_zb; [|done]. by intros [= <- <-].
Qed.

(** The quarantine takes 1023 pointers at most, whatever they are. *)
Theorem quarantine_is_bounded rnd ptrs q :
  quarantine_all rnd Quarantine_new ptrs = Ret q → TOTAL_QUARANTINED q = zlen ptrs ∧ zlen ptrs < MAX_QUARANTINE.
Proof.
  assert (∀ ptrs q0, quarantine_all rnd q0 ptrs = Ret q → 0 ≤ TOTAL_QUARANTINED q0 < MAX_QUARANTINE →
    TOTAL_QUARANTINED q = TOTAL_QUARANTINED q0 + zlen ptrs ∧ TOTAL_QUARANTINED q < MAX_QUARANTINE) as Hgen.
  { clear ptrs. induction ptrs as [|p ptrs IH]; intros q0 E Hq; cbn in E.
    - injection E as <-. unfold zlen. cbn. lia.
    - apply bind_Ret_inv in E as ([b q1] & E1 & E). destruct (quarantine_total _ _ _ _ _ E1 Hq) as (_ & Ht & Hm).
      destruct (IH _ E ltac:(lia)). unfold zlen in *. cbn [length]. lia. }
  intros E. destruct (Hgen ptrs Quarantine_new E) as [Ht Hm]; [by compute|]. cbn in Ht. lia.
Qed.

(** ** Witnesses *)

Section Witness.
#[local] Existing Instance default_build.
#[local] Existing Instance demo_big.

(** A C library that writes down what it is asked to free. *)
#[local] Instance logging_libc : CLibrary (list Z) := {|
  dlsym name c := (4096, c);
  c_free func p c := c ++ [p];
  c_realloc func p n c := (p, c);
  c_malloc_usable_size func p c := (24, c)
|}.

(** No address is ours at the start. *)
Lemma foreign_frees_reach_libc_witness :
  ∃ h' f', free_all demo_statics demo_am demo_heap Fallback_new ([] : list Z) [64; 80; 64] = Ret (h', f', [64; 80; 64]) ∧
    hp_call h' = hp_call demo_heap ∧ hp_big h' = hp_big demo_heap.
Proof.
  assert (Forall (λ p, p ≠ 0 ∧ heap_is_ours demo_heap p = Ret false) [64; 80; 64]) as Hps by (repeat constructor; done).
  exact (foreign_frees_reach_libc demo_statics demo_am demo_heap Fallback_new ([] : list Z) ([] : list Z) 4096 64 [80; 64]
    eq_refl eq_refl Hps).
Defined.

Lemma foreign_realloc_reaches_libc_witness :
  ∃ f', realloc_or_forward demo_statics demo_am demo_am demo_heap Fallback_new ([] : list Z) 64 100 = Ret (64, demo_heap, f', []).
Proof.
  assert (heap_is_ours demo_heap 64 = Ret false) as Ho by by vm_compute.
  exact (foreign_realloc_reaches_libc demo_statics demo_am demo_am demo_heap Fallback_new ([] : list Z) ([] : list Z) 4096 64 100
    eq_refl eq_refl ltac:(done) Ho).
Defined.

(** A thread of the parent was looking [realloc] up. *)
Definition caught : Fallback := mkFallback (mkOnce 2 (Some 4096) 1) (mkOnce 1 None 0) OnceLock_new.

Lemma fallback_usable_after_fork_witness :
  realloc_fallback caught ([] : list Z) 64 100 = Abort Spin ∧
  is_ret (realloc_fallback (fallback_reinit_on_fork caught) ([] : list Z) 64 100) = true.
Proof.
  assert (Forall (λ o, 0 ≤ o_state o ≤ 2) [fb_free caught; fb_realloc caught; fb_mus caught]) as Hc by (repeat constructor; cbn; lia).
  destruct (fallback_usable_after_fork caught ([] : list Z) 64 100 Hc) as [(_ & Hr & _) Hspin].
  split; [by apply Hspin|exact Hr].
Defined.

Lemma quarantine_is_bounded_witness :
  ∃ q, quarantine_all 7 Quarantine_new [16; 32; 16] = Ret q ∧ TOTAL_QUARANTINED q = 3 ∧ 3 < MAX_QUARANTINE.
Proof.
  eexists. split; [by vm_compute|]. by apply (quarantine_is_bounded 7 [16; 32; 16]).
Defined.
End Witness.
